(** * Verification of the VAN management controller (ted-ross/vms)

    A shallow embedding of the parts of the management controller that the
    specification makes precise statements about, and the theorems that
    settle those statements:

    - [GoTemplate]        gotemplate.js        (template expander)
    - [SiteTemplates]     site-templates.js    (HashOfData)
    - [ClaimServer]       claim-server.js      (processClaim, completion slot)
    - [DeploymentState]   site-deployment-state.js
    - [StateSync]         state-sync.js        (onHeartbeat)
    - [Certs]             certs.js             (reconciler loops, secretAdded)
    - [BackboneLinks]     backbone-links.js    (reconcileBackboneConnections)

    and of the code around them, with the properties it shows:

    - [Config]            db.js                (IntervalMilliseconds)
    - [Ident]             ident.js             (NewIdentity)
    - [Prune]             prune.js             (DeleteOrphanCertificates)

    JavaScript objects that the code iterates over are association lists in
    insertion order; maps that are only looked up are [gmap]s.  Exceptions
    are explicit: every function that can throw returns a sum. *)

From Stdlib Require Import ZArith List String Ascii Bool Lia DecimalString.
From stdpp Require Import base option list gmap strings sorting.

Local Open Scope Z_scope.
Local Open Scope string_scope.
Local Open Scope list_scope.

(* ===================================================================== *)
(** * JavaScript values, objects and strings *)
(* ===================================================================== *)

Module Js.

(** The values that flow through the modelled code.  Numbers are the
    integers (every number the modelled code handles is a count, a port
    or a status code); arrays and functions are not needed. *)
#[warnings="-register-all"]
Inductive value : Type :=
| VUndefined
| VNull
| VBool (b : bool)
| VNum (n : Z)
| VStr (s : string)
| VObj (props : list (string * value)).

(** An exception value: [Error(msg)] or the engine's own TypeError. *)
Inductive exn : Type :=
| Error (msg : string)
| TypeError.

(** ** Objects as insertion-ordered association lists

    [Object.keys] and [Object.entries] enumerate string keys in insertion
    order; assignment to an existing key keeps its position. *)
Section Obj.
Context {V : Type}.

Fixpoint obj_get (o : list (string * V)) (k : string) : option V :=
  match o with
  | [] => None
  | (k', v) :: o' => if String.eqb k' k then Some v else obj_get o' k
  end.

Fixpoint obj_set (o : list (string * V)) (k : string) (v : V)
  : list (string * V) :=
  match o with
  | [] => [(k, v)]
  | (k', v') :: o' =>
      if String.eqb k' k then (k', v) :: o' else (k', v') :: obj_set o' k v
  end.

Fixpoint obj_delete (o : list (string * V)) (k : string)
  : list (string * V) :=
  match o with
  | [] => []
  | (k', v') :: o' =>
      if String.eqb k' k then obj_delete o' k else (k', v') :: obj_delete o' k
  end.

Definition obj_keys (o : list (string * V)) : list string := map fst o.

Definition obj_has (o : list (string * V)) (k : string) : bool :=
  existsb (String.eqb k) (obj_keys o).

End Obj.

(** ** Conversions *)

Definition string_of_Z (n : Z) : string :=
  NilZero.string_of_int (Z.to_int n).

Definition string_of_nat (n : nat) : string := string_of_Z (Z.of_nat n).

(** ToBoolean *)
Definition truthy (v : value) : bool :=
  match v with
  | VUndefined | VNull => false
  | VBool b => b
  | VNum n => negb (n =? 0)%Z
  | VStr s => negb (String.eqb s "")
  | VObj _ => true
  end.

(** [v.toString()] for a truthy [v], and the string that [+] and template
    literals produce for any [v]. *)
Definition to_string (v : value) : string :=
  match v with
  | VUndefined => "undefined"
  | VNull => "null"
  | VBool true => "true"
  | VBool false => "false"
  | VNum n => string_of_Z n
  | VStr s => s
  | VObj _ => "[object Object]"
  end.

(** [Object.keys(v)]: throws on null and undefined, enumerates the
    indices of a string, and the own keys of an object. *)
Definition object_keys (v : value) : exn + list string :=
  match v with
  | VUndefined | VNull => inl TypeError
  | VBool _ | VNum _ => inr []
  | VStr s => inr (map string_of_nat (seq 0 (String.length s)))
  | VObj props => inr (obj_keys props)
  end.

(** [v[k]] for a key [k] that [Object.keys(v)] lists. *)
Definition get_prop (v : value) (k : string) : value :=
  match v with
  | VObj props => match obj_get props k with Some x => x | None => VUndefined end
  | VStr s =>
      match find (fun i => String.eqb (string_of_nat i) k) (seq 0 (String.length s)) with
      | Some i => match String.get i s with
                  | Some c => VStr (String c EmptyString)
                  | None => VUndefined
                  end
      | None => VUndefined
      end
  | _ => VUndefined
  end.

(** ** Strings *)

(** White space removed by [trim], [trimLeft] (here [trimStart]) and
    [trimRight] (here [trimEnd]): TAB, LF, VT, FF, CR and SPACE. *)
Definition is_ws (c : ascii) : bool :=
  let n := nat_of_ascii c in
  ((9 <=? n)%nat && (n <=? 13)%nat) || (n =? 32)%nat.

Fixpoint trimStart (s : string) : string :=
  match s with
  | EmptyString => EmptyString
  | String c r => if is_ws c then trimStart r else s
  end.

Fixpoint trimEnd (s : string) : string :=
  match s with
  | EmptyString => EmptyString
  | String c r =>
      match trimEnd r with
      | EmptyString => if is_ws c then EmptyString else String c EmptyString
      | r' => String c r'
      end
  end.

Definition trim (s : string) : string := trimEnd (trimStart s).

(** [s.indexOf(pat)]; [None] is JavaScript's [-1]. *)
Definition indexOf (s pat : string) : option nat := String.index 0 pat s.

(** [s.slice(a)] and [s.slice(a, b)] for [0 <= a <= b]. *)
Definition slice_from (a : nat) (s : string) : string :=
  String.substring a (String.length s - a) s.

Definition slice (a b : nat) (s : string) : string :=
  String.substring a (b - a) s.

(** [s.split(sep)] for a one-character separator. *)
Fixpoint split (sep : ascii) (s : string) : list string :=
  match s with
  | EmptyString => [EmptyString]
  | String c r =>
      if Ascii.eqb c sep then EmptyString :: split sep r
      else match split sep r with
           | [] => [String c EmptyString]
           | w :: ws => String c w :: ws
           end
  end.

End Js.

(* ===================================================================== *)
(** * gotemplate.js: the template expander *)
(* ===================================================================== *)

Module GoTemplate.
Import Js.

Inductive TokenType : Type :=
| TOKEN_LITERAL | TOKEN_VARIABLE | TOKEN_IF | TOKEN_ELSE | TOKEN_END.

Inductive EndWith : Type :=
| END_WITH_ELSE | END_WITH_END | END_WITH_EOS.

Definition OPEN : string := "{{".
Definition CLOSE : string := "}}".
Definition D_IF : string := "if ".
Definition D_ELSE : string := "else".
Definition D_END : string := "end".

(** [class Token].  [content] stays undefined for [else] and [end]; the
    tree fields are filled in by [Arrange]. *)
#[warnings="-register-all"]
Inductive Token : Type := mkToken {
  type       : TokenType;
  content    : option string;
  trimLeft   : bool;
  next       : option Token;
  thenClause : option Token;
  elseClause : option Token
}.

(** How a modelled call ends: a value, a thrown exception, or the bound
    on the number of loop iterations being too small ([tokenize_total] and
    [Arrange_total] show that the bounds [Expand] uses never are). *)
Inductive res (A : Type) : Type :=
| Ok (a : A)
| Throw (e : exn)
| OutOfFuel.
Arguments Ok {A} a.
Arguments Throw {A} e.
Arguments OutOfFuel {A}.

Definition fresh (ty : TokenType) (c : option string) (tl : bool) : Token :=
  mkToken ty c tl None None None.

Definition starts_with (c : ascii) (s : string) : bool :=
  match s with
  | String c' _ => Ascii.eqb c' c
  | EmptyString => false
  end.

(** [s.charAt(s.length - 1) == c] *)
Definition ends_with (c : ascii) (s : string) : bool :=
  match String.length s with
  | O => false
  | S n => match String.get n s with
           | Some c' => Ascii.eqb c' c
           | None => false
           end
  end.

(** [Token.Parse]: the first token of [text] and the remaining text. *)
Definition Parse (text : string) : res (Token * string) :=
  if String.eqb text "" then
    Throw (Error "GoTemplate: Parsing unexpected empty string")
  else
    match indexOf text OPEN with
    | None => Ok (fresh TOKEN_LITERAL (Some text) false, "")
    | Some (S p) =>
        Ok (fresh TOKEN_LITERAL (Some (slice 0 (S p) text)) false,
            slice_from (S p) text)
    | Some O =>
        match indexOf text CLOSE with
        | None => Throw (Error "GoTemplate: Unterminated Directive")
        | Some closePos =>
            let innerText := trim (slice (String.length OPEN) closePos text) in
            let afterText := slice_from (closePos + String.length CLOSE) text in
            let tl := starts_with "-" innerText in
            let innerText :=
              if tl then trim (slice_from 1 innerText) else innerText in
            let dash := ends_with "-" innerText in
            let afterText := if dash then trimStart afterText else afterText in
            let innerText :=
              if dash then trim (slice 0 (String.length innerText - 1) innerText)
              else innerText in
            if String.prefix D_IF innerText then
              Ok (fresh TOKEN_IF
                    (Some (slice_from (String.length D_IF) innerText)) tl,
                  afterText)
            else if String.prefix D_ELSE innerText then
              Ok (fresh TOKEN_ELSE None tl, afterText)
            else if String.prefix D_END innerText then
              Ok (fresh TOKEN_END None tl, afterText)
            else
              Ok (fresh TOKEN_VARIABLE (Some innerText) tl, afterText)
        end
    end.

(** The loop [while (text.length > 0)] of [Expand]. *)
Fixpoint tokenize (fuel : nat) (text : string) : res (list Token) :=
  match String.length text with
  | O => Ok []
  | S _ =>
      match fuel with
      | O => OutOfFuel
      | S fuel' =>
          match Parse text with
          | Ok (token, text') =>
              match tokenize fuel' text' with
              | Ok tokenStream => Ok (token :: tokenStream)
              | Throw e => Throw e
              | OutOfFuel => OutOfFuel
              end
          | Throw e => Throw e
          | OutOfFuel => OutOfFuel
          end
      end
  end.

Definition set_next (t : Token) (n : Token) : Token :=
  mkToken (type t) (content t) (trimLeft t) (Some n) (thenClause t) (elseClause t).

Definition set_then (t : Token) (n : Token) : Token :=
  mkToken (type t) (content t) (trimLeft t) (next t) (Some n) (elseClause t).

Definition set_else (t : Token) (n : Token) : Token :=
  mkToken (type t) (content t) (trimLeft t) (next t) (thenClause t) (Some n).

Definition trim_content (t : Token) : Token :=
  mkToken (type t) (option_map trimEnd (content t)) (trimLeft t)
          (next t) (thenClause t) (elseClause t).

(** [Token.Arrange]: [this] with its tree fields set, the end code, and
    what is left of [tokenList] (the JavaScript shifts it in place). *)
Fixpoint Arrange (fuel : nat) (this : Token) (tokenList : list Token)
  : res (Token * EndWith * list Token) :=
  match fuel with
  | O => OutOfFuel
  | S fuel' =>
      (* the tail of every non-returning case: link the next token *)
      let link (this : Token) (tokenList : list Token) :=
        match tokenList with
        | [] => Ok (this, END_WITH_EOS, [])
        | nxt :: tokenList' =>
            match Arrange fuel' nxt tokenList' with
            | Ok (nxt', r, rest) => Ok (set_next this nxt', r, rest)
            | Throw e => Throw e
            | OutOfFuel => OutOfFuel
            end
        end in
      match tokenList with
      | [] => Ok (this, END_WITH_EOS, [])
      | head :: tokenList' =>
          match type this with
          | TOKEN_ELSE => Ok (this, END_WITH_ELSE, tokenList)
          | TOKEN_END => Ok (this, END_WITH_END, tokenList)
          | TOKEN_LITERAL =>
              let this := if trimLeft head then trim_content this else this in
              match Arrange fuel' head tokenList' with
              | Ok (head', r, rest) => Ok (set_next this head', r, rest)
              | Throw e => Throw e
              | OutOfFuel => OutOfFuel
              end
          | TOKEN_VARIABLE =>
              match Arrange fuel' head tokenList' with
              | Ok (head', r, rest) => Ok (set_next this head', r, rest)
              | Throw e => Throw e
              | OutOfFuel => OutOfFuel
              end
          | TOKEN_IF =>
              match Arrange fuel' head tokenList' with
              | Ok (head', thenResult, rest) =>
                  let this := set_then this head' in
                  match thenResult with
                  | END_WITH_EOS =>
                      Throw (Error "GoTemplate: Then clause not closed with End or Else")
                  | END_WITH_ELSE =>
                      match rest with
                      | [] => Throw TypeError
                      | els :: rest' =>
                          match Arrange fuel' els rest' with
                          | Ok (els', elseResult, rest'') =>
                              match elseResult with
                              | END_WITH_END => link (set_else this els') rest''
                              | _ => Throw (Error "GoTemplate: Else clause did not close with End")
                              end
                          | Throw e => Throw e
                          | OutOfFuel => OutOfFuel
                          end
                      end
                  | END_WITH_END => link this rest
                  end
              | Throw e => Throw e
              | OutOfFuel => OutOfFuel
              end
          end
      end
  end.

(** The [unresolvable] argument: an object used as a set of paths. *)
Abbreviation unres := (list (string * value)).

(** The walk of [_value] down [remoteData]; [Ok None] is the early
    return taken when an element is not an own key. *)
Fixpoint walk (traverse : value) (pathElements : list string)
  : res (option value) :=
  match pathElements with
  | [] => Ok (Some traverse)
  | element :: rest =>
      match object_keys traverse with
      | inl e => Throw e
      | inr keys =>
          if existsb (String.eqb element) keys
          then walk (get_prop traverse element) rest
          else Ok None
      end
  end.

(** [Token._value] *)
Definition _value (this : Token) (localData remoteData : value) (u : unres)
  : res value * unres :=
  match content this with
  | None => (Throw TypeError, u)
  | Some c =>
      let path := slice_from 1 c in
      let pathElements := split "." path in
      let result := VStr ("UNDEFINED[" +:+ c +:+ "]") in
      if starts_with "." c then
        match object_keys localData with
        | inl e => (Throw e, u)
        | inr keys =>
            if existsb (String.eqb path) keys
            then (Ok (get_prop localData path), u)
            else (Ok result, obj_set u c (VBool true))
        end
      else if starts_with "$" c then
        match walk remoteData pathElements with
        | Ok (Some v) => (Ok v, u)
        | Ok None => (Ok result, obj_set u c (VBool true))
        | Throw e => (Throw e, u)
        | OutOfFuel => (OutOfFuel, u)
        end
      else (Ok result, u)
  end.

(** [expanded += this.next.Expand(...)] *)
Definition append_next (expanded : string) (r : res string * unres)
  : res string * unres :=
  match r with
  | (Ok s, u) => (Ok (expanded +:+ s), u)
  | other => other
  end.

(** [Token.Expand] *)
Fixpoint ExpandToken (this : Token) (localData remoteData : value) (u : unres)
  {struct this} : res string * unres :=
  match this with
  | mkToken ty c tl nxt thn els =>
      let continue (expanded : string) (u : unres) :=
        match nxt with
        | Some n => append_next expanded (ExpandToken n localData remoteData u)
        | None => (Ok expanded, u)
        end in
      match ty with
      | TOKEN_LITERAL =>
          continue (match c with Some s => s | None => "undefined" end) u
      | TOKEN_VARIABLE =>
          match _value this localData remoteData u with
          | (Ok val, u') =>
              continue (if truthy val then to_string val else "undefined") u'
          | other => (match fst other with
                      | Throw e => Throw e
                      | _ => OutOfFuel
                      end, snd other)
          end
      | TOKEN_IF =>
          match _value this localData remoteData u with
          | (Ok condition, u') =>
              if truthy condition then
                match thn with
                | Some t =>
                    match ExpandToken t localData remoteData u' with
                    | (Ok s, u'') => continue s u''
                    | other => other
                    end
                | None => (Throw TypeError, u')
                end
              else
                match els with
                | Some e =>
                    match ExpandToken e localData remoteData u' with
                    | (Ok s, u'') => continue s u''
                    | other => other
                    end
                | None => continue "" u'
                end
          | other => (match fst other with
                      | Throw e => Throw e
                      | _ => OutOfFuel
                      end, snd other)
          end
      | TOKEN_ELSE | TOKEN_END => continue "" u
      end
  end.

(** [Expand(template, localData, remoteData, unresolvable)]: the returned
    string (or the exception) and the final [unresolvable]. *)
Definition Expand (template : string) (localData remoteData : value)
  (unresolvable : unres) : res string * unres :=
  match tokenize (String.length template) template with
  | Ok [] => (Throw TypeError, unresolvable)
  | Ok (rootToken :: tokenStream) =>
      match Arrange (S (List.length tokenStream)) rootToken tokenStream with
      | Ok (root, END_WITH_EOS, _) =>
          ExpandToken root localData remoteData unresolvable
      | Ok _ =>
          (Throw (Error "GoTemplate: Template ended with spurious End or Else"),
           unresolvable)
      | Throw e => (Throw e, unresolvable)
      | OutOfFuel => (OutOfFuel, unresolvable)
      end
  | Throw e => (Throw e, unresolvable)
  | OutOfFuel => (OutOfFuel, unresolvable)
  end.


(** ** What it means for a variable to resolve *)

(** [resolves_path v elems w]: walking [elems] down from [v], every element
    is an own key of the value reached, and the walk ends at [w]. *)
Inductive resolves_path : value -> list string -> value -> Prop :=
| resolves_nil v : resolves_path v [] v
| resolves_cons v keys element rest w :
    object_keys v = inr keys ->
    In element keys ->
    resolves_path (get_prop v element) rest w ->
    resolves_path v (element :: rest) w.

(** A variable [content] resolves to [v]: [.name] is an own key of the
    local scope, [$a.b.c] is a path of own keys in the remote scope. *)
Inductive resolves (localData remoteData : value) : string -> value -> Prop :=
| resolves_local path keys :
    object_keys localData = inr keys ->
    In path keys ->
    resolves localData remoteData (String "." path) (get_prop localData path)
| resolves_remote path v :
    resolves_path remoteData (split "." path) v ->
    resolves localData remoteData (String "$" path) v.

(** The conditional template of the documentation, with its scopes. *)

Definition scenario_template : string :=
  "{{ if $site.prod }}P{{ else }}D{{ end }}-{{ .name }}".
Definition scenario_local : value := VObj [("name", VStr "svc")].
Definition scenario_remote : value :=
  VObj [("site", VObj [("prod", VBool true)])].


(** ** What [Expand] may do to [unresolvable] *)

(** [u'] is [u] with some paths set to [true]: no path is removed, and
    no path gets another value. *)
Definition only_marks (u u' : unres) : Prop :=
  forall k, obj_get u' k = obj_get u k \/ obj_get u' k = Some (VBool true).

(** The tokens that neither open nor close a block. *)
Definition plain (t : Token) : Prop :=
  type t = TOKEN_LITERAL \/ type t = TOKEN_VARIABLE.

(** ** What it means for a variable not to resolve *)

(** [dangles v elems]: walking [elems] down from [v] reaches an object
    of which the next element is not an own key. *)
Inductive dangles : value -> list string -> Prop :=
| dangles_here v keys element rest :
    object_keys v = inr keys ->
    ~ In element keys ->
    dangles v (element :: rest)
| dangles_below v keys element rest :
    object_keys v = inr keys ->
    In element keys ->
    dangles (get_prop v element) rest ->
    dangles v (element :: rest).

(** A variable [content] does not resolve: [.name] is not an own key of
    the local scope, [$a.b.c] leaves the own keys of the remote scope. *)
Inductive unresolved (localData remoteData : value) : string -> Prop :=
| unresolved_local path keys :
    object_keys localData = inr keys ->
    ~ In path keys ->
    unresolved localData remoteData (String "." path)
| unresolved_remote path :
    dangles remoteData (split "." path) ->
    unresolved localData remoteData (String "$" path).

End GoTemplate.

(* ===================================================================== *)
(** * node:crypto, as far as site-templates.js uses it *)
(* ===================================================================== *)

(** [createHash('sha1').update(text).digest('hex')]: SHA-1 (FIPS 180-4)
    of the bytes of [text], printed as 40 lower-case hex digits.  Words
    are 32-bit integers in [Z] with the wrap-around written out. *)
Module Crypto.
Local Open Scope Z_scope.

Definition mask32 (x : Z) : Z := Z.land x 4294967295.

Definition add32 (x y : Z) : Z := mask32 (x + y).

Definition rotl (n : Z) (x : Z) : Z :=
  mask32 (Z.lor (Z.shiftl x n) (Z.shiftr x (32 - n))).

Definition bytes_of_string (s : string) : list Z :=
  map (fun c => Z.of_nat (nat_of_ascii c)) (list_ascii_of_string s).

(** Big-endian bytes of a [n]-byte integer. *)
Fixpoint be_bytes (n : nat) (x : Z) : list Z :=
  match n with
  | O => []
  | S n' => Z.land (Z.shiftr x (8 * Z.of_nat n')) 255 :: be_bytes n' x
  end.

(** The message followed by 0x80, zero bytes up to 56 modulo 64, and the
    bit length as a 64-bit big-endian integer. *)
Definition pad (msg : list Z) : list Z :=
  let len := Z.of_nat (List.length msg) in
  let zeros := Z.to_nat ((55 - len) mod 64) in
  msg ++ 128 :: repeat 0 zeros ++ be_bytes 8 (8 * len).

Fixpoint words_of_bytes (fuel : nat) (bs : list Z) : list Z :=
  match fuel, bs with
  | S fuel', b0 :: b1 :: b2 :: b3 :: rest =>
      (Z.shiftl b0 24 + Z.shiftl b1 16 + Z.shiftl b2 8 + b3)
        :: words_of_bytes fuel' rest
  | _, _ => []
  end.

(** The message schedule, most recent word first. *)
Fixpoint schedule (n : nat) (ws : list Z) : list Z :=
  match n with
  | O => ws
  | S n' =>
      let w := rotl 1 (Z.lxor (Z.lxor (nth 2 ws 0) (nth 7 ws 0))
                              (Z.lxor (nth 13 ws 0) (nth 15 ws 0))) in
      schedule n' (w :: ws)
  end.

Definition round_f (t : nat) (b c d : Z) : Z :=
  if (t <? 20)%nat then Z.lor (Z.land b c) (Z.land (mask32 (Z.lnot b)) d)
  else if (t <? 40)%nat then Z.lxor (Z.lxor b c) d
  else if (t <? 60)%nat then
    Z.lor (Z.lor (Z.land b c) (Z.land b d)) (Z.land c d)
  else Z.lxor (Z.lxor b c) d.

Definition round_k (t : nat) : Z :=
  if (t <? 20)%nat then 1518500249
  else if (t <? 40)%nat then 1859775393
  else if (t <? 60)%nat then 2400959708
  else 3395469782.

Record state : Type := mkState { h0 : Z; h1 : Z; h2 : Z; h3 : Z; h4 : Z }.

Definition initial : state :=
  mkState 1732584193 4023233417 2562383102 271733878 3285377520.

Fixpoint rounds (t : nat) (ws : list Z) (s : state) : state :=
  match ws with
  | [] => s
  | w :: ws' =>
      let temp :=
        add32 (add32 (add32 (add32 (rotl 5 (h0 s))
                                   (round_f t (h1 s) (h2 s) (h3 s)))
                            (h4 s))
                     (round_k t))
              w in
      rounds (S t) ws' (mkState temp (h0 s) (rotl 30 (h1 s)) (h2 s) (h3 s))
  end.

Definition compress (s : state) (block : list Z) : state :=
  let ws := rev (schedule 64 (rev (words_of_bytes 16 block))) in
  let r := rounds 0 ws s in
  mkState (add32 (h0 s) (h0 r)) (add32 (h1 s) (h1 r)) (add32 (h2 s) (h2 r))
          (add32 (h3 s) (h3 r)) (add32 (h4 s) (h4 r)).

Fixpoint blocks (fuel : nat) (bs : list Z) (s : state) : state :=
  match fuel, bs with
  | S fuel', _ :: _ => blocks fuel' (skipn 64 bs) (compress s (firstn 64 bs))
  | _, _ => s
  end.

Definition hex_digit (x : Z) : ascii :=
  ascii_of_nat (Z.to_nat (if x <? 10 then 48 + x else 87 + x)).

Fixpoint hex (n : nat) (x : Z) : string :=
  match n with
  | O => EmptyString
  | S n' =>
      String (hex_digit (Z.land (Z.shiftr x (4 * Z.of_nat n')) 15)) (hex n' x)
  end.

Definition sha1_hex (text : string) : string :=
  let bs := pad (bytes_of_string text) in
  let s := blocks (List.length bs) bs initial in
  hex 8 (h0 s) +:+ hex 8 (h1 s) +:+ hex 8 (h2 s) +:+ hex 8 (h3 s)
    +:+ hex 8 (h4 s).

End Crypto.

(* ===================================================================== *)
(** * site-templates.js: content hashes *)
(* ===================================================================== *)

Module SiteTemplates.
Import Js.

(** [keys.sort()]: ascending order of the strings, character code by
    character code. *)
Fixpoint sort_insert (k : string) (sorted : list string) : list string :=
  match sorted with
  | [] => [k]
  | h :: t => if String.leb k h then k :: sorted else h :: sort_insert k t
  end.

Definition sort (keys : list string) : list string :=
  fold_right sort_insert [] keys.

(** [data[key]] on an object. *)
Definition prop (data : list (string * value)) (key : string) : value :=
  match obj_get data key with
  | Some v => v
  | None => VUndefined
  end.

(** The loop [for (const key of keys) text += key + data[key]]. *)
Definition hash_text (data : list (string * value)) (keys : list string)
  : string :=
  fold_left (fun text key => text +:+ (key +:+ to_string (prop data key)))
            keys "".

Definition HashOfData (data : list (string * value)) : string :=
  let keys := sort (obj_keys data) in
  Crypto.sha1_hex (hash_text data keys).

(** The specification's wording, to compare with: the digest of
    [key1 || value1 || key2 || value2 || ...] over the pairs taken in
    ascending key order. *)
Definition pairs_text (pairs : list (string * value)) : string :=
  String.concat "" (map (fun kv => fst kv +:+ to_string (snd kv)) pairs).

(** The order [sort] sorts by. *)
Definition str_le (a b : string) : Prop := String.leb a b = true.

(** The pairs of [data] in ascending key order. *)
Definition sorted_pairs (data : list (string * value)) : list (string * value) :=
  map (fun k => (k, prop data k)) (sort (obj_keys data)).

(** A well-formed object has every key once. *)
Definition wf (data : list (string * value)) : Prop := NoDup (obj_keys data).

(** [data] and [data'] contain identical (key, value) pairs. *)
Definition same_pairs (data data' : list (string * value)) : Prop :=
  forall k v, In (k, v) data <-> In (k, v) data'.


(** ** HashOfObjectNoChildren *)

(** [typeof value == 'object']: an object, or null. *)
Definition is_object (v : value) : bool :=
  match v with
  | VObj _ | VNull => true
  | _ => false
  end.

(** The object [data] that [HashOfObjectNoChildren] collects: the entries
    of [obj] whose value is not of type object, in their order. *)
Definition no_children (obj : list (string * value)) : list (string * value) :=
  fold_left (fun data entry =>
               if is_object (snd entry) then data
               else obj_set data (fst entry) (snd entry))
            obj [].

Definition HashOfObjectNoChildren (obj : list (string * value)) : string :=
  HashOfData (no_children obj).

End SiteTemplates.


(* ===================================================================== *)
(** * db-setup.sql: the tables and columns the modelled code touches *)
(* ===================================================================== *)

Module Schema.

Abbreviation uuid := string.
Abbreviation timestamptz := Z.

(** An [interval] as the driver hands it over: an object of units. *)
Abbreviation interval := (list (string * Z)).

Inductive LifecycleType : Type :=
| lc_partial | lc_new | lc_skx_cr_created | lc_cm_cert_created
| lc_cm_issuer_created | lc_ready | lc_active | lc_expired | lc_failed.

Inductive DeploymentStateType : Type :=
| ds_not_ready | ds_ready_bootstrap | ds_ready_automatic | ds_deployed.

Inductive AccessPointType : Type :=
| ap_claim | ap_peer | ap_member | ap_manage | ap_van.

Inductive CertificateRequestType : Type :=
| rt_mgmtController | rt_backboneCA | rt_interiorRouter | rt_accessPoint
| rt_vanCA | rt_vanCredential | rt_memberClaim | rt_vanSite.

#[global] Instance LifecycleType_eq_dec : EqDecision LifecycleType.
Proof. solve_decision. Defined.
#[global] Instance DeploymentStateType_eq_dec : EqDecision DeploymentStateType.
Proof. solve_decision. Defined.
#[global] Instance AccessPointType_eq_dec : EqDecision AccessPointType.
Proof. solve_decision. Defined.
#[global] Instance CertificateRequestType_eq_dec : EqDecision CertificateRequestType.
Proof. solve_decision. Defined.

(** Every column but the primary key is nullable. *)

Module ManagementController.
Record t : Type := mk {
  Id : uuid;
  Name : option string;
  Lifecycle : option LifecycleType;
  Certificate : option uuid
}.
End ManagementController.

Module Backbone.
Record t : Type := mk {
  Id : uuid;
  Name : option string;
  Lifecycle : option LifecycleType;
  Certificate : option uuid
}.
End Backbone.

Module InteriorSite.
Record t : Type := mk {
  Id : uuid;
  Name : option string;
  Lifecycle : option LifecycleType;
  Certificate : option uuid;
  DeploymentState : option DeploymentStateType;
  Backbone : option uuid
}.
End InteriorSite.

Module BackboneAccessPoint.
Record t : Type := mk {
  Id : uuid;
  Name : option string;
  Lifecycle : option LifecycleType;
  Certificate : option uuid;
  Hostname : option string;
  Port : option string;
  Kind : option AccessPointType;
  InteriorSite : option uuid
}.
End BackboneAccessPoint.

Module InterRouterLink.
Record t : Type := mk {
  Id : uuid;
  AccessPoint : option uuid;
  ConnectingInteriorSite : option uuid
}.
End InterRouterLink.

Module ApplicationNetwork.
Record t : Type := mk {
  Id : uuid;
  Name : option string;
  Lifecycle : option LifecycleType;
  Certificate : option uuid;
  Backbone : option uuid;
  VanId : option string;
  StartTime : option timestamptz;
  EndTime : option timestamptz;
  DeleteDelay : option interval
}.
End ApplicationNetwork.

Module NetworkCredential.
Record t : Type := mk {
  Id : uuid;
  Name : option string;
  Lifecycle : option LifecycleType;
  Certificate : option uuid;
  MemberOf : option uuid
}.
End NetworkCredential.

Module MemberInvitation.
Record t : Type := mk {
  Id : uuid;
  Name : option string;
  Lifecycle : option LifecycleType;
  Certificate : option uuid;
  JoinDeadline : option timestamptz;
  MemberClasses : option (list string);
  MemberOf : option uuid;
  InstanceLimit : option Z;
  InstanceCount : option Z
}.
End MemberInvitation.

Module MemberSite.
Record t : Type := mk {
  Id : uuid;
  Name : option string;
  Lifecycle : option LifecycleType;
  Certificate : option uuid;
  MemberOf : option uuid;
  Invitation : option uuid;
  SiteClasses : option (list string);
  Metadata : option string
}.
End MemberSite.

Module TlsCertificate.
Record t : Type := mk {
  Id : uuid;
  IsCA : option bool;
  ObjectName : option string;
  SignedBy : option uuid;
  Expiration : option timestamptz;
  RenewalTime : option timestamptz;
  Label : option string
}.
End TlsCertificate.

Module CertificateRequest.
Record t : Type := mk {
  Id : uuid;
  RequestType : option CertificateRequestType;
  Issuer : option uuid;
  Lifecycle : option LifecycleType;
  Hostname : option string;
  CreatedTime : option timestamptz;
  RequestTime : option timestamptz;
  DurationHours : option Z;
  ManagementController : option uuid;
  Backbone : option uuid;
  InteriorSite : option uuid;
  AccessPoint : option uuid;
  ApplicationNetwork : option uuid;
  NetworkCredential : option uuid;
  Invitation : option uuid;
  Site : option uuid
}.
End CertificateRequest.

(** [TlsClientRevocations]: the client certificates that were revoked. *)
Module TlsClientRevocation.
Record t : Type := mk {
  CertificateId : uuid;
  Expiration : option timestamptz;
  Reason : option string
}.
End TlsClientRevocation.

Record db : Type := mkDb {
  ManagementControllers : list ManagementController.t;
  Backbones : list Backbone.t;
  InteriorSites : list InteriorSite.t;
  BackboneAccessPoints : list BackboneAccessPoint.t;
  InterRouterLinks : list InterRouterLink.t;
  ApplicationNetworks : list ApplicationNetwork.t;
  NetworkCredentials : list NetworkCredential.t;
  MemberInvitations : list MemberInvitation.t;
  MemberSites : list MemberSite.t;
  TlsCertificates : list TlsCertificate.t;
  CertificateRequests : list CertificateRequest.t;
  TlsClientRevocations : list TlsClientRevocation.t
}.

Definition empty_db : db := mkDb [] [] [] [] [] [] [] [] [] [] [] [].

(** Replacing one table. *)
Definition with_ManagementControllers (f : list ManagementController.t -> list ManagementController.t) (d : db) : db :=
  mkDb (f (ManagementControllers d)) (Backbones d) (InteriorSites d)
       (BackboneAccessPoints d) (InterRouterLinks d) (ApplicationNetworks d)
       (NetworkCredentials d) (MemberInvitations d) (MemberSites d)
       (TlsCertificates d) (CertificateRequests d)
       (TlsClientRevocations d).

Definition with_Backbones (f : list Backbone.t -> list Backbone.t) (d : db) : db :=
  mkDb (ManagementControllers d) (f (Backbones d)) (InteriorSites d)
       (BackboneAccessPoints d) (InterRouterLinks d) (ApplicationNetworks d)
       (NetworkCredentials d) (MemberInvitations d) (MemberSites d)
       (TlsCertificates d) (CertificateRequests d)
       (TlsClientRevocations d).

Definition with_InteriorSites (f : list InteriorSite.t -> list InteriorSite.t) (d : db) : db :=
  mkDb (ManagementControllers d) (Backbones d) (f (InteriorSites d))
       (BackboneAccessPoints d) (InterRouterLinks d) (ApplicationNetworks d)
       (NetworkCredentials d) (MemberInvitations d) (MemberSites d)
       (TlsCertificates d) (CertificateRequests d)
       (TlsClientRevocations d).

Definition with_BackboneAccessPoints (f : list BackboneAccessPoint.t -> list BackboneAccessPoint.t) (d : db) : db :=
  mkDb (ManagementControllers d) (Backbones d) (InteriorSites d)
       (f (BackboneAccessPoints d)) (InterRouterLinks d) (ApplicationNetworks d)
       (NetworkCredentials d) (MemberInvitations d) (MemberSites d)
       (TlsCertificates d) (CertificateRequests d)
       (TlsClientRevocations d).

Definition with_ApplicationNetworks (f : list ApplicationNetwork.t -> list ApplicationNetwork.t) (d : db) : db :=
  mkDb (ManagementControllers d) (Backbones d) (InteriorSites d)
       (BackboneAccessPoints d) (InterRouterLinks d) (f (ApplicationNetworks d))
       (NetworkCredentials d) (MemberInvitations d) (MemberSites d)
       (TlsCertificates d) (CertificateRequests d)
       (TlsClientRevocations d).

Definition with_NetworkCredentials (f : list NetworkCredential.t -> list NetworkCredential.t) (d : db) : db :=
  mkDb (ManagementControllers d) (Backbones d) (InteriorSites d)
       (BackboneAccessPoints d) (InterRouterLinks d) (ApplicationNetworks d)
       (f (NetworkCredentials d)) (MemberInvitations d) (MemberSites d)
       (TlsCertificates d) (CertificateRequests d)
       (TlsClientRevocations d).

Definition with_MemberInvitations (f : list MemberInvitation.t -> list MemberInvitation.t) (d : db) : db :=
  mkDb (ManagementControllers d) (Backbones d) (InteriorSites d)
       (BackboneAccessPoints d) (InterRouterLinks d) (ApplicationNetworks d)
       (NetworkCredentials d) (f (MemberInvitations d)) (MemberSites d)
       (TlsCertificates d) (CertificateRequests d)
       (TlsClientRevocations d).

Definition with_MemberSites (f : list MemberSite.t -> list MemberSite.t) (d : db) : db :=
  mkDb (ManagementControllers d) (Backbones d) (InteriorSites d)
       (BackboneAccessPoints d) (InterRouterLinks d) (ApplicationNetworks d)
       (NetworkCredentials d) (MemberInvitations d) (f (MemberSites d))
       (TlsCertificates d) (CertificateRequests d)
       (TlsClientRevocations d).

Definition with_TlsCertificates (f : list TlsCertificate.t -> list TlsCertificate.t) (d : db) : db :=
  mkDb (ManagementControllers d) (Backbones d) (InteriorSites d)
       (BackboneAccessPoints d) (InterRouterLinks d) (ApplicationNetworks d)
       (NetworkCredentials d) (MemberInvitations d) (MemberSites d)
       (f (TlsCertificates d)) (CertificateRequests d)
       (TlsClientRevocations d).

Definition with_CertificateRequests (f : list CertificateRequest.t -> list CertificateRequest.t) (d : db) : db :=
  mkDb (ManagementControllers d) (Backbones d) (InteriorSites d)
       (BackboneAccessPoints d) (InterRouterLinks d) (ApplicationNetworks d)
       (NetworkCredentials d) (MemberInvitations d) (MemberSites d)
       (TlsCertificates d) (f (CertificateRequests d))
       (TlsClientRevocations d).

Definition with_TlsClientRevocations (f : list TlsClientRevocation.t -> list TlsClientRevocation.t) (d : db) : db :=
  mkDb (ManagementControllers d) (Backbones d) (InteriorSites d)
       (BackboneAccessPoints d) (InterRouterLinks d) (ApplicationNetworks d)
       (NetworkCredentials d) (MemberInvitations d) (MemberSites d)
       (TlsCertificates d) (CertificateRequests d)
       (f (TlsClientRevocations d)).

(** [col = 'literal'] on a nullable column. *)
Definition col_is {A : Type} `{EqDecision A} (col : option A) (lit : A) : bool :=
  match col with
  | Some x => bool_decide (x = lit)
  | None => false
  end.

(** [col = $1] for a uuid column and a uuid parameter. *)
Definition refers (col : option uuid) (id : uuid) : bool :=
  match col with
  | Some x => String.eqb x id
  | None => false
  end.

End Schema.

(* ===================================================================== *)
(** * The database client (pg) *)
(* ===================================================================== *)

(** A client holds what its session sees of the database and, inside a
    transaction, the state to return to on ROLLBACK.  Whether a statement
    fails for a reason outside the model (a lost connection, a constraint
    that is not modelled) is decided by [fault], given the kind of the
    statement and the number of statements the client has sent before. *)
Module Pg.
Import Js Schema.

Inductive stmt : Type :=
| BEGIN | COMMIT | ROLLBACK | SELECT | INSERT | UPDATE | DELETE.

Record client : Type := mkClient {
  store : db;
  snapshot : option db;
  (** the statements sent so far, oldest first, each with whether it
      went through *)
  log : list (stmt * bool);
  fault : stmt -> nat -> bool
}.

Definition issued (c : client) : nat := List.length (log c).

Definition connect (d : db) (fault : stmt -> nat -> bool) : client :=
  mkClient d None [] fault.

(** Computations over a state [S] that may throw. *)
Definition M (S A : Type) : Type := S -> (exn + A) * S.

Definition ret {S A : Type} (a : A) : M S A := fun s => (inr a, s).

Definition throw {S A : Type} (e : exn) : M S A := fun s => (inl e, s).

Definition bind {S A B : Type} (m : M S A) (k : A -> M S B) : M S B :=
  fun s => match m s with
           | (inr a, s') => k a s'
           | (inl e, s') => (inl e, s')
           end.

(** [try { body } catch (error) { handler(error) }] *)
Definition try_catch {S A : Type} (body : M S A) (handler : exn -> M S A)
  : M S A :=
  fun s => match body s with
           | (inr a, s') => (inr a, s')
           | (inl e, s') => handler e s'
           end.

Definition modify {S : Type} (f : S -> S) : M S unit := fun s => (inr tt, f s).

(** A state with a database client in it. *)
Class HasClient (S : Type) : Type := {
  the_client : S -> client;
  put_client : client -> S -> S
}.

#[global] Instance client_HasClient : HasClient client :=
  {| the_client := fun c => c; put_client := fun c _ => c |}.

(** The client after sending a statement of kind [kind] that left it
    with the tables [d] and the transaction state [snap]. *)
Definition sent (c : client) (kind : stmt) (d : db) (snap : option db)
  : client :=
  mkClient d snap (log c ++ [(kind, true)]) (fault c).

(** The client after a statement of kind [kind] that failed. *)
Definition refused (c : client) (kind : stmt) : client :=
  mkClient (store c) (snapshot c) (log c ++ [(kind, false)]) (fault c).

(** [await client.query(sql)] for a statement whose effect on the tables
    is [run]. *)
Definition query {S A : Type} `{HasClient S} (kind : stmt)
  (run : db -> exn + (A * db)) : M S A :=
  fun s =>
    let c := the_client s in
    if fault c kind (issued c) then
      (inl (Error "database error"), put_client (refused c kind) s)
    else
      match run (store c) with
      | inl e => (inl e, put_client (refused c kind) s)
      | inr (a, d) => (inr a, put_client (sent c kind d (snapshot c)) s)
      end.

Definition select {S A : Type} `{HasClient S} (rows : db -> A) : M S A :=
  query SELECT (fun d => inr (rows d, d)).

Definition execute {S : Type} `{HasClient S} (kind : stmt) (effect : db -> db)
  : M S unit :=
  query kind (fun d => inr (tt, effect d)).

Definition query_BEGIN {S : Type} `{HasClient S} : M S unit :=
  fun s =>
    let c := the_client s in
    if fault c BEGIN (issued c) then
      (inl (Error "database error"), put_client (refused c BEGIN) s)
    else
      let snap := match snapshot c with
                  | Some d0 => Some d0
                  | None => Some (store c)
                  end in
      (inr tt, put_client (sent c BEGIN (store c) snap) s).

Definition query_COMMIT {S : Type} `{HasClient S} : M S unit :=
  fun s =>
    let c := the_client s in
    if fault c COMMIT (issued c) then
      (inl (Error "database error"), put_client (refused c COMMIT) s)
    else (inr tt, put_client (sent c COMMIT (store c) None) s).

Definition query_ROLLBACK {S : Type} `{HasClient S} : M S unit :=
  fun s =>
    let c := the_client s in
    if fault c ROLLBACK (issued c) then
      (inl (Error "database error"), put_client (refused c ROLLBACK) s)
    else
      let d := match snapshot c with
               | Some d0 => d0
               | None => store c
               end in
      (inr tt, put_client (sent c ROLLBACK d None) s).

(** A function that is handed the client, called from a computation
    over [S]. *)
Definition with_client {S A : Type} `{HasClient S} (m : M client A) : M S A :=
  fun s => let '(a, c) := m (the_client s) in (a, put_client c s).

(** No statement of the kinds in [kinds] is ever refused. *)
Definition reliable (c : client) (kinds : list stmt) : Prop :=
  forall kind n, In kind kinds -> fault c kind n = false.

(** ** What a computation leaves behind *)

(** [hoare P m Q]: started in a state of [P], the computation [m] ends,
    whether it returns or throws, in a state of [Q]. *)
Definition hoare {S A : Type} (P : S -> Prop) (m : M S A) (Q : S -> Prop)
  : Prop :=
  forall s, P s -> Q (snd (m s)).

(** A property of a client that looks at the tables and at the open
    transaction only. *)
Definition data_only (P : client -> Prop) : Prop :=
  forall c c', store c = store c' -> snapshot c = snapshot c' -> P c -> P c'.

(** A database that refuses every COMMIT, and one that refuses nothing. *)
Definition refuses_commit : stmt -> nat -> bool :=
  fun kind _ => match kind with COMMIT => true | _ => false end.

Definition refuses_nothing : stmt -> nat -> bool := fun _ _ => false.

(** A database that cannot be reached: every BEGIN is refused. *)
Definition refuses_begin : stmt -> nat -> bool :=
  fun kind _ => match kind with BEGIN => true | _ => false end.

(** [triple P m Q E]: started in a state of [P], the computation [m]
    either returns a value [a] in a state of [Q a], or throws in a state
    of [E]. *)
Definition triple {S A : Type} (P : S -> Prop) (m : M S A)
  (Q : A -> S -> Prop) (E : S -> Prop) : Prop :=
  forall s, P s ->
    match m s with
    | (inr a, s') => Q a s'
    | (inl _, s') => E s'
    end.

(** The client holds the tables [d], the transaction state [snap] and the
    oracle [f]; only its log is left open. *)
Definition in_state (d : db) (snap : option db) (f : stmt -> nat -> bool)
  (c : client) : Prop :=
  store c = d /\ snapshot c = snap /\ fault c = f.

End Pg.

Declare Scope pg_scope.
Delimit Scope pg_scope with pg.
Notation "x <- m ;; k" := (Pg.bind m (fun x => k))
  (at level 100, m at next level, right associativity) : pg_scope.
Notation "m ;;; k" := (Pg.bind m (fun _ => k))
  (at level 100, right associativity) : pg_scope.

(* ===================================================================== *)
(** * claim-server.js *)
(* ===================================================================== *)

Module ClaimServer.
Import Js Schema Pg.
Local Open Scope pg_scope.

(** What [memberCompletion] hands over on success:
    [[outgoingLinks, siteClient]]. *)
Abbreviation completion_result := (list value * value)%type.

(** An entry of [memberCompletions].  [callback] tells whether
    [blockForCompletion] has installed its closure; the closure itself is
    [run_callback] below. *)
Record completion : Type := mkCompletion {
  result : option completion_result;
  error : option exn;
  callback : bool
}.

(** How the promise returned by [blockForCompletion(memberId)] ended. *)
Inductive settlement : Type :=
| Resolved (r : completion_result)
| Rejected (e : exn).

Record state : Type := mkState {
  client : Pg.client;
  memberCompletions : gmap uuid completion;
  (** the promises settled so far, oldest first *)
  settled : list (uuid * settlement)
}.

#[global] Instance state_HasClient : HasClient state :=
  {| the_client := client;
     put_client := fun c s => mkState c (memberCompletions s) (settled s) |}.

Definition set_memberCompletions (f : gmap uuid completion -> gmap uuid completion)
  (s : state) : state :=
  mkState (client s) (f (memberCompletions s)) (settled s).

Definition settle (memberId : uuid) (o : settlement) (s : state) : state :=
  mkState (client s) (memberCompletions s) (settled s ++ [(memberId, o)]).

Definition message (e : exn) : string :=
  match e with
  | Error msg => msg
  | TypeError => "Cannot read properties of undefined"
  end.

(** Truthiness of a field that is either undefined or an object. *)
Definition defined {A : Type} (field : option A) : bool :=
  match field with
  | Some _ => true
  | None => false
  end.

(** The closure that [blockForCompletion] stores in the slot. *)
Definition run_callback (memberId : uuid) : M state unit :=
  fun s =>
    match memberCompletions s !! memberId with
    | None => (inl TypeError, s)
    | Some completion =>
        let s := set_memberCompletions (delete memberId) s in
        match result completion, error completion with
        | Some r, _ => (inr tt, settle memberId (Resolved r) s)
        | None, Some e => (inr tt, settle memberId (Rejected e) s)
        | None, None =>
            (inr tt,
             settle memberId
               (Rejected (Error ("ERROR:ClaimServer - Spurious callback for memberId "
                                 +:+ memberId))) s)
        end
    end.

(** [blockForCompletion]: the executor of the new promise runs at once; an
    exception inside it rejects the promise. *)
Definition blockForCompletion (memberId : uuid) : state -> state :=
  fun s =>
    match memberCompletions s !! memberId with
    | None => settle memberId (Rejected TypeError) s
    | Some c =>
        let s := set_memberCompletions
                   (insert memberId (mkCompletion (result c) (error c) true)) s in
        if defined (result c) || defined (error c) then
          match run_callback memberId s with
          | (inr _, s') => s'
          | (inl e, s') => settle memberId (Rejected e) s'
          end
        else s
    end.

(** [CompleteMember] up to its [await]: is there a slot to complete? *)
Definition CompleteMember_begin (memberId : uuid) (s : state) : bool :=
  bool_decide (is_Some (memberCompletions s !! memberId)).

(** [CompleteMember] after [memberCompletion] has returned
    [[result, undefined]] ([inr]) or [[undefined, error]] ([inl]). *)
Definition CompleteMember_resume (memberId : uuid)
  (completed : exn + completion_result) : M state unit :=
  fun s =>
    match memberCompletions s !! memberId with
    | None => (inl TypeError, s)
    | Some c =>
        let c' := match completed with
                  | inr r => mkCompletion (Some r) None (callback c)
                  | inl e => mkCompletion None (Some e) (callback c)
                  end in
        let s := set_memberCompletions (insert memberId c') s in
        if callback c' then run_callback memberId s else (inr tt, s)
    end.

Definition CompleteMember (memberId : uuid)
  (completed : exn + completion_result) : M state unit :=
  fun s =>
    if CompleteMember_begin memberId s
    then CompleteMember_resume memberId completed s
    else (inr tt, s).

(** The settlement that a completion calls for. *)
Definition settlement_of (completed : exn + completion_result) : settlement :=
  match completed with
  | inr r => Resolved r
  | inl e => Rejected e
  end.

(** [claim.instancelimit && claim.instancecount == claim.instancelimit] *)
Definition limit_reached (claim : MemberInvitation.t) : bool :=
  match MemberInvitation.InstanceLimit claim with
  | None => false
  | Some limit =>
      if (limit =? 0)%Z then false
      else match MemberInvitation.InstanceCount claim with
           | Some count => (count =? limit)%Z
           | None => false
           end
  end.

(** [claim.instancecount + 1] *)
Definition next_count (claim : MemberInvitation.t) : Z :=
  match MemberInvitation.InstanceCount claim with
  | Some count => count + 1
  | None => 1
  end.

Definition set_InstanceCount (n : Z) (r : MemberInvitation.t) : MemberInvitation.t :=
  MemberInvitation.mk (MemberInvitation.Id r) (MemberInvitation.Name r)
    (MemberInvitation.Lifecycle r) (MemberInvitation.Certificate r)
    (MemberInvitation.JoinDeadline r) (MemberInvitation.MemberClasses r)
    (MemberInvitation.MemberOf r) (MemberInvitation.InstanceLimit r) (Some n).

(** The quote, the backslash and a hexadecimal digit in lower case. *)
Definition dquote : string := String (ascii_of_nat 34) EmptyString.

Definition backslash : ascii := ascii_of_nat 92.

Definition hex_digit (n : nat) : ascii :=
  ascii_of_nat (if (n <? 10)%nat then 48 + n else 87 + n).

(** [JSON.stringify({name: name})].  In the text of a string the quote
    and the backslash are escaped, and so is every control character
    below U+0020: backspace, tab, line feed, form feed and carriage
    return by their letter, the others as [\u00xx] in lower-case
    hexadecimal.  A string is the sequence of the bytes of its UTF-8
    text, and the bytes from U+0080 on are left as they are. *)
Definition json_escape_char (c : ascii) : string :=
  let n := nat_of_ascii c in
  if (n =? 34)%nat || (n =? 92)%nat then String backslash (String c EmptyString)
  else if (n =? 8)%nat then String backslash "b"
  else if (n =? 9)%nat then String backslash "t"
  else if (n =? 10)%nat then String backslash "n"
  else if (n =? 12)%nat then String backslash "f"
  else if (n =? 13)%nat then String backslash "r"
  else if (n <? 32)%nat then
    String backslash
      ("u00" +:+ String (hex_digit (n / 16))
                   (String (hex_digit (n mod 16)) EmptyString))
  else String c EmptyString.

Fixpoint json_escape (s : string) : string :=
  match s with
  | EmptyString => EmptyString
  | String c r => json_escape_char c +:+ json_escape r
  end.

Definition metadata_of_name (name : string) : string :=
  "{" +:+ dquote +:+ "name" +:+ dquote +:+ ":" +:+ dquote
      +:+ json_escape name +:+ dquote +:+ "}".

(** [SELECT * FROM MemberInvitations WHERE Id = $1 and
     (JoinDeadline IS NULL OR JoinDeadline > now())].  The column [Id] is
    a uuid, which the database prints in its canonical form (lower-case
    digits in groups of 8-4-4-4-12): for a [claimId] in that form the
    comparison of the texts is the comparison the database makes.  Text
    that is no uuid at all is refused by the database, so it is for
    canonical ids only that the rows below are the rows of the query. *)
Definition select_invitation (claimId : uuid) (now : timestamptz) (d : db)
  : list MemberInvitation.t :=
  filter (fun r => String.eqb (MemberInvitation.Id r) claimId
                   && match MemberInvitation.JoinDeadline r with
                      | None => true
                      | Some deadline => (now <? deadline)%Z
                      end)
         (MemberInvitations d).

(** [UPDATE MemberInvitations SET InstanceCount = $1 WHERE Id = $2] *)
Definition update_count (n : Z) (claimId : uuid) : db -> db :=
  with_MemberInvitations
    (map (fun r => if String.eqb (MemberInvitation.Id r) claimId
                   then set_InstanceCount n r else r)).

(** [INSERT INTO MemberSites (Name, MemberOf, Invitation, SiteClasses,
    Metadata) ... RETURNING Id]; the database chooses [new_id] and the
    default lifecycle. *)
Definition insert_member (new_id : uuid) (name : string)
  (claim : MemberInvitation.t) : db -> db :=
  with_MemberSites
    (fun rows => rows ++
       [MemberSite.mk new_id (Some name) (Some lc_new) None
          (MemberInvitation.MemberOf claim) (Some (MemberInvitation.Id claim))
          (MemberInvitation.MemberClasses claim)
          (Some (metadata_of_name name))]).

(** The statements of the [try] block of [processClaim] up to the one
    that assigns [memberId]. *)
Definition claim_allocate (claimId name : string) (now : timestamptz)
  (new_id : uuid) : M state uuid :=
  query_BEGIN ;;;
  result <- select (select_invitation claimId now) ;;
  match result with
  | [claim] =>
      if limit_reached claim then
        throw (Error "Instance limit on this claim has been reached")
      else
        execute UPDATE (update_count (next_count claim) claimId) ;;;
        execute INSERT (insert_member new_id name claim) ;;;
        ret new_id
  | _ => throw (Error "No valid invitation exists for the claim")
  end.

(** The rest of the [try] block: the completion slot, then COMMIT. *)
Definition claim_commit (memberId : uuid) : M state unit :=
  modify (set_memberCompletions
            (insert memberId (mkCompletion None None false))) ;;;
  query_COMMIT.

(** Where a call of [processClaim] stands. *)
Inductive progress : Type :=
| Returned (statusCode : Z) (statusDescription : string)
    (memberId : option uuid) (outgoingLinks : option (list value))
    (siteClient : option value)
| Waiting (memberId : uuid)
| Raised (e : exn).

(** The [catch] block: ROLLBACK, then status 400. *)
Definition claim_rejected (error : exn) (memberId : option uuid)
  (s : state) : progress * state :=
  match query_ROLLBACK s with
  | (inr _, s') =>
      (Returned 400 ("Claim rejected: " +:+ message error) memberId None None, s')
  | (inl e, s') => (Raised e, s')
  end.

(** [processClaim] up to [await blockForCompletion(memberId)]; the
    database chooses [new_id] for the row it inserts, and [now] is its
    clock. *)
Definition processClaim (claimId name : string) (now : timestamptz)
  (new_id : uuid) (s : state) : progress * state :=
  match claim_allocate claimId name now new_id s with
  | (inl error, s1) => claim_rejected error None s1
  | (inr memberId, s1) =>
      match claim_commit memberId s1 with
      | (inl error, s2) => claim_rejected error (Some memberId) s2
      | (inr _, s2) => (Waiting memberId, blockForCompletion memberId s2)
      end
  end.

(** [processClaim] from the moment the awaited promise is settled. *)
Definition processClaim_resume (memberId : uuid) (o : settlement) : progress :=
  match o with
  | Resolved (outgoingLinks, siteClient) =>
      Returned 200 "OK" (Some memberId) (Some outgoingLinks) (Some siteClient)
  | Rejected error =>
      Returned 500 (message error) (Some memberId) None None
  end.

(** ** Example data *)

(** A client on an empty database whose statements all go through. *)
Definition idle_client : Pg.client := connect empty_db (fun _ _ => false).

Definition invitation (limit count : option Z) : MemberInvitation.t :=
  MemberInvitation.mk "inv-1" (Some "inv1") (Some lc_ready) (Some "cert-1")
    None (Some ["edge"]) (Some "van-1") limit count.

Definition claim_db (limit count : option Z) : db :=
  with_MemberInvitations (fun _ => [invitation limit count]) empty_db.

Definition claim_state (limit count : option Z) : state :=
  mkState (connect (claim_db limit count) (fun _ _ => false)) ∅ [].

(** ** The instance limit as an invariant *)

(** The count of an invitation with a positive limit has not passed the
    limit. *)
Definition within_limit (r : MemberInvitation.t) : Prop :=
  forall limit count,
    MemberInvitation.InstanceLimit r = Some limit ->
    0 < limit ->
    MemberInvitation.InstanceCount r = Some count ->
    count <= limit.

(** ** Claim ids

    The claim id comes out of the claimant's message and is compared
    with a uuid column.  [canonical_uuid] tells whether it is the text of
    a uuid in the form in which the database prints one: 32 lower-case
    hexadecimal digits in groups of 8, 4, 4, 4 and 12 with hyphens
    between them.  On such text the comparison of uuids is the
    comparison of strings that [select_invitation] makes; other text the
    database either refuses or reads as the uuid it abbreviates. *)
Definition is_hex_lower (c : ascii) : bool :=
  let n := nat_of_ascii c in
  ((48 <=? n) && (n <=? 57) || (97 <=? n) && (n <=? 102))%nat.

(** [n] hexadecimal digits, and what follows them. *)
Fixpoint hex_digits (n : nat) (s : string) : option string :=
  match n with
  | O => Some s
  | S n' =>
      match s with
      | String c r => if is_hex_lower c then hex_digits n' r else None
      | EmptyString => None
      end
  end.

Definition hyphen (s : option string) : option string :=
  match s with
  | Some (String c r) => if Ascii.eqb c "-" then Some r else None
  | _ => None
  end.

Definition canonical_uuid (s : string) : bool :=
  match hyphen (hex_digits 8 s) with
  | Some s1 =>
      match hyphen (hex_digits 4 s1) with
      | Some s2 =>
          match hyphen (hex_digits 4 s2) with
          | Some s3 =>
              match hyphen (hex_digits 4 s3) with
              | Some s4 =>
                  match hex_digits 12 s4 with
                  | Some EmptyString => true
                  | _ => false
                  end
              | None => false
              end
          | None => false
          end
      | None => false
      end
  | None => false
  end.

(** An invitation whose join deadline has passed. *)
Definition expired_db : db :=
  with_MemberInvitations
    (fun _ => [MemberInvitation.mk "0b5c3e0a-7f1d-4c2b-9a6e-3d2f1c0b9a8e"
                 (Some "inv1") (Some lc_ready)
                 (Some "5e1f0c9d-2a3b-4c4d-8e5f-6a7b8c9d0e1f") (Some 50)
                 (Some ["edge"])
                 (Some "9d8c7b6a-5f4e-4d3c-8b2a-1f0e9d8c7b6a")
                 None (Some 0)])
    empty_db.

(** An invitation that two members may join and one has joined. *)
Definition open_invitation : MemberInvitation.t :=
  MemberInvitation.mk "0b5c3e0a-7f1d-4c2b-9a6e-3d2f1c0b9a8e" (Some "inv1")
    (Some lc_ready) (Some "5e1f0c9d-2a3b-4c4d-8e5f-6a7b8c9d0e1f") None
    (Some ["edge"]) (Some "9d8c7b6a-5f4e-4d3c-8b2a-1f0e9d8c7b6a")
    (Some 2) (Some 1).

Definition open_state : state :=
  mkState (connect (with_MemberInvitations (fun _ => [open_invitation])
                      empty_db)
                   (fun _ _ => false)) ∅ [].

End ClaimServer.

(* ===================================================================== *)
(** * site-deployment-state.js *)
(* ===================================================================== *)

Module DeploymentState.
Import Js Schema Pg.
Local Open Scope pg_scope.

(** A row of [SELECT Id, Lifecycle, DeploymentState FROM InteriorSites]. *)
Record site_row : Type := mkSite {
  id : uuid;
  lifecycle : option LifecycleType;
  deploymentstate : option DeploymentStateType
}.

Definition row_of (r : InteriorSite.t) : site_row :=
  mkSite (InteriorSite.Id r) (InteriorSite.Lifecycle r)
         (InteriorSite.DeploymentState r).

(** [SELECT Id, Lifecycle, DeploymentState FROM InteriorSites WHERE Id = $1] *)
Definition select_site (siteId : uuid) (d : db) : list site_row :=
  map row_of
      (filter (fun r => String.eqb (InteriorSite.Id r) siteId) (InteriorSites d)).

(** [SELECT InterRouterLinks.Id FROM InterRouterLinks
     JOIN BackboneAccessPoints ON AccessPoint = BackboneAccessPoints.Id
     JOIN InteriorSites ON BackboneAccessPoints.InteriorSite = InteriorSites.Id
     WHERE InterRouterLinks.ConnectingInteriorSite = $1
       AND InteriorSites.DeploymentState = 'deployed'] *)
Definition select_deployed_peers (siteId : uuid) (d : db) : list uuid :=
  flat_map (fun link =>
    flat_map (fun ap =>
      flat_map (fun target =>
        if refers (InterRouterLink.AccessPoint link) (BackboneAccessPoint.Id ap)
           && refers (BackboneAccessPoint.InteriorSite ap) (InteriorSite.Id target)
           && refers (InterRouterLink.ConnectingInteriorSite link) siteId
           && col_is (InteriorSite.DeploymentState target) ds_deployed
        then [InterRouterLink.Id link] else [])
        (InteriorSites d))
      (BackboneAccessPoints d))
    (InterRouterLinks d).

(** [SELECT Id FROM BackboneAccessPoints
     WHERE Kind = 'manage' AND InteriorSite = $1] *)
Definition select_manage_access (siteId : uuid) (d : db) : list uuid :=
  map BackboneAccessPoint.Id
      (filter (fun ap => col_is (BackboneAccessPoint.Kind ap) ap_manage
                         && refers (BackboneAccessPoint.InteriorSite ap) siteId)
              (BackboneAccessPoints d)).

Definition set_DeploymentState (st : DeploymentStateType) (r : InteriorSite.t)
  : InteriorSite.t :=
  InteriorSite.mk (InteriorSite.Id r) (InteriorSite.Name r)
    (InteriorSite.Lifecycle r) (InteriorSite.Certificate r) (Some st)
    (InteriorSite.Backbone r).

(** [UPDATE InteriorSites SET DeploymentState = $1 WHERE Id = $2] *)
Definition update_state (st : DeploymentStateType) (siteId : uuid) : db -> db :=
  with_InteriorSites
    (map (fun r => if String.eqb (InteriorSite.Id r) siteId
                   then set_DeploymentState st r else r)).

(** The value of [state] when [evaluateSingleSite_TX] reaches its last
    statement. *)
Definition evaluate_state (site : site_row)
  : M Pg.client DeploymentStateType :=
  if col_is (lifecycle site) lc_active then ret ds_deployed
  else if col_is (lifecycle site) lc_ready then
    peerResult <- select (select_deployed_peers (id site)) ;;
    if (0 <? List.length peerResult)%nat then ret ds_ready_automatic
    else
      apResult <- select (select_manage_access (id site)) ;;
      if (0 <? List.length apResult)%nat then ret ds_ready_bootstrap
      else ret ds_not_ready
  else ret ds_not_ready.

(** [state != site.deploymentstate] *)
Definition differs (state : DeploymentStateType)
  (stored : option DeploymentStateType) : bool :=
  negb (col_is stored state).

Definition evaluateSingleSite_TX (site : site_row) : M Pg.client unit :=
  state <- evaluate_state site ;;
  if differs state (deploymentstate site)
  then execute UPDATE (update_state state (id site))
  else ret tt.

(** [SELECT ConnectingInteriorSite FROM InterRouterLinks
     JOIN BackboneAccessPoints ON BackboneAccessPoints.Id = AccessPoint
     WHERE BackboneAccessPoints.InteriorSite = $1] *)
Definition select_connected (siteId : uuid) (d : db) : list (option uuid) :=
  flat_map (fun link =>
    flat_map (fun ap =>
      if refers (InterRouterLink.AccessPoint link) (BackboneAccessPoint.Id ap)
         && refers (BackboneAccessPoint.InteriorSite ap) siteId
      then [InterRouterLink.ConnectingInteriorSite link] else [])
      (BackboneAccessPoints d))
    (InterRouterLinks d).

(** The loop [for (const row of connected.rows)]. *)
Fixpoint evaluate_connected (rows : list (option uuid)) : M Pg.client unit :=
  match rows with
  | [] => ret tt
  | connectinginteriorsite :: rows' =>
      siteResult <- select (fun d =>
                      match connectinginteriorsite with
                      | Some sid => select_site sid d
                      | None => []
                      end) ;;
      match siteResult with
      | [site] => evaluateSingleSite_TX site
      | _ => ret tt
      end ;;;
      evaluate_connected rows'
  end.

Definition SiteLifecycleChanged_TX (siteId : uuid) (newState : LifecycleType)
  : M Pg.client unit :=
  result <- select (select_site siteId) ;;
  match result with
  | [site] =>
      evaluateSingleSite_TX site ;;;
      if bool_decide (newState = lc_active) then
        connected <- select (select_connected siteId) ;;
        evaluate_connected connected
      else ret tt
  | _ => ret tt
  end.

(** ** The rules as the specification words them *)

(** Some inter-router link leaves [siteId] for an access point on a site
    whose deployment state is [deployed]. *)
Definition has_deployed_peer (d : db) (siteId : uuid) : Prop :=
  exists link ap target,
    In link (InterRouterLinks d)
    /\ In ap (BackboneAccessPoints d)
    /\ In target (InteriorSites d)
    /\ InterRouterLink.ConnectingInteriorSite link = Some siteId
    /\ InterRouterLink.AccessPoint link = Some (BackboneAccessPoint.Id ap)
    /\ BackboneAccessPoint.InteriorSite ap = Some (InteriorSite.Id target)
    /\ InteriorSite.DeploymentState target = Some ds_deployed.

(** The site [siteId] has an access point of kind [manage]. *)
Definition has_manage_access (d : db) (siteId : uuid) : Prop :=
  exists ap,
    In ap (BackboneAccessPoints d)
    /\ BackboneAccessPoint.Kind ap = Some ap_manage
    /\ BackboneAccessPoint.InteriorSite ap = Some siteId.

(** The first matching rule. *)
Inductive rule (d : db) (site : site_row) : DeploymentStateType -> Prop :=
| rule_deployed :
    lifecycle site = Some lc_active ->
    rule d site ds_deployed
| rule_ready_automatic :
    lifecycle site = Some lc_ready ->
    has_deployed_peer d (id site) ->
    rule d site ds_ready_automatic
| rule_ready_bootstrap :
    lifecycle site = Some lc_ready ->
    ~ has_deployed_peer d (id site) ->
    has_manage_access d (id site) ->
    rule d site ds_ready_bootstrap
| rule_not_ready :
    lifecycle site <> Some lc_active ->
    (lifecycle site = Some lc_ready ->
     ~ has_deployed_peer d (id site) /\ ~ has_manage_access d (id site)) ->
    rule d site ds_not_ready.

(** ** Example data *)

Definition site_s1 : InteriorSite.t :=
  InteriorSite.mk "s1" (Some "s1") (Some lc_ready) (Some "c1")
                  (Some ds_not_ready) (Some "bb1").

Definition manage_ap : BackboneAccessPoint.t :=
  BackboneAccessPoint.mk "ap1" (Some "manage") (Some lc_ready) (Some "c2")
    (Some "ap.example.com") (Some "55671") (Some ap_manage) (Some "s1").

Definition bootstrap_db : db :=
  with_BackboneAccessPoints (fun _ => [manage_ap])
    (with_InteriorSites (fun _ => [site_s1]) empty_db).

(** ** The entry points that open their own transaction *)

(** [SELECT InteriorSites.DeploymentState FROM BackboneAccessPoints
     JOIN InteriorSites ON InteriorSites.Id = InteriorSite
     WHERE BackboneAccessPoints.Id = $1] *)
Definition select_listening_state (accessPointId : uuid) (d : db)
  : list (option DeploymentStateType) :=
  flat_map (fun ap =>
    flat_map (fun site =>
      if refers (BackboneAccessPoint.InteriorSite ap) (InteriorSite.Id site)
         && String.eqb (BackboneAccessPoint.Id ap) accessPointId
      then [InteriorSite.DeploymentState site] else [])
      (InteriorSites d))
    (BackboneAccessPoints d).

(** [SELECT ...; if (result.rowCount == 1) evaluateSingleSite_TX(rows[0])]
    with a condition on the row. *)
Definition evaluate_site_if (wanted : site_row -> bool) (siteId : uuid)
  : M Pg.client unit :=
  result <- select (select_site siteId) ;;
  match result with
  | [site] => if wanted site then evaluateSingleSite_TX site else ret tt
  | _ => ret tt
  end.

Definition LinkAddedOrDeleted (connectingSiteId accessPointId : uuid)
  : M Pg.client unit :=
  try_catch
    (query_BEGIN ;;;
     lResult <- select (select_listening_state accessPointId) ;;
     match lResult with
     | [deploymentstate] =>
         if col_is deploymentstate ds_deployed
         then evaluate_site_if (fun _ => true) connectingSiteId
         else ret tt
     | _ => ret tt
     end ;;;
     query_COMMIT)
    (fun error => query_ROLLBACK).

Definition ManageIngressAdded (siteId : uuid) : M Pg.client unit :=
  try_catch
    (query_BEGIN ;;;
     evaluate_site_if
       (fun site => col_is (deploymentstate site) ds_not_ready) siteId ;;;
     query_COMMIT)
    (fun error => query_ROLLBACK).

Definition ManageIngressDeleted (siteId : uuid) : M Pg.client unit :=
  try_catch
    (query_BEGIN ;;;
     evaluate_site_if
       (fun site => col_is (deploymentstate site) ds_ready_bootstrap) siteId ;;;
     query_COMMIT)
    (fun error => query_ROLLBACK).

(** The tables [d0], possibly with the deployment state of [siteId]
    set. *)
Definition touched (siteId : uuid) (d0 d : db) : Prop :=
  d = d0 \/ exists st, d = update_state st siteId d0.

(** Inside or outside a transaction that began at [d0]. *)
Definition within (siteId : uuid) (d0 : db) (c : client) : Prop :=
  touched siteId d0 (store c) /\ (snapshot c = None \/ snapshot c = Some d0).

(** [d] has the links, the access points and the sites of [d0], each
    site with its lifecycle: the two differ in deployment states (and in
    columns the evaluator does not read) only. *)
Definition same_topology (d0 d : db) : Prop :=
  InterRouterLinks d = InterRouterLinks d0
  /\ BackboneAccessPoints d = BackboneAccessPoints d0
  /\ map (fun r => (InteriorSite.Id r, InteriorSite.Lifecycle r)) (InteriorSites d)
     = map (fun r => (InteriorSite.Id r, InteriorSite.Lifecycle r)) (InteriorSites d0).

(** What the evaluation of the sites around an active site [siteId]
    keeps: the topology of [d0], and the active site deployed. *)
Definition around_active (d0 : db) (siteId : uuid) (d : db) : Prop :=
  same_topology d0 d
  /\ select_site siteId d = [mkSite siteId (Some lc_active) (Some ds_deployed)].

(** The site [sid], if it is one ready site in [d0], is ready-automatic
    in [d]. *)
Definition promoted (d0 d : db) (sid : uuid) : Prop :=
  forall r,
    select_site sid d0 = [r] -> lifecycle r = Some lc_ready ->
    select_site sid d = [mkSite sid (Some lc_ready) (Some ds_ready_automatic)].

(** ** Example data: a site linked to an active one *)

Definition site_hub : InteriorSite.t :=
  InteriorSite.mk "hub" (Some "hub") (Some lc_active) (Some "c0")
                  (Some ds_ready_bootstrap) (Some "bb1").

Definition peer_ap : BackboneAccessPoint.t :=
  BackboneAccessPoint.mk "ap-hub" (Some "peer") (Some lc_ready) (Some "c3")
    (Some "hub.example.com") (Some "55671") (Some ap_peer) (Some "hub").

Definition link_s1_hub : InterRouterLink.t :=
  InterRouterLink.mk "l1" (Some "ap-hub") (Some "s1").

Definition linked_db : db :=
  mkDb [] [] [site_hub; site_s1] [peer_ap] [link_s1_hub] [] [] [] [] [] [] [].

End DeploymentState.

(* ===================================================================== *)
(** * state-sync.js: the heartbeat protocol *)
(* ===================================================================== *)

Module StateSync.
Import Js.

(** A hash-state: [{stateKey: hash}]. *)
Abbreviation hashstate := (list (string * string)).

(** An entry of [peers].  [onNewPeer] may hand over undefined manifests
    (it does for a peer of class [management]). *)
Record peer : Type := mkPeer {
  connectionKey : string;
  peerClass : string;
  address : string;
  localState : option hashstate;
  remoteState : option hashstate
}.

(** The body of a reply to a GET. *)
Record response : Type := mkResponse {
  statusCode : Z;
  statusDescription : string;
  hash : string;
  data : value
}.

(** What the engine does to the world outside, in order. *)
Inductive event : Type :=
| NewPeer (peerId peerClass : string)
| Ping (peerId : string)
| SentHeartbeat (peerId : string) (hashset : option hashstate)
| StateChange (peerId stateKey : string) (hash : option string)
    (data : option value)
| Get (address stateKey : string).

(** The embedding's callbacks and the peer at the other end: what
    [onNewPeer] returns, whether [onStateChange] throws, and how a request
    ends (a reply body, or an exception such as the request timeout). *)
Record world : Type := mkWorld {
  onNewPeer : string -> string -> exn + (option hashstate * option hashstate);
  onStateChange : string -> string -> option string -> option value -> option exn;
  Request : string -> string -> exn + response
}.

Record state : Type := mkState {
  peers : list (string * peer);
  (** the keys of [connections] *)
  connections : list string;
  initialBeacon : bool;
  trace : list event
}.

Definition emit (e : event) (s : state) : state :=
  mkState (peers s) (connections s) (initialBeacon s) (trace s ++ [e]).

Definition set_peer (peerId : string) (p : peer) (s : state) : state :=
  mkState (obj_set (peers s) peerId p) (connections s) (initialBeacon s)
          (trace s).

Definition set_remoteState (rs : hashstate) (p : peer) : peer :=
  mkPeer (connectionKey p) (peerClass p) (address p) (localState p) (Some rs).

Definition has_connection (s : state) (key : string) : bool :=
  existsb (String.eqb key) (connections s).

(** [sendHeartbeat] *)
Definition sendHeartbeat (peerId : string) (s : state) : (exn + unit) * state :=
  match obj_get (peers s) peerId with
  | None => (inr tt, s)
  | Some p =>
      if has_connection s (connectionKey p)
      then (inr tt, emit (SentHeartbeat peerId (localState p)) s)
      else (inl TypeError, s)
  end.

(** [toDeleteStateKeys] after the two loops that fill it, and
    [toRequestStateKeys]. *)
Definition mark_all (rs : hashstate) : list (string * bool) :=
  fold_left (fun marks key => obj_set marks key true) (obj_keys rs) [].

(** [hash != peers[peerId].remoteState[key]] *)
Definition hash_differs (rs : hashstate) (key hash : string) : bool :=
  match obj_get rs key with
  | Some known => negb (String.eqb hash known)
  | None => true
  end.

Definition toDeleteStateKeys (rs hashset : hashstate) : list (string * bool) :=
  fold_left (fun marks entry => obj_set marks (fst entry) false)
            hashset (mark_all rs).

Definition toRequestStateKeys (rs hashset : hashstate) : list string :=
  map fst (filter (fun entry => hash_differs rs (fst entry) (snd entry)) hashset).

(** The loop over [Object.entries(toDeleteStateKeys)]. *)
Fixpoint delete_states (w : world) (peerId : string)
  (entries : list (string * bool)) (rs : hashstate) (tr : list event)
  : hashstate * list event :=
  match entries with
  | [] => (rs, tr)
  | (key, value) :: entries' =>
      if value then
        let tr := tr ++ [StateChange peerId key None None] in
        match onStateChange w peerId key None None with
        | None => delete_states w peerId entries' (obj_delete rs key) tr
        | Some _ => delete_states w peerId entries' rs tr
        end
      else delete_states w peerId entries' rs tr
  end.

(** One turn of the loop over [toRequestStateKeys]. *)
Definition request_state (w : world) (peerId address key : string)
  (rs : hashstate) (tr : list event) : hashstate * list event :=
  let tr := tr ++ [Get address key] in
  match Request w address key with
  | inl _ => (rs, tr)
  | inr body =>
      if (statusCode body =? 200)%Z then
        let tr := tr ++ [StateChange peerId key (Some (hash body))
                                     (Some (data body))] in
        match onStateChange w peerId key (Some (hash body)) (Some (data body)) with
        | None => (obj_set rs key (hash body), tr)
        | Some _ => (rs, tr)
        end
      else (rs, tr)
  end.

Fixpoint request_states (w : world) (peerId address : string)
  (keys : list string) (rs : hashstate) (tr : list event)
  : hashstate * list event :=
  match keys with
  | [] => (rs, tr)
  | key :: keys' =>
      let '(rs', tr') := request_state w peerId address key rs tr in
      request_states w peerId address keys' rs' tr'
  end.

(** The reconciliation block of [onHeartbeat], entered when the heartbeat
    carries a hashset. *)
Definition reconcile (w : world) (connectionKey peerId : string)
  (hashset : hashstate) (s : state) : (exn + unit) * state :=
  match obj_get (peers s) peerId with
  | None => (inl TypeError, s)
  | Some p =>
      match remoteState p with
      | None => (inl TypeError, s)
      | Some rs =>
          let toRequest := toRequestStateKeys rs hashset in
          let toDelete := toDeleteStateKeys rs hashset in
          let '(rs1, tr1) := delete_states w peerId toDelete rs (trace s) in
          if has_connection s connectionKey then
            let '(rs2, tr2) :=
              request_states w peerId (address p) toRequest rs1 tr1 in
            (inr tt,
             mkState (obj_set (peers s) peerId (set_remoteState rs2 p))
                     (connections s) (initialBeacon s) tr2)
          else
            (inl TypeError,
             mkState (obj_set (peers s) peerId (set_remoteState rs1 p))
                     (connections s) (initialBeacon s) tr1)
      end
  end.

Definition onHeartbeat (w : world) (connectionKey peerClass peerId : string)
  (hashset : option hashstate) (address : string) (s : state)
  : (exn + unit) * state :=
  let s := mkState (peers s) (connections s) false (trace s) in
  let known :=
    match obj_get (peers s) peerId with
    | None =>
        let s := emit (NewPeer peerId peerClass) s in
        match onNewPeer w peerId peerClass with
        | inl e => (inl e, s)
        | inr (localState, remoteState) =>
            sendHeartbeat peerId
              (set_peer peerId
                 (mkPeer connectionKey peerClass address localState remoteState) s)
        end
    | Some _ => (inr tt, emit (Ping peerId) s)
    end in
  match known with
  | (inl e, s) => (inl e, s)
  | (inr _, s) =>
      match hashset with
      | Some hashset => reconcile w connectionKey peerId hashset s
      | None => (inr tt, s)
      end
  end.

(** ** What the loops amount to *)

(** [key] is marked for deletion in [entries]. *)
Definition marked (entries : list (string * bool)) (key : string) : bool :=
  existsb (fun e => String.eqb (fst e) key && snd e) entries.



(** ** Example: the heartbeat scenario of the specification *)

Definition scenario_world : world :=
  mkWorld (fun _ _ => inr (Some [], Some []))
          (fun _ _ _ _ => None)
          (fun _ key => inr (mkResponse 200 "OK" "H1" (VObj [("host", VStr "h")]))).

Definition scenario_state : state :=
  mkState [("s1", mkPeer "bb1" "backbone" "addr-s1" (Some [])
                     (Some [("link-L1", "H0")]))]
          ["bb1"] false [].

(** ** UpdateLocalState *)

(** [peers[peerId].localState] after an assignment to one of its keys. *)
Definition set_localState (ls : hashstate) (p : peer) : peer :=
  mkPeer (connectionKey p) (peerClass p) (address p) (Some ls) (remoteState p).

(** [UpdateLocalState(peerId, stateKey, stateHash)]; a null or undefined
    [stateHash] is [None], and the empty string is as falsy as they are. *)
Definition UpdateLocalState (peerId stateKey : string)
  (stateHash : option string) (s : state) : (exn + unit) * state :=
  match obj_get (peers s) peerId with
  | None => (inr tt, s)
  | Some p =>
      match localState p with
      | None => (inl TypeError, s)
      | Some ls =>
          let ls' :=
            match stateHash with
            | Some h =>
                if String.eqb h "" then obj_delete ls stateKey
                else obj_set ls stateKey h
            | None => obj_delete ls stateKey
            end in
          sendHeartbeat peerId (set_peer peerId (set_localState ls' p) s)
      end
  end.

(** ** Connections *)

(** [DeleteConnection(backboneId)]: [delete connections[backboneId]].  The
    property name of an undefined [backboneId] is the text [undefined]. *)
Definition DeleteConnection (backboneId : option string) (s : state) : state :=
  let key := match backboneId with
             | Some b => b
             | None => "undefined"
             end in
  mkState (peers s)
          (List.filter (fun k => negb (String.eqb k key)) (connections s))
          (initialBeacon s) (trace s).

End StateSync.

(* ===================================================================== *)
(** * db.js and config.js *)
(* ===================================================================== *)

Module Config.
Import Js Schema.

(** The row of the Configuration table that config.js caches. *)
Record t : Type := mk {
  rootissuer : option string;
  backbonecaexpiration : option interval;
  defaultcaexpiration : option interval;
  defaultcertexpiration : option interval;
  sitedataplaneimage : option string;
  sitecontrollerimage : option string;
  certorganization : option string
}.

Definition unit_milliseconds (unit : string) : Z :=
  if String.eqb unit "years" || String.eqb unit "year" then 3600 * 24 * 365 * 1000
  else if String.eqb unit "weeks" || String.eqb unit "week" then 3600 * 24 * 7 * 1000
  else if String.eqb unit "days" || String.eqb unit "day" then 3600 * 24 * 1000
  else if String.eqb unit "hours" || String.eqb unit "hour" then 3600 * 1000
  else if String.eqb unit "minutes" || String.eqb unit "minute" then 60 * 1000
  else if String.eqb unit "seconds" || String.eqb unit "second" then 1000
  else 0.

(** [IntervalMilliseconds]: a null interval makes [Object.entries] throw,
    which the function answers with 0. *)
Definition IntervalMilliseconds (value : option interval) : Z :=
  match value with
  | None => 0
  | Some entries =>
      let result :=
        fold_left (fun result entry =>
                     result + snd entry * unit_milliseconds (fst entry))
                  entries 0 in
      if (result <? 3600000)%Z then 3600000 else result
  end.


(** The unit names [IntervalMilliseconds] tests for. *)
Definition counted (unit : string) : bool :=
  existsb (String.eqb unit)
    ["years"; "year"; "weeks"; "week"; "days"; "day";
     "hours"; "hour"; "minutes"; "minute"; "seconds"; "second"].

(** The entries of an interval that name one of these units. *)
Definition counted_entries (value : interval) : interval :=
  List.filter (fun entry => counted (fst entry)) value.

End Config.

(* ===================================================================== *)
(** * certs.js: the reconciler loops *)
(* ===================================================================== *)

Module Certs.
Import Js Schema Pg.
Local Open Scope pg_scope.

(** The state of one run of a loop: its client and its local variable
    [reschedule_delay]. *)
Record run : Type := mkRun {
  client : Pg.client;
  reschedule_delay : Z
}.

#[global] Instance run_HasClient : HasClient run :=
  {| the_client := client;
     put_client := fun c r => mkRun c (reschedule_delay r) |}.

Definition set_delay (ms : Z) : M run unit :=
  modify (fun r => mkRun (client r) ms).

(** The delay a loop starts from. *)
Definition run_of (initial_delay : Z) (c : Pg.client) : run :=
  mkRun c initial_delay.

(** The row that [INSERT INTO CertificateRequests] adds for a request of
    type [ty] on behalf of the entity [target]. *)
Definition request_row (new_id : uuid) (ty : CertificateRequestType)
  (created requested : option timestamptz) (hours : Z) (target : uuid)
  (issuer : option uuid) (hostname : option string) : CertificateRequest.t :=
  let column (ty' : CertificateRequestType) :=
    if bool_decide (ty = ty') then Some target else None in
  CertificateRequest.mk new_id (Some ty) issuer (Some lc_new) hostname
    created requested (Some hours)
    (column rt_mgmtController) (column rt_backboneCA)
    (column rt_interiorRouter) (column rt_accessPoint) (column rt_vanCA)
    (column rt_vanCredential) (column rt_memberClaim) (column rt_vanSite).

(** [duration_ms / 3600000] as a value for the integer column
    DurationHours: the database refuses a fraction. *)
Definition whole_hours (duration_ms : Z) : option Z :=
  if (duration_ms mod 3600000 =? 0)%Z then Some (duration_ms / 3600000)%Z
  else None.

Definition insert_request {S : Type} `{HasClient S} (new_id : uuid)
  (ty : CertificateRequestType) (created requested : option timestamptz)
  (hours : option Z) (target : uuid) (issuer : option uuid)
  (hostname : option string) : M S unit :=
  query INSERT (fun d =>
    match hours with
    | Some h =>
        inr (tt, with_CertificateRequests
                   (fun rows => rows ++ [request_row new_id ty created requested
                                           h target issuer hostname]) d)
    | None => inl (Error "invalid input syntax for type integer")
    end).

Definition defined_row {R : Type} (result : option R) : bool :=
  match result with
  | Some _ => true
  | None => false
  end.

(** The shape that all the loops share:
    [try { BEGIN; SELECT ... LIMIT 1; if (rowCount == 1) { ...;
           reschedule_delay = 0 } COMMIT }
     catch { ROLLBACK; reschedule_delay = 10000 }].
    The final state carries the delay that [finally] hands to
    [setTimeout]; an exception is left only when ROLLBACK itself fails. *)
Definition reconcile {R : Type} (initial_delay : Z)
  (select_new : db -> option R) (process : R -> M Pg.client unit)
  (c : Pg.client) : (exn + unit) * run :=
  try_catch
    (query_BEGIN ;;;
     result <- select select_new ;;
     match result with
     | Some row =>
         with_client (process row) ;;; set_delay 0
     | None => ret tt
     end ;;;
     query_COMMIT)
    (fun err => query_ROLLBACK ;;; set_delay 10000)
    (run_of initial_delay c).

Section Reconcilers.

(** The cached configuration, the database clock and the identifier that
    [gen_random_uuid()] returns. *)
Variable cfg : Config.t.
Variable now : timestamptz.
Variable new_id : uuid.

Definition set_lifecycle_mc (lc : LifecycleType) (r : ManagementController.t) :=
  ManagementController.mk (ManagementController.Id r)
    (ManagementController.Name r) (Some lc) (ManagementController.Certificate r).

Definition set_lifecycle_bb (lc : LifecycleType) (r : Backbone.t) :=
  Backbone.mk (Backbone.Id r) (Backbone.Name r) (Some lc)
    (Backbone.Certificate r).

Definition set_lifecycle_ap (lc : LifecycleType) (r : BackboneAccessPoint.t) :=
  BackboneAccessPoint.mk (BackboneAccessPoint.Id r) (BackboneAccessPoint.Name r)
    (Some lc) (BackboneAccessPoint.Certificate r)
    (BackboneAccessPoint.Hostname r) (BackboneAccessPoint.Port r)
    (BackboneAccessPoint.Kind r) (BackboneAccessPoint.InteriorSite r).

Definition set_lifecycle_van (lc : LifecycleType) (vanId : option string)
  (r : ApplicationNetwork.t) :=
  ApplicationNetwork.mk (ApplicationNetwork.Id r) (ApplicationNetwork.Name r)
    (Some lc) (ApplicationNetwork.Certificate r) (ApplicationNetwork.Backbone r)
    vanId (ApplicationNetwork.StartTime r) (ApplicationNetwork.EndTime r)
    (ApplicationNetwork.DeleteDelay r).

Definition set_lifecycle_site (lc : LifecycleType) (r : InteriorSite.t) :=
  InteriorSite.mk (InteriorSite.Id r) (InteriorSite.Name r) (Some lc)
    (InteriorSite.Certificate r) (InteriorSite.DeploymentState r)
    (InteriorSite.Backbone r).

Definition set_lifecycle_inv (lc : LifecycleType) (r : MemberInvitation.t) :=
  MemberInvitation.mk (MemberInvitation.Id r) (MemberInvitation.Name r)
    (Some lc) (MemberInvitation.Certificate r) (MemberInvitation.JoinDeadline r)
    (MemberInvitation.MemberClasses r) (MemberInvitation.MemberOf r)
    (MemberInvitation.InstanceLimit r) (MemberInvitation.InstanceCount r).

Definition set_lifecycle_member (lc : LifecycleType) (r : MemberSite.t) :=
  MemberSite.mk (MemberSite.Id r) (MemberSite.Name r) (Some lc)
    (MemberSite.Certificate r) (MemberSite.MemberOf r) (MemberSite.Invitation r)
    (MemberSite.SiteClasses r) (MemberSite.Metadata r).

Definition set_lifecycle_cred (lc : LifecycleType) (r : NetworkCredential.t) :=
  NetworkCredential.mk (NetworkCredential.Id r) (NetworkCredential.Name r)
    (Some lc) (NetworkCredential.Certificate r) (NetworkCredential.MemberOf r).

(** [UPDATE <table> SET ... WHERE Id = $1] *)
Definition where_id {R : Type} (Id : R -> uuid) (id : uuid) (f : R -> R)
  : list R -> list R :=
  map (fun r => if String.eqb (Id r) id then f r else r).

(** *** processNewManagementControllers *)

Definition select_new_mc (d : db) : option ManagementController.t :=
  head (filter (fun r => col_is (ManagementController.Lifecycle r) lc_new)
               (ManagementControllers d)).

Definition processNewManagementControllers : Pg.client -> (exn + unit) * run :=
  reconcile 5000 select_new_mc (fun row =>
    let duration_ms := Config.IntervalMilliseconds (Config.backbonecaexpiration cfg) in
    insert_request new_id rt_mgmtController (Some now) (Some now) (whole_hours duration_ms)
      (ManagementController.Id row) None None ;;;
    execute UPDATE
      (with_ManagementControllers
         (where_id ManagementController.Id (ManagementController.Id row)
                   (set_lifecycle_mc lc_skx_cr_created)))).

(** *** processNewBackbones *)

Definition select_new_bb (d : db) : option Backbone.t :=
  head (filter (fun r => col_is (Backbone.Lifecycle r) lc_new) (Backbones d)).

Definition processNewBackbones : Pg.client -> (exn + unit) * run :=
  reconcile 2000 select_new_bb (fun row =>
    let duration_ms := Config.IntervalMilliseconds (Config.backbonecaexpiration cfg) in
    insert_request new_id rt_backboneCA (Some now) (Some now) (whole_hours duration_ms)
      (Backbone.Id row) None None ;;;
    execute UPDATE
      (with_Backbones
         (where_id Backbone.Id (Backbone.Id row)
                   (set_lifecycle_bb lc_skx_cr_created)))).

(** *** processNewAccessPoints *)

(** The joined row: the access point and [bbca]. *)
Definition select_new_ap (d : db) : option (BackboneAccessPoint.t * option uuid) :=
  head (flat_map (fun ap =>
          flat_map (fun site =>
            flat_map (fun bb =>
              if refers (BackboneAccessPoint.InteriorSite ap) (InteriorSite.Id site)
                 && refers (InteriorSite.Backbone site) (Backbone.Id bb)
                 && col_is (BackboneAccessPoint.Lifecycle ap) lc_new
                 && col_is (Backbone.Lifecycle bb) lc_ready
              then [(ap, Backbone.Certificate bb)] else [])
              (Backbones d))
            (InteriorSites d))
          (BackboneAccessPoints d)).

(** The row has no [endtime], so the duration is the default one. *)
Definition processNewAccessPoints : Pg.client -> (exn + unit) * run :=
  reconcile 2000 select_new_ap (fun row =>
    let duration_ms := Config.IntervalMilliseconds (Config.defaultcaexpiration cfg) in
    insert_request new_id rt_accessPoint (Some now) (Some now) (whole_hours duration_ms)
      (BackboneAccessPoint.Id (fst row)) (snd row)
      (BackboneAccessPoint.Hostname (fst row)) ;;;
    execute UPDATE
      (with_BackboneAccessPoints
         (where_id BackboneAccessPoint.Id (BackboneAccessPoint.Id (fst row))
                   (set_lifecycle_ap lc_skx_cr_created)))).

(** *** processNewNetworks *)

Definition select_new_van (d : db) : option (ApplicationNetwork.t * option uuid) :=
  head (flat_map (fun van =>
          flat_map (fun bb =>
            if refers (ApplicationNetwork.Backbone van) (Backbone.Id bb)
               && col_is (ApplicationNetwork.Lifecycle van) lc_new
               && col_is (Backbone.Lifecycle bb) lc_ready
            then [(van, Backbone.Certificate bb)] else [])
            (Backbones d))
          (ApplicationNetworks d)).

(** ['v' + row.id.substr(-5)] *)
Definition van_id_of (id : uuid) : string :=
  "v" +:+ slice_from (String.length id - 5) id.

Definition processNewNetworks : Pg.client -> (exn + unit) * run :=
  reconcile 2000 select_new_van (fun row =>
    let van := fst row in
    duration_ms <-
      match ApplicationNetwork.EndTime van with
      | Some endtime =>
          match ApplicationNetwork.StartTime van with
          | Some starttime =>
              ret (endtime - starttime
                   + Config.IntervalMilliseconds (ApplicationNetwork.DeleteDelay van))
          | None => throw TypeError
          end
      | None => ret (Config.IntervalMilliseconds (Config.defaultcaexpiration cfg))
      end ;;
    insert_request new_id rt_vanCA (Some now) (ApplicationNetwork.StartTime van)
      (Some (Z.quot duration_ms 3600000))
      (ApplicationNetwork.Id van) (snd row) None ;;;
    execute UPDATE
      (with_ApplicationNetworks
         (where_id ApplicationNetwork.Id (ApplicationNetwork.Id van)
            (set_lifecycle_van lc_skx_cr_created
               (Some (van_id_of (ApplicationNetwork.Id van))))))).

(** *** processNewInteriorSites *)

Definition select_new_site (d : db) : option (InteriorSite.t * option uuid) :=
  head (flat_map (fun site =>
          flat_map (fun bb =>
            if refers (InteriorSite.Backbone site) (Backbone.Id bb)
               && col_is (InteriorSite.Lifecycle site) lc_new
               && col_is (Backbone.Lifecycle bb) lc_ready
            then [(site, Backbone.Certificate bb)] else [])
            (Backbones d))
          (InteriorSites d)).

Definition processNewInteriorSites : Pg.client -> (exn + unit) * run :=
  reconcile 2000 select_new_site (fun row =>
    let duration_ms := Config.IntervalMilliseconds (Config.defaultcertexpiration cfg) in
    insert_request new_id rt_interiorRouter (Some now) (Some now) (whole_hours duration_ms)
      (InteriorSite.Id (fst row)) (snd row) None ;;;
    execute UPDATE
      (with_InteriorSites
         (where_id InteriorSite.Id (InteriorSite.Id (fst row))
                   (set_lifecycle_site lc_skx_cr_created)))).

(** *** processNewInvitations *)

Definition select_new_inv (d : db) : option (MemberInvitation.t * option uuid) :=
  head (flat_map (fun inv =>
          flat_map (fun van =>
            if refers (MemberInvitation.MemberOf inv) (ApplicationNetwork.Id van)
               && col_is (MemberInvitation.Lifecycle inv) lc_new
               && col_is (ApplicationNetwork.Lifecycle van) lc_ready
            then [(inv, ApplicationNetwork.Certificate van)] else [])
            (ApplicationNetworks d))
          (MemberInvitations d)).

Definition processNewInvitations : Pg.client -> (exn + unit) * run :=
  reconcile 2000 select_new_inv (fun row =>
    let duration_ms := Config.IntervalMilliseconds (Config.defaultcertexpiration cfg) in
    insert_request new_id rt_memberClaim (Some now) (Some now) (whole_hours duration_ms)
      (MemberInvitation.Id (fst row)) (snd row) None ;;;
    execute UPDATE
      (with_MemberInvitations
         (where_id MemberInvitation.Id (MemberInvitation.Id (fst row))
                   (set_lifecycle_inv lc_skx_cr_created)))).

(** *** processNewMemberSites *)

Definition select_new_member (d : db) : option (MemberSite.t * option uuid) :=
  head (flat_map (fun m =>
          flat_map (fun van =>
            if refers (MemberSite.MemberOf m) (ApplicationNetwork.Id van)
               && col_is (MemberSite.Lifecycle m) lc_new
               && col_is (ApplicationNetwork.Lifecycle van) lc_ready
            then [(m, ApplicationNetwork.Certificate van)] else [])
            (ApplicationNetworks d))
          (MemberSites d)).

Definition processNewMemberSites : Pg.client -> (exn + unit) * run :=
  reconcile 2000 select_new_member (fun row =>
    let duration_ms := Config.IntervalMilliseconds (Config.defaultcertexpiration cfg) in
    insert_request new_id rt_vanSite (Some now) (Some now) (whole_hours duration_ms)
      (MemberSite.Id (fst row)) (snd row) None ;;;
    execute UPDATE
      (with_MemberSites
         (where_id MemberSite.Id (MemberSite.Id (fst row))
                   (set_lifecycle_member lc_skx_cr_created)))).

(** *** processNewNetworkCredentials *)

(** [vanca] is the certificate of the backbone here. *)
Definition select_new_cred (d : db) : option (NetworkCredential.t * option uuid) :=
  head (flat_map (fun cred =>
          flat_map (fun van =>
            flat_map (fun bb =>
              if refers (NetworkCredential.MemberOf cred) (ApplicationNetwork.Id van)
                 && refers (ApplicationNetwork.Backbone van) (Backbone.Id bb)
                 && col_is (NetworkCredential.Lifecycle cred) lc_new
                 && col_is (ApplicationNetwork.Lifecycle van) lc_ready
              then [(cred, Backbone.Certificate bb)] else [])
              (Backbones d))
            (ApplicationNetworks d))
          (NetworkCredentials d)).

Definition processNewNetworkCredentials : Pg.client -> (exn + unit) * run :=
  reconcile 2000 select_new_cred (fun row =>
    let duration_ms := Config.IntervalMilliseconds (Config.defaultcertexpiration cfg) in
    insert_request new_id rt_vanCredential (Some now) (Some now) (whole_hours duration_ms)
      (NetworkCredential.Id (fst row)) (snd row) None ;;;
    execute UPDATE
      (with_NetworkCredentials
         (where_id NetworkCredential.Id (NetworkCredential.Id (fst row))
                   (set_lifecycle_cred lc_skx_cr_created)))).

End Reconcilers.

(** The eight per-kind loops. *)
Inductive kind : Type :=
| ManagementControllerKind | BackboneKind | AccessPointKind | NetworkKind
| InteriorSiteKind | InvitationKind | MemberSiteKind | NetworkCredentialKind.

Definition loop (k : kind) (cfg : Config.t) (now : timestamptz) (new_id : uuid)
  : Pg.client -> (exn + unit) * run :=
  match k with
  | ManagementControllerKind => processNewManagementControllers cfg now new_id
  | BackboneKind => processNewBackbones cfg now new_id
  | AccessPointKind => processNewAccessPoints cfg now new_id
  | NetworkKind => processNewNetworks cfg now new_id
  | InteriorSiteKind => processNewInteriorSites cfg now new_id
  | InvitationKind => processNewInvitations cfg now new_id
  | MemberSiteKind => processNewMemberSites cfg now new_id
  | NetworkCredentialKind => processNewNetworkCredentials cfg now new_id
  end.

(** The delay a loop starts from: what it keeps when its SELECT finds
    no row. *)
Definition idle_delay (k : kind) : Z :=
  match k with
  | ManagementControllerKind => 5000
  | _ => 2000
  end.

(** Whether the SELECT of the loop finds a row. *)
Definition finds_row (k : kind) (d : db) : bool :=
  match k with
  | ManagementControllerKind => defined_row (select_new_mc d)
  | BackboneKind => defined_row (select_new_bb d)
  | AccessPointKind => defined_row (select_new_ap d)
  | NetworkKind => defined_row (select_new_van d)
  | InteriorSiteKind => defined_row (select_new_site d)
  | InvitationKind => defined_row (select_new_inv d)
  | MemberSiteKind => defined_row (select_new_member d)
  | NetworkCredentialKind => defined_row (select_new_cred d)
  end.

(** ** secretAdded: finalization of a certificate request *)

(** The tables a request can be on behalf of: [ref_table]. *)
Inductive ref_table : Type :=
| T_ManagementControllers | T_Backbones | T_InteriorSites
| T_BackboneAccessPoints | T_ApplicationNetworks | T_NetworkCredentials
| T_MemberInvitations | T_MemberSites.

(** What the chain of [if (cert_request.<column>)] settles. *)
Record target : Type := mkTarget {
  table : ref_table;
  ref_id : uuid;
  ref_label : string;
  is_ca : bool;
  alertSiteCertChanged : bool;
  alertAccessCertChanged : bool;
  alertMemberCompletion : bool
}.

Definition target_of (cert_request : CertificateRequest.t) : option target :=
  match CertificateRequest.ManagementController cert_request with
  | Some id => Some (mkTarget T_ManagementControllers id "Management Controller"
                              false false false false)
  | None =>
  match CertificateRequest.Backbone cert_request with
  | Some id => Some (mkTarget T_Backbones id "Backbone" true false false false)
  | None =>
  match CertificateRequest.InteriorSite cert_request with
  | Some id => Some (mkTarget T_InteriorSites id "Backbone Site"
                              false true false false)
  | None =>
  match CertificateRequest.AccessPoint cert_request with
  | Some id => Some (mkTarget T_BackboneAccessPoints id "Access Point"
                              false false true false)
  | None =>
  match CertificateRequest.ApplicationNetwork cert_request with
  | Some id => Some (mkTarget T_ApplicationNetworks id "VAN"
                              true false false false)
  | None =>
  match CertificateRequest.NetworkCredential cert_request with
  | Some id => Some (mkTarget T_NetworkCredentials id "VAN Attach"
                              false false false false)
  | None =>
  match CertificateRequest.Invitation cert_request with
  | Some id => Some (mkTarget T_MemberInvitations id "Member Invitation"
                              false false false false)
  | None =>
  match CertificateRequest.Site cert_request with
  | Some id => Some (mkTarget T_MemberSites id "Member Site"
                              false false false true)
  | None => None
  end end end end end end end end.

(** [SET Certificate = $1, Lifecycle = 'ready'] on a row of each table. *)
Definition ready_mc (cert : uuid) (r : ManagementController.t) :=
  ManagementController.mk (ManagementController.Id r)
    (ManagementController.Name r) (Some lc_ready) (Some cert).

Definition ready_bb (cert : uuid) (r : Backbone.t) :=
  Backbone.mk (Backbone.Id r) (Backbone.Name r) (Some lc_ready) (Some cert).

Definition ready_site (cert : uuid) (r : InteriorSite.t) :=
  InteriorSite.mk (InteriorSite.Id r) (InteriorSite.Name r) (Some lc_ready)
    (Some cert) (InteriorSite.DeploymentState r) (InteriorSite.Backbone r).

Definition ready_ap (cert : uuid) (r : BackboneAccessPoint.t) :=
  BackboneAccessPoint.mk (BackboneAccessPoint.Id r) (BackboneAccessPoint.Name r)
    (Some lc_ready) (Some cert) (BackboneAccessPoint.Hostname r)
    (BackboneAccessPoint.Port r) (BackboneAccessPoint.Kind r)
    (BackboneAccessPoint.InteriorSite r).

Definition ready_van (cert : uuid) (r : ApplicationNetwork.t) :=
  ApplicationNetwork.mk (ApplicationNetwork.Id r) (ApplicationNetwork.Name r)
    (Some lc_ready) (Some cert) (ApplicationNetwork.Backbone r)
    (ApplicationNetwork.VanId r) (ApplicationNetwork.StartTime r)
    (ApplicationNetwork.EndTime r) (ApplicationNetwork.DeleteDelay r).

Definition ready_cred (cert : uuid) (r : NetworkCredential.t) :=
  NetworkCredential.mk (NetworkCredential.Id r) (NetworkCredential.Name r)
    (Some lc_ready) (Some cert) (NetworkCredential.MemberOf r).

Definition ready_inv (cert : uuid) (r : MemberInvitation.t) :=
  MemberInvitation.mk (MemberInvitation.Id r) (MemberInvitation.Name r)
    (Some lc_ready) (Some cert) (MemberInvitation.JoinDeadline r)
    (MemberInvitation.MemberClasses r) (MemberInvitation.MemberOf r)
    (MemberInvitation.InstanceLimit r) (MemberInvitation.InstanceCount r).

Definition ready_member (cert : uuid) (r : MemberSite.t) :=
  MemberSite.mk (MemberSite.Id r) (MemberSite.Name r) (Some lc_ready)
    (Some cert) (MemberSite.MemberOf r) (MemberSite.Invitation r)
    (MemberSite.SiteClasses r) (MemberSite.Metadata r).

(** [WHERE Id = $1] *)
Definition by_id {R : Type} (Id : R -> uuid) (id : uuid) (rows : list R)
  : list R :=
  List.filter (fun r => String.eqb (Id r) id) rows.

(** [SELECT name FROM ${ref_table} WHERE Id = $1] *)
Definition select_name (t : ref_table) (id : uuid) (d : db)
  : list (option string) :=
  match t with
  | T_ManagementControllers =>
      map ManagementController.Name
          (by_id ManagementController.Id id (ManagementControllers d))
  | T_Backbones => map Backbone.Name (by_id Backbone.Id id (Backbones d))
  | T_InteriorSites =>
      map InteriorSite.Name (by_id InteriorSite.Id id (InteriorSites d))
  | T_BackboneAccessPoints =>
      map BackboneAccessPoint.Name
          (by_id BackboneAccessPoint.Id id (BackboneAccessPoints d))
  | T_ApplicationNetworks =>
      map ApplicationNetwork.Name
          (by_id ApplicationNetwork.Id id (ApplicationNetworks d))
  | T_NetworkCredentials =>
      map NetworkCredential.Name
          (by_id NetworkCredential.Id id (NetworkCredentials d))
  | T_MemberInvitations =>
      map MemberInvitation.Name
          (by_id MemberInvitation.Id id (MemberInvitations d))
  | T_MemberSites => map MemberSite.Name (by_id MemberSite.Id id (MemberSites d))
  end.

(** [UPDATE ${ref_table} SET Certificate = $1, Lifecycle = 'ready'
     WHERE Id = $2] *)
Definition update_ready (t : ref_table) (cert id : uuid) : db -> db :=
  match t with
  | T_ManagementControllers =>
      with_ManagementControllers (where_id ManagementController.Id id (ready_mc cert))
  | T_Backbones => with_Backbones (where_id Backbone.Id id (ready_bb cert))
  | T_InteriorSites =>
      with_InteriorSites (where_id InteriorSite.Id id (ready_site cert))
  | T_BackboneAccessPoints =>
      with_BackboneAccessPoints (where_id BackboneAccessPoint.Id id (ready_ap cert))
  | T_ApplicationNetworks =>
      with_ApplicationNetworks (where_id ApplicationNetwork.Id id (ready_van cert))
  | T_NetworkCredentials =>
      with_NetworkCredentials (where_id NetworkCredential.Id id (ready_cred cert))
  | T_MemberInvitations =>
      with_MemberInvitations (where_id MemberInvitation.Id id (ready_inv cert))
  | T_MemberSites => with_MemberSites (where_id MemberSite.Id id (ready_member cert))
  end.

(** The Lifecycle and Certificate of the rows of [t] with identifier
    [id]: what the theorems say about "the owning entity row". *)
Definition entity_rows (t : ref_table) (id : uuid) (d : db)
  : list (option LifecycleType * option uuid) :=
  match t with
  | T_ManagementControllers =>
      map (fun r => (ManagementController.Lifecycle r, ManagementController.Certificate r))
          (by_id ManagementController.Id id (ManagementControllers d))
  | T_Backbones =>
      map (fun r => (Backbone.Lifecycle r, Backbone.Certificate r))
          (by_id Backbone.Id id (Backbones d))
  | T_InteriorSites =>
      map (fun r => (InteriorSite.Lifecycle r, InteriorSite.Certificate r))
          (by_id InteriorSite.Id id (InteriorSites d))
  | T_BackboneAccessPoints =>
      map (fun r => (BackboneAccessPoint.Lifecycle r, BackboneAccessPoint.Certificate r))
          (by_id BackboneAccessPoint.Id id (BackboneAccessPoints d))
  | T_ApplicationNetworks =>
      map (fun r => (ApplicationNetwork.Lifecycle r, ApplicationNetwork.Certificate r))
          (by_id ApplicationNetwork.Id id (ApplicationNetworks d))
  | T_NetworkCredentials =>
      map (fun r => (NetworkCredential.Lifecycle r, NetworkCredential.Certificate r))
          (by_id NetworkCredential.Id id (NetworkCredentials d))
  | T_MemberInvitations =>
      map (fun r => (MemberInvitation.Lifecycle r, MemberInvitation.Certificate r))
          (by_id MemberInvitation.Id id (MemberInvitations d))
  | T_MemberSites =>
      map (fun r => (MemberSite.Lifecycle r, MemberSite.Certificate r))
          (by_id MemberSite.Id id (MemberSites d))
  end.

(** The secret delivered by the watch: [metadata.name] and
    [metadata.annotations]. *)
Record secret : Type := mkSecret {
  name : string;
  annotations : list (string * string)
}.

(** The [status] of a cert-manager Certificate, with the dates parsed. *)
Record certificate_status : Type := mkStatus {
  notAfter : option timestamptz;
  renewalTime : option timestamptz
}.

(** Calls out of the module. *)
Inductive call : Type :=
| LoadCertificate (name : string)
| ApplyObject (issuer_name : string) (db_link : option string)
| SiteCertificateChanged (certId : uuid)
| AccessCertificateChanged (certId : uuid)
| CompleteMember (memberId : uuid).

(** How those calls end: the loaded certificate (possibly undefined, its
    status possibly undefined), and for the others the exception, if
    any. *)
Record world : Type := mkWorld {
  loaded : string -> exn + option (option certificate_status);
  raised : call -> option exn
}.

(** The state of a run of [secretAdded]: the client, and the calls made
    so far, each with whether a transaction was open at the time. *)
Record finalizer : Type := mkFinalizer {
  db_client : Pg.client;
  calls : list (call * bool)
}.

#[global] Instance finalizer_HasClient : HasClient finalizer :=
  {| the_client := db_client;
     put_client := fun c s => mkFinalizer c (calls s) |}.

Definition in_transaction (s : finalizer) : bool :=
  defined_row (snapshot (db_client s)).

Definition record_call (c : call) (s : finalizer) : finalizer :=
  mkFinalizer (db_client s) (calls s ++ [(c, in_transaction s)]).

(** [await f(...)] for a call that returns nothing. *)
Definition invoke (w : world) (c : call) : M finalizer unit :=
  fun s => match raised w c with
           | Some e => (inl e, record_call c s)
           | None => (inr tt, record_call c s)
           end.

(** [await LoadCertificate(name)] followed by the reads of
    [cert_object.status]. *)
Definition load_status (w : world) (name : string)
  : M finalizer certificate_status :=
  fun s => let s := record_call (LoadCertificate name) s in
           match loaded w name with
           | inl e => (inl e, s)
           | inr (Some (Some status)) => (inr status, s)
           | inr _ => (inl TypeError, s)
           end.

(** [signed_by == 'root'] decides between the two INSERTs. *)
Definition signed_by_column (signed_by : option string) : option uuid :=
  match signed_by with
  | Some link => if String.eqb link "root" then None else Some link
  | None => None
  end.

Definition label_of (ref_label : string) (name : option string) : string :=
  ref_label +:+ ": " +:+ match name with
                         | Some n => n
                         | None => "null"
                         end.

Definition secretAdded_try (w : world) (dblink : uuid) (secret : secret)
  : M finalizer unit :=
  query_BEGIN ;;;
  result <- select (fun d => by_id CertificateRequest.Id dblink
                                   (CertificateRequests d)) ;;
  match result with
  | [cert_request] =>
      tgt <- match target_of cert_request with
             | Some tgt => ret tgt
             | None => throw (Error "Unknown Target")
             end ;;
      status <- load_status w (name secret) ;;
      let expiration := notAfter status in
      let renewal := renewalTime status in
      let signed_by := obj_get (annotations secret) "skupper.io/skx-issuerlink" in
      get_name <- select (select_name (table tgt) (ref_id tgt)) ;;
      label <- match get_name with
               | row :: _ => ret (label_of (ref_label tgt) row)
               | [] => throw TypeError
               end ;;
      execute INSERT
        (with_TlsCertificates
           (fun rows => rows ++
              [TlsCertificate.mk dblink (Some (is_ca tgt)) (Some (name secret))
                 (signed_by_column signed_by) expiration renewal (Some label)])) ;;;
      execute UPDATE (update_ready (table tgt) dblink (ref_id tgt)) ;;;
      execute DELETE
        (with_CertificateRequests
           (List.filter (fun r => negb (String.eqb (CertificateRequest.Id r) dblink)))) ;;;
      (if is_ca tgt
       then invoke w (ApplyObject (name secret)
                        (obj_get (annotations secret) "skupper.io/skx-dblink"))
       else ret tt) ;;;
      (if alertSiteCertChanged tgt
       then with_client
              (DeploymentState.SiteLifecycleChanged_TX (ref_id tgt) lc_ready)
       else ret tt) ;;;
      query_COMMIT ;;;
      (if alertSiteCertChanged tgt then invoke w (SiteCertificateChanged dblink)
       else if alertAccessCertChanged tgt
            then invoke w (AccessCertificateChanged dblink)
            else ret tt) ;;;
      (if alertMemberCompletion tgt then invoke w (CompleteMember (ref_id tgt))
       else ret tt)
  | _ => query_ROLLBACK
  end.

Definition secretAdded (w : world) (dblink : uuid) (secret : secret)
  : M finalizer unit :=
  try_catch (secretAdded_try w dblink secret) (fun err => query_ROLLBACK).

(** [onSecretWatch]: only an ADDED secret that is controlled and carries
    a database link is finalized. *)
Definition onSecretWatch (w : world) (action : string) (secret : secret)
  : M finalizer unit :=
  if String.eqb action "ADDED" then
    match obj_get (annotations secret) "skupper.io/skupperx-controlled" with
    | Some controlled =>
        if String.eqb controlled "true" then
          match obj_get (annotations secret) "skupper.io/skx-dblink" with
          | Some dblink =>
              if String.eqb dblink "" then ret tt
              else secretAdded w dblink secret
          | None => ret tt
          end
        else ret tt
    | None => ret tt
    end
  else ret tt.

(** ** Example data *)

Definition example_config : Config.t :=
  Config.mk (Some "skx-root") (Some [("years", 1)]) (Some [("days", 30)])
            (Some [("days", 7)]) None None (Some "example.org").

Definition new_backbone_db : db :=
  with_Backbones (fun _ => [Backbone.mk "bb1" (Some "bb1") (Some lc_new) None])
                 empty_db.

Definition no_fault : stmt -> nat -> bool := fun _ _ => false.

(** A member site whose certificate request awaits its secret. *)
Definition member_request : CertificateRequest.t :=
  CertificateRequest.mk "req-1" (Some rt_vanSite) (Some "van-ca")
    (Some lc_cm_cert_created) None (Some 1000) (Some 1000) (Some 168)
    None None None None None None None (Some "m-1").

Definition member_db : db :=
  with_CertificateRequests (fun _ => [member_request])
    (with_MemberSites
       (fun _ => [MemberSite.mk "m-1" (Some "m-1") (Some lc_skx_cr_created) None
                    (Some "van-1") (Some "inv-1") (Some ["edge"]) None])
       empty_db).

Definition member_secret : secret :=
  mkSecret "skx-member-req-1"
           [("skupper.io/skupperx-controlled", "true");
            ("skupper.io/skx-dblink", "req-1");
            ("skupper.io/skx-issuerlink", "van-ca")].

Definition member_world : world :=
  mkWorld (fun _ => inr (Some (Some (mkStatus (Some 2000) (Some 1500)))))
          (fun _ => None).

Definition member_finalizer : finalizer :=
  mkFinalizer (connect member_db no_fault) [].

(** ** The loops, kind by kind *)

(** The table a loop reads its new rows from, and the type of the
    requests it inserts. *)
Definition table_of (k : kind) : ref_table :=
  match k with
  | ManagementControllerKind => T_ManagementControllers
  | BackboneKind => T_Backbones
  | AccessPointKind => T_BackboneAccessPoints
  | NetworkKind => T_ApplicationNetworks
  | InteriorSiteKind => T_InteriorSites
  | InvitationKind => T_MemberInvitations
  | MemberSiteKind => T_MemberSites
  | NetworkCredentialKind => T_NetworkCredentials
  end.

Definition request_type (k : kind) : CertificateRequestType :=
  match k with
  | ManagementControllerKind => rt_mgmtController
  | BackboneKind => rt_backboneCA
  | AccessPointKind => rt_accessPoint
  | NetworkKind => rt_vanCA
  | InteriorSiteKind => rt_interiorRouter
  | InvitationKind => rt_memberClaim
  | MemberSiteKind => rt_vanSite
  | NetworkCredentialKind => rt_vanCredential
  end.

(** [d'] is [d] after a loop of kind [k] has processed one row: a new
    request with identifier [new_id] and the type of the kind, for a row
    of the kind's table that was new, and that row moved on to
    skx_cr_created. *)
Definition requested (k : kind) (new_id : uuid) (d d' : db) : Prop :=
  exists id req tgt,
    CertificateRequests d' = CertificateRequests d ++ [req]
    /\ CertificateRequest.Id req = new_id
    /\ CertificateRequest.RequestType req = Some (request_type k)
    /\ CertificateRequest.Lifecycle req = Some lc_new
    /\ target_of req = Some tgt
    /\ table tgt = table_of k
    /\ ref_id tgt = id
    /\ In (Some lc_new) (map fst (entity_rows (table_of k) id d))
    /\ entity_rows (table_of k) id d'
       = map (fun p => (Some lc_skx_cr_created, snd p))
             (entity_rows (table_of k) id d).

(** The configured interval a loop takes the duration of its requests
    from when the row carries no end time. *)
Definition expiration_of (k : kind) (cfg : Config.t) : option interval :=
  match k with
  | ManagementControllerKind | BackboneKind => Config.backbonecaexpiration cfg
  | AccessPointKind | NetworkKind => Config.defaultcaexpiration cfg
  | InteriorSiteKind | InvitationKind | MemberSiteKind | NetworkCredentialKind =>
      Config.defaultcertexpiration cfg
  end.

(** A configuration whose certificates expire after 90 minutes. *)
Definition ninety_minutes_config : Config.t :=
  Config.mk (Some "skx-root") (Some [("minutes", 90)]) (Some [("minutes", 90)])
            (Some [("minutes", 90)]) None None (Some "example.org").

(** A secret that no certificate request is waiting for. *)
Definition stray_secret : secret :=
  mkSecret "skx-member-gone"
           [("skupper.io/skupperx-controlled", "true");
            ("skupper.io/skx-dblink", "req-gone");
            ("skupper.io/skx-issuerlink", "van-ca")].

End Certs.

(* ===================================================================== *)
(** * backbone-links.js *)
(* ===================================================================== *)

Module BackboneLinks.
Import Js Schema Pg.
Local Open Scope pg_scope.

(** An entry of [bbConnections]; the connection it holds is named after
    the backbone. *)
Record connection : Type := mkConnection {
  toDelete : bool;
  host : option string;
  port : option string
}.

Definition set_toDelete (b : bool) (c : connection) : connection :=
  mkConnection b (host c) (port c).

(** What the module does to the transport and to its subscribers; a
    subscriber is named by its position in [registrations]. *)
Inductive event : Type :=
| OpenConnection (bbid : uuid) (host port : option string)
| CloseConnection (bbid : uuid)
| onLinkAdded (registration : nat) (bbid : uuid)
| onLinkDeleted (registration : nat) (bbid : uuid).

(** The module's variables, the calls made so far, and the subscribers:
    [rejects e n] tells whether the handler call [e], made when [n]
    calls have been made before it, ends in a rejected promise. *)
Record state : Type := mkState {
  client : Pg.client;
  bbConnections : list (uuid * connection);
  (** the number of entries of [registrations] *)
  registrations : nat;
  trace : list event;
  reschedule_delay : Z;
  rejects : event -> nat -> bool
}.

#[global] Instance state_HasClient : HasClient state :=
  {| the_client := client;
     put_client := fun c s =>
       mkState c (bbConnections s) (registrations s) (trace s)
               (reschedule_delay s) (rejects s) |}.

(** [SELECT BackboneAccessPoints.*, InteriorSites.Backbone
     FROM BackboneAccessPoints
     JOIN InteriorSites ON InteriorSites.Id = InteriorSite
     JOIN Backbones ON Backbones.Id = InteriorSites.Backbone
     WHERE BackboneAccessPoints.Lifecycle = 'ready' and Kind = 'manage']:
    each row is an access point with the [backbone] column. *)
Definition select_manage_ready (d : db) : list (BackboneAccessPoint.t * uuid) :=
  flat_map (fun ap =>
    flat_map (fun site =>
      flat_map (fun bb =>
        if refers (BackboneAccessPoint.InteriorSite ap) (InteriorSite.Id site)
           && refers (InteriorSite.Backbone site) (Backbone.Id bb)
           && col_is (BackboneAccessPoint.Lifecycle ap) lc_ready
           && col_is (BackboneAccessPoint.Kind ap) ap_manage
        then [(ap, Backbone.Id bb)] else [])
        (Backbones d))
      (InteriorSites d))
    (BackboneAccessPoints d).

(** The loop that fills [db_rows]: the first row of each backbone. *)
Definition collect (rows : list (BackboneAccessPoint.t * uuid))
  : list (uuid * BackboneAccessPoint.t) :=
  fold_left (fun db_rows row =>
               if obj_has db_rows (snd row) then db_rows
               else obj_set db_rows (snd row) (fst row))
            rows [].

(** The loop that sets [toDelete] on every connection. *)
Definition mark_all (conns : list (uuid * connection))
  : list (uuid * connection) :=
  map (fun entry => (fst entry, set_toDelete true (snd entry))) conns.

Definition set_connections (f : list (uuid * connection) -> list (uuid * connection))
  : M state unit :=
  modify (fun s => mkState (client s) (f (bbConnections s)) (registrations s)
                           (trace s) (reschedule_delay s) (rejects s)).

(** A call that returns: [OpenConnection], [CloseConnection]. *)
Definition emit (e : event) : M state unit :=
  modify (fun s => mkState (client s) (bbConnections s) (registrations s)
                           (trace s ++ [e]) (reschedule_delay s) (rejects s)).

(** [await reg.onLinkAdded(...)] and [await reg.onLinkDeleted(...)]: the
    call is made, and the [await] throws when the handler rejects. *)
Definition await_handler (e : event) : M state unit :=
  fun s =>
    let s' := mkState (client s) (bbConnections s) (registrations s)
                      (trace s ++ [e]) (reschedule_delay s) (rejects s) in
    if rejects s e (List.length (trace s))
    then (inl (Error "handler error"), s')
    else (inr tt, s').

Fixpoint await_all (es : list event) : M state unit :=
  match es with
  | [] => ret tt
  | e :: es' => await_handler e ;;; await_all es'
  end.

(** The calls of the loop [for (const reg of registrations)]. *)
Definition calls (handler : nat -> uuid -> event) (registrations : nat)
  (bbid : uuid) : list event :=
  map (fun reg => handler reg bbid) (seq 0 registrations).

Definition notify (handler : nat -> uuid -> event) (bbid : uuid)
  : M state unit :=
  fun s => await_all (calls handler (registrations s) bbid) s.

(** [createConnection] *)
Definition createConnection (bbid : uuid) (row : BackboneAccessPoint.t)
  : M state unit :=
  set_connections (fun conns =>
    obj_set conns bbid
      (mkConnection false (BackboneAccessPoint.Hostname row)
                    (BackboneAccessPoint.Port row))) ;;;
  emit (OpenConnection bbid (BackboneAccessPoint.Hostname row)
                       (BackboneAccessPoint.Port row)) ;;;
  notify onLinkAdded bbid.

(** [deleteConnection] *)
Definition deleteConnection (bbid : uuid) : M state unit :=
  emit (CloseConnection bbid) ;;;
  set_connections (fun conns => obj_delete conns bbid) ;;;
  notify onLinkDeleted bbid.

(** The loop over [Object.entries(db_rows)]. *)
Fixpoint keep_or_create (db_rows : list (uuid * BackboneAccessPoint.t))
  : M state unit :=
  match db_rows with
  | [] => ret tt
  | (bbid, row) :: db_rows' =>
      (fun s =>
         match obj_get (bbConnections s) bbid with
         | Some c =>
             set_connections (fun conns =>
               obj_set conns bbid (set_toDelete false c)) s
         | None => createConnection bbid row s
         end) ;;;
      keep_or_create db_rows'
  end.

(** The last loop, over the keys that [bbConnections] had when it
    started. *)
Fixpoint drop_marked (keys : list uuid) : M state unit :=
  match keys with
  | [] => ret tt
  | bbid :: keys' =>
      (fun s =>
         match obj_get (bbConnections s) bbid with
         | Some c => if toDelete c then deleteConnection bbid s
                     else (inr tt, s)
         | None => (inr tt, s)
         end) ;;;
      drop_marked keys'
  end.

Definition set_delay (ms : Z) : M state unit :=
  modify (fun s => mkState (client s) (bbConnections s) (registrations s)
                           (trace s) ms (rejects s)).

Definition reconcileBackboneConnections (s : state) : (exn + unit) * state :=
  try_catch
    (query_BEGIN ;;;
     result <- select select_manage_ready ;;
     set_connections mark_all ;;;
     keep_or_create (collect result) ;;;
     (fun s => drop_marked (obj_keys (bbConnections s)) s) ;;;
     query_COMMIT)
    (fun err => query_ROLLBACK ;;; set_delay 10000)
    (mkState (client s) (bbConnections s) (registrations s) (trace s) 30000
             (rejects s)).

(** ** The loops when every handler returns *)

(** No handler call ever rejects. *)
Definition returning (s : state) : Prop :=
  forall e n, rejects s e n = false.

(** What [createConnection] and [deleteConnection] leave behind then. *)
Definition opened (registrations : nat) (bbid : uuid)
  (row : BackboneAccessPoint.t) (conns : list (uuid * connection))
  (tr : list event) : list (uuid * connection) * list event :=
  (obj_set conns bbid
     (mkConnection false (BackboneAccessPoint.Hostname row)
                   (BackboneAccessPoint.Port row)),
   tr ++ OpenConnection bbid (BackboneAccessPoint.Hostname row)
                        (BackboneAccessPoint.Port row)
      :: calls onLinkAdded registrations bbid).

Definition closed (registrations : nat) (bbid : uuid)
  (conns : list (uuid * connection)) (tr : list event)
  : list (uuid * connection) * list event :=
  (obj_delete conns bbid,
   tr ++ CloseConnection bbid :: calls onLinkDeleted registrations bbid).

(** What the loop over [db_rows] leaves behind then. *)
Fixpoint kept_or_created (registrations : nat)
  (db_rows : list (uuid * BackboneAccessPoint.t))
  (conns : list (uuid * connection)) (tr : list event)
  : list (uuid * connection) * list event :=
  match db_rows with
  | [] => (conns, tr)
  | (bbid, row) :: db_rows' =>
      match obj_get conns bbid with
      | Some c =>
          kept_or_created registrations db_rows'
            (obj_set conns bbid (set_toDelete false c)) tr
      | None =>
          let '(conns', tr') := opened registrations bbid row conns tr in
          kept_or_created registrations db_rows' conns' tr'
      end
  end.

(** What the last loop leaves behind then. *)
Fixpoint dropped (registrations : nat) (keys : list uuid)
  (conns : list (uuid * connection)) (tr : list event)
  : list (uuid * connection) * list event :=
  match keys with
  | [] => (conns, tr)
  | bbid :: keys' =>
      match obj_get conns bbid with
      | Some c =>
          if toDelete c then
            let '(conns', tr') := closed registrations bbid conns tr in
            dropped registrations keys' conns' tr'
          else dropped registrations keys' conns tr
      | None => dropped registrations keys' conns tr
      end
  end.

(** What the three loops make of the rows of the query then. *)
Definition diff (registrations : nat)
  (rows : list (BackboneAccessPoint.t * uuid))
  (conns : list (uuid * connection)) (tr : list event)
  : list (uuid * connection) * list event :=
  let db_rows := collect rows in
  let '(conns1, tr1) :=
    kept_or_created registrations db_rows (mark_all conns) tr in
  dropped registrations (obj_keys conns1) conns1 tr1.

(** ** What the query is about *)

(** [ap] is a ready access point of kind manage on a site of the
    backbone [bbid]. *)
Definition manage_ready_on (d : db) (ap : BackboneAccessPoint.t) (bbid : uuid)
  : Prop :=
  In ap (BackboneAccessPoints d)
  /\ BackboneAccessPoint.Lifecycle ap = Some lc_ready
  /\ BackboneAccessPoint.Kind ap = Some ap_manage
  /\ exists site bb,
       In site (InteriorSites d)
       /\ In bb (Backbones d)
       /\ BackboneAccessPoint.InteriorSite ap = Some (InteriorSite.Id site)
       /\ InteriorSite.Backbone site = Some (Backbone.Id bb)
       /\ bbid = Backbone.Id bb.

(** The first row of the backbone [bbid] among the rows of the query. *)
Definition first_row (rows : list (BackboneAccessPoint.t * uuid)) (bbid : uuid)
  : option BackboneAccessPoint.t :=
  option_map fst (List.find (fun row => String.eqb (snd row) bbid) rows).

(** ** Example data: a ready manage access point on a backbone that is
    not ready *)

Definition new_backbone : Backbone.t :=
  Backbone.mk "bb1" (Some "bb1") (Some lc_new) None.

Definition ready_site : InteriorSite.t :=
  InteriorSite.mk "s1" (Some "s1") (Some lc_ready) (Some "c1")
                  (Some ds_ready_bootstrap) (Some "bb1").

Definition ready_manage_ap : BackboneAccessPoint.t :=
  BackboneAccessPoint.mk "ap1" (Some "manage") (Some lc_ready) (Some "c2")
    (Some "ap.example.com") (Some "55671") (Some ap_manage) (Some "s1").

Definition unready_backbone_db : db :=
  with_Backbones (fun _ => [new_backbone])
    (with_InteriorSites (fun _ => [ready_site])
       (with_BackboneAccessPoints (fun _ => [ready_manage_ap]) empty_db)).

Definition idle_state (d : db) : state :=
  mkState (connect d (fun _ _ => false)) [] 1 [] 0 (fun _ _ => false).

(** ** The calls of a cycle *)

(** What the entry of a backbone in [db_rows] costs: nothing when [conns]
    holds a session for it, and otherwise the opening of one and a call
    to every subscriber. *)
Definition opening (registrations : nat) (conns : list (uuid * connection))
  (entry : uuid * BackboneAccessPoint.t) : list event :=
  match obj_get conns (fst entry) with
  | Some _ => []
  | None =>
      OpenConnection (fst entry) (BackboneAccessPoint.Hostname (snd entry))
                     (BackboneAccessPoint.Port (snd entry))
      :: calls onLinkAdded registrations (fst entry)
  end.

(** What a session costs at the end of the cycle: nothing when [db_rows]
    has a row for its backbone, and otherwise its closing and a call to
    every subscriber. *)
Definition closing (registrations : nat)
  (db_rows : list (uuid * BackboneAccessPoint.t)) (bbid : uuid) : list event :=
  if obj_has db_rows bbid then []
  else CloseConnection bbid :: calls onLinkDeleted registrations bbid.

(** ** Example data: a session to an access point that has moved *)

Definition moved_ap_state : state :=
  mkState (connect unready_backbone_db (fun _ _ => false))
          [("bb1", mkConnection false (Some "old.example.com") (Some "55671"));
           ("bb0", mkConnection false (Some "gone.example.com") (Some "55671"))]
          2 [] 0 (fun _ _ => false).

(** A subscriber whose handlers always reject. *)
Definition deaf_state (d : db) : state :=
  mkState (connect d (fun _ _ => false)) [] 1 [] 0 (fun _ _ => true).

End BackboneLinks.

(* ===================================================================== *)
(** * ident.js: short identifiers *)
(* ===================================================================== *)

Module Ident.
Import Js.

(** [value.slice(0 - size)] for a positive [size]: the last [size]
    characters of [value], all of it when it has no more than that. *)
Definition slice_last (size : nat) (value : string) : string :=
  substring (String.length value - size) size value.

(** The loop [while (inUseIdentities.indexOf(ident) >= 0)]: [None] when
    [fuel] turns of it do not find a free identifier. *)
Fixpoint grow (fuel : nat) (value : string) (size : nat)
  (inUseIdentities : list string) : option string :=
  match fuel with
  | O => None
  | S fuel' =>
      let ident := slice_last size value in
      if existsb (String.eqb ident) inUseIdentities
      then grow fuel' value (S size) inUseIdentities
      else Some ident
  end.

(** [NewIdentity], with the UUID that [crypto.randomUUID] draws as an
    argument: the identifier and the new [inUseIdentities].  From size
    [value.length] on the candidate is [value] itself, so the loop either
    ends within [value.length + 1] turns or never does ([None]). *)
Definition NewIdentity (value : string) (inUseIdentities : list string)
  : option (string * list string) :=
  match grow (S (String.length value)) value 5 inUseIdentities with
  | Some ident => Some (ident, inUseIdentities ++ [ident])
  | None => None
  end.

(** [RecordIdentity] *)
Definition RecordIdentity (ident : string) (inUseIdentities : list string)
  : list string :=
  inUseIdentities ++ [ident].

End Ident.

(* ===================================================================== *)
(** * prune.js: certificates that nothing refers to *)
(* ===================================================================== *)

Module Prune.
Import Js Schema Pg.
Local Open Scope pg_scope.

(** An entry of [deleteMap]. *)
Record record : Type := mkRecord {
  pleaseDelete : bool;
  children : list uuid
}.

(** [deleteMap]: an object keyed by certificate id. *)
Abbreviation deletemap := (list (uuid * record)).

(** [if (column)] on a nullable uuid column: the value when it is
    truthy. *)
Definition present (column : option uuid) : option uuid :=
  match column with
  | Some x => if String.eqb x "" then None else Some x
  | None => None
  end.

(** One turn of the loop over the rows of [TlsCertificates]. *)
Definition note_row (deleteMap : deletemap) (tlsRow : TlsCertificate.t)
  : deletemap :=
  let deleteMap :=
    match present (TlsCertificate.SignedBy tlsRow) with
    | Some signedby =>
        let record := match obj_get deleteMap signedby with
                      | Some record => record
                      | None => mkRecord false []
                      end in
        obj_set deleteMap signedby
          (mkRecord (pleaseDelete record)
                    (children record ++ [TlsCertificate.Id tlsRow]))
    | None => deleteMap
    end in
  match obj_get deleteMap (TlsCertificate.Id tlsRow) with
  | None => obj_set deleteMap (TlsCertificate.Id tlsRow) (mkRecord true [])
  | Some record =>
      obj_set deleteMap (TlsCertificate.Id tlsRow)
        (mkRecord true (children record))
  end.

(** One turn of the loop over the rows of a table with a [Certificate]
    column; a certificate that is not in the map is only logged. *)
Definition clear_referenced (deleteMap : deletemap)
  (certificate : option uuid) : deletemap :=
  match present certificate with
  | Some cert =>
      match obj_get deleteMap cert with
      | Some record => obj_set deleteMap cert (mkRecord false (children record))
      | None => deleteMap
      end
  | None => deleteMap
  end.

(** The [Certificate] columns of the tables the second loop goes
    through, in its order. *)
Definition referencing : list (db -> list (option uuid)) :=
  [ (fun d => map ManagementController.Certificate (ManagementControllers d));
    (fun d => map Backbone.Certificate (Backbones d));
    (fun d => map BackboneAccessPoint.Certificate (BackboneAccessPoints d));
    (fun d => map InteriorSite.Certificate (InteriorSites d));
    (fun d => map ApplicationNetwork.Certificate (ApplicationNetworks d));
    (fun d => map NetworkCredential.Certificate (NetworkCredentials d));
    (fun d => map MemberInvitation.Certificate (MemberInvitations d));
    (fun d => map MemberSite.Certificate (MemberSites d)) ].

(** [for (const table of [...])]: one SELECT for each table. *)
Fixpoint clear_tables (tables : list (db -> list (option uuid)))
  (deleteMap : deletemap) : M client deletemap :=
  match tables with
  | [] => ret deleteMap
  | table :: tables' =>
      rows <- select table ;;
      clear_tables tables' (fold_left clear_referenced rows deleteMap)
  end.

(** A loop whose turns are awaited one after the other. *)
Fixpoint for_each (turn : uuid -> deletemap -> M client deletemap)
  (ids : list uuid) (deleteMap : deletemap) : M client deletemap :=
  match ids with
  | [] => ret deleteMap
  | id :: ids' =>
      deleteMap <- turn id deleteMap ;;
      for_each turn ids' deleteMap
  end.

(** ** The DELETE and what the schema attaches to it

    [TlsCertificates.Id] is referenced by the [Certificate] column of the
    eight tables, by [TlsClientRevocations.CertificateId] and by
    [TlsCertificates.SignedBy], without an action: the database refuses
    to delete a certificate that a row which stays refers to.  It is
    referenced by [CertificateRequests.Issuer] with [ON DELETE CASCADE]:
    the requests go with their issuer. *)

(** Some row of the eight tables has [id] in its [Certificate] column. *)
Definition named (d : db) (id : uuid) : bool :=
  existsb (fun table =>
             existsb (fun certificate => refers certificate id) (table d))
          referencing.

(** The certificate [id] was revoked. *)
Definition revoked (d : db) (id : uuid) : bool :=
  existsb (fun v => String.eqb (TlsClientRevocation.CertificateId v) id)
          (TlsClientRevocations d).

(** Another certificate has [id] in its [SignedBy] column. *)
Definition signs_other (d : db) (id : uuid) : bool :=
  existsb (fun r => refers (TlsCertificate.SignedBy r) id
                    && negb (String.eqb (TlsCertificate.Id r) id))
          (TlsCertificates d).

(** The rows that go: the certificate, and the requests it was to
    issue. *)
Definition delete_rows (certId : uuid) (d : db) : db :=
  with_CertificateRequests
    (List.filter (fun q => negb (refers (CertificateRequest.Issuer q) certId)))
    (with_TlsCertificates
       (List.filter (fun r => negb (String.eqb (TlsCertificate.Id r) certId)))
       d).

(** [DELETE FROM TlsCertificates WHERE Id = $1] *)
Definition delete_certificate (certId : uuid) (d : db) : exn + (unit * db) :=
  if named d certId || revoked d certId || signs_other d certId
  then inl (Error "update or delete violates foreign key constraint")
  else inr (tt, delete_rows certId d).

(** [depthFirstDelete].  The calls nest as deep as the chain of children
    is long: [stack] is the number of frames the engine has room for, and
    the call that finds none throws the engine's RangeError.  [record] is
    the object held in the map, so what the calls for the children did to
    it is seen when [pleaseDelete] is read. *)
Fixpoint depthFirstDelete (stack : nat) (certId : uuid)
  (deleteMap : deletemap) : M client deletemap :=
  match stack with
  | O => throw (Error "Maximum call stack size exceeded")
  | S stack' =>
      match obj_get deleteMap certId with
      | None => throw TypeError
      | Some record =>
          deleteMap <- for_each (depthFirstDelete stack') (children record)
                         deleteMap ;;
          match obj_get deleteMap certId with
          | None => throw TypeError
          | Some record =>
              if pleaseDelete record then
                query DELETE (delete_certificate certId) ;;;
                ret (obj_set deleteMap certId
                       (mkRecord false (children record)))
              else ret deleteMap
          end
      end
  end.

(** [DeleteOrphanCertificates] *)
Definition DeleteOrphanCertificates (stack : nat) : M client unit :=
  try_catch
    (query_BEGIN ;;;
     tlsRows <- select TlsCertificates ;;
     deleteMap <- clear_tables referencing (fold_left note_row tlsRows []) ;;
     for_each (depthFirstDelete stack) (obj_keys deleteMap) deleteMap ;;;
     query_COMMIT)
    (fun error => query_ROLLBACK).

(** ** What the properties are stated with *)

(** Some record of the eight tables names the certificate [id]. *)
Definition referenced (d : db) (id : uuid) : bool :=
  existsb (fun table =>
             existsb (fun certificate => refers (present certificate) id)
                     (table d))
          referencing.

(** The tables without the certificates [deleted] and without the
    requests they were to issue. *)
Definition delete_certificates (deleted : list uuid) (d : db) : db :=
  with_CertificateRequests
    (List.filter (fun q =>
       negb (existsb (refers (CertificateRequest.Issuer q)) deleted)))
    (with_TlsCertificates
       (List.filter (fun r =>
          negb (existsb (String.eqb (TlsCertificate.Id r)) deleted)))
       d).

(** No certificate of [d] is signed by one of [deleted]. *)
Definition unsigned (d : db) (deleted : list uuid) : Prop :=
  forall id r,
    In id deleted -> In r (TlsCertificates d) ->
    refers (TlsCertificate.SignedBy r) id = false.

(** [id] is a certificate that no row of the eight tables names. *)
Definition orphan (d : db) (id : uuid) : bool :=
  existsb (fun r => String.eqb (TlsCertificate.Id r) id) (TlsCertificates d)
  && negb (referenced d id).

(** The tables without the orphans and without the requests they were
    to issue. *)
Definition pruned (d : db) : db :=
  with_CertificateRequests
    (List.filter (fun q =>
       negb match CertificateRequest.Issuer q with
            | Some issuer => orphan d issuer
            | None => false
            end))
    (with_TlsCertificates
       (List.filter (fun r => referenced d (TlsCertificate.Id r))) d).

(** The signer of a certificate that some row names is named by some
    row too. *)
Definition signers_named (d : db) : Prop :=
  forall r p,
    In r (TlsCertificates d) ->
    TlsCertificate.SignedBy r = Some p ->
    referenced d (TlsCertificate.Id r) = true ->
    referenced d p = true.

(** Every chain of signers is shorter than the stack is deep: there is a
    depth below [stack] for every id that is smaller for a certificate
    than for its signer.  In particular no certificate signs itself,
    directly or through others. *)
Definition chains_within (stack : nat) (rows : list TlsCertificate.t) : Prop :=
  exists depth : uuid -> nat,
    (forall id, (depth id < stack)%nat)
    /\ (forall r p, In r rows ->
          present (TlsCertificate.SignedBy r) = Some p ->
          (depth (TlsCertificate.Id r) < depth p)%nat).

(** [deleteMap[id].pleaseDelete], false for an id that is not a key, and
    [deleteMap[id].children]. *)
Definition marked (deleteMap : deletemap) (id : uuid) : bool :=
  match obj_get deleteMap id with
  | Some record => pleaseDelete record
  | None => false
  end.

Definition kids (deleteMap : deletemap) (id : uuid) : list uuid :=
  match obj_get deleteMap id with
  | Some record => children record
  | None => []
  end.

(** The map after the two loops, run on the tables [d]. *)
Definition deleteMap_of (d : db) : deletemap :=
  fold_left (fun deleteMap table =>
               fold_left clear_referenced (table d) deleteMap)
            referencing
            (fold_left note_row (TlsCertificates d) []).

(** [m'] is [m] with some marks taken away: the same keys and children,
    and nothing marked that was not. *)
Definition unmarks (m m' : deletemap) : Prop :=
  (forall id, kids m' id = kids m id)
  /\ (forall id, obj_has m' id = obj_has m id)
  /\ (forall id, marked m' id = true -> marked m id = true).

(** The mark of [id] was there after the two loops and is gone: the
    certificate has been deleted. *)
Definition gone (m0 m : deletemap) (id : uuid) : bool :=
  marked m0 id && negb (marked m id).

(** The tables once the certificates marked in [m0] and no longer marked
    in [m] are deleted. *)
Definition remaining (m0 m : deletemap) (d : db) : db :=
  with_CertificateRequests
    (List.filter (fun q =>
       negb match CertificateRequest.Issuer q with
            | Some issuer => gone m0 m issuer
            | None => false
            end))
    (with_TlsCertificates
       (List.filter (fun r => negb (gone m0 m (TlsCertificate.Id r)))) d).

(** Inside the transaction opened on the tables [d0], with nothing but
    certificates that no record names deleted. *)
Definition safe_state (d0 : db) (f : stmt -> nat -> bool) (c : client)
  : Prop :=
  exists deleted,
    (forall id, In id deleted -> referenced d0 id = false)
    /\ unsigned (delete_certificates deleted d0) deleted
    /\ in_state (delete_certificates deleted d0) (Some d0) f c.

(** The loop invariant of the descent, whatever the database refuses. *)
Definition descending (d0 : db) (f : stmt -> nat -> bool)
  (m0 m : deletemap) (c : client) : Prop :=
  unmarks m0 m /\ safe_state d0 f c.

(** The loop invariant of the descent when the database refuses
    nothing: the certificates deleted are those whose mark is gone. *)
Definition deleting (d0 : db) (f : stmt -> nat -> bool)
  (m0 m : deletemap) (c : client) : Prop :=
  unmarks m0 m /\ in_state (remaining m0 m d0) (Some d0) f c.

(** Outside of the transaction, or inside with only unnamed certificates
    deleted: where an exception leaves the client. *)
Definition interrupted (d0 : db) (f : stmt -> nat -> bool) (c : client)
  : Prop :=
  in_state d0 None f c \/ safe_state d0 f c.

(** ** Example tables *)

Definition ca_id : uuid := "a1f0c3d2-4b5e-4f60-8a7b-9c0d1e2f3a4b".
Definition bbc_id : uuid := "b2e1d4c3-5a6f-4071-9b8c-0d1e2f3a4b5c".
Definition old_id : uuid := "c3d2e5b4-6b70-4182-8c9d-1e2f3a4b5c6d".
Definition root_id : uuid := "d4c3f6a5-7c81-4293-9dae-2f3a4b5c6d7e".
Definition oldca_id : uuid := "e5b4a7f6-8d92-43a4-8ebf-3a4b5c6d7e8f".
Definition bb1_id : uuid := "f6a5b8e7-9ea3-44b5-9fc0-4b5c6d7e8f90".
Definition request_id : uuid := "07b6c9d8-afb4-45c6-80d1-5c6d7e8f9001".

Definition ca_cert : TlsCertificate.t :=
  TlsCertificate.mk ca_id (Some true) (Some "skx-ca") None None None None.
Definition bb_cert : TlsCertificate.t :=
  TlsCertificate.mk bbc_id (Some false) (Some "skx-bb") (Some ca_id)
    None None None.
Definition stray_cert : TlsCertificate.t :=
  TlsCertificate.mk old_id (Some false) (Some "skx-old") (Some ca_id)
    None None None.
Definition self_signed_cert : TlsCertificate.t :=
  TlsCertificate.mk root_id (Some true) (Some "skx-root") (Some root_id)
    None None None.

(** A backbone whose certificate was signed by a certificate authority
    that nothing names, and a stray certificate of the same authority. *)
Definition pki_db : db :=
  with_Backbones (fun _ => [Backbone.mk bb1_id (Some "bb") (Some lc_ready)
                              (Some bbc_id)])
    (with_TlsCertificates (fun _ => [ca_cert; bb_cert; stray_cert]) empty_db).

(** A backbone that names its certificate authority, beside an
    authority that nothing names any more, a certificate it signed, and
    a request it was to issue. *)
Definition oldca_cert : TlsCertificate.t :=
  TlsCertificate.mk oldca_id (Some true) (Some "skx-oldca") None
    None None None.
Definition old_cert : TlsCertificate.t :=
  TlsCertificate.mk old_id (Some false) (Some "skx-old") (Some oldca_id)
    None None None.
Definition old_request : CertificateRequest.t :=
  CertificateRequest.mk request_id (Some rt_interiorRouter) (Some oldca_id)
    (Some lc_new) None None None (Some 24) None None None None None None
    None None.

Definition tidy_db : db :=
  with_Backbones (fun _ => [Backbone.mk bb1_id (Some "bb") (Some lc_ready)
                              (Some ca_id)])
    (with_TlsCertificates (fun _ => [ca_cert; oldca_cert; old_cert])
       (with_CertificateRequests (fun _ => [old_request]) empty_db)).

End Prune.

(* ===================================================================== *)
(** * Properties *)
(* ===================================================================== *)

Module JsFacts.
Import Js.

Section Obj.
Context {V : Type}.
Implicit Types (o : list (string * V)) (k : string) (v : V).

Lemma obj_has_get o k : obj_has o k = true <-> is_Some (obj_get o k).
Proof.
  unfold obj_has, obj_keys. induction o as [|[k' v] o IH]; simpl.
  - split; [discriminate | intros [? ?]; discriminate].
  - rewrite (String.eqb_sym k k'). destruct (String.eqb k' k); simpl.
    + split; eauto.
    + exact IH.
Qed.

Lemma obj_get_set_eq o k v : obj_get (obj_set o k v) k = Some v.
Proof.
  induction o as [|[k' v'] o IH]; simpl.
  - now rewrite String.eqb_refl.
  - destruct (String.eqb k' k) eqn:E; simpl; rewrite E; auto.
Qed.

Lemma obj_get_set_ne o k k' v :
  k <> k' -> obj_get (obj_set o k v) k' = obj_get o k'.
Proof.
  intros Hne. induction o as [|[k0 v0] o IH]; simpl.
  - destruct (String.eqb k k') eqn:E; auto.
    apply String.eqb_eq in E. contradiction.
  - destruct (String.eqb k0 k) eqn:E; simpl.
    + apply String.eqb_eq in E. subst k0.
      destruct (String.eqb k k') eqn:E'; auto.
      apply String.eqb_eq in E'. contradiction.
    + destruct (String.eqb k0 k'); auto.
Qed.

Lemma obj_get_delete_eq o k : obj_get (obj_delete o k) k = None.
Proof.
  induction o as [|[k' v'] o IH]; simpl; auto.
  destruct (String.eqb k' k) eqn:E; simpl; auto. now rewrite E.
Qed.

Lemma obj_get_delete_ne o k k' :
  k <> k' -> obj_get (obj_delete o k) k' = obj_get o k'.
Proof.
  intros Hne. induction o as [|[k0 v0] o IH]; simpl; auto.
  destruct (String.eqb k0 k) eqn:E; simpl.
  - apply String.eqb_eq in E. subst k0.
    destruct (String.eqb k k') eqn:E'; auto.
    apply String.eqb_eq in E'. contradiction.
  - destruct (String.eqb k0 k'); auto.
Qed.


Lemma obj_get_None_keys o k : obj_get o k = None <-> ~ In k (obj_keys o).
Proof.
  unfold obj_keys. induction o as [|[k' v'] o IH]; simpl.
  - tauto.
  - destruct (String.eqb k' k) eqn:E.
    + apply String.eqb_eq in E. subst. split; [discriminate | tauto].
    + apply String.eqb_neq in E. rewrite IH. tauto.
Qed.
Lemma obj_set_keys_NoDup o k v :
  NoDup (obj_keys o) -> NoDup (obj_keys (obj_set o k v)).
Proof.
  unfold obj_keys. induction o as [|[k' v'] o IH]; simpl; intros Hnd.
  - repeat constructor. intros H. inversion H.
  - apply NoDup_cons in Hnd as [Hnotin Hnd].
    destruct (String.eqb k' k) eqn:E; simpl.
    + apply NoDup_cons. split; assumption.
    + apply NoDup_cons. split; [|apply IH, Hnd].
      apply String.eqb_neq in E. intros Hin. apply Hnotin.
      apply list_elem_of_In in Hin. apply list_elem_of_In.
      clear -Hin E. induction o as [|[k0 v0] o IH]; simpl in *.
      * destruct Hin as [->|[]]. contradiction.
      * destruct (String.eqb k0 k) eqn:E0; simpl in *; [exact Hin|].
        destruct Hin as [->|Hin]; [now left | right; auto].
Qed.

Lemma obj_get_Some_iff o k v :
  NoDup (obj_keys o) -> obj_get o k = Some v <-> In (k, v) o.
Proof.
  unfold obj_keys. induction o as [|[k' v'] o IH]; simpl; intros Hnd.
  - split; [discriminate | tauto].
  - apply NoDup_cons in Hnd as [Hnotin Hnd].
    destruct (String.eqb k' k) eqn:E.
    + apply String.eqb_eq in E. subst k'. split.
      * intros [= ->]. now left.
      * intros [[= ->]|Hin]; [reflexivity|].
        exfalso. apply Hnotin. apply list_elem_of_In, in_map_iff.
        now exists (k, v).
    + apply String.eqb_neq in E. rewrite (IH Hnd). split; [tauto|].
      intros [[= ? ?]|H]; [contradiction | exact H].
Qed.

Lemma obj_has_false o k : obj_has o k = false <-> obj_get o k = None.
Proof.
  pose proof (obj_has_get o k) as [H1 H2].
  destruct (obj_has o k) eqn:Eh, (obj_get o k) as [x|] eqn:Eg;
    split; try reflexivity; try discriminate.
  - destruct (H1 eq_refl); discriminate.
  - intros _. assert (Ht : true = false); [|discriminate Ht].
    symmetry. apply H2. eauto.
Qed.

End Obj.

End JsFacts.

Module GoTemplateFacts.
Import Js GoTemplate.

(** ** Termination of the two loops *)

Lemma length_substring_le (a n : nat) (s : string) :
  (String.length (String.substring a n s) <= n)%nat.
Proof.
  revert a n. induction s as [|c s IH]; intros a n.
  - destruct a, n; simpl; lia.
  - destruct a as [|a]; simpl.
    + destruct n as [|n]; simpl; [lia|]. specialize (IH 0%nat n). lia.
    + apply IH.
Qed.

Lemma length_trimStart_le (s : string) :
  (String.length (trimStart s) <= String.length s)%nat.
Proof.
  induction s as [|c s IH]; simpl; [lia|].
  destruct (is_ws c); simpl; lia.
Qed.

Lemma Parse_shortens (text : string) (token : Token) (text' : string) :
  Parse text = Ok (token, text') ->
  (String.length text' < String.length text)%nat.
Proof.
  unfold Parse. destruct (String.eqb text "") eqn:E; [discriminate|].
  apply String.eqb_neq in E.
  assert (Hpos : (0 < String.length text)%nat).
  { destruct text; simpl; [congruence | lia]. }
  destruct (indexOf text OPEN) as [[|p]|].
  - destruct (indexOf text CLOSE) as [closePos|]; [|discriminate].
    set (after := slice_from (closePos + String.length CLOSE) text).
    assert (Hafter : (String.length after < String.length text)%nat).
    { unfold after, slice_from.
      pose proof (length_substring_le (closePos + String.length CLOSE)
                    (String.length text - (closePos + String.length CLOSE)) text).
      simpl in *. lia. }
    intros H.
    repeat match type of H with
           | context [if ?b then _ else _] => destruct b
           end;
      injection H as _ <-;
      try exact Hafter;
      pose proof (length_trimStart_le after); lia.
  - intros [= _ <-]. unfold slice_from.
    pose proof (length_substring_le (S p) (String.length text - S p) text). lia.
  - intros [= _ <-]. simpl. lia.
Qed.

Lemma tokenize_total (fuel : nat) (text : string) :
  (String.length text <= fuel)%nat -> tokenize fuel text <> OutOfFuel.
Proof.
  revert text. induction fuel as [|fuel IH]; intros text Hlen.
  - destruct text; simpl in *; [discriminate | lia].
  - destruct text as [|c text]; [simpl; discriminate|].
    cbn [tokenize String.length].
    destruct (Parse (String c text)) as [[token text']|e|] eqn:HP.
    + apply Parse_shortens in HP.
      specialize (IH text'). cbn [String.length] in *.
      destruct (tokenize fuel text'); try discriminate.
      intros _. apply IH; [lia | reflexivity].
    + discriminate.
    + unfold Parse in HP.
      repeat match type of HP with
             | context [if ?b then _ else _] => destruct b
             | context [match ?x with _ => _ end] => destruct x
             end; discriminate.
Qed.

Lemma Arrange_total (fuel : nat) :
  forall (this : Token) (tokenList : list Token),
    (List.length tokenList < fuel)%nat ->
    match Arrange fuel this tokenList with
    | Ok (_, _, rest) => (List.length rest <= List.length tokenList)%nat
    | Throw _ => True
    | OutOfFuel => False
    end.
Proof.
  induction fuel as [|fuel IH]; intros this tokenList Hlen; [lia|].
  assert (Hlink : forall (t : Token) (l : list Token),
             (List.length l <= List.length tokenList)%nat ->
             (List.length l < S fuel)%nat ->
             match
               match l with
               | [] => Ok (t, END_WITH_EOS, [])
               | nxt :: l' =>
                   match Arrange fuel nxt l' with
                   | Ok (nxt', r, rest) => Ok (set_next t nxt', r, rest)
                   | Throw e => Throw e
                   | OutOfFuel => OutOfFuel
                   end
               end
             with
             | Ok (_, _, rest) => (List.length rest <= List.length tokenList)%nat
             | Throw _ => True
             | OutOfFuel => False
             end).
  { intros t [|nxt l'] Hl Hf; simpl in *; [lia|].
    specialize (IH nxt l' ltac:(lia)).
    destruct (Arrange fuel nxt l') as [[[? ?] ?]|?|]; auto; lia. }
  destruct tokenList as [|head tokenList']; cbn [Arrange]; [simpl; lia|].
  cbn [List.length] in *.
  pose proof (IH head tokenList' ltac:(lia)) as IHhead.
  destruct (type this).
  - destruct (Arrange fuel head tokenList') as [[[? ?] ?]|?|]; auto; lia.
  - destruct (Arrange fuel head tokenList') as [[[? ?] ?]|?|]; auto; lia.
  - destruct (Arrange fuel head tokenList') as [[[head' thenResult] rest]|?|];
      auto.
    destruct thenResult; auto.
    + destruct rest as [|els rest']; auto. cbn [List.length] in *.
      pose proof (IH els rest' ltac:(lia)) as IHels.
      destruct (Arrange fuel els rest') as [[[els' elseResult] rest'']|?|]; auto.
      destruct elseResult; auto.
      apply Hlink; lia.
    + apply Hlink; lia.
  - simpl. lia.
  - simpl. lia.
Qed.

Lemma existsb_eqb_In (k : string) (keys : list string) :
  In k keys -> existsb (String.eqb k) keys = true.
Proof.
  intros H. apply existsb_exists. exists k. split; [exact H|].
  apply String.eqb_refl.
Qed.

Lemma walk_resolves v elems w :
  resolves_path v elems w -> walk v elems = Ok (Some w).
Proof.
  induction 1 as [v|v keys element rest w Hk Hin _ IH]; simpl; [reflexivity|].
  rewrite Hk, (existsb_eqb_In _ _ Hin). exact IH.
Qed.

Lemma slice_from_1 (c : ascii) (s : string) : slice_from 1 (String c s) = s.
Proof.
  unfold slice_from. simpl. rewrite Nat.sub_0_r.
  induction s as [|c' s IH]; simpl; [reflexivity|]. now rewrite IH.
Qed.

Lemma value_resolved localData remoteData c v ty tl nxt thn els u :
  resolves localData remoteData c v ->
  _value (mkToken ty (Some c) tl nxt thn els) localData remoteData u = (Ok v, u).
Proof.
  intros [path keys Hk Hin | path w Hw]; unfold _value; cbn [content].
  - rewrite slice_from_1. cbn [starts_with]. rewrite Ascii.eqb_refl, Hk.
    now rewrite (existsb_eqb_In _ _ Hin).
  - rewrite slice_from_1. cbn [starts_with].
    replace (Ascii.eqb "$" ".") with false by reflexivity.
    rewrite Ascii.eqb_refl. now rewrite (walk_resolves _ _ _ Hw).
Qed.

(** ** The literal template scenarios *)

(** C6, as stated, fails on its second half: expanding [{{ .missing }}]
    over empty scopes does not return the string "undefined". *)
Lemma Expand_missing_not_undefined :
  fst (Expand "{{ .missing }}" (VObj []) (VObj []) []) <> Ok "undefined".
Proof. vm_compute. discriminate. Qed.

(** C6 (amended): the conditional template expands to "P-svc" and leaves
    the unresolvable set as it was (empty when it starts empty); the
    template [{{ .missing }}] over empty scopes expands to
    "UNDEFINED[.missing]" and records ".missing" as unresolvable. *)
Theorem Expand_scenarios (u : unres) :
  Expand scenario_template scenario_local scenario_remote u = (Ok "P-svc", u)
  /\ Expand scenario_template scenario_local scenario_remote [] = (Ok "P-svc", [])
  /\ Expand "{{ .missing }}" (VObj []) (VObj []) u
     = (Ok "UNDEFINED[.missing]", obj_set u ".missing" (VBool true))
  /\ obj_has (snd (Expand "{{ .missing }}" (VObj []) (VObj []) u)) ".missing"
     = true.
Proof.
  assert (H3 : Expand "{{ .missing }}" (VObj []) (VObj []) u
               = (Ok "UNDEFINED[.missing]", obj_set u ".missing" (VBool true)))
    by reflexivity.
  repeat split; try reflexivity.
  rewrite H3. cbn [snd]. apply JsFacts.obj_has_get.
  rewrite JsFacts.obj_get_set_eq. eauto.
Qed.

(** ** Resolved but falsy variables *)

(** C10: a variable token whose path resolves (in the local scope for
    [.name], along the remote scope for [$a.b.c]) to a falsy value renders
    the text "undefined" and leaves the unresolvable set untouched; the
    rest of the chain is expanded from that same set. *)
Theorem falsy_variable_renders_undefined
  (localData remoteData : value) (c : string) (v : value)
  (tl : bool) (nxt thn els : option Token) (u : unres) :
  resolves localData remoteData c v ->
  truthy v = false ->
  ExpandToken (mkToken TOKEN_VARIABLE (Some c) tl nxt thn els)
    localData remoteData u
  = match nxt with
    | Some n => append_next "undefined" (ExpandToken n localData remoteData u)
    | None => (Ok "undefined", u)
    end.
Proof.
  intros Hres Hfalsy.
  pose proof (value_resolved localData remoteData c v TOKEN_VARIABLE
                tl nxt thn els u Hres) as Hv.
  destruct nxt as [n|]; cbn [ExpandToken]; rewrite Hv, Hfalsy; reflexivity.
Qed.

Lemma falsy_variable_renders_undefined_witness :
  ExpandToken (fresh TOKEN_VARIABLE (Some ".count") false)
    (VObj [("count", VNum 0)]) (VObj []) []
  = (Ok "undefined", [])
  /\ ExpandToken (fresh TOKEN_VARIABLE (Some "$site.label") false)
    (VObj []) (VObj [("site", VObj [("label", VStr "")])]) []
  = (Ok "undefined", []).
Proof.
  split.
  - apply (falsy_variable_renders_undefined
             (VObj [("count", VNum 0)]) (VObj []) ".count" (VNum 0)
             false None None None []).
    + apply (resolves_local (VObj [("count", VNum 0)]) (VObj [])
               "count" ["count"]); [reflexivity | simpl; auto].
    + reflexivity.
  - apply (falsy_variable_renders_undefined
             (VObj []) (VObj [("site", VObj [("label", VStr "")])])
             "$site.label" (VStr "") false None None None []).
    + apply resolves_remote. simpl.
      eapply resolves_cons; [reflexivity | simpl; auto |].
      eapply resolves_cons; [reflexivity | simpl; auto |].
      apply resolves_nil.
    + reflexivity.
Defined.


(** ** The paths recorded in [unresolvable] *)

Lemma only_marks_refl (u : unres) : only_marks u u.
Proof. intros k. now left. Qed.

Lemma only_marks_trans (u1 u2 u3 : unres) :
  only_marks u1 u2 -> only_marks u2 u3 -> only_marks u1 u3.
Proof.
  intros H12 H23 k. destruct (H23 k) as [E|E]; [|now right].
  rewrite E. apply H12.
Qed.

Lemma only_marks_set (u : unres) (c : string) :
  only_marks u (obj_set u c (VBool true)).
Proof.
  intros k. destruct (String.eqb_spec c k) as [->|Hne].
  - right. apply JsFacts.obj_get_set_eq.
  - left. now apply JsFacts.obj_get_set_ne.
Qed.

Lemma value_only_marks (t : Token) (l r : value) (u : unres) :
  only_marks u (snd (_value t l r u)).
Proof.
  unfold _value. destruct (content t) as [c|]; [|apply only_marks_refl].
  destruct (starts_with "." c).
  - destruct (object_keys l) as [e|keys]; [apply only_marks_refl|].
    destruct (existsb _ keys);
      [apply only_marks_refl | apply only_marks_set].
  - destruct (starts_with "$" c); [|apply only_marks_refl].
    destruct (walk r _) as [[v|]| |];
      first [apply only_marks_refl | apply only_marks_set].
Qed.

Lemma append_next_snd (s : string) (x : res string * unres) :
  snd (append_next s x) = snd x.
Proof. destruct x as [[a|e|] u]; reflexivity. Qed.

Lemma ExpandToken_only_marks (t : Token) :
  forall (l r : value) (u : unres),
    only_marks u (snd (ExpandToken t l r u)).
Proof.
  revert t. fix IH 1. intros [ty c tl nxt thn els] l r u.
  assert (Hcont : forall s u', only_marks u u' ->
            only_marks u
              (snd (match nxt with
                    | Some n => append_next s (ExpandToken n l r u')
                    | None => (Ok s, u')
                    end))).
  { intros s u' Hu'. destruct nxt as [n|]; [|exact Hu'].
    rewrite append_next_snd.
    exact (only_marks_trans _ _ _ Hu' (IH n l r u')). }
  cbn [ExpandToken].
  pose proof (value_only_marks (mkToken ty c tl nxt thn els) l r u) as Hv.
  destruct ty.
  - apply Hcont, only_marks_refl.
  - destruct (_value _ l r u) as [[val|e|] u']; cbn [fst snd] in *;
      [apply Hcont, Hv | exact Hv | exact Hv].
  - destruct (_value _ l r u) as [[val|e|] u']; cbn [fst snd] in *;
      [| exact Hv | exact Hv].
    destruct (truthy val).
    + destruct thn as [t'|]; [|exact Hv].
      pose proof (IH t' l r u') as Ht.
      destruct (ExpandToken t' l r u') as [[s|e|] u'']; cbn [snd] in *.
      * apply Hcont. exact (only_marks_trans _ _ _ Hv Ht).
      * exact (only_marks_trans _ _ _ Hv Ht).
      * exact (only_marks_trans _ _ _ Hv Ht).
    + destruct els as [t'|]; [|apply Hcont, Hv].
      pose proof (IH t' l r u') as Ht.
      destruct (ExpandToken t' l r u') as [[s|e|] u'']; cbn [snd] in *.
      * apply Hcont. exact (only_marks_trans _ _ _ Hv Ht).
      * exact (only_marks_trans _ _ _ Hv Ht).
      * exact (only_marks_trans _ _ _ Hv Ht).
  - apply Hcont, only_marks_refl.
  - apply Hcont, only_marks_refl.
Qed.

(** X17: [Expand] never removes a path from [unresolvable]
    and never stores anything but [true] in it: every path of the final
    object either has the value it had before the call or is [true].
    This holds whether the call returns or throws. *)
Theorem Expand_only_marks (template : string) (localData remoteData : value)
  (unresolvable : unres) :
  only_marks unresolvable
    (snd (Expand template localData remoteData unresolvable)).
Proof.
  unfold Expand.
  destruct (tokenize _ template) as [[|rootToken tokenStream]|e|];
    try apply only_marks_refl.
  destruct (Arrange _ rootToken tokenStream) as [[[root []] rest]|e|];
    try apply only_marks_refl.
  apply ExpandToken_only_marks.
Qed.

(** X18: a non-empty template that contains no opening
    delimiter is returned as it is, whatever the scopes hold, and
    [unresolvable] is left alone. *)
Theorem Expand_literal (template : string) (localData remoteData : value)
  (unresolvable : unres) :
  template <> "" ->
  indexOf template OPEN = None ->
  Expand template localData remoteData unresolvable
  = (Ok template, unresolvable).
Proof.
  intros Hne Hno. unfold Expand.
  destruct template as [|a template]; [congruence|].
  cbn [String.length tokenize]. unfold Parse.
  rewrite Hno.
  replace (String.eqb (String a template) "") with false by reflexivity.
  replace (tokenize (String.length template) "") with (@Ok (list Token) [])
    by (destruct (String.length template); reflexivity).
  reflexivity.
Qed.

Lemma Expand_literal_witness :
  Expand "hostname: router" (VObj []) (VObj []) []
  = (Ok "hostname: router", []).
Proof.
  apply (Expand_literal "hostname: router" (VObj []) (VObj []) []);
    [discriminate | reflexivity].
Defined.

Lemma existsb_eqb_not_In (k : string) (keys : list string) :
  ~ In k keys -> existsb (String.eqb k) keys = false.
Proof.
  induction keys as [|k' keys IH]; [reflexivity|].
  intros Hn. cbn [existsb].
  destruct (String.eqb_spec k k') as [->|_].
  - exfalso. apply Hn. now left.
  - apply IH. intros Hin. apply Hn. now right.
Qed.

Lemma walk_dangles v elems : dangles v elems -> walk v elems = Ok None.
Proof.
  induction 1 as [v keys element rest Hk Hn | v keys element rest Hk Hin _ IH];
    cbn [walk]; rewrite Hk.
  - now rewrite existsb_eqb_not_In.
  - now rewrite (existsb_eqb_In element keys Hin).
Qed.

Lemma value_unresolved localData remoteData c ty tl nxt thn els u :
  unresolved localData remoteData c ->
  _value (mkToken ty (Some c) tl nxt thn els) localData remoteData u
  = (Ok (VStr ("UNDEFINED[" +:+ c +:+ "]")), obj_set u c (VBool true)).
Proof.
  intros [path keys Hk Hn | path Hd]; unfold _value; cbn [content].
  - cbn [starts_with]. rewrite slice_from_1, Hk.
    replace (Ascii.eqb "." ".") with true by reflexivity.
    now rewrite existsb_eqb_not_In.
  - cbn [starts_with]. rewrite slice_from_1.
    replace (Ascii.eqb "$" ".") with false by reflexivity.
    replace (Ascii.eqb "$" "$") with true by reflexivity.
    now rewrite (walk_dangles _ _ Hd).
Qed.

(** X19: an [if] whose condition variable does not
    resolve is not false: [_value] returns the placeholder text, which is
    truthy, so the then clause is expanded, the else clause is ignored,
    and the variable is recorded in [unresolvable]. *)
Theorem if_unresolved_takes_then
  (localData remoteData : value) (c : string) (tl : bool)
  (nxt : option Token) (thn : Token) (els : option Token) (u : unres) :
  unresolved localData remoteData c ->
  ExpandToken (mkToken TOKEN_IF (Some c) tl nxt (Some thn) els)
    localData remoteData u
  = match ExpandToken thn localData remoteData (obj_set u c (VBool true)) with
    | (Ok s, u') =>
        match nxt with
        | Some n => append_next s (ExpandToken n localData remoteData u')
        | None => (Ok s, u')
        end
    | other => other
    end.
Proof.
  intros Hun.
  pose proof (value_unresolved localData remoteData c TOKEN_IF
                tl nxt (Some thn) els u Hun) as Hv.
  cbn [ExpandToken]. rewrite Hv.
  replace (truthy (VStr ("UNDEFINED[" +:+ c +:+ "]"))) with true
    by reflexivity.
  reflexivity.
Qed.

Lemma if_unresolved_takes_then_witness :
  ExpandToken
    (mkToken TOKEN_IF (Some "$site.prod") false None
       (Some (fresh TOKEN_LITERAL (Some "P") false))
       (Some (fresh TOKEN_LITERAL (Some "D") false)))
    (VObj []) (VObj [("site", VObj [])]) []
  = (Ok "P", [("$site.prod", VBool true)]).
Proof.
  apply (if_unresolved_takes_then (VObj []) (VObj [("site", VObj [])])
           "$site.prod" false None
           (fresh TOKEN_LITERAL (Some "P") false)
           (Some (fresh TOKEN_LITERAL (Some "D") false)) []).
  apply unresolved_remote. simpl.
  eapply dangles_below; [reflexivity | simpl; auto |].
  eapply dangles_here; [reflexivity | simpl; tauto].
Defined.

Example if_unresolved_template :
  Expand "{{ if .debug }}verbose{{ else }}quiet{{ end }} mode"
    (VObj []) (VObj []) []
  = (Ok "verbose mode", [(".debug", VBool true)]).
Proof. vm_compute. reflexivity. Qed.

Lemma plain_chain_EOS (tokenList : list Token) :
  forall (fuel : nat) (this : Token),
    Forall plain (removelast (this :: tokenList)) ->
    (List.length tokenList < fuel)%nat ->
    exists this', Arrange fuel this tokenList = Ok (this', END_WITH_EOS, []).
Proof.
  induction tokenList as [|head tokenList IH]; intros fuel this Hall Hfuel.
  - destruct fuel as [|fuel]; [cbn in Hfuel; lia|]. now exists this.
  - destruct fuel as [|fuel]; [cbn in Hfuel; lia|].
    change (removelast (this :: head :: tokenList))
      with (this :: removelast (head :: tokenList)) in Hall.
    apply Forall_cons in Hall. destruct Hall as [Hthis Hall].
    destruct (IH fuel head Hall) as [head' Hhead]; [cbn in Hfuel; lia|].
    cbn [Arrange]. rewrite Hhead.
    destruct Hthis as [-> | ->]; eexists; reflexivity.
Qed.

(** X20: an [if] whose then clause holds
    only literals and variables and is followed by exactly one more token
    is rejected, whatever that token is: the last token of a stream is
    arranged against an empty list and reports the end of the stream
    before its type is looked at, so an [end] in last place closes
    nothing. *)
Theorem Arrange_if_closed_by_last_token
  (fuel : nat) (this : Token) (body : list Token) (last : Token) :
  type this = TOKEN_IF ->
  Forall plain body ->
  (List.length body + 1 < fuel)%nat ->
  Arrange fuel this (body ++ [last])
  = Throw (Error "GoTemplate: Then clause not closed with End or Else").
Proof.
  intros Hif Hbody Hfuel.
  destruct fuel as [|fuel]; [lia|].
  destruct (body ++ [last]) as [|head tokenList] eqn:E.
  { destruct body; discriminate. }
  destruct (plain_chain_EOS tokenList fuel head) as [head' Hhead].
  - rewrite <- E, removelast_last. exact Hbody.
  - apply (f_equal (@List.length Token)) in E.
    rewrite length_app in E. cbn in E. lia.
  - cbn [Arrange]. rewrite Hif, Hhead. reflexivity.
Qed.

Lemma Arrange_if_closed_by_last_token_witness :
  Arrange 3 (fresh TOKEN_IF (Some ".x") false)
    ([fresh TOKEN_LITERAL (Some "a") false] ++ [fresh TOKEN_END None false])
  = Throw (Error "GoTemplate: Then clause not closed with End or Else").
Proof.
  apply (Arrange_if_closed_by_last_token 3 (fresh TOKEN_IF (Some ".x") false)
           [fresh TOKEN_LITERAL (Some "a") false]
           (fresh TOKEN_END None false)).
  - reflexivity.
  - repeat constructor.
  - simpl. lia.
Defined.

Example if_closed_at_end_of_template :
  Expand "{{ if .x }}a{{ end }}" (VObj [("x", VBool true)]) (VObj []) []
  = (Throw (Error "GoTemplate: Then clause not closed with End or Else"), [])
  /\ Expand "{{ if .x }}a{{ end }} " (VObj [("x", VBool true)]) (VObj []) []
  = (Ok "a ", []).
Proof. split; vm_compute; reflexivity. Qed.

End GoTemplateFacts.

Module SiteTemplatesFacts.
Import Js SiteTemplates.

(** ** The order on keys *)

Lemma ascii_compare_trans (a b c : ascii) (r : comparison) :
  Ascii.compare a b = r -> Ascii.compare b c = r -> Ascii.compare a c = r.
Proof.
  unfold Ascii.compare.
  destruct (N.compare_spec (N_of_ascii a) (N_of_ascii b)) as [E1|L1|L1];
    destruct (N.compare_spec (N_of_ascii b) (N_of_ascii c)) as [E2|L2|L2];
    intros <-; try discriminate; intros _.
  - apply N.compare_eq_iff. congruence.
  - apply N.compare_lt_iff. lia.
  - apply N.compare_gt_iff. lia.
Qed.

Lemma ascii_compare_Eq_l (a b c : ascii) :
  Ascii.compare a b = Eq -> Ascii.compare a c = Ascii.compare b c.
Proof. intros H. now apply Ascii.compare_eq_iff in H as ->. Qed.

Lemma str_le_trans (a b c : string) : str_le a b -> str_le b c -> str_le a c.
Proof.
  unfold str_le, String.leb. revert b c.
  induction a as [|x a IH]; intros [|y b] [|z c]; simpl; try easy.
  destruct (Ascii.compare x y) eqn:Exy; try discriminate.
  - rewrite (ascii_compare_Eq_l _ _ z Exy).
    destruct (Ascii.compare y z) eqn:Eyz; try easy. apply IH.
  - destruct (Ascii.compare y z) eqn:Eyz; try discriminate.
    + apply Ascii.compare_eq_iff in Eyz as <-. now rewrite Exy.
    + now rewrite (ascii_compare_trans x y z Lt Exy Eyz).
Qed.

#[local] Instance str_le_transitive : Transitive str_le.
Proof. intros a b c. apply str_le_trans. Qed.

#[local] Instance str_le_antisym : AntiSymm (=) str_le.
Proof. intros a b. apply String.leb_antisym. Qed.

Lemma str_le_total (a b : string) : str_le a b \/ str_le b a.
Proof. apply String.leb_total. Qed.

(** ** [sort] sorts *)

Lemma sort_insert_perm (k : string) (l : list string) :
  sort_insert k l ≡ₚ k :: l.
Proof.
  induction l as [|h t IH]; simpl; [reflexivity|].
  destruct (String.leb k h); [reflexivity|].
  rewrite IH. apply Permutation_swap.
Qed.

Lemma sort_insert_sorted (k : string) (l : list string) :
  Sorted str_le l -> Sorted str_le (sort_insert k l).
Proof.
  induction l as [|h t IH]; simpl; intros Hs.
  - repeat constructor.
  - destruct (String.leb k h) eqn:E.
    + constructor; [exact Hs | constructor; exact E].
    + apply Sorted_inv in Hs as [Ht Hh].
      constructor; [apply IH, Ht|].
      assert (Hhk : str_le h k).
      { destruct (str_le_total k h) as [H|H]; [unfold str_le in H; congruence | exact H]. }
      destruct t as [|h' t']; simpl.
      * constructor; exact Hhk.
      * destruct (String.leb k h'); constructor; [exact Hhk|].
        now apply HdRel_inv in Hh.
Qed.

Lemma sort_perm (l : list string) : sort l ≡ₚ l.
Proof.
  induction l as [|k l IH]; simpl; [reflexivity|].
  rewrite sort_insert_perm. now rewrite IH.
Qed.

Lemma sort_sorted (l : list string) : Sorted str_le (sort l).
Proof.
  induction l as [|k l IH]; simpl; [constructor|].
  apply sort_insert_sorted, IH.
Qed.

Lemma sort_permutation_invariant (l l' : list string) :
  l ≡ₚ l' -> sort l = sort l'.
Proof.
  intros H. apply (Sorted_unique str_le); try apply sort_sorted.
  now rewrite !sort_perm.
Qed.

(** ** Objects with the same pairs *)

Lemma In_obj_keys (data : list (string * value)) (k : string) :
  In k (obj_keys data) <-> exists v, In (k, v) data.
Proof.
  unfold obj_keys. rewrite in_map_iff. split.
  - intros [[k' v] [<- H]]. now exists v.
  - intros [v H]. now exists (k, v).
Qed.

Lemma wf_get_In (data : list (string * value)) (k : string) (v : value) :
  wf data -> obj_get data k = Some v <-> In (k, v) data.
Proof. apply JsFacts.obj_get_Some_iff. Qed.

Lemma same_pairs_prop (data data' : list (string * value)) (k : string) :
  wf data -> wf data' -> same_pairs data data' -> prop data k = prop data' k.
Proof.
  intros Hwf Hwf' Hsame. unfold prop.
  destruct (obj_get data k) as [v|] eqn:E.
  - apply (wf_get_In _ _ _ Hwf), Hsame, (wf_get_In _ _ _ Hwf') in E.
    now rewrite E.
  - destruct (obj_get data' k) as [v'|] eqn:E'; [|reflexivity].
    apply (wf_get_In _ _ _ Hwf'), Hsame, (wf_get_In _ _ _ Hwf) in E'.
    congruence.
Qed.

Lemma same_pairs_keys (data data' : list (string * value)) :
  wf data -> wf data' -> same_pairs data data' ->
  obj_keys data ≡ₚ obj_keys data'.
Proof.
  intros Hwf Hwf' Hsame. apply NoDup_Permutation; [exact Hwf | exact Hwf' |].
  intros k. rewrite !list_elem_of_In, !In_obj_keys.
  split; intros [v H]; exists v; now apply Hsame.
Qed.

Lemma hash_text_ext (data data' : list (string * value)) (keys : list string) :
  (forall k, prop data k = prop data' k) ->
  hash_text data keys = hash_text data' keys.
Proof.
  intros Hext. unfold hash_text. generalize "".
  induction keys as [|k keys IH]; simpl; intros acc; [reflexivity|].
  now rewrite Hext, IH.
Qed.

(** ** The loop computes the concatenation of the sorted pairs *)

Lemma append_assoc (a b c : string) : (a +:+ b) +:+ c = a +:+ (b +:+ c).
Proof.
  induction a as [|x a IH]; [reflexivity|].
  change (String x ((a +:+ b) +:+ c) = String x (a +:+ (b +:+ c))).
  now f_equal.
Qed.

Lemma append_empty_r (a : string) : a +:+ "" = a.
Proof.
  induction a as [|x a IH]; [reflexivity|].
  change (String x (a +:+ "") = String x a). now f_equal.
Qed.

Lemma concat_empty_cons (x : string) (xs : list string) :
  String.concat "" (x :: xs) = x +:+ String.concat "" xs.
Proof.
  destruct xs as [|y ys]; simpl; [now rewrite append_empty_r | reflexivity].
Qed.

Lemma hash_text_pairs (data : list (string * value)) (keys : list string) :
  hash_text data keys = pairs_text (map (fun k => (k, prop data k)) keys).
Proof.
  unfold hash_text, pairs_text.
  enough (H : forall acc,
             fold_left (fun text key => text +:+ (key +:+ to_string (prop data key)))
               keys acc
             = acc +:+ String.concat ""
                 (map (fun kv => fst kv +:+ to_string (snd kv))
                    (map (fun k => (k, prop data k)) keys)))
    by apply (H "").
  induction keys as [|k keys IH]; intros acc.
  - simpl. now rewrite append_empty_r.
  - cbn [fold_left map]. rewrite IH, concat_empty_cons, append_assoc.
    reflexivity.
Qed.

Lemma sorted_pairs_perm (data : list (string * value)) :
  wf data -> sorted_pairs data ≡ₚ data.
Proof.
  intros Hwf. unfold sorted_pairs.
  rewrite (sort_perm (obj_keys data)). unfold obj_keys.
  rewrite map_map.
  rewrite (map_ext_in _ (fun kv => kv)); [now rewrite map_id|].
  intros [k v] Hin. cbn [fst]. f_equal. unfold prop.
  now rewrite (proj2 (wf_get_In data k v Hwf) Hin).
Qed.

Lemma sorted_pairs_keys (data : list (string * value)) :
  map fst (sorted_pairs data) = sort (obj_keys data).
Proof.
  unfold sorted_pairs. rewrite map_map. cbn [fst]. apply map_id.
Qed.

(** ** Hash stability *)

(** C5, as stated, fails in the "only if" direction: the objects
    [{a: "bc"}] and [{ab: "c"}] hold different pairs and have the same
    hash, because both concatenate to "abc". *)
Lemma HashOfData_collision :
  wf [("a", VStr "bc")] /\ wf [("ab", VStr "c")]
  /\ HashOfData [("a", VStr "bc")] = HashOfData [("ab", VStr "c")]
  /\ ~ same_pairs [("a", VStr "bc")] [("ab", VStr "c")].
Proof.
  repeat split.
  - repeat constructor. intros H. inversion H.
  - repeat constructor. intros H. inversion H.
  - intros H. destruct (H "a" (VStr "bc")) as [H1 _].
    destruct H1 as [[=]|[]]. now left.
Qed.

(** C5 (amended): objects holding identical (key, value) pairs, in
    whatever insertion order, have the same hash; and the hash is the
    SHA-1 hex digest of [key1 || value1 || key2 || value2 || ...] over the
    pairs of the object in ascending key order. *)
Theorem HashOfData_stable (data data' : list (string * value)) :
  wf data -> wf data' ->
  (same_pairs data data' -> HashOfData data = HashOfData data')
  /\ HashOfData data = Crypto.sha1_hex (pairs_text (sorted_pairs data))
  /\ sorted_pairs data ≡ₚ data
  /\ Sorted str_le (map fst (sorted_pairs data)).
Proof.
  intros Hwf Hwf'. repeat split.
  - intros Hsame. unfold HashOfData.
    rewrite (sort_permutation_invariant _ _ (same_pairs_keys _ _ Hwf Hwf' Hsame)).
    f_equal. apply hash_text_ext. intros k. now apply same_pairs_prop.
  - unfold HashOfData. now rewrite hash_text_pairs.
  - now apply sorted_pairs_perm.
  - rewrite sorted_pairs_keys. apply sort_sorted.
Qed.

Lemma HashOfData_stable_witness :
  HashOfData [("a", VNum 1); ("b", VNum 2)]
  = HashOfData [("b", VNum 2); ("a", VNum 1)].
Proof.
  assert (Hwf : wf [("a", VNum 1); ("b", VNum 2)]).
  { repeat constructor; [intros H; inversion H as [|? ? ? H']; inversion H'
                        | intros H; inversion H]. }
  assert (Hwf' : wf [("b", VNum 2); ("a", VNum 1)]).
  { repeat constructor; [intros H; inversion H as [|? ? ? H']; inversion H'
                        | intros H; inversion H]. }
  apply (proj1 (HashOfData_stable _ _ Hwf Hwf')).
  intros k v. simpl. tauto.
Defined.


(** ** The hash without the children *)

Lemma obj_set_fresh (data : list (string * value)) (k : string) (v : value) :
  ~ In k (obj_keys data) -> obj_set data k v = data ++ [(k, v)].
Proof.
  induction data as [|[k' v'] data IH]; intros Hk; [reflexivity|].
  cbn [obj_set]. destruct (String.eqb_spec k' k) as [->|Hne].
  - exfalso. apply Hk. now left.
  - cbn [app]. f_equal. apply IH. intros Hin. apply Hk. now right.
Qed.

Lemma no_children_filter (obj : list (string * value)) :
  wf obj ->
  no_children obj = List.filter (fun entry => negb (is_object (snd entry))) obj.
Proof.
  unfold no_children, wf.
  enough (H : forall data,
            NoDup (obj_keys (data ++ obj)) ->
            fold_left (fun data entry =>
                         if is_object (snd entry) then data
                         else obj_set data (fst entry) (snd entry)) obj data
            = data ++ List.filter (fun entry => negb (is_object (snd entry))) obj)
    by (intros Hwf; exact (H [] Hwf)).
  induction obj as [|[k v] obj IH]; intros data Hnd.
  - cbn. now rewrite app_nil_r.
  - cbn [fold_left List.filter fst snd].
    assert (Hfresh : ~ In k (obj_keys data)).
    { unfold obj_keys in *. rewrite map_app in Hnd.
      apply NoDup_app in Hnd. destruct Hnd as (_ & Hdis & _).
      intros Hin. apply list_elem_of_In in Hin.
      apply (Hdis k Hin). cbn. left. }
    destruct (is_object v); cbn [negb].
    + apply IH. unfold obj_keys in *. rewrite !map_app in *. cbn [map] in Hnd.
      apply NoDup_app in Hnd. destruct Hnd as (H1 & H2 & H3).
      apply NoDup_cons in H3. destruct H3 as [_ H3].
      apply NoDup_app. split; [exact H1|]. split; [|exact H3].
      intros x Hx Hx'. apply (H2 x Hx). now right.
    + rewrite obj_set_fresh by exact Hfresh. rewrite IH.
      * now rewrite <- app_assoc.
      * now rewrite <- app_assoc.
Qed.

Lemma filter_wf (obj : list (string * value)) (p : string * value -> bool) :
  wf obj -> wf (List.filter p obj).
Proof.
  unfold wf, obj_keys. induction obj as [|[k v] obj IH]; intros Hnd;
    [exact Hnd|].
  cbn [map fst] in Hnd. apply NoDup_cons in Hnd. destruct Hnd as [Hk Hnd].
  cbn [List.filter]. destruct (p (k, v)); [|now apply IH].
  cbn [map fst]. apply NoDup_cons. split; [|now apply IH].
  intros Hin. apply Hk. apply list_elem_of_In in Hin.
  apply list_elem_of_In. apply in_map_iff in Hin.
  destruct Hin as [[k' v'] [Hfst Hin]]. apply filter_In in Hin.
  apply in_map_iff. exists (k', v'). split; [exact Hfst | tauto].
Qed.

(** X27: the hash looks at the
    entries whose value is not of type object only.  Two objects that
    hold the same such entries, in whatever order, have the same hash,
    whatever their nested objects hold and whichever of their fields are
    null: [typeof null] is [object] too. *)
Theorem HashOfObjectNoChildren_ignores_children
  (obj obj' : list (string * value)) :
  wf obj -> wf obj' ->
  (forall k v, is_object v = false -> In (k, v) obj <-> In (k, v) obj') ->
  HashOfObjectNoChildren obj = HashOfObjectNoChildren obj'.
Proof.
  intros Hwf Hwf' Hsame. unfold HashOfObjectNoChildren.
  rewrite !no_children_filter by assumption.
  set (scalar := fun entry : string * value => negb (is_object (snd entry))).
  assert (Hw : wf (List.filter scalar obj)) by now apply filter_wf.
  assert (Hw' : wf (List.filter scalar obj')) by now apply filter_wf.
  assert (Hpairs : same_pairs (List.filter scalar obj)
                              (List.filter scalar obj')).
  { intros k v. rewrite !filter_In. unfold scalar. cbn [snd].
    destruct (is_object v) eqn:E; cbn [negb]; [split; intros [_ [=]]|].
    rewrite (Hsame k v E). tauto. }
  unfold HashOfData.
  rewrite (sort_permutation_invariant _ _
             (same_pairs_keys _ _ Hw Hw' Hpairs)).
  f_equal. apply hash_text_ext. intros k. now apply same_pairs_prop.
Qed.

Lemma HashOfObjectNoChildren_ignores_children_witness :
  HashOfObjectNoChildren
    [("name", VStr "db"); ("port", VNum 5432);
     ("interfaces", VObj [("listen", VStr "tcp")]); ("owner", VNull)]
  = HashOfObjectNoChildren
      [("port", VNum 5432); ("interfaces", VObj []); ("name", VStr "db")].
Proof.
  apply HashOfObjectNoChildren_ignores_children.
  - apply (bool_decide_unpack _). vm_compute. exact I.
  - apply (bool_decide_unpack _). vm_compute. exact I.
  - intros k v Hv. cbn. split.
    + intros [[= <- <-]|[[= <- <-]|[[= <- <-]|[[= <- <-]|[]]]]];
        try discriminate; auto.
    + intros [[= <- <-]|[[= <- <-]|[[= <- <-]|[]]]];
        try discriminate; auto.
Defined.

End SiteTemplatesFacts.

(** ** Reasoning about what a computation leaves behind *)

Module PgFacts.
Import Js Schema Pg.
Local Open Scope pg_scope.

Section Rules.
Context {S : Type}.
Implicit Types P Q R : S -> Prop.

Lemma hoare_ret {A : Type} P (a : A) : hoare P (ret a) P.
Proof. intros s H. exact H. Qed.

Lemma hoare_throw {A : Type} P (e : exn) : hoare P (throw (A := A) e) P.
Proof. intros s H. exact H. Qed.

Lemma hoare_bind {A B : Type} P Q R (m : M S A) (k : A -> M S B) :
  hoare P m Q -> (forall s, Q s -> R s) -> (forall a, hoare Q (k a) R) ->
  hoare P (bind m k) R.
Proof.
  intros Hm Hsub Hk s Hs. unfold bind. specialize (Hm s Hs).
  destruct (m s) as [[e|a] s']; cbn in *; [auto|]. now apply Hk.
Qed.

Lemma hoare_try_catch {A : Type} P Q R (body : M S A) (handler : exn -> M S A) :
  hoare P body Q -> (forall s, Q s -> R s) -> (forall e, hoare Q (handler e) R) ->
  hoare P (try_catch body handler) R.
Proof.
  intros Hb Hsub Hh s Hs. unfold try_catch. specialize (Hb s Hs).
  destruct (body s) as [[e|a] s']; cbn in *; [now apply Hh | auto].
Qed.

Lemma hoare_weaken {A : Type} P P' Q Q' (m : M S A) :
  hoare P m Q -> (forall s, P' s -> P s) -> (forall s, Q s -> Q' s) ->
  hoare P' m Q'.
Proof. intros H H1 H2 s Hs. apply H2, H, H1, Hs. Qed.

End Rules.

Section Statements.
Implicit Types P : client -> Prop.

Lemma hoare_query {A : Type} P Q (kind : stmt) (run : db -> exn + (A * db)) :
  data_only Q ->
  (forall c, P c -> Q c) ->
  (forall c a d, P c -> run (store c) = inr (a, d) ->
     Q (mkClient d (snapshot c) (log c) (fault c))) ->
  hoare P (query kind run) Q.
Proof.
  intros Hdata Hsub Hrun c Hc. unfold query.
  cbn [the_client put_client client_HasClient].
  destruct (fault c kind (issued c)).
  - cbn. apply (Hdata c); auto.
  - destruct (run (store c)) as [e|[a d]] eqn:E; cbn.
    + apply (Hdata c); auto.
    + apply (Hdata (mkClient d (snapshot c) (log c) (fault c))); eauto.
Qed.

Lemma hoare_select {A : Type} P (rows : db -> A) :
  data_only P -> hoare P (select rows) P.
Proof.
  intros Hdata. apply hoare_query; auto.
  intros c a d Hc [= _ <-]. apply (Hdata c); auto.
Qed.

Lemma hoare_execute P Q (kind : stmt) (effect : db -> db) :
  data_only Q ->
  (forall c, P c -> Q c) ->
  (forall c, P c -> Q (mkClient (effect (store c)) (snapshot c) (log c) (fault c))) ->
  hoare P (execute kind effect) Q.
Proof.
  intros Hdata Hsub Heff. apply hoare_query; auto.
  intros c a d Hc [= _ <-]. auto.
Qed.

Lemma hoare_BEGIN P Q :
  data_only Q ->
  (forall c, P c -> Q c) ->
  (forall c, P c ->
     Q (mkClient (store c)
                 (Some match snapshot c with Some d0 => d0 | None => store c end)
                 (log c) (fault c))) ->
  hoare P (query_BEGIN (S := client)) Q.
Proof.
  intros Hdata Hsub Hb c Hc. unfold query_BEGIN.
  cbn [the_client put_client client_HasClient].
  destruct (fault c BEGIN (issued c)); cbn.
  - apply (Hdata c); auto.
  - eapply Hdata; [| |apply (Hb c Hc)]; cbn; auto.
    now destruct (snapshot c).
Qed.

Lemma hoare_COMMIT P Q :
  data_only Q ->
  (forall c, P c -> Q c) ->
  (forall c, P c -> Q (mkClient (store c) None (log c) (fault c))) ->
  hoare P (query_COMMIT (S := client)) Q.
Proof.
  intros Hdata Hsub Hb c Hc. unfold query_COMMIT.
  cbn [the_client put_client client_HasClient].
  destruct (fault c COMMIT (issued c)); cbn.
  - apply (Hdata c); auto.
  - eapply Hdata; [| |apply (Hb c Hc)]; cbn; auto.
Qed.

Lemma hoare_ROLLBACK P Q :
  data_only Q ->
  (forall c, P c -> Q c) ->
  (forall c, P c ->
     Q (mkClient match snapshot c with Some d0 => d0 | None => store c end
                 None (log c) (fault c))) ->
  hoare P (query_ROLLBACK (S := client)) Q.
Proof.
  intros Hdata Hsub Hb c Hc. unfold query_ROLLBACK.
  cbn [the_client put_client client_HasClient].
  destruct (fault c ROLLBACK (issued c)); cbn.
  - apply (Hdata c); auto.
  - eapply Hdata; [| |apply (Hb c Hc)]; cbn; auto.
Qed.

(** [result <- select rows ;; k result]: the continuation runs on the
    rows of the tables it starts from. *)
Lemma hoare_bind_select {A B : Type} P R (rows : db -> A) (k : A -> M client B) :
  data_only P ->
  (forall c, P c -> R c) ->
  (forall c0, P c0 ->
     hoare (fun c => P c /\ store c = store c0) (k (rows (store c0))) R) ->
  hoare P (bind (select rows) k) R.
Proof.
  intros Hdata Hsub Hk c Hc. unfold bind, select, query.
  cbn [the_client put_client client_HasClient].
  destruct (fault c SELECT (issued c)); cbn.
  - apply Hsub. apply (Hdata c); auto.
  - apply (Hk c Hc). split; [apply (Hdata c); auto | reflexivity].
Qed.

End Statements.

End PgFacts.

(** ** Reasoning about what a computation returns and leaves behind *)

Module TripleFacts.
Import Js Schema Pg.
Local Open Scope pg_scope.

Section Rules.
Context {S : Type}.
Implicit Types P E : S -> Prop.

Lemma triple_ret {A : Type} P (a : A) (Q : A -> S -> Prop) E :
  (forall s, P s -> Q a s) -> triple P (ret a) Q E.
Proof. intros H s Hs. apply H, Hs. Qed.

Lemma triple_throw {A : Type} P (e : exn) (Q : A -> S -> Prop) E :
  (forall s, P s -> E s) -> triple P (throw e) Q E.
Proof. intros H s Hs. apply H, Hs. Qed.

Lemma triple_bind {A B : Type} P (m : M S A) (k : A -> M S B)
  (Q1 : A -> S -> Prop) (Q : B -> S -> Prop) E :
  triple P m Q1 E -> (forall a, triple (Q1 a) (k a) Q E) ->
  triple P (bind m k) Q E.
Proof.
  intros Hm Hk s Hs. unfold bind. specialize (Hm s Hs).
  destruct (m s) as [[e|a] s']; [exact Hm | exact (Hk a s' Hm)].
Qed.

Lemma triple_try_catch {A : Type} P (body : M S A) (handler : exn -> M S A)
  (Q : A -> S -> Prop) E1 E :
  triple P body Q E1 -> (forall e, triple E1 (handler e) Q E) ->
  triple P (try_catch body handler) Q E.
Proof.
  intros Hb Hh s Hs. unfold try_catch. specialize (Hb s Hs).
  destruct (body s) as [[e|a] s']; [exact (Hh e s' Hb) | exact Hb].
Qed.

Lemma triple_conseq {A : Type} P P' (m : M S A) (Q Q' : A -> S -> Prop) E E' :
  triple P m Q E ->
  (forall s, P' s -> P s) ->
  (forall a s, Q a s -> Q' a s) ->
  (forall s, E s -> E' s) ->
  triple P' m Q' E'.
Proof.
  intros H HP HQ HE s Hs. specialize (H s (HP s Hs)).
  destruct (m s) as [[e|a] s']; auto.
Qed.

(** A fact that does not depend on the state may be used at once. *)
Lemma triple_assume {A : Type} (fact : Prop) P (m : M S A)
  (Q : A -> S -> Prop) E :
  (fact -> triple P m Q E) -> triple (fun s => fact /\ P s) m Q E.
Proof. intros H s [Hf Hs]. exact (H Hf s Hs). Qed.

End Rules.

Section Statements.
Implicit Types P E : client -> Prop.

Lemma triple_query {A : Type} P (kind : stmt) (run : db -> exn + (A * db))
  (Q : A -> client -> Prop) E :
  (forall c, P c ->
     fault c kind (issued c) = true \/ (exists e, run (store c) = inl e) ->
     E (refused c kind)) ->
  (forall c a d, P c -> fault c kind (issued c) = false ->
     run (store c) = inr (a, d) ->
     Q a (sent c kind d (snapshot c))) ->
  triple P (query kind run) Q E.
Proof.
  intros He Hq c Hc. unfold query.
  cbn [the_client put_client client_HasClient].
  destruct (fault c kind (issued c)) eqn:F; [apply He; auto|].
  destruct (run (store c)) as [e|[a d]] eqn:R; [apply He; eauto|].
  now apply Hq.
Qed.

Lemma triple_select {A : Type} P (rows : db -> A) (Q : A -> client -> Prop) E :
  (forall c, P c -> fault c SELECT (issued c) = true ->
     E (refused c SELECT)) ->
  (forall c, P c -> fault c SELECT (issued c) = false ->
     Q (rows (store c)) (sent c SELECT (store c) (snapshot c))) ->
  triple P (select rows) Q E.
Proof.
  intros He Hq c Hc. unfold select, query.
  cbn [the_client put_client client_HasClient].
  destruct (fault c SELECT (issued c)) eqn:F; auto.
Qed.

Lemma triple_execute P (kind : stmt) (effect : db -> db)
  (Q : unit -> client -> Prop) E :
  (forall c, P c -> fault c kind (issued c) = true -> E (refused c kind)) ->
  (forall c, P c -> fault c kind (issued c) = false ->
     Q tt (sent c kind (effect (store c)) (snapshot c))) ->
  triple P (execute kind effect) Q E.
Proof.
  intros He Hq c Hc. unfold execute, query.
  cbn [the_client put_client client_HasClient].
  destruct (fault c kind (issued c)) eqn:F; auto.
Qed.

Lemma triple_BEGIN P (Q : unit -> client -> Prop) E :
  (forall c, P c -> fault c BEGIN (issued c) = true -> E (refused c BEGIN)) ->
  (forall c, P c -> fault c BEGIN (issued c) = false ->
     Q tt (sent c BEGIN (store c)
             (Some match snapshot c with Some d0 => d0 | None => store c end))) ->
  triple P (query_BEGIN (S := client)) Q E.
Proof.
  intros He Hq c Hc. unfold query_BEGIN.
  cbn [the_client put_client client_HasClient].
  destruct (fault c BEGIN (issued c)) eqn:F; [auto|].
  specialize (Hq c Hc F). now destruct (snapshot c).
Qed.

Lemma triple_COMMIT P (Q : unit -> client -> Prop) E :
  (forall c, P c -> fault c COMMIT (issued c) = true ->
     E (refused c COMMIT)) ->
  (forall c, P c -> fault c COMMIT (issued c) = false ->
     Q tt (sent c COMMIT (store c) None)) ->
  triple P (query_COMMIT (S := client)) Q E.
Proof.
  intros He Hq c Hc. unfold query_COMMIT.
  cbn [the_client put_client client_HasClient].
  destruct (fault c COMMIT (issued c)) eqn:F; auto.
Qed.

Lemma triple_ROLLBACK P (Q : unit -> client -> Prop) E :
  (forall c, P c -> fault c ROLLBACK (issued c) = true ->
     E (refused c ROLLBACK)) ->
  (forall c, P c -> fault c ROLLBACK (issued c) = false ->
     Q tt (sent c ROLLBACK
             match snapshot c with Some d0 => d0 | None => store c end
             None)) ->
  triple P (query_ROLLBACK (S := client)) Q E.
Proof.
  intros He Hq c Hc. unfold query_ROLLBACK.
  cbn [the_client put_client client_HasClient].
  destruct (fault c ROLLBACK (issued c)) eqn:F; auto.
Qed.

End Statements.

End TripleFacts.

Module ClaimServerFacts.
Import Js Schema Pg ClaimServer.

(** ** The completion slot *)

(** C9: for a member whose slot has been registered, completing before
    the waiter attaches, completing after it has attached, and attaching
    while [CompleteMember] is suspended in [memberCompletion] all end in
    the same state: the promise of [blockForCompletion] is resolved with
    the completion result (or rejected with the completion error), and the
    slot is gone. *)
Theorem completion_race_safe (s : state) (memberId : uuid)
  (completed : exn + completion_result) :
  memberCompletions s !! memberId = Some (mkCompletion None None false) ->
  let final :=
    mkState (client s) (delete memberId (memberCompletions s))
            (settled s ++ [(memberId, settlement_of completed)]) in
  (* CompleteMember first, blockForCompletion second *)
  fst (CompleteMember memberId completed s) = inr tt
  /\ blockForCompletion memberId (snd (CompleteMember memberId completed s))
     = final
  (* blockForCompletion first, CompleteMember second *)
  /\ CompleteMember memberId completed (blockForCompletion memberId s)
     = (inr tt, final)
  (* blockForCompletion while CompleteMember awaits memberCompletion *)
  /\ CompleteMember_begin memberId s = true
  /\ CompleteMember_resume memberId completed (blockForCompletion memberId s)
     = (inr tt, final).
Proof.
  intros Hslot final.
  assert (Hbegin : CompleteMember_begin memberId s = true).
  { unfold CompleteMember_begin. apply bool_decide_eq_true. rewrite Hslot. eauto. }
  assert (Hblock : blockForCompletion memberId s
                   = set_memberCompletions
                       (insert memberId (mkCompletion None None true)) s).
  { unfold blockForCompletion. now rewrite Hslot. }
  assert (Hresume : CompleteMember_resume memberId completed
                      (blockForCompletion memberId s) = (inr tt, final)).
  { rewrite Hblock. unfold CompleteMember_resume, run_callback.
    cbn [memberCompletions set_memberCompletions].
    rewrite lookup_insert_eq.
    destruct completed as [e|r]; cbn [callback result error];
      cbn [memberCompletions set_memberCompletions];
      rewrite lookup_insert_eq; cbn [result error];
      unfold settle, set_memberCompletions, final;
      cbn [client memberCompletions settled settlement_of];
      now rewrite !delete_insert_eq. }
  repeat split; try assumption.
  - unfold CompleteMember. rewrite Hbegin. unfold CompleteMember_resume.
    rewrite Hslot. now destruct completed.
  - unfold CompleteMember. rewrite Hbegin. unfold CompleteMember_resume.
    rewrite Hslot. unfold blockForCompletion, run_callback.
    destruct completed as [e|r]; cbn [callback snd];
      cbn [memberCompletions set_memberCompletions];
      rewrite lookup_insert_eq; cbn [result error defined orb];
      cbn [memberCompletions set_memberCompletions];
      rewrite lookup_insert_eq; cbn [result error];
      unfold settle, set_memberCompletions, final;
      cbn [client memberCompletions settled settlement_of];
      now rewrite !delete_insert_eq.
  - unfold CompleteMember.
    replace (CompleteMember_begin memberId (blockForCompletion memberId s))
      with true; [exact Hresume|].
    symmetry. rewrite Hblock. unfold CompleteMember_begin.
    apply bool_decide_eq_true. cbn [memberCompletions set_memberCompletions].
    rewrite lookup_insert_eq. eauto.
Qed.

Lemma completion_race_safe_witness :
  let s := mkState idle_client {[ "m1" := mkCompletion None None false ]} [] in
  blockForCompletion "m1" (snd (CompleteMember "m1" (inr ([], VNull)) s))
  = mkState idle_client (delete "m1" {[ "m1" := mkCompletion None None false ]})
            [("m1", Resolved ([], VNull))].
Proof.
  intros s.
  apply (completion_race_safe s "m1" (inr ([], VNull))).
  apply lookup_singleton_eq.
Defined.

(** ** The instance limit *)


Lemma select_invitation_In (claimId : uuid) (now : timestamptz) (d : db)
  (claim : MemberInvitation.t) :
  In claim (select_invitation claimId now d) ->
  In claim (MemberInvitations d) /\ MemberInvitation.Id claim = claimId.
Proof.
  unfold select_invitation. rewrite <- list_elem_of_In, list_elem_of_filter.
  rewrite list_elem_of_In. intros [Hp Hin]. split; [exact Hin|].
  apply Is_true_true, andb_true_iff in Hp as [Hid _].
  now apply String.eqb_eq.
Qed.



Local Open Scope pg_scope.

(** ** Claims that are accepted *)

(** X14: for a claim id that is the text of a uuid
    as the database prints it: when the one valid invitation has not
    reached its limit and the database refuses nothing, [processClaim]
    sends BEGIN, SELECT, UPDATE, INSERT and COMMIT: the InstanceCount of
    the invitation goes up by one, one MemberSite row is inserted that
    takes MemberOf, Invitation and SiteClasses from the invitation and
    whose Metadata is the JSON text of the name, the completion slot of
    the new member is registered before the COMMIT, and the call then
    waits for the completion with its callback installed. *)
Theorem processClaim_accepted (s : state) (claimId name : string)
  (now : timestamptz) (new_id : uuid) (claim : MemberInvitation.t) :
  canonical_uuid claimId = true ->
  reliable (client s) [BEGIN; SELECT; UPDATE; INSERT; COMMIT] ->
  snapshot (client s) = None ->
  select_invitation claimId now (store (client s)) = [claim] ->
  limit_reached claim = false ->
  processClaim claimId name now new_id s
  = (Waiting new_id,
     mkState
       (mkClient
          (insert_member new_id name claim
             (update_count (next_count claim) claimId (store (client s))))
          None
          (log (client s)
           ++ [(BEGIN, true); (SELECT, true); (UPDATE, true); (INSERT, true);
               (COMMIT, true)])
          (fault (client s)))
       (<[new_id := mkCompletion None None true]> (memberCompletions s))
       (settled s)).
Proof.
  intros _ Hrel Hsnap Hsel Hlimit.
  destruct s as [[d snap lg f] mc st]. cbn in Hsnap, Hsel, Hrel. subst snap.
  unfold processClaim, claim_allocate, claim_commit, bind, query_BEGIN,
    query_COMMIT, select, execute, query, modify, ret, refused, issued, sent.
  cbn [the_client put_client state_HasClient client store snapshot log
       fault memberCompletions settled].
  rewrite (Hrel BEGIN) by (simpl; tauto).
  cbn [the_client put_client state_HasClient client store snapshot log
       fault memberCompletions settled].
  rewrite (Hrel SELECT) by (simpl; tauto). rewrite Hsel, Hlimit.
  cbn [the_client put_client state_HasClient client store snapshot log
       fault memberCompletions settled].
  rewrite (Hrel UPDATE) by (simpl; tauto).
  cbn [the_client put_client state_HasClient client store snapshot log
       fault memberCompletions settled].
  rewrite (Hrel INSERT) by (simpl; tauto).
  cbn [the_client put_client state_HasClient client store snapshot log
       fault memberCompletions settled set_memberCompletions].
  rewrite (Hrel COMMIT) by (simpl; tauto).
  cbn [the_client put_client state_HasClient client store snapshot log
       fault memberCompletions settled set_memberCompletions].
  unfold blockForCompletion. cbn [memberCompletions].
  rewrite lookup_insert_eq. cbn [result error defined orb].
  unfold set_memberCompletions. cbn [client memberCompletions settled].
  rewrite insert_insert_eq. now rewrite <- !app_assoc.
Qed.

Lemma processClaim_accepted_witness :
  let out := processClaim "0b5c3e0a-7f1d-4c2b-9a6e-3d2f1c0b9a8e"
               (String (ascii_of_nat 9) "m2") 100
               "7a6b5c4d-3e2f-4a1b-8c0d-9e8f7a6b5c4d" open_state in
  fst out = Waiting "7a6b5c4d-3e2f-4a1b-8c0d-9e8f7a6b5c4d"
  /\ map MemberInvitation.InstanceCount
         (MemberInvitations (store (client (snd out)))) = [Some 2]
  /\ map MemberSite.Invitation (MemberSites (store (client (snd out))))
     = [Some "0b5c3e0a-7f1d-4c2b-9a6e-3d2f1c0b9a8e"]
  /\ map MemberSite.Metadata (MemberSites (store (client (snd out))))
     = [Some ("{" +:+ dquote +:+ "name" +:+ dquote +:+ ":" +:+ dquote
              +:+ String backslash "tm2" +:+ dquote +:+ "}")]
  /\ memberCompletions (snd out) !! "7a6b5c4d-3e2f-4a1b-8c0d-9e8f7a6b5c4d"
     = Some (mkCompletion None None true).
Proof.
  cbv zeta.
  rewrite (processClaim_accepted open_state
             "0b5c3e0a-7f1d-4c2b-9a6e-3d2f1c0b9a8e"
             (String (ascii_of_nat 9) "m2") 100
             "7a6b5c4d-3e2f-4a1b-8c0d-9e8f7a6b5c4d" open_invitation);
    [| reflexivity | intros kind n _; reflexivity | reflexivity | reflexivity
     | reflexivity].
  cbn [fst snd client store memberCompletions].
  split; [reflexivity|]. split; [reflexivity|]. split; [reflexivity|].
  split; [reflexivity|].
  apply lookup_insert_eq.
Defined.


(** The metadata of a member whose name holds a tab, a quote and a
    character below U+0020 without a letter of its own. *)
Example metadata_escapes_control_characters :
  metadata_of_name
    (String (ascii_of_nat 9)
       (String (ascii_of_nat 34) (String (ascii_of_nat 1) "m")))
  = "{" +:+ dquote +:+ "name" +:+ dquote +:+ ":" +:+ dquote
    +:+ String backslash "t" +:+ String backslash dquote
    +:+ String backslash "u0001" +:+ "m" +:+ dquote +:+ "}".
Proof. reflexivity. Qed.

(** ** Claims without a valid invitation *)

(** X15: for a claim id that is the text of a
    uuid as the database prints it, and when BEGIN, SELECT and ROLLBACK
    go through: if no invitation with the claimed identifier exists, or
    the join deadline of each has passed (a deadline equal to the clock
    has passed), the claim is answered with status 400 and "No valid
    invitation exists for the claim"; the transaction is rolled back,
    and no table and no completion slot changes.  (For text that is not
    a uuid the database refuses the SELECT, and the reply carries the
    message of the database instead.) *)
Theorem processClaim_no_invitation (s : state) (claimId name : string)
  (now : timestamptz) (new_id : uuid) :
  canonical_uuid claimId = true ->
  reliable (client s) [BEGIN; SELECT; ROLLBACK] ->
  snapshot (client s) = None ->
  (forall claim,
     In claim (MemberInvitations (store (client s))) ->
     MemberInvitation.Id claim = claimId ->
     exists deadline,
       MemberInvitation.JoinDeadline claim = Some deadline /\ deadline <= now) ->
  processClaim claimId name now new_id s
  = (Returned 400 "Claim rejected: No valid invitation exists for the claim"
              None None None,
     mkState
       (mkClient (store (client s)) None
          (log (client s) ++ [(BEGIN, true); (SELECT, true); (ROLLBACK, true)])
          (fault (client s)))
       (memberCompletions s) (settled s)).
Proof.
  intros _ Hrel Hsnap Hexpired.
  assert (Hnone : select_invitation claimId now (store (client s)) = []).
  { destruct (select_invitation claimId now (store (client s)))
      as [|claim rest] eqn:E; [reflexivity|].
    assert (Hin : In claim (select_invitation claimId now (store (client s))))
      by (rewrite E; now left).
    pose proof Hin as Hp. unfold select_invitation in Hp.
    apply list_elem_of_In, list_elem_of_filter in Hp as [Hp _].
    apply Is_true_true, andb_true_iff in Hp as [_ Hd].
    apply select_invitation_In in Hin as [Hin Hid].
    destruct (Hexpired claim Hin Hid) as (deadline & Hdl & Hle).
    rewrite Hdl in Hd. apply Z.ltb_lt in Hd. lia. }
  destruct s as [[d snap lg f] mc st]. cbn in Hsnap, Hnone, Hrel. subst snap.
  unfold processClaim, claim_allocate, claim_rejected, bind, query_BEGIN,
    query_ROLLBACK, select, query, throw, refused, issued, sent.
  cbn [the_client put_client state_HasClient client store snapshot log
       fault memberCompletions settled].
  rewrite (Hrel BEGIN) by (simpl; tauto).
  cbn [the_client put_client state_HasClient client store snapshot log
       fault memberCompletions settled].
  rewrite (Hrel SELECT) by (simpl; tauto). rewrite Hnone.
  cbn [the_client put_client state_HasClient client store snapshot log
       fault memberCompletions settled].
  rewrite (Hrel ROLLBACK) by (simpl; tauto).
  cbn [the_client put_client state_HasClient client store snapshot log
       fault memberCompletions settled message].
  now rewrite <- !app_assoc.
Qed.

Lemma processClaim_no_invitation_witness :
  fst (processClaim "0b5c3e0a-7f1d-4c2b-9a6e-3d2f1c0b9a8e" "m-1" 100
         "7a6b5c4d-3e2f-4a1b-8c0d-9e8f7a6b5c4d"
         (mkState (connect expired_db (fun _ _ => false)) ∅ []))
  = Returned 400 "Claim rejected: No valid invitation exists for the claim"
             None None None.
Proof.
  rewrite (processClaim_no_invitation
             (mkState (connect expired_db (fun _ _ => false)) ∅ [])
             "0b5c3e0a-7f1d-4c2b-9a6e-3d2f1c0b9a8e" "m-1" 100
             "7a6b5c4d-3e2f-4a1b-8c0d-9e8f7a6b5c4d").
  - reflexivity.
  - reflexivity.
  - intros kind n _. reflexivity.
  - reflexivity.
  - intros claim [<-|[]] _. exists 50. split; [reflexivity | lia].
Defined.


(** ** The count stays within the limit *)

Lemma NoDup_map_inj {A B : Type} (f : A -> B) (l : list A) (a b : A) :
  NoDup (map f l) -> In a l -> In b l -> f a = f b -> a = b.
Proof.
  induction l as [|x l IH]; intros Hnd Ha Hb Hf; [destruct Ha|].
  cbn [map] in Hnd. apply NoDup_cons in Hnd as [Hnotin Hnd].
  destruct Ha as [->|Ha], Hb as [->|Hb]; auto.
  - exfalso. apply Hnotin. rewrite Hf. apply list_elem_of_In. now apply in_map.
  - exfalso. apply Hnotin. rewrite <- Hf. apply list_elem_of_In. now apply in_map.
Qed.

Lemma within_limit_next (claim : MemberInvitation.t) :
  within_limit claim -> limit_reached claim = false ->
  within_limit (set_InstanceCount (next_count claim) claim).
Proof.
  intros Hw Hnot limit count Hl Hpos [= <-]. cbn in Hl.
  unfold limit_reached in Hnot. rewrite Hl in Hnot. unfold next_count.
  destruct (Z.eqb_spec limit 0); [lia|].
  destruct (MemberInvitation.InstanceCount claim) as [c|] eqn:Hc; [|lia].
  apply Z.eqb_neq in Hnot. specialize (Hw limit c Hl Hpos Hc). lia.
Qed.

Lemma update_count_within_limit (d : db) (claimId : uuid) (now : timestamptz)
  (claim : MemberInvitation.t) :
  NoDup (map MemberInvitation.Id (MemberInvitations d)) ->
  Forall within_limit (MemberInvitations d) ->
  In claim (select_invitation claimId now d) ->
  limit_reached claim = false ->
  Forall within_limit
    (MemberInvitations (update_count (next_count claim) claimId d)).
Proof.
  intros Hnd Hall Hsel Hnot.
  apply select_invitation_In in Hsel as [Hin Hid].
  unfold update_count, with_MemberInvitations. cbn [MemberInvitations].
  apply Forall_forall. intros r' Hr'.
  apply list_elem_of_In, in_map_iff in Hr' as (r & <- & Hr).
  rewrite Forall_forall in Hall.
  destruct (String.eqb (MemberInvitation.Id r) claimId) eqn:E;
    [|now apply Hall, list_elem_of_In].
  apply String.eqb_eq in E.
  assert (r = claim) as ->.
  { apply (NoDup_map_inj MemberInvitation.Id (MemberInvitations d)); auto.
    congruence. }
  apply within_limit_next; [|exact Hnot].
  now apply Hall, list_elem_of_In.
Qed.

(** X16: [processClaim] keeps the instance count
    within the limit.  If the identifiers of the invitations are distinct
    and no invitation with a positive limit has a count above it, then the
    same holds after a claim, accepted or rejected, whatever the database
    refuses on the way. *)
Theorem processClaim_keeps_limit (s : state) (claimId name : string)
  (now : timestamptz) (new_id : uuid) :
  snapshot (client s) = None ->
  NoDup (map MemberInvitation.Id (MemberInvitations (store (client s)))) ->
  Forall within_limit (MemberInvitations (store (client s))) ->
  Forall within_limit
    (MemberInvitations
       (store (client (snd (processClaim claimId name now new_id s))))).
Proof.
  intros Hsnap Hnd Hall.
  destruct s as [[d snap lg f] mc st]. cbn in Hsnap, Hnd, Hall. subst snap.
  unfold processClaim, claim_allocate, claim_commit, claim_rejected, bind,
    query_BEGIN, query_COMMIT, query_ROLLBACK, select, execute, query, modify,
    ret, throw, refused, issued, sent.
  cbn [the_client put_client state_HasClient client store snapshot log
       fault memberCompletions settled].
  destruct (f BEGIN _);
    cbn [the_client put_client state_HasClient client store snapshot log
         fault memberCompletions settled fst snd].
  { destruct (f ROLLBACK _); cbn; exact Hall. }
  destruct (f SELECT _);
    cbn [the_client put_client state_HasClient client store snapshot log
         fault memberCompletions settled fst snd].
  { destruct (f ROLLBACK _); cbn; exact Hall. }
  destruct (select_invitation claimId now d) as [|claim [|claim' rest]] eqn:Hsel;
    cbn [the_client put_client state_HasClient client store snapshot log
         fault memberCompletions settled fst snd].
  1,3: destruct (f ROLLBACK _); cbn; exact Hall.
  destruct (limit_reached claim) eqn:Hlimit;
    cbn [the_client put_client state_HasClient client store snapshot log
         fault memberCompletions settled fst snd].
  { destruct (f ROLLBACK _); cbn; exact Hall. }
  assert (Hupd : Forall within_limit
                   (MemberInvitations (update_count (next_count claim) claimId d))).
  { apply (update_count_within_limit d claimId now claim); auto.
    rewrite Hsel. now left. }
  destruct (f UPDATE _);
    cbn [the_client put_client state_HasClient client store snapshot log
         fault memberCompletions settled fst snd].
  { destruct (f ROLLBACK _); cbn; exact Hall. }
  destruct (f INSERT _);
    cbn [the_client put_client state_HasClient client store snapshot log
         fault memberCompletions settled fst snd].
  { destruct (f ROLLBACK _); cbn; [exact Hupd | exact Hall]. }
  unfold set_memberCompletions.
  cbn [the_client put_client state_HasClient client store snapshot log
       fault memberCompletions settled fst snd].
  destruct (f COMMIT _);
    cbn [the_client put_client state_HasClient client store snapshot log
         fault memberCompletions settled fst snd].
  { destruct (f ROLLBACK _); cbn; [exact Hupd | exact Hall]. }
  unfold blockForCompletion. cbn [memberCompletions].
  rewrite lookup_insert_eq. cbn [result error defined orb].
  exact Hupd.
Qed.

Lemma processClaim_keeps_limit_witness :
  Forall within_limit
    (MemberInvitations
       (store (client (snd (processClaim "inv-1" "m-2" 100 "site-2"
                              (claim_state (Some 2) (Some 1))))))).
Proof.
  apply (processClaim_keeps_limit (claim_state (Some 2) (Some 1))
           "inv-1" "m-2" 100 "site-2").
  - reflexivity.
  - apply NoDup_singleton.
  - constructor; [|constructor].
    intros limit count [= <-] _ [= <-]. lia.
Defined.

End ClaimServerFacts.

Module SchemaFacts.
Import Schema.

Lemma refers_spec (col : option uuid) (id : uuid) :
  refers col id = true <-> col = Some id.
Proof.
  destruct col as [x|]; simpl.
  - rewrite String.eqb_eq. split; congruence.
  - split; discriminate.
Qed.

Lemma col_is_spec {A : Type} `{EqDecision A} (col : option A) (lit : A) :
  col_is col lit = true <-> col = Some lit.
Proof.
  destruct col as [x|]; simpl.
  - rewrite bool_decide_eq_true. split; congruence.
  - split; discriminate.
Qed.

Lemma nonempty_exists {A : Type} (l : list A) :
  (0 <? List.length l)%nat = true <-> exists x, In x l.
Proof.
  destruct l as [|x l]; simpl.
  - split; [discriminate | intros [? []]].
  - split; [eauto | reflexivity].
Qed.

End SchemaFacts.

Module DeploymentStateFacts.
Import Js Schema Pg DeploymentState SchemaFacts.

Lemma select_deployed_peers_spec (siteId : uuid) (d : db) :
  (0 <? List.length (select_deployed_peers siteId d))%nat = true
  <-> has_deployed_peer d siteId.
Proof.
  rewrite nonempty_exists. unfold select_deployed_peers, has_deployed_peer.
  split.
  - intros [x Hx].
    apply in_flat_map in Hx as (link & Hlink & Hx).
    apply in_flat_map in Hx as (ap & Hap & Hx).
    apply in_flat_map in Hx as (target & Htarget & Hx).
    destruct (_ && _) eqn:E in Hx; [|destruct Hx].
    apply andb_true_iff in E as [E E4].
    apply andb_true_iff in E as [E E3].
    apply andb_true_iff in E as [E1 E2].
    apply refers_spec in E1, E2, E3. apply col_is_spec in E4.
    exists link, ap, target. auto 10.
  - intros (link & ap & target & Hlink & Hap & Htarget & H1 & H2 & H3 & H4).
    exists (InterRouterLink.Id link).
    apply in_flat_map. exists link. split; [exact Hlink|].
    apply in_flat_map. exists ap. split; [exact Hap|].
    apply in_flat_map. exists target. split; [exact Htarget|].
    apply refers_spec in H1, H2, H3. apply col_is_spec in H4.
    rewrite H1, H2, H3, H4. now left.
Qed.

Lemma select_manage_access_spec (siteId : uuid) (d : db) :
  (0 <? List.length (select_manage_access siteId d))%nat = true
  <-> has_manage_access d siteId.
Proof.
  rewrite nonempty_exists. unfold select_manage_access, has_manage_access.
  split.
  - intros [x Hx]. apply in_map_iff in Hx as (ap & _ & Hap).
    apply list_elem_of_In, list_elem_of_filter in Hap as [Hp Hap].
    apply Is_true_true, andb_true_iff in Hp as [Hk Hs].
    apply col_is_spec in Hk. apply refers_spec in Hs.
    apply list_elem_of_In in Hap. eauto.
  - intros (ap & Hap & Hk & Hs). exists (BackboneAccessPoint.Id ap).
    apply in_map_iff. exists ap. split; [reflexivity|].
    apply list_elem_of_In, list_elem_of_filter. split.
    + apply Is_true_true, andb_true_iff. split.
      * now apply col_is_spec.
      * now apply refers_spec.
    + now apply list_elem_of_In.
Qed.

Lemma differs_spec (state : DeploymentStateType)
  (stored : option DeploymentStateType) :
  differs state stored = false <-> stored = Some state.
Proof.
  unfold differs. rewrite negb_false_iff. apply col_is_spec.
Qed.

(** The evaluation of the rules sends only SELECTs, leaves the tables
    alone and returns the state of the first matching rule. *)
Lemma evaluate_state_rule (c : client) (site : site_row) :
  reliable c [SELECT; UPDATE] ->
  exists state selects,
    evaluate_state site c
    = (inr state, mkClient (store c) (snapshot c) (log c ++ selects) (fault c))
    /\ Forall (eq (SELECT, true)) selects
    /\ rule (store c) site state.
Proof.
  intros Hrel. destruct c as [d snap lg f].
  assert (Hsel : forall n, f SELECT n = false) by (intros n; apply Hrel; simpl; auto).
  unfold evaluate_state.
  destruct (col_is (lifecycle site) lc_active) eqn:Hactive.
  { apply col_is_spec in Hactive. exists ds_deployed, [].
    unfold ret. cbn. rewrite app_nil_r. repeat split; auto. now constructor. }
  assert (Hna : lifecycle site <> Some lc_active).
  { intros H. apply col_is_spec in H. congruence. }
  destruct (col_is (lifecycle site) lc_ready) eqn:Hready.
  2:{ exists ds_not_ready, []. unfold ret. cbn. rewrite app_nil_r.
      repeat split; auto. apply rule_not_ready; [exact Hna|].
      intros H. apply col_is_spec in H. congruence. }
  apply col_is_spec in Hready.
  unfold bind, select, query, refused, sent, issued, ret.
  cbn [the_client put_client client_HasClient store snapshot log fault].
  rewrite Hsel.
  destruct (0 <? List.length (select_deployed_peers (id site) d))%nat eqn:Hpeer.
  { apply select_deployed_peers_spec in Hpeer.
    exists ds_ready_automatic, [(SELECT, true)]. repeat split; auto.
    now apply rule_ready_automatic. }
  assert (Hnp : ~ has_deployed_peer d (id site)).
  { intros H. apply select_deployed_peers_spec in H. congruence. }
  cbn [the_client put_client client_HasClient store snapshot log fault].
  rewrite Hsel.
  destruct (0 <? List.length (select_manage_access (id site) d))%nat eqn:Hap.
  - apply select_manage_access_spec in Hap.
    exists ds_ready_bootstrap, [(SELECT, true); (SELECT, true)]. cbn. rewrite <- app_assoc.
    repeat split; auto. now apply rule_ready_bootstrap.
  - exists ds_not_ready, [(SELECT, true); (SELECT, true)]. cbn. rewrite <- app_assoc.
    repeat split; auto. apply rule_not_ready; [exact Hna|].
    intros _. split; [exact Hnp|].
    intros H. apply select_manage_access_spec in H. congruence.
Qed.



(** The rules leave no choice. *)
Lemma rule_functional (d : db) (site : site_row) (s1 s2 : DeploymentStateType) :
  rule d site s1 -> rule d site s2 -> s1 = s2.
Proof.
  intros H1 H2.
  destruct H1; destruct H2; try reflexivity; try congruence;
    try contradiction;
    repeat match goal with
           | H : lifecycle site = Some lc_ready -> _ /\ _,
             H' : lifecycle site = Some lc_ready |- _ =>
               destruct (H H') as [? ?]; clear H
           end;
    contradiction.
Qed.

(** C2: the evaluator computes the state of the first matching rule of
    (1) active gives deployed, (2) ready with a link to an access point on
    a deployed site gives ready-automatic, (3) ready with a manage access
    point gives ready-bootstrap, (4) otherwise not-ready; it sends the
    UPDATE, as its last statement, exactly when that state differs from
    the DeploymentState of the row it was given, and otherwise sends only
    SELECTs and leaves the tables as they are. *)
Theorem evaluateSingleSite_TX_rules (c : client) (site : site_row) :
  reliable c [SELECT; UPDATE] ->
  exists state selects c',
    evaluateSingleSite_TX site c = (inr tt, c')
    /\ rule (store c) site state
    /\ (forall state', rule (store c) site state' -> state' = state)
    /\ Forall (eq (SELECT, true)) selects
    /\ (deploymentstate site = Some state ->
        store c' = store c /\ log c' = log c ++ selects)
    /\ (deploymentstate site <> Some state ->
        store c' = update_state state (id site) (store c)
        /\ log c' = log c ++ selects ++ [(UPDATE, true)]).
Proof.
  intros Hrel.
  destruct (evaluate_state_rule c site Hrel) as (state & selects & He & Hsel & Hrule).
  assert (Hupd : forall n, fault c UPDATE n = false)
    by (intros n; apply Hrel; simpl; auto).
  unfold evaluateSingleSite_TX, bind. rewrite He.
  destruct (differs state (deploymentstate site)) eqn:Hd.
  - exists state, selects.
    eexists. unfold execute, query, issued, sent.
    cbn [the_client put_client client_HasClient store snapshot log fault].
    rewrite Hupd. repeat split; auto.
    + intros state' H'. exact (rule_functional _ _ _ _ H' Hrule).
    + apply differs_spec in H. congruence.
    + apply differs_spec in H. congruence.
    + cbn. now rewrite app_assoc.
  - apply differs_spec in Hd. exists state, selects.
    eexists. unfold ret. repeat split; auto.
    + intros state' H'. exact (rule_functional _ _ _ _ H' Hrule).
    + contradiction.
    + contradiction.
Qed.

Lemma evaluateSingleSite_TX_rules_witness :
  exists state selects c',
    evaluateSingleSite_TX (row_of site_s1) (connect bootstrap_db (fun _ _ => false))
    = (inr tt, c')
    /\ rule bootstrap_db (row_of site_s1) state
    /\ (forall state', rule bootstrap_db (row_of site_s1) state' -> state' = state)
    /\ Forall (eq (SELECT, true)) selects
    /\ (Some ds_not_ready = Some state ->
        store c' = bootstrap_db /\ log c' = [] ++ selects)
    /\ (Some ds_not_ready <> Some state ->
        store c' = update_state state "s1" bootstrap_db
        /\ log c' = [] ++ selects ++ [(UPDATE, true)]).
Proof.
  apply (evaluateSingleSite_TX_rules (connect bootstrap_db (fun _ _ => false))
           (row_of site_s1)).
  intros kind n _. reflexivity.
Defined.

(** On the example the second SELECT finds the manage access point. *)
Example evaluate_bootstrap :
  evaluateSingleSite_TX (row_of site_s1) (connect bootstrap_db (fun _ _ => false))
  = (inr tt,
     mkClient (update_state ds_ready_bootstrap "s1" bootstrap_db) None
              [(SELECT, true); (SELECT, true); (UPDATE, true)]
              (fun _ _ => false)).
Proof. reflexivity. Qed.

Import PgFacts.
Local Open Scope pg_scope.

(** ** What the events can and cannot change *)

Lemma update_state_twice (st st' : DeploymentStateType) (siteId : uuid) (d : db) :
  update_state st siteId (update_state st' siteId d) = update_state st siteId d.
Proof.
  unfold update_state, with_InteriorSites. cbn. f_equal.
  rewrite map_map. apply map_ext. intros r.
  destruct (String.eqb (InteriorSite.Id r) siteId) eqn:E; cbn; rewrite E;
    reflexivity.
Qed.

Lemma within_data_only (siteId : uuid) (d0 : db) : data_only (within siteId d0).
Proof. intros c c' Hs Hn [H1 H2]. split; congruence. Qed.

Lemma evaluate_state_keeps (P : client -> Prop) (site : site_row) :
  data_only P -> hoare P (evaluate_state site) P.
Proof.
  intros Hdata. unfold evaluate_state.
  destruct (col_is (lifecycle site) lc_active); [apply hoare_ret|].
  destruct (col_is (lifecycle site) lc_ready); [|apply hoare_ret].
  apply hoare_bind with (Q := P); [now apply hoare_select | auto |].
  intros peerResult.
  destruct (0 <? List.length peerResult)%nat; [apply hoare_ret|].
  apply hoare_bind with (Q := P); [now apply hoare_select | auto |].
  intros apResult.
  destruct (0 <? List.length apResult)%nat; apply hoare_ret.
Qed.

Lemma evaluateSingleSite_TX_within (d0 : db) (site : site_row) :
  hoare (within (id site) d0) (evaluateSingleSite_TX site) (within (id site) d0).
Proof.
  unfold evaluateSingleSite_TX.
  apply hoare_bind with (Q := within (id site) d0);
    [apply evaluate_state_keeps, within_data_only | auto |].
  intros state. destruct (differs state (deploymentstate site));
    [|apply hoare_ret].
  apply hoare_execute; [apply within_data_only | auto |].
  intros c [[Hd|[st Hd]] Hs]; split; cbn; auto; right; exists state;
    rewrite Hd; [reflexivity | apply update_state_twice].
Qed.

Lemma select_site_id (siteId : uuid) (d : db) (site : site_row) :
  In site (select_site siteId d) -> id site = siteId.
Proof.
  unfold select_site. intros H. apply in_map_iff in H as (r & <- & Hr).
  apply list_elem_of_In, list_elem_of_filter in Hr as [Hp _].
  apply Is_true_true in Hp. now apply String.eqb_eq in Hp.
Qed.

Lemma evaluate_site_if_within (d0 : db) (wanted : site_row -> bool)
  (siteId : uuid) :
  hoare (within siteId d0) (evaluate_site_if wanted siteId) (within siteId d0).
Proof.
  unfold evaluate_site_if.
  apply hoare_bind_select; [apply within_data_only | auto |].
  intros c0 Hc0.
  destruct (select_site siteId (store c0)) as [|site [|site' rest]] eqn:E;
    try (intros c [Hc _]; exact Hc).
  assert (Hid : id site = siteId).
  { apply (select_site_id siteId (store c0)). rewrite E. now left. }
  destruct (wanted site); [|intros c [Hc _]; exact Hc].
  intros c [Hc _]. rewrite <- Hid in *. now apply evaluateSingleSite_TX_within.
Qed.

Lemma COMMIT_within (siteId : uuid) (d0 : db) :
  hoare (within siteId d0) (query_COMMIT (S := client)) (within siteId d0).
Proof.
  apply hoare_COMMIT; [apply within_data_only|auto|].
  intros c' [Hs Hn]. split; cbn; auto.
Qed.

(** A transaction whose statements only touch [siteId]. *)
Lemma transaction_within (siteId : uuid) (rest : M client unit) (c : client) :
  snapshot c = None ->
  hoare (within siteId (store c)) rest (within siteId (store c)) ->
  touched siteId (store c)
    (store (snd (try_catch (query_BEGIN ;;; rest)
                           (fun error => query_ROLLBACK) c))).
Proof.
  intros Hsnap Hrest.
  set (d0 := store c) in *.
  assert (H : hoare (fun c' => store c' = d0 /\ snapshot c' = None)
                    (try_catch (query_BEGIN ;;; rest)
                               (fun error => query_ROLLBACK))
                    (within siteId d0)).
  { apply hoare_try_catch with (Q := within siteId d0); [|auto|].
    - apply hoare_bind with (Q := within siteId d0); [|auto|].
      + apply hoare_BEGIN; [apply within_data_only| |].
        * intros c' [Hs Hn]. split; [now left | now left].
        * intros c' [Hs Hn]. split; cbn; [now left|]. rewrite Hn, Hs. now right.
      + intros _. exact Hrest.
    - intros e. apply hoare_ROLLBACK; [apply within_data_only|auto|].
      intros c' [Hs [Hn|Hn]]; split; cbn; auto; rewrite Hn; auto.
      now left. }
  exact (proj1 (H c (conj eq_refl Hsnap))).
Qed.

(** X5: whatever the database refuses along the
    way, [ManageIngressAdded], [ManageIngressDeleted] and
    [LinkAddedOrDeleted], called outside a transaction, leave the tables
    either as they found them or with the DeploymentState of the one site
    they were called for set; no other row and no other column changes. *)
Theorem deployment_state_frame (c : client) (siteId accessPointId : uuid) :
  snapshot c = None ->
  touched siteId (store c) (store (snd (ManageIngressAdded siteId c)))
  /\ touched siteId (store c) (store (snd (ManageIngressDeleted siteId c)))
  /\ touched siteId (store c)
       (store (snd (LinkAddedOrDeleted siteId accessPointId c))).
Proof.
  intros Hsnap. repeat split.
  - apply transaction_within; [exact Hsnap |].
    apply hoare_bind with (Q := within siteId (store c));
      [apply evaluate_site_if_within | auto | intros _; apply COMMIT_within].
  - apply transaction_within; [exact Hsnap |].
    apply hoare_bind with (Q := within siteId (store c));
      [apply evaluate_site_if_within | auto | intros _; apply COMMIT_within].
  - apply transaction_within; [exact Hsnap |].
    apply hoare_bind_select; [apply within_data_only | auto |].
    intros c0 Hc0.
    apply hoare_bind with (Q := within siteId (store c));
      [| auto | intros _; apply COMMIT_within].
    destruct (select_listening_state accessPointId (store c0))
      as [|st [|st' rest]]; try (intros c' [Hc _]; exact Hc).
    destruct (col_is st ds_deployed); [|intros c' [Hc _]; exact Hc].
    intros c' [Hc _]. now apply evaluate_site_if_within.
Qed.

Lemma deployment_state_frame_witness :
  touched "s1" bootstrap_db
    (store (snd (ManageIngressAdded "s1"
                   (connect bootstrap_db refuses_commit))))
  /\ touched "s1" bootstrap_db
       (store (snd (ManageIngressDeleted "s1"
                      (connect bootstrap_db refuses_commit))))
  /\ touched "s1" bootstrap_db
       (store (snd (LinkAddedOrDeleted "s1" "ap1"
                      (connect bootstrap_db refuses_commit)))).
Proof.
  apply (deployment_state_frame
           (connect bootstrap_db refuses_commit)
           "s1" "ap1").
  reflexivity.
Defined.


(** ** Runs on a client that refuses nothing *)

Lemma select_run {A : Type} (rows : db -> A) (c : client) :
  reliable c [BEGIN; COMMIT; SELECT; UPDATE] ->
  select rows c
  = (inr (rows (store c)),
     mkClient (store c) (snapshot c) (log c ++ [(SELECT, true)]) (fault c)).
Proof.
  intros Hrel. unfold select, query, sent.
  cbn [the_client put_client client_HasClient].
  rewrite (Hrel SELECT) by (simpl; auto). reflexivity.
Qed.

Lemma BEGIN_run (c : client) :
  reliable c [BEGIN; COMMIT; SELECT; UPDATE] ->
  snapshot c = None ->
  query_BEGIN c
  = (inr tt,
     mkClient (store c) (Some (store c)) (log c ++ [(BEGIN, true)]) (fault c)).
Proof.
  intros Hrel Hsnap. unfold query_BEGIN, sent.
  cbn [the_client put_client client_HasClient].
  rewrite (Hrel BEGIN) by (simpl; auto). now rewrite Hsnap.
Qed.

Lemma COMMIT_run (c : client) :
  reliable c [BEGIN; COMMIT; SELECT; UPDATE] ->
  query_COMMIT c
  = (inr tt, mkClient (store c) None (log c ++ [(COMMIT, true)]) (fault c)).
Proof.
  intros Hrel. unfold query_COMMIT, sent.
  cbn [the_client put_client client_HasClient].
  rewrite (Hrel COMMIT) by (simpl; auto). reflexivity.
Qed.

Lemma reliable_weaken (c : client) :
  reliable c [BEGIN; COMMIT; SELECT; UPDATE] -> reliable c [SELECT; UPDATE].
Proof. intros H kind n Hin. apply H. simpl in *. tauto. Qed.

(** The site of the one row that [select_site] returns, with the state the
    rules give it. *)
Lemma select_site_update_state (st : DeploymentStateType) (siteId : uuid) (d : db) :
  select_site siteId (update_state st siteId d)
  = map (fun r => mkSite (id r) (lifecycle r) (Some st)) (select_site siteId d).
Proof.
  unfold select_site, update_state, with_InteriorSites. cbn [InteriorSites].
  induction (InteriorSites d) as [|r rows IH]; [reflexivity|].
  cbn [map]. destruct (String.eqb (InteriorSite.Id r) siteId) eqn:E.
  - rewrite !filter_cons_True by (cbn; rewrite E; exact I).
    cbn [map]. now rewrite IH.
  - rewrite !filter_cons_False by (rewrite E; exact (fun H => H)). exact IH.
Qed.

(** The evaluator on a reliable client: the state of the rules is what
    the row of the site holds afterwards. *)
Lemma evaluateSingleSite_TX_result (c : client) (siteId : uuid) (site : site_row) :
  reliable c [SELECT; UPDATE] ->
  select_site siteId (store c) = [site] ->
  exists state c',
    evaluateSingleSite_TX site c = (inr tt, c')
    /\ rule (store c) site state
    /\ snapshot c' = snapshot c
    /\ fault c' = fault c
    /\ touched siteId (store c) (store c')
    /\ select_site siteId (store c') = [mkSite siteId (lifecycle site) (Some state)].
Proof.
  intros Hrel Hsel.
  assert (Hid : id site = siteId).
  { apply (select_site_id siteId (store c)). rewrite Hsel. now left. }
  destruct (evaluate_state_rule c site Hrel) as (state & selects & He & _ & Hrule).
  assert (Hupd : forall n, fault c UPDATE n = false)
    by (intros n; apply Hrel; simpl; auto).
  exists state. unfold evaluateSingleSite_TX, bind. rewrite He.
  destruct (differs state (deploymentstate site)) eqn:Hd.
  - eexists. unfold execute, query, issued, sent.
    cbn [the_client put_client client_HasClient store snapshot log fault].
    rewrite Hupd. split; [reflexivity|]. cbn [store snapshot fault].
    rewrite Hid. repeat split; auto.
    + right. eauto.
    + rewrite select_site_update_state, Hsel. cbn [map]. now rewrite Hid.
  - apply differs_spec in Hd. eexists. unfold ret.
    split; [reflexivity|]. cbn [store snapshot fault]. repeat split; auto.
    + now left.
    + rewrite Hsel. destruct site; cbn in *. now subst.
Qed.

Lemma evaluate_site_if_skipped (c : client) (wanted : site_row -> bool)
  (siteId : uuid) (site : site_row) :
  reliable c [BEGIN; COMMIT; SELECT; UPDATE] ->
  select_site siteId (store c) = [site] ->
  wanted site = false ->
  evaluate_site_if wanted siteId c
  = (inr tt,
     mkClient (store c) (snapshot c) (log c ++ [(SELECT, true)]) (fault c)).
Proof.
  intros Hrel Hsel Hw. unfold evaluate_site_if, bind.
  rewrite (select_run _ c Hrel), Hsel, Hw. reflexivity.
Qed.

Lemma evaluate_site_if_result (c : client) (wanted : site_row -> bool)
  (siteId : uuid) (site : site_row) :
  reliable c [BEGIN; COMMIT; SELECT; UPDATE] ->
  select_site siteId (store c) = [site] ->
  wanted site = true ->
  exists state c',
    evaluate_site_if wanted siteId c = (inr tt, c')
    /\ rule (store c) site state
    /\ snapshot c' = snapshot c
    /\ fault c' = fault c
    /\ touched siteId (store c) (store c')
    /\ select_site siteId (store c') = [mkSite siteId (lifecycle site) (Some state)].
Proof.
  intros Hrel Hsel Hw. unfold evaluate_site_if, bind.
  rewrite (select_run _ c Hrel), Hsel, Hw.
  set (c1 := mkClient (store c) (snapshot c) (log c ++ [(SELECT, true)]) (fault c)).
  assert (Hrel1 : reliable c1 [SELECT; UPDATE])
    by (apply reliable_weaken; exact Hrel).
  exact (evaluateSingleSite_TX_result c1 siteId site Hrel1 Hsel).
Qed.

(** The two ingress events share their shape. *)
Lemma ingress_transaction (c : client) (wanted : site_row -> bool)
  (siteId : uuid) (site : site_row) :
  reliable c [BEGIN; COMMIT; SELECT; UPDATE] ->
  snapshot c = None ->
  select_site siteId (store c) = [site] ->
  let run := try_catch (query_BEGIN ;;; evaluate_site_if wanted siteId ;;;
                        query_COMMIT)
                       (fun error => query_ROLLBACK) c in
  if wanted site then
    exists state c',
      run = (inr tt, c')
      /\ rule (store c) site state
      /\ snapshot c' = None
      /\ touched siteId (store c) (store c')
      /\ select_site siteId (store c')
         = [mkSite siteId (lifecycle site) (Some state)]
  else
    run = (inr tt,
           mkClient (store c) None
                    (log c ++ [(BEGIN, true); (SELECT, true); (COMMIT, true)])
                    (fault c)).
Proof.
  intros Hrel Hsnap Hsel. cbv zeta. unfold try_catch, bind.
  rewrite (BEGIN_run c Hrel Hsnap).
  set (c1 := mkClient (store c) (Some (store c)) (log c ++ [(BEGIN, true)]) (fault c)).
  assert (Hrel1 : reliable c1 [BEGIN; COMMIT; SELECT; UPDATE]) by exact Hrel.
  destruct (wanted site) eqn:Hw.
  - destruct (evaluate_site_if_result c1 wanted siteId site Hrel1 Hsel Hw)
      as (state & c2 & Hrun & Hrule & Hsnap2 & Hf2 & Ht & Hsel2).
    rewrite Hrun.
    assert (Hrel2 : reliable c2 [BEGIN; COMMIT; SELECT; UPDATE]).
    { intros kind n Hin. rewrite Hf2. now apply Hrel. }
    rewrite (COMMIT_run c2 Hrel2). exists state. eexists.
    split; [reflexivity|]. cbn [store snapshot]. auto.
  - rewrite (evaluate_site_if_skipped c1 wanted siteId site Hrel1 Hsel Hw).
    rewrite COMMIT_run by exact Hrel. cbn [store snapshot log fault c1].
    now rewrite <- !app_assoc.
Qed.

(** X6: on a database that refuses nothing,
    [ManageIngressAdded] re-evaluates the site only when its stored state
    is not-ready, and [ManageIngressDeleted] only when it is
    ready-bootstrap; a re-evaluated site ends, committed, with the state
    the rules give it, and a site in any other state costs a BEGIN, a
    SELECT and a COMMIT and changes nothing. *)
Theorem ManageIngress_events (c : client) (siteId : uuid) (site : site_row) :
  reliable c [BEGIN; COMMIT; SELECT; UPDATE] ->
  snapshot c = None ->
  select_site siteId (store c) = [site] ->
  let untouched :=
    (inr tt,
     mkClient (store c) None
              (log c ++ [(BEGIN, true); (SELECT, true); (COMMIT, true)])
              (fault c)) in
  let evaluated (run : (exn + unit) * client) :=
    exists state c',
      run = (inr tt, c')
      /\ rule (store c) site state
      /\ snapshot c' = None
      /\ touched siteId (store c) (store c')
      /\ select_site siteId (store c')
         = [mkSite siteId (lifecycle site) (Some state)] in
  (if col_is (deploymentstate site) ds_not_ready
   then evaluated (ManageIngressAdded siteId c)
   else ManageIngressAdded siteId c = untouched)
  /\ (if col_is (deploymentstate site) ds_ready_bootstrap
      then evaluated (ManageIngressDeleted siteId c)
      else ManageIngressDeleted siteId c = untouched).
Proof.
  intros Hrel Hsnap Hsel. cbv zeta. split.
  - exact (ingress_transaction c
             (fun site => col_is (deploymentstate site) ds_not_ready)
             siteId site Hrel Hsnap Hsel).
  - exact (ingress_transaction c
             (fun site => col_is (deploymentstate site) ds_ready_bootstrap)
             siteId site Hrel Hsnap Hsel).
Qed.

Lemma ManageIngress_events_witness :
  (exists state c',
     ManageIngressAdded "s1" (connect bootstrap_db (fun _ _ => false))
     = (inr tt, c')
     /\ rule bootstrap_db (row_of site_s1) state
     /\ select_site "s1" (store c') = [mkSite "s1" (Some lc_ready) (Some state)])
  /\ ManageIngressDeleted "s1" (connect bootstrap_db (fun _ _ => false))
     = (inr tt,
        mkClient bootstrap_db None
                 [(BEGIN, true); (SELECT, true); (COMMIT, true)]
                 (fun _ _ => false)).
Proof.
  destruct (ManageIngress_events (connect bootstrap_db (fun _ _ => false))
              "s1" (row_of site_s1)) as [Hadded Hdeleted];
    [intros kind n _; reflexivity | reflexivity | reflexivity |].
  change (col_is (deploymentstate (row_of site_s1)) ds_not_ready)
    with true in Hadded.
  change (col_is (deploymentstate (row_of site_s1)) ds_ready_bootstrap)
    with false in Hdeleted.
  split; [|exact Hdeleted].
  destruct Hadded as (state & c' & Hrun & Hrule & _ & _ & Hsel).
  exists state, c'. auto.
Defined.


(** X7: on a database that refuses nothing,
    [LinkAddedOrDeleted] re-evaluates the connecting site exactly when the
    site of the access point is deployed, and the connecting site then
    ends, committed, with the state the rules give it; when the listening
    site is in any other state nothing changes. *)
Theorem LinkAddedOrDeleted_evaluates (c : client)
  (connectingSiteId accessPointId : uuid) (listening : option DeploymentStateType)
  (site : site_row) :
  reliable c [BEGIN; COMMIT; SELECT; UPDATE] ->
  snapshot c = None ->
  select_listening_state accessPointId (store c) = [listening] ->
  select_site connectingSiteId (store c) = [site] ->
  if col_is listening ds_deployed then
    exists state c',
      LinkAddedOrDeleted connectingSiteId accessPointId c = (inr tt, c')
      /\ rule (store c) site state
      /\ snapshot c' = None
      /\ touched connectingSiteId (store c) (store c')
      /\ select_site connectingSiteId (store c')
         = [mkSite connectingSiteId (lifecycle site) (Some state)]
  else
    LinkAddedOrDeleted connectingSiteId accessPointId c
    = (inr tt,
       mkClient (store c) None
                (log c ++ [(BEGIN, true); (SELECT, true); (COMMIT, true)])
                (fault c)).
Proof.
  intros Hrel Hsnap Hlisten Hsel.
  unfold LinkAddedOrDeleted, try_catch, bind.
  rewrite (BEGIN_run c Hrel Hsnap).
  set (c1 := mkClient (store c) (Some (store c)) (log c ++ [(BEGIN, true)]) (fault c)).
  assert (Hrel1 : reliable c1 [BEGIN; COMMIT; SELECT; UPDATE]) by exact Hrel.
  rewrite (select_run _ c1 Hrel1). cbn [store c1]. rewrite Hlisten.
  set (c2 := mkClient _ _ _ _).
  assert (Hrel2 : reliable c2 [BEGIN; COMMIT; SELECT; UPDATE]) by exact Hrel.
  destruct (col_is listening ds_deployed).
  - destruct (evaluate_site_if_result c2 (fun _ => true) connectingSiteId site
                Hrel2 Hsel eq_refl)
      as (state & c3 & Hrun & Hrule & Hsnap3 & Hf3 & Ht & Hsel3).
    rewrite Hrun.
    assert (Hrel3 : reliable c3 [BEGIN; COMMIT; SELECT; UPDATE]).
    { intros kind n Hin. rewrite Hf3. now apply Hrel. }
    rewrite (COMMIT_run c3 Hrel3). exists state. eexists.
    split; [reflexivity|]. cbn [store snapshot]. auto.
  - unfold ret. rewrite COMMIT_run by exact Hrel2.
    cbn [store snapshot log fault c1 c2]. now rewrite <- !app_assoc.
Qed.

Lemma LinkAddedOrDeleted_evaluates_witness :
  exists state c',
    LinkAddedOrDeleted "s1" "ap-hub"
      (connect (update_state ds_deployed "hub" linked_db) (fun _ _ => false))
    = (inr tt, c')
    /\ rule (update_state ds_deployed "hub" linked_db) (row_of site_s1) state
    /\ select_site "s1" (store c') = [mkSite "s1" (Some lc_ready) (Some state)].
Proof.
  pose proof (LinkAddedOrDeleted_evaluates
                (connect (update_state ds_deployed "hub" linked_db)
                         (fun _ _ => false))
                "s1" "ap-hub" (Some ds_deployed) (row_of site_s1)) as H.
  change (col_is (Some ds_deployed) ds_deployed) with true in H.
  destruct H as (state & c' & Hrun & Hrule & _ & _ & Hsel);
    [intros kind n _; reflexivity | reflexivity | reflexivity | reflexivity |].
  exists state, c'. auto.
Defined.


(** ** A site that became active *)

Lemma same_topology_refl (d : db) : same_topology d d.
Proof. repeat split. Qed.

Lemma same_topology_update (d0 d : db) (st : DeploymentStateType) (sid : uuid) :
  same_topology d0 d -> same_topology d0 (update_state st sid d).
Proof.
  intros (H1 & H2 & H3). repeat split; auto. rewrite <- H3.
  unfold update_state, with_InteriorSites. cbn [InteriorSites].
  rewrite map_map. apply map_ext. intros r.
  now destruct (String.eqb (InteriorSite.Id r) sid).
Qed.

Lemma same_topology_touched (d0 d d' : db) (sid : uuid) :
  same_topology d0 d -> touched sid d d' -> same_topology d0 d'.
Proof.
  intros H [->|[st ->]]; [exact H | now apply same_topology_update].
Qed.

Lemma select_connected_same (d0 d : db) (siteId : uuid) :
  same_topology d0 d -> select_connected siteId d = select_connected siteId d0.
Proof. intros (H1 & H2 & _). unfold select_connected. now rewrite H1, H2. Qed.

Lemma select_site_skeleton (d0 d : db) (sid : uuid) :
  same_topology d0 d ->
  map (fun s => (id s, lifecycle s)) (select_site sid d)
  = map (fun s => (id s, lifecycle s)) (select_site sid d0).
Proof.
  intros (_ & _ & H). unfold select_site.
  revert H. generalize (InteriorSites d0) as rows0.
  induction (InteriorSites d) as [|r rows IH]; intros [|r0 rows0] H;
    try discriminate; [reflexivity|].
  cbn [map] in H. injection H as Hid Hlc Hrest.
  destruct (String.eqb (InteriorSite.Id r) sid) eqn:E.
  - rewrite filter_cons_True by (rewrite E; exact I).
    rewrite filter_cons_True by (rewrite <- Hid, E; exact I).
    cbn [map row_of id lifecycle]. rewrite Hid, Hlc. f_equal. now apply IH.
  - rewrite filter_cons_False by (rewrite E; exact (fun H => H)).
    rewrite filter_cons_False by (rewrite <- Hid, E; exact (fun H => H)).
    now apply IH.
Qed.

Lemma select_site_other (st : DeploymentStateType) (sid sid' : uuid) (d : db) :
  sid <> sid' ->
  select_site sid' (update_state st sid d) = select_site sid' d.
Proof.
  intros Hne. unfold select_site, update_state, with_InteriorSites.
  cbn [InteriorSites].
  induction (InteriorSites d) as [|r rows IH]; [reflexivity|].
  cbn [map]. destruct (String.eqb (InteriorSite.Id r) sid) eqn:E.
  - apply String.eqb_eq in E.
    assert (E' : String.eqb (InteriorSite.Id r) sid' = false)
      by (apply String.eqb_neq; congruence).
    rewrite !filter_cons_False by (cbn; rewrite E'; exact (fun H => H)).
    exact IH.
  - destruct (String.eqb (InteriorSite.Id r) sid') eqn:E'.
    + rewrite !filter_cons_True by (rewrite E'; exact I).
      cbn [map]. now rewrite IH.
    + rewrite !filter_cons_False by (rewrite E'; exact (fun H => H)).
      exact IH.
Qed.

Lemma select_site_touched_other (sid sid' : uuid) (d d' : db) :
  sid <> sid' -> touched sid d d' -> select_site sid' d' = select_site sid' d.
Proof.
  intros Hne [->|[st ->]]; [reflexivity | now apply select_site_other].
Qed.

Lemma select_site_In (sid : uuid) (d : db) (s : site_row) :
  In s (select_site sid d) ->
  exists r, In r (InteriorSites d) /\ InteriorSite.Id r = sid /\ row_of r = s.
Proof.
  unfold select_site. intros H. apply in_map_iff in H as (r & <- & Hr).
  apply list_elem_of_In, list_elem_of_filter in Hr as [Hp Hin].
  apply Is_true_true, String.eqb_eq in Hp. apply list_elem_of_In in Hin.
  eauto.
Qed.

Lemma select_connected_In (siteId sid : uuid) (d : db) :
  In (Some sid) (select_connected siteId d) ->
  exists link ap,
    In link (InterRouterLinks d) /\ In ap (BackboneAccessPoints d)
    /\ InterRouterLink.ConnectingInteriorSite link = Some sid
    /\ InterRouterLink.AccessPoint link = Some (BackboneAccessPoint.Id ap)
    /\ BackboneAccessPoint.InteriorSite ap = Some siteId.
Proof.
  unfold select_connected. intros H.
  apply in_flat_map in H as (link & Hlink & H).
  apply in_flat_map in H as (ap & Hap & H).
  destruct (_ && _) eqn:E in H; [|destruct H].
  apply andb_true_iff in E as [E1 E2]. apply refers_spec in E1, E2.
  destruct H as [H|[]]. exists link, ap. auto.
Qed.

(** A site linked to an access point of a deployed site has a deployed
    peer. *)
Lemma connected_has_deployed_peer (d0 d : db) (siteId sid : uuid)
  (lc : option LifecycleType) :
  same_topology d0 d ->
  In (Some sid) (select_connected siteId d0) ->
  select_site siteId d = [mkSite siteId lc (Some ds_deployed)] ->
  has_deployed_peer d sid.
Proof.
  intros Htop Hconn Hsite.
  rewrite <- (select_connected_same d0 d siteId Htop) in Hconn.
  apply select_connected_In in Hconn as (link & ap & Hlink & Hap & H1 & H2 & H3).
  destruct (select_site_In siteId d (mkSite siteId lc (Some ds_deployed)))
    as (target & Htarget & Hid & Hrow); [rewrite Hsite; now left|].
  exists link, ap, target. repeat split; auto.
  - now rewrite Hid.
  - unfold row_of in Hrow. now injection Hrow.
Qed.

Lemma rule_active (d : db) (site : site_row) (state : DeploymentStateType) :
  lifecycle site = Some lc_active -> rule d site state -> state = ds_deployed.
Proof.
  intros Hlc Hrule.
  exact (rule_functional d site _ _ Hrule (rule_deployed d site Hlc)).
Qed.

Lemma rule_ready_linked (d : db) (site : site_row) (state : DeploymentStateType) :
  lifecycle site = Some lc_ready -> has_deployed_peer d (id site) ->
  rule d site state -> state = ds_ready_automatic.
Proof.
  intros Hlc Hpeer Hrule.
  exact (rule_functional d site _ _ Hrule (rule_ready_automatic d site Hlc Hpeer)).
Qed.

Lemma select_site_singleton_skeleton (d0 d : db) (sid : uuid) (s r : site_row) :
  same_topology d0 d ->
  select_site sid d = [s] -> select_site sid d0 = [r] ->
  id s = id r /\ lifecycle s = lifecycle r.
Proof.
  intros Htop Hs Hr. pose proof (select_site_skeleton d0 d sid Htop) as H.
  rewrite Hs, Hr in H. cbn in H. now injection H.
Qed.

Lemma select_site_singleton_exists (d0 d : db) (sid : uuid) (r : site_row) :
  same_topology d0 d -> select_site sid d0 = [r] ->
  exists s, select_site sid d = [s].
Proof.
  intros Htop Hr. pose proof (select_site_skeleton d0 d sid Htop) as H.
  rewrite Hr in H. destruct (select_site sid d) as [|s [|s' rest]];
    try discriminate. eauto.
Qed.

(** One turn of the loop over the connected sites. *)
Lemma evaluate_connected_turn (d0 : db) (siteId : uuid) (c : client)
  (row : option uuid) :
  reliable c [SELECT; UPDATE] ->
  around_active d0 siteId (store c) ->
  (forall sid, row = Some sid -> In (Some sid) (select_connected siteId d0)) ->
  exists c',
    match match row with
          | Some sid => select_site sid (store c)
          | None => []
          end with
    | [site] => evaluateSingleSite_TX site
    | _ => ret tt
    end c = (inr tt, c')
    /\ fault c' = fault c
    /\ snapshot c' = snapshot c
    /\ around_active d0 siteId (store c')
    /\ (forall sid, In (Some sid) (select_connected siteId d0) ->
          promoted d0 (store c) sid -> promoted d0 (store c') sid)
    /\ (forall sid, row = Some sid -> promoted d0 (store c') sid).
Proof.
  intros Hrel [Htop Hactive] Hconn.
  assert (Hidle : forall sid,
             row = Some sid ->
             (forall s, select_site sid (store c) <> [s]) ->
             promoted d0 (store c) sid).
  { intros sid -> Hno r Hr _.
    destruct (select_site_singleton_exists d0 (store c) sid r Htop Hr) as [s Hs].
    now destruct (Hno s). }
  destruct row as [sid|].
  2:{ exists c. unfold ret.
      do 3 (split; [reflexivity|]). split; [now split|].
      split; [auto | discriminate]. }
  destruct (select_site sid (store c)) as [|s [|s' rest]] eqn:Hsel.
  1,3: exists c; unfold ret;
       do 3 (split; [reflexivity|]); (split; [now split|]);
       (split; [auto|]);
       intros sid' [= <-]; apply Hidle; [reflexivity|]; rewrite Hsel;
       discriminate.
  destruct (evaluateSingleSite_TX_result c sid s Hrel Hsel)
    as (state & c' & Hrun & Hrule & Hsnap & Hf & Ht & Hsel').
  assert (Hid : id s = sid).
  { apply (select_site_id sid (store c)). rewrite Hsel. now left. }
  assert (Hpeer : has_deployed_peer (store c) sid)
    by (eapply connected_has_deployed_peer; eauto).
  assert (Hnew : promoted d0 (store c') sid).
  { intros r Hr Hlc.
    destruct (select_site_singleton_skeleton d0 (store c) sid s r Htop Hsel Hr)
      as [_ Hlcs].
    rewrite Hlc in Hlcs. rewrite Hsel', Hlcs.
    rewrite <- Hid in Hpeer.
    now rewrite (rule_ready_linked (store c) s state Hlcs Hpeer Hrule). }
  exists c'. do 3 (split; [assumption|]). split; [split|split].
  - eapply same_topology_touched; eauto.
  - destruct (String.eqb sid siteId) eqn:E.
    + apply String.eqb_eq in E. rewrite E in Hsel, Hsel'.
      rewrite Hactive in Hsel. injection Hsel as Hs.
      rewrite Hsel'. rewrite <- Hs in Hrule |- *. cbn [lifecycle].
      now rewrite (rule_active (store c)
                     (mkSite siteId (Some lc_active) (Some ds_deployed))
                     state eq_refl Hrule).
    + apply String.eqb_neq in E.
      now rewrite (select_site_touched_other sid siteId _ _ E Ht).
  - intros sid' Hin' Hgood. destruct (String.eqb sid sid') eqn:E.
    + apply String.eqb_eq in E. now subst sid'.
    + apply String.eqb_neq in E. intros r Hr Hlc.
      rewrite (select_site_touched_other sid sid' _ _ E Ht).
      exact (Hgood r Hr Hlc).
  - now intros sid' [= <-].
Qed.

Lemma evaluate_connected_propagates (d0 : db) (siteId : uuid)
  (rows : list (option uuid)) (c : client) :
  reliable c [SELECT; UPDATE] ->
  around_active d0 siteId (store c) ->
  (forall sid, In (Some sid) rows -> In (Some sid) (select_connected siteId d0)) ->
  exists c',
    evaluate_connected rows c = (inr tt, c')
    /\ fault c' = fault c
    /\ snapshot c' = snapshot c
    /\ around_active d0 siteId (store c')
    /\ (forall sid, In (Some sid) (select_connected siteId d0) ->
          promoted d0 (store c) sid -> promoted d0 (store c') sid)
    /\ (forall sid, In (Some sid) rows -> promoted d0 (store c') sid).
Proof.
  revert c. induction rows as [|row rows IH]; intros c Hrel Hinv Hrows.
  - exists c. unfold evaluate_connected, ret.
    do 3 (split; [reflexivity|]). split; [assumption|].
    split; [auto | intros sid []].
  - cbn [evaluate_connected]. unfold bind at 1.
    assert (Hsel : forall n, fault c SELECT n = false)
      by (intros n; apply Hrel; simpl; auto).
    unfold select, query, sent.
    cbn [the_client put_client client_HasClient]. rewrite Hsel.
    set (c1 := mkClient (store c) (snapshot c) (log c ++ [(SELECT, true)]) (fault c)).
    assert (Hrel1 : reliable c1 [SELECT; UPDATE]) by exact Hrel.
    destruct (evaluate_connected_turn d0 siteId c1 row Hrel1 Hinv)
      as (c2 & Hrun & Hf2 & Hsnap2 & Hinv2 & Hkeep2 & Hnew2).
    { intros sid ->. apply Hrows. now left. }
    unfold bind. cbn [store c1] in Hrun. rewrite Hrun.
    assert (Hrel2 : reliable c2 [SELECT; UPDATE]).
    { intros kind n Hin. rewrite Hf2. now apply Hrel. }
    destruct (IH c2 Hrel2 Hinv2) as (c' & Hrun' & Hf' & Hsnap' & Hinv' & Hkeep' & Hnew').
    { intros sid Hin. apply Hrows. now right. }
    exists c'. split; [assumption|].
    split; [rewrite Hf', Hf2; reflexivity|].
    split; [rewrite Hsnap', Hsnap2; reflexivity|].
    split; [assumption|]. split; [auto|].
    intros sid [->|Hin]; [|now apply Hnew'].
    apply Hkeep'; [apply Hrows; now left | now apply Hnew2].
Qed.

(** X8: on a database that
    refuses nothing, [SiteLifecycleChanged_TX(client, siteId, 'active')]
    for a site whose row is active leaves that site deployed and every
    ready site that has a link to one of its access points
    ready-automatic; links, access points and the lifecycles of the sites
    are as before. *)
Theorem SiteLifecycleChanged_active_propagates (c : client) (siteId : uuid)
  (site : site_row) :
  reliable c [SELECT; UPDATE] ->
  select_site siteId (store c) = [site] ->
  lifecycle site = Some lc_active ->
  exists c',
    SiteLifecycleChanged_TX siteId lc_active c = (inr tt, c')
    /\ same_topology (store c) (store c')
    /\ select_site siteId (store c')
       = [mkSite siteId (Some lc_active) (Some ds_deployed)]
    /\ (forall sid r,
          In (Some sid) (select_connected siteId (store c)) ->
          select_site sid (store c) = [r] ->
          lifecycle r = Some lc_ready ->
          select_site sid (store c')
          = [mkSite sid (Some lc_ready) (Some ds_ready_automatic)]).
Proof.
  intros Hrel Hsel Hlc.
  assert (Hs : forall n, fault c SELECT n = false)
    by (intros n; apply Hrel; simpl; auto).
  unfold SiteLifecycleChanged_TX, bind at 1.
  unfold select at 1, query, sent.
  cbn [the_client put_client client_HasClient]. rewrite Hs, Hsel.
  set (c1 := mkClient (store c) (snapshot c) (log c ++ [(SELECT, true)]) (fault c)).
  assert (Hrel1 : reliable c1 [SELECT; UPDATE]) by exact Hrel.
  destruct (evaluateSingleSite_TX_result c1 siteId site Hrel1 Hsel)
    as (state & c2 & Hrun & Hrule & Hsnap2 & Hf2 & Ht2 & Hsel2).
  apply (rule_active _ _ _ Hlc) in Hrule. subst state. rewrite Hlc in Hsel2.
  unfold bind at 1. rewrite Hrun.
  rewrite (bool_decide_eq_true_2 _ (eq_refl lc_active)).
  assert (Hrel2 : reliable c2 [SELECT; UPDATE]).
  { intros kind n Hin. rewrite Hf2. now apply Hrel. }
  assert (Hinv2 : around_active (store c) siteId (store c2)).
  { split; [|exact Hsel2].
    eapply same_topology_touched; [apply same_topology_refl | exact Ht2]. }
  unfold bind, select, query, sent.
  cbn [the_client put_client client_HasClient].
  rewrite (Hrel2 SELECT) by (simpl; auto).
  set (c3 := mkClient (store c2) (snapshot c2) (log c2 ++ [(SELECT, true)]) (fault c2)).
  assert (Hrel3 : reliable c3 [SELECT; UPDATE]) by exact Hrel2.
  destruct (evaluate_connected_propagates (store c) siteId
              (select_connected siteId (store c2)) c3 Hrel3 Hinv2)
    as (c' & Hrun' & _ & _ & [Htop' Hact'] & _ & Hnew').
  { intros sid Hin.
    now rewrite (select_connected_same (store c) (store c2) siteId (proj1 Hinv2)) in Hin. }
  exists c'. split; [exact Hrun'|]. split; [exact Htop'|]. split; [exact Hact'|].
  intros sid r Hin Hr Hlcr. refine (Hnew' sid _ r Hr Hlcr).
  now rewrite (select_connected_same (store c) (store c2) siteId (proj1 Hinv2)).
Qed.

Lemma SiteLifecycleChanged_active_propagates_witness :
  exists c',
    SiteLifecycleChanged_TX "hub" lc_active (connect linked_db (fun _ _ => false))
    = (inr tt, c')
    /\ select_site "hub" (store c')
       = [mkSite "hub" (Some lc_active) (Some ds_deployed)]
    /\ select_site "s1" (store c')
       = [mkSite "s1" (Some lc_ready) (Some ds_ready_automatic)].
Proof.
  destruct (SiteLifecycleChanged_active_propagates
              (connect linked_db (fun _ _ => false)) "hub" (row_of site_hub))
    as (c' & Hrun & _ & Hhub & Hlinked);
    [intros kind n _; reflexivity | reflexivity | reflexivity |].
  exists c'. split; [exact Hrun|]. split; [exact Hhub|].
  apply (Hlinked "s1" (row_of site_s1)); [now left | reflexivity | reflexivity].
Defined.

(** On the example, the hub and the site linked to it. *)
Example hub_became_active :
  InteriorSites
    (store (snd (SiteLifecycleChanged_TX "hub" lc_active
                   (connect linked_db (fun _ _ => false)))))
  = [set_DeploymentState ds_deployed site_hub;
     set_DeploymentState ds_ready_automatic site_s1].
Proof. reflexivity. Qed.

End DeploymentStateFacts.

Module StateSyncFacts.
Import Js JsFacts StateSync.

(** ** The marks of [toDeleteStateKeys] *)

Lemma mark_fold_get (keys : list string) (marks : list (string * bool))
  (key : string) :
  obj_get (fold_left (fun marks key => obj_set marks key true) keys marks) key
  = if existsb (String.eqb key) keys then Some true else obj_get marks key.
Proof.
  revert marks. induction keys as [|k keys IH]; intros marks; simpl; [reflexivity|].
  rewrite IH. destruct (existsb (String.eqb key) keys); [now rewrite orb_true_r|].
  rewrite orb_false_r. destruct (String.eqb key k) eqn:E.
  - apply String.eqb_eq in E. subst. apply obj_get_set_eq.
  - apply String.eqb_neq in E. apply obj_get_set_ne. congruence.
Qed.

Lemma unmark_fold_get (hashset : hashstate) (marks : list (string * bool))
  (key : string) :
  obj_get (fold_left (fun marks entry => obj_set marks (fst entry) false)
                     hashset marks) key
  = if obj_has hashset key then Some false else obj_get marks key.
Proof.
  unfold obj_has, obj_keys.
  revert marks. induction hashset as [|[k h] hs IH]; intros marks; simpl;
    [reflexivity|].
  rewrite IH. destruct (existsb (String.eqb key) (map fst hs));
    [now rewrite orb_true_r|].
  rewrite orb_false_r. destruct (String.eqb key k) eqn:E.
  - apply String.eqb_eq in E. subst. apply obj_get_set_eq.
  - apply String.eqb_neq in E. apply obj_get_set_ne. congruence.
Qed.

Lemma toDeleteStateKeys_get (rs hashset : hashstate) (key : string) :
  obj_get (toDeleteStateKeys rs hashset) key
  = if obj_has hashset key then Some false
    else if obj_has rs key then Some true else None.
Proof.
  unfold toDeleteStateKeys, mark_all. rewrite unmark_fold_get, mark_fold_get.
  reflexivity.
Qed.

Lemma fold_set_NoDup {A : Type} (f : A -> string) (b : bool) (l : list A)
  (marks : list (string * bool)) :
  NoDup (obj_keys marks) ->
  NoDup (obj_keys (fold_left (fun marks x => obj_set marks (f x) b) l marks)).
Proof.
  revert marks. induction l as [|x l IH]; intros marks H; simpl; [exact H|].
  apply IH. now apply obj_set_keys_NoDup.
Qed.

Lemma toDeleteStateKeys_NoDup (rs hashset : hashstate) :
  NoDup (obj_keys (toDeleteStateKeys rs hashset)).
Proof.
  unfold toDeleteStateKeys, mark_all.
  apply (fold_set_NoDup fst false). apply (fold_set_NoDup (fun k => k) true).
  constructor.
Qed.

Lemma toDeleteStateKeys_marked (rs hashset : hashstate) (key : string) :
  In (key, true) (toDeleteStateKeys rs hashset)
  <-> obj_has rs key = true /\ obj_has hashset key = false.
Proof.
  rewrite <- (obj_get_Some_iff _ _ _ (toDeleteStateKeys_NoDup rs hashset)).
  rewrite toDeleteStateKeys_get.
  destruct (obj_has hashset key), (obj_has rs key); split;
    try discriminate; try tauto; intros [? ?]; discriminate.
Qed.

Lemma toRequestStateKeys_In (rs hashset : hashstate) (key : string) :
  In key (toRequestStateKeys rs hashset)
  <-> exists hash, In (key, hash) hashset /\ hash_differs rs key hash = true.
Proof.
  unfold toRequestStateKeys. rewrite in_map_iff. split.
  - intros [[k h] [<- Hin]].
    apply list_elem_of_In, list_elem_of_filter in Hin as [Hp Hin].
    apply Is_true_true in Hp. apply list_elem_of_In in Hin. eauto.
  - intros [hash [Hin Hd]]. exists (key, hash). split; [reflexivity|].
    apply list_elem_of_In, list_elem_of_filter. split.
    + now apply Is_true_true.
    + now apply list_elem_of_In.
Qed.

Lemma hash_differs_spec (rs : hashstate) (key hash : string) :
  hash_differs rs key hash = true <-> obj_get rs key <> Some hash.
Proof.
  unfold hash_differs. destruct (obj_get rs key) as [known|].
  - rewrite negb_true_iff, String.eqb_neq. split; congruence.
  - split; [discriminate | reflexivity].
Qed.


(** ** The deletion loop *)




(** ** The pull loop *)




(** ** Reconciliation on a heartbeat *)



Example heartbeat_scenario :
  onHeartbeat scenario_world "bb1" "backbone" "s1"
    (Some [("link-L1", "H1")]) "addr-s1" scenario_state
  = (inr tt,
     mkState [("s1", mkPeer "bb1" "backbone" "addr-s1" (Some [])
                        (Some [("link-L1", "H1")]))]
             ["bb1"] false
             [Ping "s1"; Get "addr-s1" "link-L1";
              StateChange "s1" "link-L1" (Some "H1")
                (Some (VObj [("host", VStr "h")]))]).
Proof. reflexivity. Qed.

Lemma delete_states_unmarked (w : world) (peerId : string)
  (entries : list (string * bool)) (rs : hashstate) (tr : list event) :
  (forall key, ~ In (key, true) entries) ->
  delete_states w peerId entries rs tr = (rs, tr).
Proof.
  revert rs tr. induction entries as [|[k b] entries IH]; intros rs tr Hno;
    [reflexivity|].
  cbn [delete_states]. destruct b.
  - exfalso. apply (Hno k). now left.
  - apply IH. intros key Hin. apply (Hno key). now right.
Qed.

Lemma toRequestStateKeys_nil (rs hashset : hashstate) :
  (forall key hash, In (key, hash) hashset -> obj_get rs key = Some hash) ->
  toRequestStateKeys rs hashset = [].
Proof.
  intros Hsame.
  destruct (toRequestStateKeys rs hashset) as [|key keys] eqn:E; [reflexivity|].
  assert (Hin : In key (toRequestStateKeys rs hashset)) by (rewrite E; now left).
  apply toRequestStateKeys_In in Hin as [hash [Hin Hd]].
  apply hash_differs_spec in Hd. exfalso. apply Hd. now apply Hsame.
Qed.

Lemma set_remoteState_same (p : peer) (rs : hashstate) :
  remoteState p = Some rs -> set_remoteState rs p = p.
Proof. destruct p; cbn. now intros ->. Qed.

(** What a heartbeat with a hashset from a known peer comes to. *)
Lemma onHeartbeat_known_run (w : world) (s : state)
  (connectionKey peerClass peerId address : string) (hashset : hashstate)
  (p : peer) (rs : hashstate) :
  obj_get (peers s) peerId = Some p ->
  remoteState p = Some rs ->
  has_connection s connectionKey = true ->
  let d := delete_states w peerId (toDeleteStateKeys rs hashset) rs
                         (trace s ++ [Ping peerId]) in
  let r := request_states w peerId (StateSync.address p)
                          (toRequestStateKeys rs hashset) (fst d) (snd d) in
  onHeartbeat w connectionKey peerClass peerId (Some hashset) address s
  = (inr tt,
     mkState (obj_set (peers s) peerId (set_remoteState (fst r) p))
             (connections s) false (snd r)).
Proof.
  intros Hpeer Hrs Hconn d r.
  unfold onHeartbeat, reconcile, emit.
  cbn [peers connections initialBeacon trace]. rewrite Hpeer.
  cbn [peers connections initialBeacon trace]. rewrite Hpeer, Hrs.
  fold d. rewrite (surjective_pairing d).
  unfold has_connection in *. cbn [connections]. rewrite Hconn.
  fold r. now rewrite (surjective_pairing r).
Qed.

Lemma obj_set_same {V : Type} (o : list (string * V)) (k : string) (v : V) :
  obj_get o k = Some v -> obj_set o k v = o.
Proof.
  induction o as [|[k' v'] o IH]; simpl; [discriminate|].
  destruct (String.eqb k' k) eqn:E.
  - now intros [= ->].
  - intros H. now rewrite IH.
Qed.

(** ** Heartbeats that find nothing to do, and heartbeats that settle
    everything *)

(** X1: a heartbeat from a known peer whose hashset
    holds exactly the keys and hashes already tracked for that peer makes
    no [onStateChange] call and sends no GET: it pings, clears the
    initial-beacon flag and leaves the peers as they were. *)
Theorem onHeartbeat_in_sync (w : world) (s : state)
  (connectionKey peerClass peerId address : string) (hashset : hashstate)
  (p : peer) (rs : hashstate) :
  obj_get (peers s) peerId = Some p ->
  remoteState p = Some rs ->
  has_connection s connectionKey = true ->
  NoDup (obj_keys hashset) ->
  (forall key, obj_get hashset key = obj_get rs key) ->
  onHeartbeat w connectionKey peerClass peerId (Some hashset) address s
  = (inr tt,
     mkState (peers s) (connections s) false (trace s ++ [Ping peerId])).
Proof.
  intros Hpeer Hrs Hconn Hnd Hsame.
  rewrite (onHeartbeat_known_run w s connectionKey peerClass peerId address
             hashset p rs Hpeer Hrs Hconn).
  rewrite delete_states_unmarked.
  - cbn [fst snd]. rewrite toRequestStateKeys_nil.
    + cbn [request_states fst snd].
      now rewrite (set_remoteState_same p rs Hrs), (obj_set_same _ _ _ Hpeer).
    + intros key hash Hin. rewrite <- Hsame.
      now apply obj_get_Some_iff.
  - intros key Hin. apply toDeleteStateKeys_marked in Hin as [Hhas Hnot].
    apply obj_has_get in Hhas as [h Hh]. apply obj_has_false in Hnot.
    rewrite Hsame in Hnot. congruence.
Qed.

Lemma onHeartbeat_in_sync_witness :
  onHeartbeat scenario_world "bb1" "backbone" "s1"
    (Some [("link-L1", "H0")]) "addr-s1" scenario_state
  = (inr tt, mkState (peers scenario_state) ["bb1"] false [Ping "s1"]).
Proof.
  apply (onHeartbeat_in_sync scenario_world scenario_state "bb1" "backbone"
           "s1" "addr-s1" [("link-L1", "H0")]
           (mkPeer "bb1" "backbone" "addr-s1" (Some [])
                   (Some [("link-L1", "H0")]))
           [("link-L1", "H0")] eq_refl eq_refl eq_refl).
  - apply NoDup_singleton.
  - reflexivity.
Defined.







(** ** Peers seen for the first time *)




(** ** Local state *)




(** ** Deleted connections *)

Lemma DeleteConnection_has (s : state) (backboneId : string) :
  has_connection (DeleteConnection (Some backboneId) s) backboneId = false.
Proof.
  unfold has_connection, DeleteConnection. cbn [connections].
  induction (connections s) as [|k ks IH]; [reflexivity|].
  cbn [List.filter]. destruct (String.eqb_spec k backboneId) as [->|Hne].
  - exact IH.
  - cbn [negb existsb]. rewrite IH.
    destruct (String.eqb_spec backboneId k); [congruence | reflexivity].
Qed.

Lemma DeleteConnection_other (s : state) (backboneId : option string)
  (key : string) :
  key <> match backboneId with Some b => b | None => "undefined" end ->
  has_connection (DeleteConnection backboneId s) key = has_connection s key.
Proof.
  intros Hne. unfold has_connection, DeleteConnection. cbn [connections].
  induction (connections s) as [|k ks IH]; [reflexivity|].
  cbn [List.filter existsb].
  destruct (String.eqb_spec k (match backboneId with
                               | Some b => b
                               | None => "undefined"
                               end)) as [->|Hk].
  - cbn [negb]. rewrite IH.
    destruct (String.eqb_spec key (match backboneId with
                                   | Some b => b
                                   | None => "undefined"
                                   end)); [contradiction | reflexivity].
  - cbn [negb existsb]. now rewrite IH.
Qed.

(** X23: [DeleteConnection] keeps the peers
    that were reached over the connection.  From then on a heartbeat to
    such a peer throws a TypeError before anything is sent, and
    [UpdateLocalState] for it throws as well, after it has changed the
    peer's local manifest.  Called without a backbone id it removes no
    connection but one named [undefined]: the connection [net] stays. *)
Theorem DeleteConnection_strands_peers (s : state) (backboneId : string)
  (peerId stateKey : string) (stateHash : option string) (p : peer)
  (ls : hashstate) :
  obj_get (peers s) peerId = Some p ->
  StateSync.connectionKey p = backboneId ->
  localState p = Some ls ->
  let s' := DeleteConnection (Some backboneId) s in
  peers s' = peers s
  /\ sendHeartbeat peerId s' = (inl TypeError, s')
  /\ (exists ls',
        UpdateLocalState peerId stateKey stateHash s'
        = (inl TypeError,
           mkState (obj_set (peers s) peerId (set_localState ls' p))
                   (connections s') (initialBeacon s) (trace s))
        /\ obj_get ls' stateKey
           = match stateHash with
             | Some h => if String.eqb h "" then None else Some h
             | None => None
             end)
  /\ has_connection (DeleteConnection None s) "net" = has_connection s "net".
Proof.
  intros Hpeer Hkey Hls s'.
  pose proof (DeleteConnection_has s backboneId) as Hgone. fold s' in Hgone.
  split; [reflexivity|]. split; [|split].
  - unfold sendHeartbeat.
    change (peers s') with (peers s). rewrite Hpeer, Hkey, Hgone. reflexivity.
  - set (ls' := match stateHash with
                | Some h => if String.eqb h "" then obj_delete ls stateKey
                            else obj_set ls stateKey h
                | None => obj_delete ls stateKey
                end).
    exists ls'. split.
    + unfold UpdateLocalState.
      change (peers s') with (peers s). rewrite Hpeer, Hls. fold ls'.
      unfold sendHeartbeat, set_peer.
      cbn [peers connections initialBeacon trace].
      rewrite obj_get_set_eq. unfold has_connection in *.
      cbn [connections set_localState StateSync.connectionKey localState].
      rewrite Hkey, Hgone. reflexivity.
    + unfold ls'. destruct stateHash as [h|].
      * destruct (String.eqb h "");
          [apply obj_get_delete_eq | apply obj_get_set_eq].
      * apply obj_get_delete_eq.
  - apply DeleteConnection_other. discriminate.
Qed.

Lemma DeleteConnection_strands_peers_witness :
  fst (sendHeartbeat "s1" (DeleteConnection (Some "bb1") scenario_state))
  = inl TypeError
  /\ trace (snd (UpdateLocalState "s1" "link-L7" (Some "H7")
                   (DeleteConnection (Some "bb1") scenario_state)))
     = [].
Proof.
  destruct (DeleteConnection_strands_peers scenario_state "bb1" "s1"
              "link-L7" (Some "H7")
              (mkPeer "bb1" "backbone" "addr-s1" (Some [])
                      (Some [("link-L1", "H0")]))
              [] eq_refl eq_refl eq_refl)
    as (_ & Hsend & (ls' & Hrun & _) & _).
  rewrite Hsend, Hrun. split; reflexivity.
Defined.

End StateSyncFacts.

(* ===================================================================== *)
(** * db.js: intervals *)
(* ===================================================================== *)

Module ConfigFacts.
Import Js Schema Config.

Lemma unit_milliseconds_uncounted (unit : string) :
  counted unit = false -> unit_milliseconds unit = 0.
Proof.
  unfold counted, unit_milliseconds. cbn [existsb]. intros H.
  repeat (apply orb_false_elim in H; destruct H as [?E H]).
  rewrite E, E0, E1, E2, E3, E4, E5, E6, E7, E8, E9, E10. reflexivity.
Qed.

Lemma sum_uncounted (value : interval) :
  forall acc : Z,
    fold_left (fun result entry =>
                 result + snd entry * unit_milliseconds (fst entry))
      value acc
    = fold_left (fun result entry =>
                   result + snd entry * unit_milliseconds (fst entry))
        (counted_entries value) acc.
Proof.
  induction value as [|[unit quantity] value IH]; intros acc; [reflexivity|].
  unfold counted_entries. cbn [List.filter fold_left fst snd].
  destruct (counted unit) eqn:E.
  - cbn [fold_left fst snd]. apply IH.
  - rewrite (unit_milliseconds_uncounted unit E), Z.mul_0_r, Z.add_0_r.
    apply IH.
Qed.

(** X21: only years, weeks, days, hours,
    minutes and seconds (in the singular or the plural) count: an
    interval gives the same result as the interval without its other
    entries, such as months or milliseconds.  Whatever the entries are,
    the result of a non-null interval is at least one hour. *)
Theorem IntervalMilliseconds_counted_units (value : interval) :
  IntervalMilliseconds (Some value)
  = IntervalMilliseconds (Some (counted_entries value))
  /\ 3600000 <= IntervalMilliseconds (Some value).
Proof.
  unfold IntervalMilliseconds. rewrite <- sum_uncounted. split; [reflexivity|].
  destruct (Z.ltb_spec
              (fold_left (fun result entry =>
                 result + snd entry * unit_milliseconds (fst entry))
                 value 0) 3600000); lia.
Qed.

Example six_months_is_one_hour :
  IntervalMilliseconds (Some [("months", 6)]) = 3600000
  /\ IntervalMilliseconds (Some [("months", 6); ("days", 2)])
     = 2 * 24 * 3600 * 1000
  /\ IntervalMilliseconds (Some []) = 3600000.
Proof. repeat split. Qed.

End ConfigFacts.

Module CertsFacts.
Import Js Schema Pg Certs SchemaFacts DeploymentStateFacts.

(** ** Tables under the statements of secretAdded *)

Lemma by_id_where_id {R : Type} (Id : R -> uuid) (id : uuid) (f : R -> R)
  (rows : list R) :
  (forall r, Id (f r) = Id r) ->
  by_id Id id (where_id Id id f rows) = map f (by_id Id id rows).
Proof.
  intros Hid. unfold by_id, where_id.
  induction rows as [|r rows IH]; [reflexivity|]. cbn [map List.filter].
  destruct (String.eqb (Id r) id) eqn:E.
  - rewrite Hid, E. cbn [map]. now rewrite IH.
  - rewrite E. exact IH.
Qed.








(** ** The delay of a reconciler loop, read off the statements it sent *)

Lemma reconcile_delay {R : Type} (initial_delay : Z)
  (select_new : db -> option R) (process : R -> M Pg.client unit)
  (c : Pg.client) :
  let out := reconcile initial_delay select_new process c in
  match last (log (client (snd out))) with
  | Some (COMMIT, true) =>
      fst out = inr tt
      /\ reschedule_delay (snd out)
         = if defined_row (select_new (store c)) then 0 else initial_delay
  | Some (ROLLBACK, true) =>
      fst out = inr tt /\ reschedule_delay (snd out) = 10000
  | _ => exists e, fst out = inl e
  end.
Proof.
  destruct c as [d snap lg f].
  unfold reconcile, try_catch, bind, query_BEGIN, query_COMMIT, query_ROLLBACK,
    select, query, set_delay, modify, ret, run_of, issued, sent, refused,
    with_client.
  cbn [the_client put_client run_HasClient client reschedule_delay
       store snapshot log fault fst snd].
  repeat match goal with
         | |- context [if ?g ?k (List.length ?l) then _ else _] =>
             destruct (g k (List.length l)) eqn:?;
             cbn [the_client put_client run_HasClient client reschedule_delay
                  store snapshot log fault fst snd]
         | |- context [match select_new d with _ => _ end] =>
             destruct (select_new d) as [row|] eqn:?;
             cbn [the_client put_client run_HasClient client reschedule_delay
                  store snapshot log fault fst snd defined_row]
         | |- context [process ?row ?c0] =>
             destruct (process row c0) as [[e|[]] [d1 snap1 lg1 f1]] eqn:?;
             cbn [the_client put_client run_HasClient client reschedule_delay
                  store snapshot log fault fst snd]
         end;
    rewrite ?last_snoc; eauto.
Qed.

Lemma reconcile_idle {R : Type} (initial_delay : Z)
  (select_new : db -> option R) (process : R -> M Pg.client unit)
  (c : Pg.client) :
  reliable c [BEGIN; SELECT; COMMIT] ->
  snapshot c = None ->
  select_new (store c) = None ->
  reconcile initial_delay select_new process c
  = (inr tt,
     mkRun (mkClient (store c) None
              (log c ++ [(BEGIN, true); (SELECT, true); (COMMIT, true)])
              (fault c))
           initial_delay).
Proof.
  intros Hrel Hsnap Hnone. destruct c as [d snap lg f].
  cbn in Hsnap, Hnone. subst snap.
  unfold reconcile, try_catch, bind, query_BEGIN, query_COMMIT,
    select, query, ret, run_of, issued, sent, refused.
  cbn [the_client put_client run_HasClient client reschedule_delay
       store snapshot log fault].
  rewrite (Hrel BEGIN) by (simpl; auto).
  cbn [the_client put_client run_HasClient client reschedule_delay
       store snapshot log fault].
  rewrite (Hrel SELECT) by (simpl; auto). rewrite Hnone.
  cbn [the_client put_client run_HasClient client reschedule_delay
       store snapshot log fault].
  rewrite (Hrel COMMIT) by (simpl; auto).
  cbn [the_client put_client run_HasClient client reschedule_delay
       store snapshot log fault].
  now rewrite <- !app_assoc.
Qed.

(** C7, as stated, fails for the management-controller loop: with no row
    to process it reschedules itself after 5 seconds. *)
Lemma management_controller_idle_delay :
  let out := processNewManagementControllers example_config 0 "r1"
               (connect empty_db no_fault) in
  fst out = inr tt
  /\ map fst (log (client (snd out))) = [BEGIN; SELECT; COMMIT]
  /\ reschedule_delay (snd out) = 5000
  /\ reschedule_delay (snd out) <> 2000.
Proof. vm_compute. repeat split. discriminate. Qed.

(** C7 (amended): every per-kind reconciler loop ends its run with a
    COMMIT or a ROLLBACK.  After a COMMIT that went through it reschedules
    itself immediately when its SELECT found a row, and otherwise after 2
    seconds (5 seconds for the management-controller loop); after a
    ROLLBACK that went through, which is sent only when the transaction
    raised an error, it reschedules itself after 10 seconds.  A run whose
    ROLLBACK fails too ends in an exception.  And on a client whose
    BEGIN, SELECT and COMMIT go through, a SELECT without a row leaves the
    tables as they are and keeps that 2 (5) second delay. *)
Theorem reconciler_delays (k : kind) (cfg : Config.t) (now : timestamptz)
  (new_id : uuid) (c : Pg.client) :
  let out := loop k cfg now new_id c in
  match last (log (client (snd out))) with
  | Some (COMMIT, true) =>
      fst out = inr tt
      /\ reschedule_delay (snd out)
         = if finds_row k (store c) then 0 else idle_delay k
  | Some (ROLLBACK, true) =>
      fst out = inr tt /\ reschedule_delay (snd out) = 10000
  | _ => exists e, fst out = inl e
  end
  /\ (reliable c [BEGIN; SELECT; COMMIT] ->
      snapshot c = None ->
      finds_row k (store c) = false ->
      out = (inr tt,
             mkRun (mkClient (store c) None
                      (log c ++ [(BEGIN, true); (SELECT, true); (COMMIT, true)])
                      (fault c))
                   (idle_delay k))).
Proof.
  split.
  - destruct k; apply reconcile_delay.
  - intros Hrel Hsnap Hnone.
    destruct k; cbn [finds_row] in Hnone; apply reconcile_idle; auto;
      match goal with
      | H : defined_row ?x = false |- ?x = None => now destruct x
      end.
Qed.

Lemma reconciler_delays_witness :
  loop BackboneKind example_config 0 "r1" (connect empty_db no_fault)
  = (inr tt,
     mkRun (mkClient empty_db None
              [(BEGIN, true); (SELECT, true); (COMMIT, true)] no_fault)
           2000).
Proof.
  apply (proj2 (reconciler_delays BackboneKind example_config 0 "r1"
                  (connect empty_db no_fault))).
  - intros kind n _. reflexivity.
  - reflexivity.
  - reflexivity.
Defined.

(** A new backbone is processed and the loop reschedules at once. *)
Example new_backbone_processed :
  let out := processNewBackbones example_config 0 "r1"
               (connect new_backbone_db no_fault) in
  fst out = inr tt
  /\ reschedule_delay (snd out) = 0
  /\ map fst (log (client (snd out))) = [BEGIN; SELECT; INSERT; UPDATE; COMMIT]
  /\ map Backbone.Lifecycle (Backbones (store (client (snd out))))
     = [Some lc_skx_cr_created]
  /\ map CertificateRequest.Backbone
         (CertificateRequests (store (client (snd out)))) = [Some "bb1"]
  /\ map CertificateRequest.DurationHours
         (CertificateRequests (store (client (snd out)))) = [Some 8760].
Proof. vm_compute. repeat split. Qed.

(** A refused INSERT is rolled back and the loop sleeps 10 seconds. *)
Example new_backbone_refused :
  let insert_fails := fun (kind : stmt) (n : nat) =>
                        match kind with INSERT => true | _ => false end in
  let out := processNewBackbones example_config 0 "r1"
               (connect new_backbone_db insert_fails) in
  fst out = inr tt
  /\ reschedule_delay (snd out) = 10000
  /\ log (client (snd out))
     = [(BEGIN, true); (SELECT, true); (INSERT, false); (ROLLBACK, true)]
  /\ store (client (snd out)) = new_backbone_db.
Proof. vm_compute. repeat split. Qed.

(** ** Finalization on the arrival of a secret *)





(** The same run, evaluated: the transaction, and the call that follows
    it. *)
Example member_site_finalized :
  let out := secretAdded member_world "req-1" member_secret member_finalizer in
  fst out = inr tt
  /\ log (db_client (snd out))
     = [(BEGIN, true); (SELECT, true); (SELECT, true); (INSERT, true);
        (UPDATE, true); (DELETE, true); (COMMIT, true)]
  /\ calls (snd out)
     = [(LoadCertificate "skx-member-req-1", true);
        (CompleteMember "m-1", false)]
  /\ map MemberSite.Lifecycle (MemberSites (store (db_client (snd out))))
     = [Some lc_ready]
  /\ map TlsCertificate.SignedBy (TlsCertificates (store (db_client (snd out))))
     = [Some "van-ca"].
Proof. vm_compute. repeat split. Qed.

(** A certificate issued by the root issuer is not signed by a row. *)
Example root_signed_finalized :
  let root_secret :=
    mkSecret "skx-member-req-1"
             [("skupper.io/skupperx-controlled", "true");
              ("skupper.io/skx-dblink", "req-1");
              ("skupper.io/skx-issuerlink", "root")] in
  map TlsCertificate.SignedBy
    (TlsCertificates
       (store (db_client (snd (secretAdded member_world "req-1" root_secret
                                 member_finalizer)))))
  = [None].
Proof. vm_compute. reflexivity. Qed.

Local Open Scope pg_scope.

(** ** All or nothing *)

(** A run that ends outside a transaction has either left the tables
    alone or processed the selected row to the end. *)
Lemma reconcile_outcome {R : Type} (initial_delay : Z)
  (select_new : db -> option R) (process : R -> M Pg.client unit)
  (c : Pg.client) :
  snapshot c = None ->
  (forall row c0, snapshot (snd (process row c0)) = snapshot c0) ->
  let out := reconcile initial_delay select_new process c in
  snapshot (client (snd out)) = None ->
  store (client (snd out)) = store c
  \/ exists row c1,
       select_new (store c) = Some row
       /\ store c1 = store c
       /\ fst (process row c1) = inr tt
       /\ store (client (snd out)) = store (snd (process row c1)).
Proof.
  intros Hsnap Hkeep. destruct c as [d snap lg f]. cbn in Hsnap. subst snap.
  unfold reconcile, try_catch, bind, query_BEGIN, query_COMMIT, query_ROLLBACK,
    select, query, set_delay, modify, ret, run_of, issued, sent, refused,
    with_client.
  cbn [the_client put_client run_HasClient client reschedule_delay
       store snapshot log fault fst snd].
  repeat match goal with
         | |- context [if ?g ?k (List.length ?l) then _ else _] =>
             destruct (g k (List.length l)) eqn:?;
             cbn [the_client put_client run_HasClient client reschedule_delay
                  store snapshot log fault fst snd]
         | |- context [match select_new d with _ => _ end] =>
             destruct (select_new d) as [row|] eqn:?;
             cbn [the_client put_client run_HasClient client reschedule_delay
                  store snapshot log fault fst snd defined_row]
         | |- context [process ?row ?c0] =>
             let H := fresh "Hp" in
             let K := fresh "Hk" in
             pose proof (Hkeep row c0) as K;
             destruct (process row c0) as [[e|[]] [d1 snap1 lg1 f1]] eqn:H;
             cbn [the_client put_client run_HasClient client reschedule_delay
                  store snapshot log fault fst snd] in *
         end;
    try (intros [=]); try (intros _); auto;
    try (subst; discriminate).
  all: try (rewrite Hk; now left).
  right. eexists _, _. split; [reflexivity|]. split; [|rewrite Hp; split; reflexivity].
  reflexivity.
Qed.

Lemma request_then_update (new_id : uuid) (ty : CertificateRequestType)
  (created requested : option timestamptz) (hours : option Z) (target : uuid)
  (issuer : option uuid) (hostname : option string) (effect : db -> db)
  (c : Pg.client) :
  let out := (insert_request new_id ty created requested hours target issuer
                hostname ;;; execute UPDATE effect) c in
  snapshot (snd out) = snapshot c
  /\ (fst out = inr tt ->
      exists h,
        hours = Some h
        /\ store (snd out)
           = effect (with_CertificateRequests
                       (fun rows => rows ++ [request_row new_id ty created
                                               requested h target issuer hostname])
                       (store c))).
Proof.
  unfold insert_request, execute, bind, query, sent, refused, issued.
  cbn [the_client put_client client_HasClient].
  destruct (fault c INSERT _); cbn; [split; [reflexivity | discriminate]|].
  destruct hours as [h|]; cbn; [|split; [reflexivity | discriminate]].
  destruct (fault c UPDATE _); cbn; [split; [reflexivity | discriminate]|].
  split; [reflexivity|]. intros _. exists h. split; reflexivity.
Qed.

Lemma head_In {A : Type} (l : list A) (x : A) : head l = Some x -> In x l.
Proof. destruct l; [discriminate|]. intros [= ->]. now left. Qed.

Lemma by_id_In {R : Type} (Id : R -> uuid) (rows : list R) (r : R) :
  In r rows -> In r (by_id Id (Id r) rows).
Proof.
  intros H. unfold by_id. apply filter_In. split; [exact H|].
  apply String.eqb_refl.
Qed.

Lemma by_id_set_lifecycle {R : Type} (Id : R -> uuid)
  (Lifecycle : R -> option LifecycleType) (Certificate : R -> option uuid)
  (f : R -> R) (lc : LifecycleType) (id : uuid) (rows : list R) :
  (forall r, Id (f r) = Id r) ->
  (forall r, Lifecycle (f r) = Some lc) ->
  (forall r, Certificate (f r) = Certificate r) ->
  map (fun r => (Lifecycle r, Certificate r)) (by_id Id id (where_id Id id f rows))
  = map (fun p => (Some lc, snd p))
        (map (fun r => (Lifecycle r, Certificate r)) (by_id Id id rows)).
Proof.
  intros Hid Hlc Hcert. rewrite (by_id_where_id Id id f rows Hid), !map_map.
  apply map_ext. intros r. cbn. now rewrite Hlc, Hcert.
Qed.

Lemma select_new_mc_spec (d : db) (row : ManagementController.t) :
  select_new_mc d = Some row ->
  In row (ManagementControllers d) /\ ManagementController.Lifecycle row = Some lc_new.
Proof.
  unfold select_new_mc. intros H. apply head_In in H.
  apply list_elem_of_In, list_elem_of_filter in H as [Hp Hin].
  apply Is_true_true, col_is_spec in Hp. apply list_elem_of_In in Hin. auto.
Qed.

Lemma select_new_bb_spec (d : db) (row : Backbone.t) :
  select_new_bb d = Some row ->
  In row (Backbones d) /\ Backbone.Lifecycle row = Some lc_new.
Proof.
  unfold select_new_bb. intros H. apply head_In in H.
  apply list_elem_of_In, list_elem_of_filter in H as [Hp Hin].
  apply Is_true_true, col_is_spec in Hp. apply list_elem_of_In in Hin. auto.
Qed.

Ltac joined H :=
  apply head_In in H;
  repeat match type of H with
         | In _ (flat_map _ _) =>
             let x := fresh "x" in
             let Hx := fresh "Hx" in
             apply in_flat_map in H as (x & Hx & H)
         end;
  match type of H with
  | In _ (if ?b then _ else _) =>
      let E := fresh "E" in
      destruct b eqn:E; [|destruct H];
      destruct H as [<-|[]];
      repeat match type of E with
             | (_ && _) = true =>
                 let E' := fresh "E" in apply andb_true_iff in E as [E E']
             end
  end.

Lemma select_new_ap_spec (d : db) row :
  select_new_ap d = Some row ->
  In (fst row) (BackboneAccessPoints d)
  /\ BackboneAccessPoint.Lifecycle (fst row) = Some lc_new.
Proof.
  unfold select_new_ap. intros H. joined H. cbn [fst].
  split; [assumption|]. now apply col_is_spec.
Qed.

Lemma select_new_van_spec (d : db) row :
  select_new_van d = Some row ->
  In (fst row) (ApplicationNetworks d)
  /\ ApplicationNetwork.Lifecycle (fst row) = Some lc_new.
Proof.
  unfold select_new_van. intros H. joined H. cbn [fst].
  split; [assumption|]. now apply col_is_spec.
Qed.

Lemma select_new_site_spec (d : db) row :
  select_new_site d = Some row ->
  In (fst row) (InteriorSites d)
  /\ InteriorSite.Lifecycle (fst row) = Some lc_new.
Proof.
  unfold select_new_site. intros H. joined H. cbn [fst].
  split; [assumption|]. now apply col_is_spec.
Qed.

Lemma select_new_inv_spec (d : db) row :
  select_new_inv d = Some row ->
  In (fst row) (MemberInvitations d)
  /\ MemberInvitation.Lifecycle (fst row) = Some lc_new.
Proof.
  unfold select_new_inv. intros H. joined H. cbn [fst].
  split; [assumption|]. now apply col_is_spec.
Qed.

Lemma select_new_member_spec (d : db) row :
  select_new_member d = Some row ->
  In (fst row) (MemberSites d)
  /\ MemberSite.Lifecycle (fst row) = Some lc_new.
Proof.
  unfold select_new_member. intros H. joined H. cbn [fst].
  split; [assumption|]. now apply col_is_spec.
Qed.

Lemma select_new_cred_spec (d : db) row :
  select_new_cred d = Some row ->
  In (fst row) (NetworkCredentials d)
  /\ NetworkCredential.Lifecycle (fst row) = Some lc_new.
Proof.
  unfold select_new_cred. intros H. joined H. cbn [fst].
  split; [assumption|]. now apply col_is_spec.
Qed.

Ltac settle_requested idt Hin Hlc :=
  exists idt; eexists; eexists;
  split; [reflexivity|];
  split; [reflexivity|];
  split; [reflexivity|];
  split; [reflexivity|];
  split; [lazy; reflexivity|];
  split; [reflexivity|];
  split; [reflexivity|];
  split;
  [ cbn [table_of entity_rows]; apply in_map_iff;
    eexists (_, _); split; [|apply in_map_iff; eexists; split;
                              [reflexivity | apply by_id_In; exact Hin]];
    cbn [fst]; exact Hlc
  | cbn [table_of entity_rows with_CertificateRequests
         with_ManagementControllers with_Backbones with_InteriorSites
         with_BackboneAccessPoints with_ApplicationNetworks
         with_NetworkCredentials with_MemberInvitations with_MemberSites
         ManagementControllers Backbones InteriorSites BackboneAccessPoints
         ApplicationNetworks NetworkCredentials MemberInvitations MemberSites];
    apply by_id_set_lifecycle; reflexivity ].

Ltac use_effect Hok :=
  match type of Hok with
  | fst (Pg.bind (insert_request ?a ?b ?c ?d ?e ?f ?g ?h)
                 (fun _ => execute UPDATE ?eff) ?c1) = _ =>
      let H := fresh "H" in
      let hrs := fresh "h" in
      destruct (request_then_update a b c d e f g h eff c1) as [_ H];
      destruct (H Hok) as (hrs & _ & ->)
  end.

(** X9: a run of any of the eight per-kind
    loops that starts and ends outside a transaction, whatever the
    database refused along the way, has either left every table as it was
    or has done both things: appended one new CertificateRequest, of the
    type of the loop and with the generated identifier, for a row of the
    loop's table that was new, and moved that row to skx_cr_created.  The
    request and the lifecycle change never come apart. *)
Theorem reconciler_all_or_nothing (k : kind) (cfg : Config.t)
  (now : timestamptz) (new_id : uuid) (c : Pg.client) :
  snapshot c = None ->
  let out := loop k cfg now new_id c in
  snapshot (client (snd out)) = None ->
  store (client (snd out)) = store c
  \/ requested k new_id (store c) (store (client (snd out))).
Proof.
  intros Hsnap out Hout. subst out.
  destruct k; cbn [loop] in *;
    unfold processNewManagementControllers, processNewBackbones,
      processNewAccessPoints, processNewNetworks, processNewInteriorSites,
      processNewInvitations, processNewMemberSites,
      processNewNetworkCredentials in *;
    match type of Hout with
    | snapshot (client (snd (reconcile ?i ?sel ?proc c))) = None =>
        destruct (reconcile_outcome i sel proc c Hsnap) as [Hsame|Hdone];
          [ | exact Hout | now left | ]
    end.
  all: try (intros row c0; cbv beta;
            try (destruct (ApplicationNetwork.EndTime (fst row));
                 [destruct (ApplicationNetwork.StartTime (fst row))|];
                 unfold bind at 1, ret, throw; try reflexivity);
            apply request_then_update).
  all: right; destruct Hdone as (row & c1 & Hsel & Hstore & Hok & ->);
    cbv beta in *.
  - apply select_new_mc_spec in Hsel as [Hin Hlc].
    use_effect Hok. rewrite Hstore.
    settle_requested (ManagementController.Id row) Hin Hlc.
  - apply select_new_bb_spec in Hsel as [Hin Hlc].
    use_effect Hok. rewrite Hstore.
    settle_requested (Backbone.Id row) Hin Hlc.
  - apply select_new_ap_spec in Hsel as [Hin Hlc].
    use_effect Hok. rewrite Hstore.
    settle_requested (BackboneAccessPoint.Id (fst row)) Hin Hlc.
  - apply select_new_van_spec in Hsel as [Hin Hlc].
    revert Hok.
    destruct (ApplicationNetwork.EndTime (fst row));
      [destruct (ApplicationNetwork.StartTime (fst row))|];
      unfold bind at 1 3, ret, throw; try discriminate; intros Hok;
      use_effect Hok; rewrite Hstore;
      settle_requested (ApplicationNetwork.Id (fst row)) Hin Hlc.
  - apply select_new_site_spec in Hsel as [Hin Hlc].
    use_effect Hok. rewrite Hstore.
    settle_requested (InteriorSite.Id (fst row)) Hin Hlc.
  - apply select_new_inv_spec in Hsel as [Hin Hlc].
    use_effect Hok. rewrite Hstore.
    settle_requested (MemberInvitation.Id (fst row)) Hin Hlc.
  - apply select_new_member_spec in Hsel as [Hin Hlc].
    use_effect Hok. rewrite Hstore.
    settle_requested (MemberSite.Id (fst row)) Hin Hlc.
  - apply select_new_cred_spec in Hsel as [Hin Hlc].
    use_effect Hok. rewrite Hstore.
    settle_requested (NetworkCredential.Id (fst row)) Hin Hlc.
Qed.

Lemma reconciler_all_or_nothing_witness :
  let out := loop BackboneKind example_config 0 "r1"
               (connect new_backbone_db no_fault) in
  store (client (snd out)) = new_backbone_db
  \/ requested BackboneKind "r1" new_backbone_db (store (client (snd out))).
Proof.
  apply (reconciler_all_or_nothing BackboneKind example_config 0 "r1"
           (connect new_backbone_db no_fault)); reflexivity.
Defined.


(** ** Durations that are not whole hours *)

(** X10: every loop but the one for
    application networks hands [duration_ms / 3600000] to the integer
    column DurationHours as it is.  When the configured expiration is not
    a whole number of hours the INSERT is refused, the run is rolled back
    and rescheduled after 10 seconds, and the tables are as before: the
    row stays new, and the next run meets the same refusal. *)
Theorem fractional_hours_never_processed (k : kind) (cfg : Config.t)
  (now : timestamptz) (new_id : uuid) (c : Pg.client) :
  k <> NetworkKind ->
  reliable c [BEGIN; SELECT; ROLLBACK] ->
  snapshot c = None ->
  finds_row k (store c) = true ->
  whole_hours (Config.IntervalMilliseconds (expiration_of k cfg)) = None ->
  loop k cfg now new_id c
  = (inr tt,
     mkRun (mkClient (store c) None
              (log c ++ [(BEGIN, true); (SELECT, true); (INSERT, false);
                         (ROLLBACK, true)])
              (fault c))
           10000).
Proof.
  intros Hk Hrel Hsnap Hrow Hfrac. destruct c as [d snap lg f].
  cbn in Hsnap. subst snap.
  destruct k; try contradiction;
    cbn [loop finds_row expiration_of store] in *;
    unfold processNewManagementControllers, processNewBackbones,
      processNewAccessPoints, processNewInteriorSites,
      processNewInvitations, processNewMemberSites,
      processNewNetworkCredentials;
    unfold reconcile, insert_request, try_catch, bind, query_BEGIN,
      query_COMMIT, query_ROLLBACK, select, query, set_delay, modify, ret,
      run_of, issued, sent, refused, with_client;
    cbn [the_client put_client run_HasClient client_HasClient client
         reschedule_delay store snapshot log fault fst snd];
    rewrite (Hrel BEGIN) by (simpl; auto);
    cbn [the_client put_client run_HasClient client_HasClient client
         reschedule_delay store snapshot log fault fst snd];
    rewrite (Hrel SELECT) by (simpl; auto);
    match goal with
    | H : defined_row ?x = true |- _ => destruct x as [row|]; [|discriminate H]
    end;
    cbn [the_client put_client run_HasClient client_HasClient client
         reschedule_delay store snapshot log fault fst snd];
    rewrite Hfrac;
    match goal with
    | |- context [if ?b then _ else _] => destruct b
    end;
    cbn [the_client put_client run_HasClient client_HasClient client
         reschedule_delay store snapshot log fault fst snd];
    rewrite (Hrel ROLLBACK) by (simpl; auto);
    cbn [the_client put_client run_HasClient client_HasClient client
         reschedule_delay store snapshot log fault fst snd];
    now rewrite <- !app_assoc.
Qed.

Lemma fractional_hours_never_processed_witness :
  loop BackboneKind ninety_minutes_config 0 "r1"
       (connect new_backbone_db no_fault)
  = (inr tt,
     mkRun (mkClient new_backbone_db None
              [(BEGIN, true); (SELECT, true); (INSERT, false); (ROLLBACK, true)]
              no_fault)
           10000).
Proof.
  apply (fractional_hours_never_processed BackboneKind ninety_minutes_config
           0 "r1" (connect new_backbone_db no_fault)).
  - discriminate.
  - intros kind n _. reflexivity.
  - reflexivity.
  - reflexivity.
  - reflexivity.
Defined.


(** ** Secrets that nothing waits for *)

(** X11: a watch event for a secret whose
    database link names no CertificateRequest row (a secret delivered
    again after its request was finalized, or one that is not ours)
    changes no table and makes no call to the cluster or to the other
    modules, whatever the action and whatever the database refuses. *)
Theorem onSecretWatch_without_request (w : world) (action : string)
  (sec : secret) (s : finalizer) :
  snapshot (db_client s) = None ->
  (forall dblink,
     obj_get (annotations sec) "skupper.io/skx-dblink" = Some dblink ->
     by_id CertificateRequest.Id dblink
           (CertificateRequests (store (db_client s))) = []) ->
  let out := onSecretWatch w action sec s in
  store (db_client (snd out)) = store (db_client s)
  /\ calls (snd out) = calls s.
Proof.
  intros Hsnap Hnone. cbv zeta. unfold onSecretWatch.
  destruct (String.eqb action "ADDED"); [|split; reflexivity].
  destruct (obj_get (annotations sec) "skupper.io/skupperx-controlled")
    as [controlled|]; [|split; reflexivity].
  destruct (String.eqb controlled "true"); [|split; reflexivity].
  destruct (obj_get (annotations sec) "skupper.io/skx-dblink")
    as [dblink|] eqn:Hlink; [|split; reflexivity].
  destruct (String.eqb dblink ""); [split; reflexivity|].
  specialize (Hnone dblink eq_refl).
  destruct s as [[d snap lg f] cs]. cbn in Hsnap, Hnone. subst snap.
  unfold secretAdded, secretAdded_try, try_catch, bind, query_BEGIN,
    query_ROLLBACK, select, query, issued, sent, refused.
  cbn [the_client put_client finalizer_HasClient db_client calls
       store snapshot log fault fst snd].
  repeat match goal with
         | |- context [if ?g ?k (List.length ?l) then _ else _] =>
             destruct (g k (List.length l));
             cbn [the_client put_client finalizer_HasClient db_client calls
                  store snapshot log fault fst snd]
         end;
    rewrite ?Hnone;
    cbn [the_client put_client finalizer_HasClient db_client calls
         store snapshot log fault fst snd];
    repeat match goal with
           | |- context [if ?g ?k (List.length ?l) then _ else _] =>
               destruct (g k (List.length l));
               cbn [the_client put_client finalizer_HasClient db_client calls
                    store snapshot log fault fst snd]
           end;
    split; reflexivity.
Qed.

Lemma onSecretWatch_without_request_witness :
  let out := onSecretWatch member_world "ADDED" stray_secret member_finalizer in
  store (db_client (snd out)) = member_db /\ calls (snd out) = [].
Proof.
  apply (onSecretWatch_without_request member_world "ADDED" stray_secret
           member_finalizer).
  - reflexivity.
  - intros dblink [= <-]. reflexivity.
Defined.

(** The secret of the example, delivered a second time, finds its request
    gone and changes nothing. *)
Example member_secret_redelivered :
  let once := snd (onSecretWatch member_world "ADDED" member_secret
                     member_finalizer) in
  let twice := snd (onSecretWatch member_world "ADDED" member_secret once) in
  store (db_client twice) = store (db_client once)
  /\ calls twice = calls once.
Proof. vm_compute. split; reflexivity. Qed.

End CertsFacts.

Module BackboneLinksFacts.
Import Js JsFacts Schema Pg BackboneLinks SchemaFacts.

(** ** The query *)

Lemma select_manage_ready_spec (d : db) (ap : BackboneAccessPoint.t)
  (bbid : uuid) :
  In (ap, bbid) (select_manage_ready d) <-> manage_ready_on d ap bbid.
Proof.
  unfold select_manage_ready, manage_ready_on. split.
  - intros H.
    apply in_flat_map in H as (ap' & Hap & H).
    apply in_flat_map in H as (site & Hsite & H).
    apply in_flat_map in H as (bb & Hbb & H).
    destruct (_ && _) eqn:E in H; [|destruct H].
    destruct H as [[= <- <-]|[]].
    apply andb_true_iff in E as [E E4].
    apply andb_true_iff in E as [E E3].
    apply andb_true_iff in E as [E1 E2].
    apply refers_spec in E1, E2. apply col_is_spec in E3, E4.
    repeat split; auto. exists site, bb. auto.
  - intros (Hap & Hlc & Hkind & site & bb & Hsite & Hbb & H1 & H2 & ->).
    apply in_flat_map. exists ap. split; [exact Hap|].
    apply in_flat_map. exists site. split; [exact Hsite|].
    apply in_flat_map. exists bb. split; [exact Hbb|].
    apply refers_spec in H1, H2. apply col_is_spec in Hlc, Hkind.
    rewrite H1, H2, Hlc, Hkind. now left.
Qed.

(** ** One row per backbone *)

Lemma collect_fold_get (rows : list (BackboneAccessPoint.t * uuid))
  (acc : list (uuid * BackboneAccessPoint.t)) (bbid : uuid) :
  obj_get (fold_left (fun db_rows row =>
                        if obj_has db_rows (snd row) then db_rows
                        else obj_set db_rows (snd row) (fst row))
                     rows acc) bbid
  = match obj_get acc bbid with
    | Some ap => Some ap
    | None => first_row rows bbid
    end.
Proof.
  revert acc. induction rows as [|[ap k] rows IH]; intros acc.
  - cbn. now destruct (obj_get acc bbid).
  - cbn [fold_left fst snd]. rewrite IH. unfold first_row. cbn [List.find snd].
    destruct (String.eqb k bbid) eqn:E.
    + apply String.eqb_eq in E. subst k.
      destruct (obj_has acc bbid) eqn:Hhas.
      * apply obj_has_get in Hhas as [x Hx]. now rewrite Hx.
      * apply obj_has_false in Hhas. rewrite Hhas, obj_get_set_eq. reflexivity.
    + apply String.eqb_neq in E.
      destruct (obj_has acc k); [reflexivity|].
      now rewrite (obj_get_set_ne _ _ _ _ E).
Qed.

Lemma collect_get (rows : list (BackboneAccessPoint.t * uuid)) (bbid : uuid) :
  obj_get (collect rows) bbid = first_row rows bbid.
Proof. unfold collect. now rewrite collect_fold_get. Qed.

Lemma collect_NoDup (rows : list (BackboneAccessPoint.t * uuid)) :
  NoDup (obj_keys (collect rows)).
Proof.
  unfold collect.
  assert (H : forall acc : list (uuid * BackboneAccessPoint.t),
             NoDup (obj_keys acc) ->
             NoDup (obj_keys
                      (fold_left (fun db_rows row =>
                                    if obj_has db_rows (snd row) then db_rows
                                    else obj_set db_rows (snd row) (fst row))
                                 rows acc))).
  { induction rows as [|row rows IH]; intros acc Hacc; [exact Hacc|].
    cbn [fold_left]. apply IH.
    destruct (obj_has acc (snd row)); [exact Hacc|].
    now apply obj_set_keys_NoDup. }
  apply H. constructor.
Qed.

Lemma first_row_Some (rows : list (BackboneAccessPoint.t * uuid)) (bbid : uuid) :
  is_Some (first_row rows bbid) <-> exists ap, In (ap, bbid) rows.
Proof.
  unfold first_row. split.
  - intros [ap H]. destruct (List.find _ rows) as [[ap' k]|] eqn:E; [|discriminate].
    apply find_some in E as [Hin Hk]. apply String.eqb_eq in Hk.
    cbn in Hk. subst k. eauto.
  - intros [ap Hin].
    destruct (List.find (fun row => String.eqb (snd row) bbid) rows) eqn:E.
    + cbn. eauto.
    + exfalso. apply (find_none _ _ E) in Hin. cbn in Hin.
      now rewrite String.eqb_refl in Hin.
Qed.

Lemma first_row_In (rows : list (BackboneAccessPoint.t * uuid)) (bbid : uuid)
  (ap : BackboneAccessPoint.t) :
  first_row rows bbid = Some ap -> In (ap, bbid) rows.
Proof.
  unfold first_row.
  destruct (List.find _ rows) as [[ap' k]|] eqn:E; [|discriminate].
  intros [= <-]. apply find_some in E as [Hin Hk].
  apply String.eqb_eq in Hk. cbn in Hk. now subst k.
Qed.

(** ** The three loops *)

Lemma mark_all_get (conns : list (uuid * connection)) (bbid : uuid) :
  obj_get (mark_all conns) bbid
  = option_map (set_toDelete true) (obj_get conns bbid).
Proof.
  unfold mark_all. induction conns as [|[k c] conns IH]; [reflexivity|].
  cbn [map obj_get fst snd]. destruct (String.eqb k bbid); [reflexivity|exact IH].
Qed.

Lemma kept_or_created_get (regs : nat)
  (db_rows : list (uuid * BackboneAccessPoint.t))
  (conns : list (uuid * connection)) (tr : list event) (bbid : uuid) :
  obj_get (fst (kept_or_created regs db_rows conns tr)) bbid
  = match obj_get db_rows bbid with
    | Some row =>
        Some match obj_get conns bbid with
             | Some c => set_toDelete false c
             | None => mkConnection false (BackboneAccessPoint.Hostname row)
                                    (BackboneAccessPoint.Port row)
             end
    | None => obj_get conns bbid
    end.
Proof.
  revert conns tr. induction db_rows as [|[k row] db_rows IH]; intros conns tr;
    [reflexivity|].
  cbn [kept_or_created obj_get].
  destruct (String.eqb k bbid) eqn:E.
  - apply String.eqb_eq in E. subst k.
    destruct (obj_get conns bbid) as [c|] eqn:Hc.
    + rewrite IH, obj_get_set_eq. now destruct (obj_get db_rows bbid).
    + unfold opened. rewrite IH, obj_get_set_eq.
      now destruct (obj_get db_rows bbid).
  - apply String.eqb_neq in E.
    destruct (obj_get conns k) as [c|] eqn:Hc.
    + rewrite IH. now rewrite (obj_get_set_ne _ _ _ _ E).
    + unfold opened. rewrite IH.
      now rewrite (obj_get_set_ne _ _ _ _ E).
Qed.

Lemma kept_or_created_trace (regs : nat)
  (db_rows : list (uuid * BackboneAccessPoint.t))
  (conns : list (uuid * connection)) (tr : list event) :
  exists more, snd (kept_or_created regs db_rows conns tr) = tr ++ more.
Proof.
  revert conns tr. induction db_rows as [|[k row] db_rows IH]; intros conns tr.
  - exists []. cbn. now rewrite app_nil_r.
  - cbn [kept_or_created]. destruct (obj_get conns k).
    + apply IH.
    + unfold opened.
      destruct (IH (obj_set conns k
                      (mkConnection false (BackboneAccessPoint.Hostname row)
                                    (BackboneAccessPoint.Port row)))
                   (tr ++ OpenConnection k (BackboneAccessPoint.Hostname row)
                                         (BackboneAccessPoint.Port row)
                       :: calls onLinkAdded regs k)) as [more Hmore].
      rewrite Hmore, <- app_assoc. eauto.
Qed.

Lemma kept_or_created_opens (regs : nat)
  (db_rows : list (uuid * BackboneAccessPoint.t))
  (conns : list (uuid * connection)) (tr : list event) (bbid : uuid)
  (row : BackboneAccessPoint.t) :
  obj_get db_rows bbid = Some row ->
  obj_get conns bbid = None ->
  In (OpenConnection bbid (BackboneAccessPoint.Hostname row)
                     (BackboneAccessPoint.Port row))
     (snd (kept_or_created regs db_rows conns tr)).
Proof.
  revert conns tr. induction db_rows as [|[k r] db_rows IH]; intros conns tr;
    [discriminate|].
  cbn [kept_or_created obj_get].
  destruct (String.eqb k bbid) eqn:E.
  - apply String.eqb_eq in E. subst k. intros [= ->] Hnone. rewrite Hnone.
    unfold opened.
    destruct (kept_or_created_trace regs db_rows
                (obj_set conns bbid
                   (mkConnection false (BackboneAccessPoint.Hostname row)
                                 (BackboneAccessPoint.Port row)))
                (tr ++ OpenConnection bbid (BackboneAccessPoint.Hostname row)
                                      (BackboneAccessPoint.Port row)
                    :: calls onLinkAdded regs bbid)) as [more ->].
    apply in_or_app. left. apply in_or_app. right. now left.
  - apply String.eqb_neq in E. intros Hrow Hnone.
    destruct (obj_get conns k) as [c|].
    + apply IH; [exact Hrow|]. now rewrite (obj_get_set_ne _ _ _ _ E).
    + unfold opened. apply IH; [exact Hrow|].
      now rewrite (obj_get_set_ne _ _ _ _ E).
Qed.

Lemma dropped_get (regs : nat) (keys : list uuid)
  (conns : list (uuid * connection)) (tr : list event) (bbid : uuid) :
  obj_get (fst (dropped regs keys conns tr)) bbid
  = match obj_get conns bbid with
    | Some c =>
        if toDelete c && existsb (String.eqb bbid) keys then None else Some c
    | None => None
    end.
Proof.
  revert conns tr. induction keys as [|k keys IH]; intros conns tr.
  - cbn. destruct (obj_get conns bbid) as [c|]; [|reflexivity].
    now rewrite andb_false_r.
  - cbn [dropped existsb].
    destruct (String.eqb bbid k) eqn:E.
    + apply String.eqb_eq in E. subst k. cbn [orb].
      destruct (obj_get conns bbid) as [c|] eqn:Hc.
      * destruct (toDelete c) eqn:Hd.
        -- unfold closed. rewrite IH, obj_get_delete_eq. reflexivity.
        -- rewrite IH, Hc, Hd. reflexivity.
      * rewrite IH, Hc. reflexivity.
    + apply String.eqb_neq in E. cbn [orb].
      destruct (obj_get conns k) as [c|] eqn:Hc.
      * destruct (toDelete c).
        -- unfold closed. rewrite IH.
           rewrite obj_get_delete_ne by congruence. reflexivity.
        -- apply IH.
      * apply IH.
Qed.

Lemma dropped_trace (regs : nat) (keys : list uuid)
  (conns : list (uuid * connection)) (tr : list event) :
  exists more, snd (dropped regs keys conns tr) = tr ++ more.
Proof.
  revert conns tr. induction keys as [|k keys IH]; intros conns tr.
  - exists []. cbn. now rewrite app_nil_r.
  - cbn [dropped]. destruct (obj_get conns k) as [c|]; [|apply IH].
    destruct (toDelete c); [|apply IH].
    unfold closed.
    destruct (IH (obj_delete conns k)
                 (tr ++ CloseConnection k :: calls onLinkDeleted regs k))
      as [more Hmore].
    rewrite Hmore, <- app_assoc. eauto.
Qed.

Lemma dropped_closes (regs : nat) (keys : list uuid)
  (conns : list (uuid * connection)) (tr : list event) (bbid : uuid)
  (c : connection) :
  In bbid keys ->
  obj_get conns bbid = Some c ->
  toDelete c = true ->
  In (CloseConnection bbid) (snd (dropped regs keys conns tr)).
Proof.
  revert conns tr. induction keys as [|k keys IH]; intros conns tr Hin Hc Hd;
    [destruct Hin|].
  cbn [dropped].
  destruct (String.eqb_spec k bbid) as [->|Hne].
  - rewrite Hc, Hd. unfold closed.
    destruct (dropped_trace regs keys (obj_delete conns bbid)
                (tr ++ CloseConnection bbid :: calls onLinkDeleted regs bbid))
      as [more ->].
    apply in_or_app. left. apply in_or_app. right. now left.
  - destruct Hin as [->|Hin]; [contradiction|].
    destruct (obj_get conns k) as [ck|] eqn:Hk; [|now apply IH].
    destruct (toDelete ck); [|now apply IH].
    unfold closed. apply IH; auto.
    now rewrite (obj_get_delete_ne _ _ _ Hne).
Qed.

Lemma existsb_eqb_key (key : string) (keys : list string) :
  In key keys -> existsb (String.eqb key) keys = true.
Proof.
  intros H. apply existsb_exists. exists key. split; [exact H|].
  apply String.eqb_refl.
Qed.

Lemma obj_get_Some_key {V : Type} (o : list (string * V)) (k : string) (v : V) :
  obj_get o k = Some v -> In k (obj_keys o).
Proof.
  intros H. destruct (in_dec string_dec k (obj_keys o)) as [Hin|Hnot]; [exact Hin|].
  apply obj_get_None_keys in Hnot. congruence.
Qed.

(** The connections and the calls that the three loops leave behind. *)
Lemma diff_spec (regs : nat) (rows : list (BackboneAccessPoint.t * uuid))
  (conns : list (uuid * connection)) (tr : list event) :
  let out := diff regs rows conns tr in
  (forall bbid, obj_has (fst out) bbid = obj_has (collect rows) bbid)
  /\ (forall bbid row,
        obj_get (collect rows) bbid = Some row ->
        obj_get conns bbid = None ->
        In (OpenConnection bbid (BackboneAccessPoint.Hostname row)
                           (BackboneAccessPoint.Port row)) (snd out))
  /\ (forall bbid,
        obj_has conns bbid = true ->
        obj_has (collect rows) bbid = false ->
        In (CloseConnection bbid) (snd out))
  /\ (exists more, snd out = tr ++ more).
Proof.
  unfold diff.
  destruct (kept_or_created regs (collect rows) (mark_all conns) tr)
    as [conns1 tr1] eqn:Hk.
  assert (Hget1 : forall bbid,
             obj_get conns1 bbid
             = match obj_get (collect rows) bbid with
               | Some row =>
                   Some match obj_get (mark_all conns) bbid with
                        | Some c => set_toDelete false c
                        | None =>
                            mkConnection false (BackboneAccessPoint.Hostname row)
                                         (BackboneAccessPoint.Port row)
                        end
               | None => obj_get (mark_all conns) bbid
               end).
  { intros bbid. pose proof (kept_or_created_get regs (collect rows)
                               (mark_all conns) tr bbid) as H.
    now rewrite Hk in H. }
  assert (Htr1 : exists more, tr1 = tr ++ more).
  { pose proof (kept_or_created_trace regs (collect rows) (mark_all conns) tr) as H.
    now rewrite Hk in H. }
  cbn zeta. repeat split.
  - intros bbid.
    assert (Hfinal : obj_get (fst (dropped regs (obj_keys conns1) conns1 tr1)) bbid
                     = match obj_get (collect rows) bbid with
                       | Some row =>
                           Some match obj_get (mark_all conns) bbid with
                                | Some c => set_toDelete false c
                                | None =>
                                    mkConnection false
                                      (BackboneAccessPoint.Hostname row)
                                      (BackboneAccessPoint.Port row)
                                end
                       | None => None
                       end).
    { rewrite dropped_get, Hget1.
      destruct (obj_get (collect rows) bbid) as [row|] eqn:Hrow.
      - now destruct (obj_get (mark_all conns) bbid).
      - rewrite mark_all_get.
        destruct (obj_get conns bbid) as [c|] eqn:Hc; [|reflexivity].
        cbn [option_map set_toDelete toDelete andb].
        rewrite existsb_eqb_key; [reflexivity|].
        apply (obj_get_Some_key conns1 bbid (set_toDelete true c)).
        rewrite Hget1, Hrow, mark_all_get, Hc. reflexivity. }
    destruct (obj_has (collect rows) bbid) eqn:Hhas.
    + apply obj_has_get in Hhas as [row Hrow]. apply obj_has_get.
      rewrite Hfinal, Hrow. eauto.
    + apply obj_has_false in Hhas. apply obj_has_false.
      now rewrite Hfinal, Hhas.
  - intros bbid row Hrow Hnone.
    destruct (dropped_trace regs (obj_keys conns1) conns1 tr1) as [more ->].
    apply in_or_app. left.
    pose proof (kept_or_created_opens regs (collect rows) (mark_all conns) tr
                  bbid row Hrow) as H.
    rewrite Hk in H. apply H. now rewrite mark_all_get, Hnone.
  - intros bbid Hhas Hgone.
    apply obj_has_get in Hhas as [c Hc]. apply obj_has_false in Hgone.
    assert (H1 : obj_get conns1 bbid = Some (set_toDelete true c)).
    { now rewrite Hget1, Hgone, mark_all_get, Hc. }
    apply (dropped_closes regs (obj_keys conns1) conns1 tr1 bbid
             (set_toDelete true c)); auto.
    now apply (obj_get_Some_key conns1 bbid (set_toDelete true c)).
  - destruct Htr1 as [more1 ->].
    destruct (dropped_trace regs (obj_keys conns1) conns1 (tr ++ more1))
      as [more2 ->].
    rewrite <- app_assoc. eauto.
Qed.

(** ** A reconcile cycle *)

(** C8, as stated, fails on the readiness of the backbone: the query does
    not look at the lifecycle of the backbone, so the ready manage access
    point of a backbone that is still new is selected and a session is
    opened for it. *)
Lemma unready_backbone_connected :
  let out := reconcileBackboneConnections (idle_state unready_backbone_db) in
  map Backbone.Lifecycle (Backbones unready_backbone_db) = [Some lc_new]
  /\ select_manage_ready unready_backbone_db = [(ready_manage_ap, "bb1")]
  /\ trace (snd out)
     = [OpenConnection "bb1" (Some "ap.example.com") (Some "55671");
        onLinkAdded 0 "bb1"]
  /\ obj_keys (bbConnections (snd out)) = ["bb1"].
Proof. vm_compute. repeat split. Qed.

(** ** The loops, run *)

Lemma await_all_returning (es : list event) (s : state) :
  returning s ->
  await_all es s
  = (inr tt, mkState (client s) (bbConnections s) (registrations s)
                     (trace s ++ es) (reschedule_delay s) (rejects s)).
Proof.
  intros Hret. revert s Hret. induction es as [|e es IH]; intros s Hret.
  - cbn. rewrite app_nil_r. now destruct s.
  - cbn [await_all]. unfold Pg.bind at 1, await_handler.
    rewrite (Hret e). rewrite IH by exact Hret.
    cbn [client bbConnections registrations trace reschedule_delay rejects].
    now rewrite <- app_assoc.
Qed.

Lemma keep_or_create_returning
  (db_rows : list (uuid * BackboneAccessPoint.t)) (s : state) :
  returning s ->
  keep_or_create db_rows s
  = (inr tt,
     let out := kept_or_created (registrations s) db_rows (bbConnections s)
                  (trace s) in
     mkState (client s) (fst out) (registrations s) (snd out)
             (reschedule_delay s) (rejects s)).
Proof.
  revert s. induction db_rows as [|[bbid row] db_rows IH]; intros s Hret.
  - cbn. now destruct s.
  - cbn [keep_or_create kept_or_created]. unfold Pg.bind at 1.
    destruct (obj_get (bbConnections s) bbid) as [c|] eqn:Hc.
    + unfold set_connections, modify. rewrite IH by exact Hret. reflexivity.
    + unfold createConnection, set_connections, emit, notify, modify, Pg.bind.
      cbn [client bbConnections registrations trace reschedule_delay rejects].
      rewrite await_all_returning by exact Hret.
      cbn [client bbConnections registrations trace reschedule_delay rejects].
      rewrite IH by exact Hret.
      cbn [client bbConnections registrations trace reschedule_delay rejects
           opened].
      now rewrite <- app_assoc.
Qed.

Lemma drop_marked_returning (keys : list uuid) (s : state) :
  returning s ->
  drop_marked keys s
  = (inr tt,
     let out := dropped (registrations s) keys (bbConnections s) (trace s) in
     mkState (client s) (fst out) (registrations s) (snd out)
             (reschedule_delay s) (rejects s)).
Proof.
  revert s. induction keys as [|bbid keys IH]; intros s Hret.
  - cbn. now destruct s.
  - cbn [drop_marked dropped]. unfold Pg.bind at 1.
    destruct (obj_get (bbConnections s) bbid) as [c|] eqn:Hc;
      [|now rewrite IH by exact Hret].
    destruct (toDelete c); [|now rewrite IH by exact Hret].
    unfold deleteConnection, set_connections, emit, notify, modify, Pg.bind.
    cbn [client bbConnections registrations trace reschedule_delay rejects].
    rewrite await_all_returning by exact Hret.
    cbn [client bbConnections registrations trace reschedule_delay rejects].
    rewrite IH by exact Hret.
    cbn [client bbConnections registrations trace reschedule_delay rejects
         closed].
    now rewrite <- app_assoc.
Qed.

(** A cycle whose BEGIN and SELECT go through and whose handlers all
    return runs the three loops on the rows of the query. *)
Lemma reconcileBackboneConnections_run (s : state) :
  reliable (client s) [BEGIN; SELECT] ->
  returning s ->
  let d := diff (registrations s) (select_manage_ready (store (client s)))
                (bbConnections s) (trace s) in
  let out := reconcileBackboneConnections s in
  bbConnections (snd out) = fst d /\ trace (snd out) = snd d.
Proof.
  intros Hrel Hret. cbv zeta.
  unfold reconcileBackboneConnections, try_catch, Pg.bind, query_BEGIN,
    query_COMMIT, query_ROLLBACK, select, query, set_delay,
    set_connections, modify, issued, sent, refused.
  destruct s as [[d snap lg f] conns regs tr delay rej].
  cbn [the_client put_client state_HasClient client bbConnections
       registrations trace reschedule_delay rejects store snapshot log fault]
    in *.
  rewrite (Hrel BEGIN) by (simpl; auto).
  cbn [the_client put_client state_HasClient client bbConnections
       registrations trace reschedule_delay rejects store snapshot log fault].
  rewrite (Hrel SELECT) by (simpl; auto).
  cbn [the_client put_client state_HasClient client bbConnections
       registrations trace reschedule_delay rejects store snapshot log fault].
  rewrite keep_or_create_returning by exact Hret.
  cbn [the_client put_client state_HasClient client bbConnections
       registrations trace reschedule_delay rejects store snapshot log fault].
  rewrite drop_marked_returning by exact Hret.
  cbn [the_client put_client state_HasClient client bbConnections
       registrations trace reschedule_delay rejects store snapshot log fault].
  unfold diff.
  destruct (kept_or_created regs (collect (select_manage_ready d))
              (mark_all conns) tr) as [conns1 tr1].
  cbn [fst snd].
  destruct (dropped regs (obj_keys conns1) conns1 tr1) as [conns2 tr2].
  cbn [fst snd].
  repeat match goal with
         | |- context [if ?g ?k (List.length ?l) then _ else _] =>
             destruct (g k (List.length l));
             cbn [the_client put_client state_HasClient client bbConnections
                  registrations trace reschedule_delay rejects store snapshot
                  log fault fst snd]
         end; auto.
Qed.

(** C8 (amended): on a cycle whose BEGIN and SELECT go through and in
    which every handler of a subscriber returns, the query selects
    exactly the access points with Lifecycle ready and Kind manage, each
    with the backbone of its site (whatever the lifecycle of that
    backbone); the first such row of each backbone is retained, one per
    backbone; after the cycle the backbones with a session are exactly
    the backbones of the retained rows: a session is opened, to the host
    and port of the retained row, for every backbone that had none, and
    the session of every backbone without a row is closed.  (A handler
    that rejects ends the cycle where it is: see
    [rejecting_subscriber_ends_cycle].) *)
Theorem reconcileBackboneConnections_cycle (s : state) :
  reliable (client s) [BEGIN; SELECT] ->
  returning s ->
  let rows := select_manage_ready (store (client s)) in
  let db_rows := collect rows in
  let out := reconcileBackboneConnections s in
  (forall ap bbid, In (ap, bbid) rows <-> manage_ready_on (store (client s)) ap bbid)
  /\ NoDup (obj_keys db_rows)
  /\ (forall bbid, obj_get db_rows bbid = first_row rows bbid)
  /\ (forall bbid, obj_has db_rows bbid = true <-> exists ap, In (ap, bbid) rows)
  /\ (forall bbid, obj_has (bbConnections (snd out)) bbid = obj_has db_rows bbid)
  /\ (forall bbid row,
        obj_get db_rows bbid = Some row ->
        obj_get (bbConnections s) bbid = None ->
        In (OpenConnection bbid (BackboneAccessPoint.Hostname row)
                           (BackboneAccessPoint.Port row)) (trace (snd out)))
  /\ (forall bbid,
        obj_has (bbConnections s) bbid = true ->
        obj_has db_rows bbid = false ->
        In (CloseConnection bbid) (trace (snd out))).
Proof.
  intros Hrel Hret rows db_rows out.
  split; [intros ap bbid; apply select_manage_ready_spec|].
  split; [apply collect_NoDup|].
  split; [intros bbid; apply collect_get|].
  split.
  { intros bbid. unfold db_rows. rewrite obj_has_get, collect_get.
    apply first_row_Some. }
  destruct (diff_spec (registrations s) rows (bbConnections s) (trace s))
    as (Hkeys & Hopens & Hcloses & _).
  destruct (reconcileBackboneConnections_run s Hrel Hret) as [Hc Ht].
  unfold out. rewrite Hc, Ht. auto.
Qed.

Lemma reconcileBackboneConnections_cycle_witness :
  let out := reconcileBackboneConnections (idle_state unready_backbone_db) in
  obj_has (bbConnections (snd out)) "bb1" = true
  /\ In (OpenConnection "bb1" (Some "ap.example.com") (Some "55671"))
        (trace (snd out)).
Proof.
  destruct (reconcileBackboneConnections_cycle (idle_state unready_backbone_db))
    as (_ & _ & _ & _ & Hkeys & Hopens & _).
  - intros kind n _. reflexivity.
  - intros e n. reflexivity.
  - split.
    + rewrite Hkeys. reflexivity.
    + apply (Hopens "bb1" ready_manage_ap); reflexivity.
Defined.

(** A session whose access point is gone is closed on the next cycle, and
    each subscriber hears of it once. *)
Example manage_ap_deleted :
  let s := mkState (connect empty_db (fun _ _ => false))
                   [("bb1", mkConnection false (Some "ap.example.com") (Some "55671"))]
                   2 [] 0 (fun _ _ => false) in
  let out := reconcileBackboneConnections s in
  bbConnections (snd out) = []
  /\ trace (snd out)
     = [CloseConnection "bb1"; onLinkDeleted 0 "bb1"; onLinkDeleted 1 "bb1"]
  /\ reschedule_delay (snd out) = 30000.
Proof. vm_compute. repeat split. Qed.

Local Open Scope pg_scope.

(** ** The calls of a cycle, exactly *)

Lemma flat_map_ext_In {A B : Type} (f g : A -> list B) (l : list A) :
  (forall x, In x l -> f x = g x) -> flat_map f l = flat_map g l.
Proof.
  induction l as [|x l IH]; intros H; [reflexivity|]. cbn.
  rewrite (H x) by now left. rewrite IH; [reflexivity|].
  intros y Hy. apply H. now right.
Qed.

Lemma obj_set_keys {V : Type} (o : list (string * V)) (k : string) (v : V) :
  obj_keys (obj_set o k v)
  = match obj_get o k with
    | Some _ => obj_keys o
    | None => obj_keys o ++ [k]
    end.
Proof.
  unfold obj_keys. induction o as [|[k' v'] o IH]; cbn; [reflexivity|].
  destruct (String.eqb k' k) eqn:E; cbn; [reflexivity|].
  rewrite IH. now destruct (obj_get o k).
Qed.

Lemma opening_agree (regs : nat) (conns conns' : list (uuid * connection))
  (entry : uuid * BackboneAccessPoint.t) :
  (is_Some (obj_get conns' (fst entry)) <-> is_Some (obj_get conns (fst entry))) ->
  opening regs conns' entry = opening regs conns entry.
Proof.
  unfold opening. intros [H1 H2].
  destruct (obj_get conns' (fst entry)) as [c'|],
           (obj_get conns (fst entry)) as [c|]; try reflexivity.
  - destruct H1 as [? [=]]. eauto.
  - destruct H2 as [? [=]]. eauto.
Qed.

Lemma kept_or_created_trace_eq (regs : nat)
  (db_rows : list (uuid * BackboneAccessPoint.t))
  (conns : list (uuid * connection)) (tr : list event) :
  NoDup (obj_keys db_rows) ->
  snd (kept_or_created regs db_rows conns tr)
  = tr ++ flat_map (opening regs conns) db_rows.
Proof.
  revert conns tr. induction db_rows as [|[k row] db_rows IH];
    intros conns tr Hnd.
  - cbn. now rewrite app_nil_r.
  - change (obj_keys ((k, row) :: db_rows)) with (k :: obj_keys db_rows) in Hnd.
    apply NoDup_cons in Hnd as [Hnotin Hnd].
    assert (Hrest : forall v entry,
               In entry db_rows ->
               opening regs (obj_set conns k v) entry = opening regs conns entry).
    { intros v entry Hin. apply opening_agree.
      assert (Hne : k <> fst entry).
      { intros ->. apply Hnotin. apply list_elem_of_In.
        unfold obj_keys. now apply in_map. }
      now rewrite (obj_get_set_ne _ _ _ _ Hne). }
    cbn [kept_or_created flat_map].
    destruct (obj_get conns k) as [c|] eqn:Hc.
    + assert (Hhead : opening regs conns (k, row) = [])
        by (unfold opening; cbn [fst]; now rewrite Hc).
      rewrite IH by exact Hnd. rewrite Hhead. cbn [app]. f_equal.
      apply flat_map_ext_In. intros entry Hin. now apply Hrest.
    + assert (Hhead : opening regs conns (k, row)
                      = OpenConnection k (BackboneAccessPoint.Hostname row)
                                       (BackboneAccessPoint.Port row)
                        :: calls onLinkAdded regs k)
        by (unfold opening; cbn [fst snd]; now rewrite Hc).
      unfold opened. rewrite IH by exact Hnd.
      rewrite Hhead, <- !app_assoc. f_equal. cbn [app]. f_equal. f_equal.
      apply flat_map_ext_In. intros entry Hin. now apply Hrest.
Qed.

Lemma kept_or_created_keys (regs : nat)
  (db_rows : list (uuid * BackboneAccessPoint.t))
  (conns : list (uuid * connection)) (tr : list event) :
  NoDup (obj_keys db_rows) ->
  obj_keys (fst (kept_or_created regs db_rows conns tr))
  = obj_keys conns
    ++ List.filter (fun k => negb (obj_has conns k)) (obj_keys db_rows).
Proof.
  revert conns tr. induction db_rows as [|[k row] db_rows IH];
    intros conns tr Hnd.
  - cbn. now rewrite app_nil_r.
  - change (obj_keys ((k, row) :: db_rows)) with (k :: obj_keys db_rows) in Hnd.
    apply NoDup_cons in Hnd as [Hnotin Hnd].
    assert (Hrest : forall v,
               List.filter (fun key => negb (obj_has (obj_set conns k v) key))
                           (obj_keys db_rows)
               = List.filter (fun key => negb (obj_has conns key))
                             (obj_keys db_rows)).
    { intros v. apply filter_ext_in. intros key Hin. f_equal.
      assert (Hne : k <> key).
      { intros ->. apply Hnotin. now apply list_elem_of_In. }
      destruct (obj_has conns key) eqn:Hh.
      - apply obj_has_get. rewrite (obj_get_set_ne _ _ _ _ Hne).
        now apply obj_has_get.
      - apply obj_has_false. rewrite (obj_get_set_ne _ _ _ _ Hne).
        now apply obj_has_false. }
    cbn [kept_or_created]. unfold obj_keys at 3. cbn [map List.filter fst].
    fold (obj_keys db_rows).
    destruct (obj_get conns k) as [c|] eqn:Hc.
    + rewrite IH by exact Hnd. rewrite obj_set_keys, Hc, Hrest.
      assert (Hh : obj_has conns k = true) by (apply obj_has_get; eauto).
      now rewrite Hh.
    + unfold opened. rewrite IH by exact Hnd.
      rewrite obj_set_keys, Hc, Hrest.
      assert (Hh : obj_has conns k = false) by now apply obj_has_false.
      rewrite Hh. cbn [negb]. now rewrite <- app_assoc.
Qed.

Lemma dropped_trace_eq (regs : nat) (keys : list uuid)
  (conns : list (uuid * connection)) (tr : list event) :
  NoDup keys ->
  snd (dropped regs keys conns tr)
  = tr ++ flat_map (fun key =>
                      match obj_get conns key with
                      | Some c =>
                          if toDelete c
                          then CloseConnection key
                               :: calls onLinkDeleted regs key
                          else []
                      | None => []
                      end) keys.
Proof.
  revert conns tr. induction keys as [|k keys IH]; intros conns tr Hnd.
  - cbn. now rewrite app_nil_r.
  - apply NoDup_cons in Hnd as [Hnotin Hnd].
    cbn [dropped flat_map].
    destruct (obj_get conns k) as [c|] eqn:Hc; [|now apply IH].
    destruct (toDelete c); [|now apply IH].
    unfold closed. rewrite IH by exact Hnd.
    rewrite <- app_assoc. f_equal. cbn [app]. f_equal. f_equal.
    apply flat_map_ext_In. intros key Hin.
    assert (Hne : k <> key).
    { intros ->. apply Hnotin. now apply list_elem_of_In. }
    now rewrite (obj_get_delete_ne _ _ _ Hne).
Qed.

Lemma flat_map_nil_In {A B : Type} (f : A -> list B) (l : list A) :
  (forall x, In x l -> f x = []) -> flat_map f l = [].
Proof.
  induction l as [|x l IH]; intros H; [reflexivity|]. cbn.
  rewrite (H x) by now left. apply IH. intros y Hy. apply H. now right.
Qed.

Lemma mark_all_keys (conns : list (uuid * connection)) :
  obj_keys (mark_all conns) = obj_keys conns.
Proof. unfold obj_keys, mark_all. rewrite map_map. reflexivity. Qed.

Lemma set_toDelete_twice (b b' : bool) (c : connection) :
  set_toDelete b (set_toDelete b' c) = set_toDelete b c.
Proof. reflexivity. Qed.

(** The session of each backbone after the three loops. *)
Lemma diff_get (regs : nat) (rows : list (BackboneAccessPoint.t * uuid))
  (conns : list (uuid * connection)) (tr : list event) (bbid : uuid) :
  obj_get (fst (diff regs rows conns tr)) bbid
  = match obj_get (collect rows) bbid with
    | Some row =>
        Some match obj_get conns bbid with
             | Some c => set_toDelete false c
             | None => mkConnection false (BackboneAccessPoint.Hostname row)
                                    (BackboneAccessPoint.Port row)
             end
    | None => None
    end.
Proof.
  unfold diff.
  destruct (kept_or_created regs (collect rows) (mark_all conns) tr)
    as [conns1 tr1] eqn:Hk.
  assert (Hget1 : forall key, obj_get conns1 key
                  = obj_get (fst (kept_or_created regs (collect rows)
                                    (mark_all conns) tr)) key)
    by (intros key; now rewrite Hk).
  rewrite dropped_get, Hget1, kept_or_created_get, mark_all_get.
  destruct (obj_get (collect rows) bbid) as [row|] eqn:Hrow.
  - destruct (obj_get conns bbid) as [c|]; reflexivity.
  - destruct (obj_get conns bbid) as [c|] eqn:Hc; [|reflexivity].
    cbn [option_map set_toDelete toDelete andb].
    rewrite existsb_eqb_key; [reflexivity|].
    apply (obj_get_Some_key conns1 bbid (set_toDelete true c)).
    rewrite Hget1, kept_or_created_get, Hrow, mark_all_get, Hc. reflexivity.
Qed.

(** The calls of the three loops. *)
Lemma diff_trace (regs : nat) (rows : list (BackboneAccessPoint.t * uuid))
  (conns : list (uuid * connection)) (tr : list event) :
  NoDup (obj_keys conns) ->
  snd (diff regs rows conns tr)
  = tr ++ flat_map (opening regs conns) (collect rows)
       ++ flat_map (closing regs (collect rows)) (obj_keys conns).
Proof.
  intros Hnd. unfold diff.
  pose proof (collect_NoDup rows) as Hrows.
  pose proof (kept_or_created_trace_eq regs (collect rows) (mark_all conns) tr
                Hrows) as Htr1.
  pose proof (kept_or_created_keys regs (collect rows) (mark_all conns) tr
                Hrows) as Hkeys1.
  pose proof (kept_or_created_get regs (collect rows) (mark_all conns) tr)
    as Hget1.
  destruct (kept_or_created regs (collect rows) (mark_all conns) tr)
    as [conns1 tr1]. cbn [fst snd] in *.
  rewrite mark_all_keys in Hkeys1.
  assert (Hnd1 : NoDup (obj_keys conns1)).
  { rewrite Hkeys1. apply NoDup_app. split; [exact Hnd|]. split.
    - intros key Hin Hnew. apply list_elem_of_In, filter_In in Hnew as [_ Hnew].
      apply negb_true_iff, obj_has_false in Hnew.
      rewrite mark_all_get in Hnew.
      apply list_elem_of_In in Hin.
      apply existsb_eqb_key in Hin. fold (obj_has conns key) in Hin.
      apply obj_has_get in Hin as [c Hc]. rewrite Hc in Hnew. discriminate.
    - apply NoDup_ListNoDup, List.NoDup_filter, NoDup_ListNoDup, Hrows. }
  rewrite (dropped_trace_eq regs _ conns1 tr1 Hnd1), Htr1, <- app_assoc.
  f_equal. f_equal.
  - apply flat_map_ext_In. intros entry _. apply opening_agree.
    rewrite mark_all_get. destruct (obj_get conns (fst entry)); cbn; split;
      intros [? [=]]; eauto.
  - rewrite Hkeys1, flat_map_app.
    rewrite (flat_map_nil_In _ (List.filter _ _)), app_nil_r.
    + apply flat_map_ext_In. intros key Hin.
      apply existsb_eqb_key in Hin. fold (obj_has conns key) in Hin.
      apply obj_has_get in Hin as [c Hc].
      rewrite Hget1, mark_all_get, Hc. unfold closing.
      destruct (obj_get (collect rows) key) as [row|] eqn:Hrow.
      * assert (Hh : obj_has (collect rows) key = true)
          by (apply obj_has_get; eauto).
        now rewrite Hh.
      * assert (Hh : obj_has (collect rows) key = false)
          by now apply obj_has_false.
        now rewrite Hh.
    + intros key Hin. apply filter_In in Hin as [Hin _].
      apply existsb_eqb_key in Hin. fold (obj_has (collect rows) key) in Hin.
      apply obj_has_get in Hin as [row Hrow]. rewrite Hget1, Hrow.
      now destruct (obj_get (mark_all conns) key).
Qed.

(** X12: on a cycle whose BEGIN and
    SELECT go through and in which every handler of a subscriber
    returns, the calls made are exactly these, in this order: for each
    backbone with a retained row and no session, in the order of the
    rows, one OpenConnection to the host and port of the row followed by
    onLinkAdded for every subscriber; then for each session whose
    backbone has no row, in the order of the sessions, one
    CloseConnection followed by onLinkDeleted for every subscriber.  A
    backbone that has both a row and a session costs no call, and its
    session keeps the host and port it was opened with, whatever the row
    says now. *)
Theorem reconcileBackboneConnections_calls (s : state) :
  reliable (client s) [BEGIN; SELECT] ->
  returning s ->
  NoDup (obj_keys (bbConnections s)) ->
  let db_rows := collect (select_manage_ready (store (client s))) in
  let out := reconcileBackboneConnections s in
  trace (snd out)
  = trace s
    ++ flat_map (opening (registrations s) (bbConnections s)) db_rows
    ++ flat_map (closing (registrations s) db_rows) (obj_keys (bbConnections s))
  /\ (forall bbid,
        obj_get (bbConnections (snd out)) bbid
        = match obj_get db_rows bbid with
          | Some row =>
              Some match obj_get (bbConnections s) bbid with
                   | Some c => set_toDelete false c
                   | None =>
                       mkConnection false (BackboneAccessPoint.Hostname row)
                                    (BackboneAccessPoint.Port row)
                   end
          | None => None
          end).
Proof.
  intros Hrel Hret Hnd. cbv zeta.
  destruct (reconcileBackboneConnections_run s Hrel Hret) as [-> ->]. split.
  - now apply diff_trace.
  - intros bbid. apply diff_get.
Qed.

Lemma reconcileBackboneConnections_calls_witness :
  let out := reconcileBackboneConnections moved_ap_state in
  trace (snd out)
  = [CloseConnection "bb0"; onLinkDeleted 0 "bb0"; onLinkDeleted 1 "bb0"]
  /\ obj_get (bbConnections (snd out)) "bb1"
     = Some (mkConnection false (Some "old.example.com") (Some "55671"))
  /\ obj_get (bbConnections (snd out)) "bb0" = None.
Proof.
  destruct (reconcileBackboneConnections_calls moved_ap_state)
    as [Htrace Hget].
  - intros kind n _. reflexivity.
  - intros e n. reflexivity.
  - apply NoDup_cons. split; [|apply NoDup_singleton].
    intros H. apply list_elem_of_In in H. destruct H as [H|[]]. discriminate H.
  - cbv zeta. rewrite Htrace, !Hget. repeat split.
Defined.

(** ** A handler that rejects *)

(** The [await] of a handler that rejects throws inside the [try] of the
    cycle: the session that was just opened stays, its backbone is not
    announced to the subscribers after the one that rejected, the
    backbones that follow are not opened, no stale session is closed,
    and the cycle ends in a ROLLBACK. *)
Example rejecting_subscriber_ends_cycle :
  let s := mkState (connect unready_backbone_db (fun _ _ => false))
             [("bb0", mkConnection false (Some "gone.example.com")
                                   (Some "55671"))]
             2 [] 0 (fun _ _ => true) in
  let out := reconcileBackboneConnections s in
  trace (snd out)
  = [OpenConnection "bb1" (Some "ap.example.com") (Some "55671");
     onLinkAdded 0 "bb1"]
  /\ obj_keys (bbConnections (snd out)) = ["bb0"; "bb1"]
  /\ log (client (snd out))
     = [(BEGIN, true); (SELECT, true); (ROLLBACK, true)]
  /\ reschedule_delay (snd out) = 10000.
Proof. vm_compute. repeat split. Qed.

(** ** When the next cycle runs *)

Lemma await_all_frame (es : list event) (s : state) :
  client (snd (await_all es s)) = client s
  /\ reschedule_delay (snd (await_all es s)) = reschedule_delay s.
Proof.
  revert s. induction es as [|e es IH]; intros s; [now split|].
  cbn [await_all]. unfold Pg.bind, await_handler.
  destruct (rejects s e (List.length (trace s))); [now split|].
  destruct (IH (mkState (client s) (bbConnections s) (registrations s)
                        (trace s ++ [e]) (reschedule_delay s) (rejects s)))
    as [H1 H2].
  split; [exact H1 | exact H2].
Qed.

Lemma keep_or_create_frame
  (db_rows : list (uuid * BackboneAccessPoint.t)) (s : state) :
  client (snd (keep_or_create db_rows s)) = client s
  /\ reschedule_delay (snd (keep_or_create db_rows s)) = reschedule_delay s.
Proof.
  revert s. induction db_rows as [|[bbid row] db_rows IH]; intros s;
    [now split|].
  cbn [keep_or_create]. unfold Pg.bind.
  destruct (obj_get (bbConnections s) bbid) as [c|].
  - unfold set_connections, modify. cbv beta iota.
    destruct (IH (mkState (client s)
                          (obj_set (bbConnections s) bbid (set_toDelete false c))
                          (registrations s) (trace s) (reschedule_delay s)
                          (rejects s))) as [H1 H2].
    split; [exact H1 | exact H2].
  - unfold createConnection, set_connections, emit, notify, modify, Pg.bind.
    cbn [client bbConnections registrations trace reschedule_delay rejects].
    match goal with
    | |- context [await_all ?es ?s0] =>
        destruct (await_all_frame es s0) as [H1 H2];
        destruct (await_all es s0) as [[e|[]] s1]
    end; cbn [fst snd] in *; [now split|].
    destruct (IH s1) as [H3 H4].
    split; [now rewrite H3, H1 | now rewrite H4, H2].
Qed.

Lemma drop_marked_frame (keys : list uuid) (s : state) :
  client (snd (drop_marked keys s)) = client s
  /\ reschedule_delay (snd (drop_marked keys s)) = reschedule_delay s.
Proof.
  revert s. induction keys as [|bbid keys IH]; intros s; [now split|].
  cbn [drop_marked]. unfold Pg.bind.
  destruct (obj_get (bbConnections s) bbid) as [c|]; [|apply IH].
  destruct (toDelete c); [|apply IH].
  unfold deleteConnection, set_connections, emit, notify, modify, Pg.bind.
  cbn [client bbConnections registrations trace reschedule_delay rejects].
  match goal with
  | |- context [await_all ?es ?s0] =>
      destruct (await_all_frame es s0) as [H1 H2];
      destruct (await_all es s0) as [[e|[]] s1]
  end; cbn [fst snd] in *; [now split|].
  destruct (IH s1) as [H3 H4].
  split; [now rewrite H3, H1 | now rewrite H4, H2].
Qed.

(** The three loops touch neither the client nor the delay. *)
Lemma loops_frame (db_rows : list (uuid * BackboneAccessPoint.t)) (s : state) :
  let out := (set_connections mark_all ;;;
              keep_or_create db_rows ;;;
              (fun s => drop_marked (obj_keys (bbConnections s)) s))%pg s in
  client (snd out) = client s
  /\ reschedule_delay (snd out) = reschedule_delay s.
Proof.
  cbv zeta. unfold Pg.bind, set_connections, modify.
  match goal with
  | |- context [keep_or_create db_rows ?s0] =>
      destruct (keep_or_create_frame db_rows s0) as [H1 H2];
      destruct (keep_or_create db_rows s0) as [[e|[]] s1]
  end; cbn [fst snd client reschedule_delay] in *; [now split|].
  destruct (drop_marked_frame (obj_keys (bbConnections s1)) s1) as [H3 H4].
  split; [now rewrite H3, H1 | now rewrite H4, H2].
Qed.

Lemma bind_run {S A B : Type} (m : M S A) (k : A -> M S B) (s : S) :
  Pg.bind m k s
  = match m s with
    | (inr a, s') => k a s'
    | (inl e, s') => (inl e, s')
    end.
Proof. reflexivity. Qed.

(** X13: a cycle ends with a COMMIT or a
    ROLLBACK; after a COMMIT that went through the next cycle is
    scheduled in 30 seconds, after a ROLLBACK that went through in 10
    seconds, and a cycle whose ROLLBACK is refused too ends in an
    exception.  A cycle whose BEGIN or SELECT is refused leaves the
    sessions and the subscribers alone. *)
Theorem reconcileBackboneConnections_delay (s : state) :
  let out := reconcileBackboneConnections s in
  match last (log (client (snd out))) with
  | Some (COMMIT, true) =>
      fst out = inr tt /\ reschedule_delay (snd out) = 30000
  | Some (ROLLBACK, true) =>
      fst out = inr tt /\ reschedule_delay (snd out) = 10000
  | _ => exists e, fst out = inl e
  end
  /\ (fault (client s) BEGIN (issued (client s)) = true
      \/ fault (client s) SELECT (S (issued (client s))) = true ->
      bbConnections (snd out) = bbConnections s /\ trace (snd out) = trace s).
Proof.
  destruct s as [[d snap lg f] conns regs tr delay rej].
  assert (Hhandler : forall (e : exn) (s1 : state),
            fault (client s1) = f ->
            let out := (query_ROLLBACK ;;; set_delay 10000)%pg s1 in
            match last (log (client (snd out))) with
            | Some (COMMIT, true) =>
                fst out = inr tt /\ reschedule_delay (snd out) = 30000
            | Some (ROLLBACK, true) =>
                fst out = inr tt /\ reschedule_delay (snd out) = 10000
            | _ => exists e, fst out = inl e
            end
            /\ bbConnections (snd out) = bbConnections s1
            /\ trace (snd out) = trace s1).
  { intros _ [[d1 snap1 lg1 f1] conns1 regs1 tr1 delay1 rej1] Hf.
    cbn [client fault] in Hf. subst f1. cbv zeta.
    unfold Pg.bind, query_ROLLBACK, set_delay, modify, issued, refused, sent.
    cbn [the_client put_client state_HasClient client bbConnections
         registrations trace reschedule_delay rejects store snapshot log
         fault].
    destruct (f ROLLBACK (List.length lg1));
      cbn [the_client put_client state_HasClient client bbConnections
           registrations trace reschedule_delay rejects store snapshot log
           fault fst snd]; rewrite last_snoc; eauto. }
  unfold reconcileBackboneConnections, try_catch.
  rewrite bind_run. unfold query_BEGIN, issued.
  cbn [the_client put_client state_HasClient client bbConnections
       registrations trace reschedule_delay rejects store snapshot log fault].
  destruct (f BEGIN (List.length lg)) eqn:Hb; cbv beta iota.
  - match goal with
    | |- context [(query_ROLLBACK ;;; set_delay 10000)%pg ?s1] =>
        destruct (Hhandler (Error "database error") s1 eq_refl)
          as (H1 & H2 & H3)
    end.
    split; [exact H1 | intros _; split; [exact H2 | exact H3]].
  - rewrite bind_run. unfold select, query, issued, sent, refused.
    cbn [the_client put_client state_HasClient client bbConnections
         registrations trace reschedule_delay rejects store snapshot log
         fault].
    rewrite length_app, Nat.add_1_r. cbn [List.length].
    destruct (f SELECT (S (List.length lg))) eqn:Hs; cbv beta iota.
    + match goal with
      | |- context [(query_ROLLBACK ;;; set_delay 10000)%pg ?s1] =>
          destruct (Hhandler (Error "database error") s1 eq_refl)
            as (H1 & H2 & H3)
      end.
      split; [exact H1 | intros _; split; [exact H2 | exact H3]].
    + split; [|intros [H|H]; cbn in H; congruence].
      rewrite bind_run. unfold set_connections, modify. cbv beta iota.
      rewrite bind_run.
      match goal with
      | |- context [keep_or_create ?r ?s0] =>
          destruct (keep_or_create_frame r s0) as [H1 H2];
          destruct (keep_or_create r s0) as [[e|[]] s3]
      end; cbn [fst snd client reschedule_delay] in H1, H2; cbv beta iota.
      * apply (Hhandler e s3). now rewrite H1.
      * rewrite bind_run.
        destruct (drop_marked_frame (obj_keys (bbConnections s3)) s3)
          as [H3 H4].
        destruct (drop_marked (obj_keys (bbConnections s3)) s3)
          as [[e|[]] s4]; cbn [fst snd] in H3, H4; cbv beta iota.
        -- apply (Hhandler e s4). now rewrite H3, H1.
        -- destruct s4 as [c4 conns4 regs4 tr4 delay4 rej4].
           cbn [client reschedule_delay] in H3, H4.
           rewrite H1 in H3. rewrite H2 in H4. subst c4 delay4.
           unfold query_COMMIT, issued, refused, sent.
           cbn [the_client put_client state_HasClient client bbConnections
                registrations trace reschedule_delay rejects store snapshot
                log fault].
           destruct (f COMMIT _); cbv beta iota.
           ++ match goal with
              | |- context [(query_ROLLBACK ;;; set_delay 10000)%pg ?s1] =>
                  exact (proj1 (Hhandler (Error "database error") s1 eq_refl))
              end.
           ++ cbn [the_client put_client state_HasClient client bbConnections
                   registrations trace reschedule_delay rejects store
                   snapshot log fault fst snd].
              rewrite last_snoc. auto.
Qed.

Lemma reconcileBackboneConnections_delay_witness :
  reschedule_delay
    (snd (reconcileBackboneConnections (idle_state unready_backbone_db)))
  = 30000
  /\ bbConnections
       (snd (reconcileBackboneConnections
               (mkState (connect unready_backbone_db refuses_begin)
                        (bbConnections moved_ap_state) 2 [] 0
                        (fun _ _ => false))))
     = bbConnections moved_ap_state.
Proof.
  split.
  - exact (proj2 (proj1 (reconcileBackboneConnections_delay
                           (idle_state unready_backbone_db)))).
  - exact (proj1 (proj2 (reconcileBackboneConnections_delay
                           (mkState (connect unready_backbone_db refuses_begin)
                                    (bbConnections moved_ap_state) 2 [] 0
                                    (fun _ _ => false)))
                        (or_introl eq_refl))).
Defined.

End BackboneLinksFacts.

(* ===================================================================== *)
(** * ident.js: short identifiers *)
(* ===================================================================== *)

Module IdentFacts.
Import Js Ident.

Lemma substring_all (value : string) :
  forall size : nat,
    (String.length value <= size)%nat -> substring 0 size value = value.
Proof.
  induction value as [|c value IH]; intros [|size] Hle;
    cbn [String.length] in Hle; try reflexivity; try lia.
  cbn [substring]. rewrite IH by lia. reflexivity.
Qed.

Lemma slice_last_all (size : nat) (value : string) :
  (String.length value <= size)%nat -> slice_last size value = value.
Proof.
  intros Hle. unfold slice_last.
  replace (String.length value - size)%nat with 0%nat by lia.
  now apply substring_all.
Qed.

Lemma existsb_eqb_iff (k : string) (keys : list string) :
  existsb (String.eqb k) keys = true <-> In k keys.
Proof.
  rewrite existsb_exists. split.
  - intros [x [Hin Heq]]. apply String.eqb_eq in Heq. now subst.
  - intros Hin. exists k. split; [exact Hin | apply String.eqb_refl].
Qed.

(** The loop ends when the UUID itself is free, at the first free size. *)
Lemma grow_finds (value : string) (inUseIdentities : list string) :
  ~ In value inUseIdentities ->
  forall (fuel size : nat),
    (String.length value <= size + fuel)%nat ->
    exists size',
      (size <= size')%nat
      /\ grow (S fuel) value size inUseIdentities
         = Some (slice_last size' value)
      /\ ~ In (slice_last size' value) inUseIdentities
      /\ (forall s, (size <= s < size')%nat ->
                    In (slice_last s value) inUseIdentities).
Proof.
  intros Hfree. induction fuel as [|fuel IH]; intros size Hlen.
  - exists size. cbn [grow].
    rewrite (slice_last_all size value) by lia.
    destruct (existsb (String.eqb value) inUseIdentities) eqn:E.
    + apply existsb_eqb_iff in E. contradiction.
    + repeat split; [lia | exact Hfree | intros s Hs; lia].
  - change (grow (S (S fuel)) value size inUseIdentities)
      with (if existsb (String.eqb (slice_last size value)) inUseIdentities
            then grow (S fuel) value (S size) inUseIdentities
            else Some (slice_last size value)).
    destruct (existsb (String.eqb (slice_last size value)) inUseIdentities)
      eqn:E.
    + apply existsb_eqb_iff in E.
      destruct (IH (S size)) as [size' [Hle [Hrun [Hnew Hused]]]]; [lia|].
      exists size'. repeat split; [lia | exact Hrun | exact Hnew |].
      intros s Hs. destruct (Nat.eq_dec s size) as [->|Hne];
        [exact E | apply Hused; lia].
    + exists size. repeat split; [lia | | intros s Hs; lia].
      intros Hin. apply existsb_eqb_iff in Hin. congruence.
Qed.

(** Running out of turns means running for ever: once every candidate up
    to the UUID itself is in use, every later candidate is the UUID. *)
Lemma grow_never (value : string) (inUseIdentities : list string) :
  NewIdentity value inUseIdentities = None ->
  forall fuel size,
    (5 <= size)%nat -> grow fuel value size inUseIdentities = None.
Proof.
  intros Hnone.
  assert (Hused : In value inUseIdentities).
  { destruct (in_dec string_dec value inUseIdentities) as [Hin|Hout];
      [exact Hin|].
    destruct (grow_finds value inUseIdentities Hout
                (String.length value) 5) as [size' [_ [Hrun _]]]; [lia|].
    unfold NewIdentity in Hnone. rewrite Hrun in Hnone. discriminate. }
  assert (Hall : forall n size, (5 <= size)%nat ->
            (String.length value <= size + n)%nat ->
            In (slice_last size value) inUseIdentities).
  { induction n as [|n IHn]; intros size H5 Hlen.
    - rewrite slice_last_all by lia. exact Hused.
    - destruct (existsb (String.eqb (slice_last size value)) inUseIdentities)
        eqn:E; [now apply existsb_eqb_iff in E|].
      exfalso. unfold NewIdentity in Hnone.
      assert (Hgen : forall fuel sz, (5 <= sz <= size)%nat ->
                (size < sz + fuel)%nat ->
                grow fuel value sz inUseIdentities <> None).
      { induction fuel as [|fuel IHf]; intros sz Hsz Hf; [lia|].
        cbn [grow].
        destruct (existsb (String.eqb (slice_last sz value)) inUseIdentities)
          eqn:E'; [|discriminate].
        destruct (Nat.eq_dec sz size) as [->|Hne]; [congruence|].
        apply IHf; lia. }
      destruct (Nat.le_gt_cases size (String.length value + 5)) as [Hs|Hs].
      + apply (Hgen (S (String.length value)) 5%nat); [lia | lia |].
        destruct (grow (S (String.length value)) value 5 inUseIdentities);
          [discriminate | reflexivity].
      + rewrite slice_last_all in E by lia.
        apply existsb_eqb_iff in Hused. congruence. }
  induction fuel as [|fuel IHf]; intros size H5; [reflexivity|].
  cbn [grow].
  rewrite (proj2 (existsb_eqb_iff _ _)
             (Hall (String.length value) size H5 ltac:(lia))).
  apply IHf. lia.
Qed.

(** X22: when the UUID drawn is not itself in use,
    [NewIdentity] returns: the identifier is the shortest suffix of the
    UUID of at least five characters that is not in use, and it is
    appended to the identifiers in use, so that no later call returns it
    again. *)
Theorem NewIdentity_fresh (value : string) (inUseIdentities : list string) :
  ~ In value inUseIdentities ->
  exists size,
    (5 <= size)%nat
    /\ NewIdentity value inUseIdentities
       = Some (slice_last size value,
               inUseIdentities ++ [slice_last size value])
    /\ ~ In (slice_last size value) inUseIdentities
    /\ (forall s, (5 <= s < size)%nat ->
                  In (slice_last s value) inUseIdentities).
Proof.
  intros Hfree.
  destruct (grow_finds value inUseIdentities Hfree (String.length value) 5)
    as [size [Hle [Hrun [Hnew Hused]]]]; [lia|].
  exists size. unfold NewIdentity. rewrite Hrun. auto.
Qed.

Lemma NewIdentity_fresh_witness :
  exists size,
    (5 <= size)%nat
    /\ NewIdentity "6f1c2b7e-0d7b-4c53-9a41-2f60c1d2a9e4" ["2a9e4"; "d2a9e4"]
       = Some (slice_last size "6f1c2b7e-0d7b-4c53-9a41-2f60c1d2a9e4",
               ["2a9e4"; "d2a9e4"]
               ++ [slice_last size "6f1c2b7e-0d7b-4c53-9a41-2f60c1d2a9e4"])
    /\ ~ In (slice_last size "6f1c2b7e-0d7b-4c53-9a41-2f60c1d2a9e4")
            ["2a9e4"; "d2a9e4"]
    /\ (forall s, (5 <= s < size)%nat ->
          In (slice_last s "6f1c2b7e-0d7b-4c53-9a41-2f60c1d2a9e4")
             ["2a9e4"; "d2a9e4"]).
Proof.
  apply (NewIdentity_fresh "6f1c2b7e-0d7b-4c53-9a41-2f60c1d2a9e4"
           ["2a9e4"; "d2a9e4"]).
  simpl. intros [H|[H|[]]]; discriminate.
Defined.

Example NewIdentity_grows :
  NewIdentity "6f1c2b7e-0d7b-4c53-9a41-2f60c1d2a9e4" ["2a9e4"; "d2a9e4"]
  = Some ("1d2a9e4", ["2a9e4"; "d2a9e4"; "1d2a9e4"]).
Proof. vm_compute. reflexivity. Qed.

End IdentFacts.

(* ===================================================================== *)
(** * prune.js: certificates that nothing refers to *)
(* ===================================================================== *)

Module PruneFacts.
Import Js Schema Pg Prune.
Import JsFacts TripleFacts.
Local Open Scope pg_scope.

(** ** The map *)

Lemma obj_has_set {V : Type} (o : list (string * V)) (k : string) (v : V)
  (id : string) :
  obj_has (obj_set o k v) id = obj_has o id || String.eqb k id.
Proof.
  unfold obj_has, obj_keys. induction o as [|[k' v'] o IH]; cbn [obj_set].
  - cbn. rewrite (String.eqb_sym id k). now destruct (String.eqb k id).
  - destruct (String.eqb_spec k' k) as [->|Hne]; cbn [map fst existsb].
    + rewrite (String.eqb_sym id k).
      destruct (String.eqb k id); cbn; [reflexivity|].
      now rewrite orb_false_r.
    + rewrite IH. now rewrite orb_assoc.
Qed.

Lemma obj_has_In {V : Type} (o : list (string * V)) (id : string) :
  obj_has o id = true <-> In id (obj_keys o).
Proof.
  unfold obj_has. rewrite existsb_exists. split.
  - intros [x [Hin Heq]]. apply String.eqb_eq in Heq. now subst.
  - intros Hin. exists id. split; [exact Hin | apply String.eqb_refl].
Qed.

Lemma marked_set (m : deletemap) (k : uuid) (r : record) (id : uuid) :
  marked (obj_set m k r) id
  = if String.eqb k id then pleaseDelete r else marked m id.
Proof.
  unfold marked. destruct (String.eqb_spec k id) as [->|Hne].
  - now rewrite obj_get_set_eq.
  - now rewrite obj_get_set_ne.
Qed.

Lemma kids_set (m : deletemap) (k : uuid) (r : record) (id : uuid) :
  kids (obj_set m k r) id
  = if String.eqb k id then children r else kids m id.
Proof.
  unfold kids. destruct (String.eqb_spec k id) as [->|Hne].
  - now rewrite obj_get_set_eq.
  - now rewrite obj_get_set_ne.
Qed.

Lemma obj_has_kept (m : deletemap) (k : uuid) (r : record) (id : uuid) :
  obj_has m k = true -> obj_has (obj_set m k r) id = obj_has m id.
Proof.
  intros Hk. rewrite obj_has_set.
  destruct (String.eqb_spec k id) as [->|_];
    [now rewrite Hk | apply orb_false_r].
Qed.

Lemma obj_get_has {V : Type} (o : list (string * V)) (k : string) (v : V) :
  obj_get o k = Some v -> obj_has o k = true.
Proof. intros H. apply obj_has_get. now exists v. Qed.

(** What one row does to the map. *)
Lemma marked_note_row (m : deletemap) (row : TlsCertificate.t) (id : uuid) :
  marked (note_row m row) id
  = String.eqb (TlsCertificate.Id row) id || marked m id.
Proof.
  unfold note_row.
  set (m1 := match present (TlsCertificate.SignedBy row) with
             | Some signedby => _
             | None => m
             end).
  assert (H1 : marked m1 id = marked m id).
  { unfold m1. destruct (present (TlsCertificate.SignedBy row)) as [p|];
      [|reflexivity].
    rewrite marked_set. destruct (String.eqb_spec p id) as [->|_];
      [|reflexivity].
    unfold marked. now destruct (obj_get m id). }
  destruct (obj_get m1 (TlsCertificate.Id row)); rewrite marked_set, H1;
    now destruct (String.eqb (TlsCertificate.Id row) id).
Qed.

Lemma kids_note_row (m : deletemap) (row : TlsCertificate.t) (id : uuid) :
  kids (note_row m row) id
  = kids m id
    ++ (if refers (present (TlsCertificate.SignedBy row)) id
        then [TlsCertificate.Id row] else []).
Proof.
  unfold note_row.
  set (m1 := match present (TlsCertificate.SignedBy row) with
             | Some signedby => _
             | None => m
             end).
  assert (H1 : kids m1 id
               = kids m id
                 ++ (if refers (present (TlsCertificate.SignedBy row)) id
                     then [TlsCertificate.Id row] else [])).
  { unfold m1. destruct (present (TlsCertificate.SignedBy row)) as [p|];
      cbn [refers]; [|now rewrite app_nil_r].
    rewrite kids_set. destruct (String.eqb_spec p id) as [->|_];
      [|now rewrite app_nil_r].
    unfold kids. now destruct (obj_get m id). }
  rewrite <- H1. unfold kids at 1.
  destruct (obj_get m1 (TlsCertificate.Id row)) as [r|] eqn:E.
  - destruct (String.eqb_spec (TlsCertificate.Id row) id) as [<-|Hne].
    + rewrite obj_get_set_eq. unfold kids. now rewrite E.
    + rewrite obj_get_set_ne by exact Hne. reflexivity.
  - destruct (String.eqb_spec (TlsCertificate.Id row) id) as [<-|Hne].
    + rewrite obj_get_set_eq. unfold kids. now rewrite E.
    + rewrite obj_get_set_ne by exact Hne. reflexivity.
Qed.

Lemma has_note_row (m : deletemap) (row : TlsCertificate.t) (id : uuid) :
  obj_has (note_row m row) id
  = obj_has m id
    || refers (present (TlsCertificate.SignedBy row)) id
    || String.eqb (TlsCertificate.Id row) id.
Proof.
  unfold note_row.
  set (m1 := match present (TlsCertificate.SignedBy row) with
             | Some signedby => _
             | None => m
             end).
  assert (H1 : obj_has m1 id
               = obj_has m id
                 || refers (present (TlsCertificate.SignedBy row)) id).
  { unfold m1. destruct (present (TlsCertificate.SignedBy row)) as [p|];
      cbn [refers]; [|now rewrite orb_false_r].
    apply obj_has_set. }
  destruct (obj_get m1 (TlsCertificate.Id row)); rewrite obj_has_set, H1;
    reflexivity.
Qed.

Lemma marked_rows (rows : list TlsCertificate.t) :
  forall (m : deletemap) (id : uuid),
    marked (fold_left note_row rows m) id
    = existsb (fun r => String.eqb (TlsCertificate.Id r) id) rows
      || marked m id.
Proof.
  induction rows as [|row rows IH]; intros m id; [reflexivity|].
  cbn [fold_left existsb]. rewrite IH, marked_note_row.
  now rewrite orb_assoc, (orb_comm (existsb _ rows)).
Qed.

Lemma kids_rows (rows : list TlsCertificate.t) :
  forall (m : deletemap) (id : uuid),
    kids (fold_left note_row rows m) id
    = kids m id
      ++ map TlsCertificate.Id
           (List.filter
              (fun r => refers (present (TlsCertificate.SignedBy r)) id)
              rows).
Proof.
  induction rows as [|row rows IH]; intros m id;
    [cbn; now rewrite app_nil_r|].
  cbn [fold_left List.filter]. rewrite IH, kids_note_row, <- app_assoc.
  now destruct (refers (present (TlsCertificate.SignedBy row)) id).
Qed.

Lemma has_rows (rows : list TlsCertificate.t) :
  forall (m : deletemap) (id : uuid),
    obj_has (fold_left note_row rows m) id
    = obj_has m id
      || existsb (fun r =>
                    refers (present (TlsCertificate.SignedBy r)) id
                    || String.eqb (TlsCertificate.Id r) id) rows.
Proof.
  induction rows as [|row rows IH]; intros m id;
    [cbn; now rewrite orb_false_r|].
  cbn [fold_left existsb]. rewrite IH, has_note_row.
  now rewrite !orb_assoc.
Qed.

(** What one reference does to the map. *)
Lemma marked_clear (m : deletemap) (certificate : option uuid) (id : uuid) :
  marked (clear_referenced m certificate) id
  = marked m id && negb (refers (present certificate) id).
Proof.
  unfold clear_referenced. destruct (present certificate) as [cert|];
    cbn [refers]; [|now rewrite andb_true_r].
  destruct (obj_get m cert) as [r|] eqn:E.
  - rewrite marked_set. destruct (String.eqb_spec cert id) as [->|_]; cbn;
      [now rewrite andb_false_r | now rewrite andb_true_r].
  - destruct (String.eqb_spec cert id) as [->|_]; cbn;
      [|now rewrite andb_true_r].
    unfold marked. now rewrite E.
Qed.

Lemma kids_clear (m : deletemap) (certificate : option uuid) (id : uuid) :
  kids (clear_referenced m certificate) id = kids m id.
Proof.
  unfold clear_referenced. destruct (present certificate) as [cert|];
    [|reflexivity].
  destruct (obj_get m cert) as [r|] eqn:E; [|reflexivity].
  rewrite kids_set. destruct (String.eqb_spec cert id) as [->|_];
    [|reflexivity].
  unfold kids. now rewrite E.
Qed.

Lemma has_clear (m : deletemap) (certificate : option uuid) (id : uuid) :
  obj_has (clear_referenced m certificate) id = obj_has m id.
Proof.
  unfold clear_referenced. destruct (present certificate) as [cert|];
    [|reflexivity].
  destruct (obj_get m cert) as [r|] eqn:E; [|reflexivity].
  apply obj_has_kept. exact (obj_get_has _ _ _ E).
Qed.

Lemma marked_clears (rows : list (option uuid)) :
  forall (m : deletemap) (id : uuid),
    marked (fold_left clear_referenced rows m) id
    = marked m id
      && negb (existsb (fun certificate => refers (present certificate) id)
                 rows).
Proof.
  induction rows as [|row rows IH]; intros m id;
    [cbn; now rewrite andb_true_r|].
  cbn [fold_left existsb]. rewrite IH, marked_clear, negb_orb.
  now rewrite andb_assoc.
Qed.

Lemma kids_clears (rows : list (option uuid)) :
  forall (m : deletemap) (id : uuid),
    kids (fold_left clear_referenced rows m) id = kids m id.
Proof.
  induction rows as [|row rows IH]; intros m id; [reflexivity|].
  cbn [fold_left]. now rewrite IH, kids_clear.
Qed.

Lemma has_clears (rows : list (option uuid)) :
  forall (m : deletemap) (id : uuid),
    obj_has (fold_left clear_referenced rows m) id = obj_has m id.
Proof.
  induction rows as [|row rows IH]; intros m id; [reflexivity|].
  cbn [fold_left]. now rewrite IH, has_clear.
Qed.

Lemma marked_tables (d : db) (tables : list (db -> list (option uuid))) :
  forall (m : deletemap) (id : uuid),
    marked (fold_left (fun deleteMap table =>
                         fold_left clear_referenced (table d) deleteMap)
                      tables m) id
    = marked m id
      && negb (existsb (fun table =>
                 existsb (fun certificate =>
                            refers (present certificate) id) (table d))
                 tables).
Proof.
  induction tables as [|table tables IH]; intros m id;
    [cbn; now rewrite andb_true_r|].
  cbn [fold_left existsb]. rewrite IH, marked_clears, negb_orb.
  now rewrite andb_assoc.
Qed.

Lemma kids_tables (d : db) (tables : list (db -> list (option uuid))) :
  forall (m : deletemap) (id : uuid),
    kids (fold_left (fun deleteMap table =>
                       fold_left clear_referenced (table d) deleteMap)
                    tables m) id
    = kids m id.
Proof.
  induction tables as [|table tables IH]; intros m id; [reflexivity|].
  cbn [fold_left]. now rewrite IH, kids_clears.
Qed.

Lemma has_tables (d : db) (tables : list (db -> list (option uuid))) :
  forall (m : deletemap) (id : uuid),
    obj_has (fold_left (fun deleteMap table =>
                          fold_left clear_referenced (table d) deleteMap)
                       tables m) id
    = obj_has m id.
Proof.
  induction tables as [|table tables IH]; intros m id; [reflexivity|].
  cbn [fold_left]. now rewrite IH, has_clears.
Qed.

(** The map after the two loops: a certificate is marked when it is a
    row that nothing refers to; its children are the rows it signed; the
    keys are the rows and their signers. *)
Lemma marked_deleteMap_of (d : db) (id : uuid) :
  marked (deleteMap_of d) id
  = existsb (fun r => String.eqb (TlsCertificate.Id r) id) (TlsCertificates d)
    && negb (referenced d id).
Proof.
  unfold deleteMap_of, referenced. rewrite marked_tables, marked_rows.
  cbn [marked obj_get]. now rewrite orb_false_r.
Qed.

Lemma kids_deleteMap_of (d : db) (id : uuid) :
  kids (deleteMap_of d) id
  = map TlsCertificate.Id
      (List.filter (fun r => refers (present (TlsCertificate.SignedBy r)) id)
         (TlsCertificates d)).
Proof. unfold deleteMap_of. now rewrite kids_tables, kids_rows. Qed.

Lemma has_deleteMap_of (d : db) (id : uuid) :
  obj_has (deleteMap_of d) id
  = existsb (fun r =>
               refers (present (TlsCertificate.SignedBy r)) id
               || String.eqb (TlsCertificate.Id r) id) (TlsCertificates d).
Proof. unfold deleteMap_of. now rewrite has_tables, has_rows. Qed.

Lemma kids_are_keys (d : db) (id child : uuid) :
  In child (kids (deleteMap_of d) id) ->
  obj_has (deleteMap_of d) child = true
  /\ exists r, In r (TlsCertificates d)
               /\ TlsCertificate.Id r = child
               /\ present (TlsCertificate.SignedBy r) = Some id.
Proof.
  rewrite kids_deleteMap_of, in_map_iff.
  intros [r [Hid Hin]]. apply filter_In in Hin. destruct Hin as [Hin Hsig].
  split.
  - rewrite has_deleteMap_of. apply existsb_exists. exists r.
    split; [exact Hin|]. rewrite Hid, String.eqb_refl. apply orb_true_r.
  - exists r. repeat split; auto.
    unfold refers in Hsig.
    destruct (present (TlsCertificate.SignedBy r)) as [p|]; [|discriminate].
    apply String.eqb_eq in Hsig. now subst.
Qed.

(** ** Marks taken away *)

Lemma unmarks_refl (m : deletemap) : unmarks m m.
Proof. repeat split; auto. Qed.

Lemma unmarks_trans (m1 m2 m3 : deletemap) :
  unmarks m1 m2 -> unmarks m2 m3 -> unmarks m1 m3.
Proof.
  intros (K1 & H1 & M1) (K2 & H2 & M2). repeat split; intros id.
  - now rewrite K2.
  - now rewrite H2.
  - intros H. auto.
Qed.

Lemma unmarks_unmark (m : deletemap) (id : uuid) (r : record) :
  obj_get m id = Some r ->
  unmarks m (obj_set m id (mkRecord false (children r))).
Proof.
  intros Hget. repeat split; intros x.
  - rewrite kids_set. destruct (String.eqb_spec id x) as [<-|_];
      [|reflexivity].
    unfold kids. now rewrite Hget.
  - apply obj_has_kept. exact (obj_get_has _ _ _ Hget).
  - rewrite marked_set. destruct (String.eqb id x); [discriminate | auto].
Qed.

(** ** The loops *)

Lemma clear_tables_run (d : db) (snap : option db) (f : stmt -> nat -> bool)
  (tables : list (db -> list (option uuid))) :
  forall m : deletemap,
    triple (in_state d snap f) (clear_tables tables m)
      (fun m' c =>
         m' = fold_left (fun deleteMap table =>
                           fold_left clear_referenced (table d) deleteMap)
                        tables m
         /\ in_state d snap f c)
      (fun c => in_state d snap f c /\ exists n, f SELECT n = true).
Proof.
  induction tables as [|table tables IH]; intros m; cbn [clear_tables].
  - apply triple_ret. auto.
  - eapply triple_bind.
    + apply (triple_select _ _
               (fun rows c => rows = table d /\ in_state d snap f c)).
      * intros c Hc Hfault. split; [exact Hc|].
        destruct Hc as (_ & _ & Hf). rewrite Hf in Hfault. eauto.
      * intros c (Hd & Hs & Hf) _. split; [now rewrite Hd|].
        repeat split; assumption.
    + intros rows. apply triple_assume. intros ->. apply IH.
Qed.

(** A loop of awaited turns: what each turn keeps, the loop keeps, and
    what a turn settles for its id stays settled. *)
Lemma for_each_run (P : deletemap -> client -> Prop)
  (G : uuid -> deletemap -> Prop) (E : client -> Prop)
  (turn : uuid -> deletemap -> M client deletemap) (ids : list uuid) :
  (forall id m m', G id m -> unmarks m m' -> G id m') ->
  (forall id m, In id ids ->
     triple (P m) (turn id m)
       (fun m' c => unmarks m m' /\ G id m' /\ P m' c) E) ->
  forall m,
    triple (P m) (for_each turn ids m)
      (fun m' c => unmarks m m' /\ (forall id, In id ids -> G id m') /\ P m' c)
      E.
Proof.
  intros Hstable. induction ids as [|id ids IH]; intros Hturn m;
    cbn [for_each].
  - apply triple_ret. intros c Hc.
    split; [apply unmarks_refl|]. split; [intros ? []| exact Hc].
  - eapply triple_bind; [apply Hturn; now left|].
    intros m1. cbn beta.
    apply (triple_conseq
             (fun c => (unmarks m m1 /\ G id m1) /\ P m1 c)
             _ _
             (fun m' c => unmarks m m' /\
                          (forall x, In x (id :: ids) -> G x m') /\ P m' c)
             (fun m' c => unmarks m m' /\
                          (forall x, In x (id :: ids) -> G x m') /\ P m' c)
             E E); [| tauto | auto | auto].
    apply triple_assume. intros [Hu Hg].
    eapply triple_conseq;
      [apply IH; intros x m' Hx; apply Hturn; now right | auto | | auto].
    cbn beta. intros m' c (Hu' & Hall & Hc).
    split; [exact (unmarks_trans _ _ _ Hu Hu')|]. split; [|exact Hc].
    intros x [<-|Hx]; [exact (Hstable _ _ _ Hg Hu') | now apply Hall].
Qed.

(** A loop with a turn that never returns does not return either. *)
Lemma for_each_never (P : deletemap -> client -> Prop) (E : client -> Prop)
  (turn : uuid -> deletemap -> M client deletemap) (ids : list uuid)
  (id : uuid) :
  In id ids ->
  (forall m, triple (P m) (turn id m) (fun _ _ => False) E) ->
  (forall x m, triple (P m) (turn x m) (fun m' c => P m' c) E) ->
  forall m, triple (P m) (for_each turn ids m) (fun _ _ => False) E.
Proof.
  intros Hin Hnever Hkeep. induction ids as [|x ids IH]; [destruct Hin|].
  intros m. cbn [for_each].
  destruct (String.eqb_spec x id) as [->|Hne].
  - apply (triple_bind _ _ _ (fun _ _ => False)); [apply Hnever|].
    intros m1 c [].
  - eapply triple_bind; [apply Hkeep|]. intros m1. apply IH.
    destruct Hin as [->|Hin]; [contradiction | exact Hin].
Qed.

Lemma filter_twice {A : Type} (p q : A -> bool) (l : list A) :
  List.filter p (List.filter q l) = List.filter (fun x => q x && p x) l.
Proof.
  induction l as [|x l IH]; [reflexivity|]. cbn [List.filter].
  destruct (q x); cbn [List.filter andb]; [|exact IH].
  destruct (p x); now rewrite IH.
Qed.

Lemma filter_all {A : Type} (p : A -> bool) (l : list A) :
  (forall x, In x l -> p x = true) -> List.filter p l = l.
Proof.
  intros H. apply forallb_filter_id. apply forallb_forall. exact H.
Qed.

Lemma existsb_same {A : Type} (p q : A -> bool) (l : list A) :
  (forall x, p x = q x) -> existsb p l = existsb q l.
Proof.
  intros H. induction l as [|x l IH]; [reflexivity|].
  cbn [existsb]. now rewrite H, IH.
Qed.

(** ** The DELETE *)

Ltac project_tables :=
  cbn [ManagementControllers Backbones InteriorSites BackboneAccessPoints
       InterRouterLinks ApplicationNetworks NetworkCredentials
       MemberInvitations MemberSites TlsCertificates CertificateRequests
       TlsClientRevocations].

Lemma delete_certificates_nil (d : db) : delete_certificates [] d = d.
Proof.
  destruct d as [mc bb st ap lk an nc mi ms tls cr rv].
  unfold delete_certificates, with_TlsCertificates, with_CertificateRequests.
  project_tables. cbn [existsb negb]. f_equal; apply filter_all; reflexivity.
Qed.

Lemma delete_certificates_cons (id : uuid) (deleted : list uuid) (d : db) :
  delete_rows id (delete_certificates deleted d)
  = delete_certificates (id :: deleted) d.
Proof.
  destruct d as [mc bb st ap lk an nc mi ms tls cr rv].
  unfold delete_rows, delete_certificates, with_TlsCertificates,
    with_CertificateRequests.
  project_tables.
  f_equal; rewrite filter_twice; apply List.filter_ext; intros x;
    cbn [existsb]; rewrite negb_orb; apply andb_comm.
Qed.

(** The DELETE takes rows away from the certificates. *)
Lemma rows_delete_rows (id : uuid) (d : db) (r : TlsCertificate.t) :
  In r (TlsCertificates (delete_rows id d)) ->
  In r (TlsCertificates d) /\ TlsCertificate.Id r <> id.
Proof.
  destruct d as [mc bb st ap lk an nc mi ms tls cr rv].
  unfold delete_rows, with_TlsCertificates, with_CertificateRequests.
  project_tables.
  intros H. apply filter_In in H. destruct H as [Hin Hne].
  split; [exact Hin|]. intros E. rewrite E, String.eqb_refl in Hne.
  discriminate.
Qed.

(** A DELETE that goes through. *)
Lemma delete_certificate_done (id : uuid) (d d' : db) (a : unit) :
  delete_certificate id d = inr (a, d') ->
  d' = delete_rows id d /\ signs_other d id = false.
Proof.
  unfold delete_certificate.
  destruct (named d id), (revoked d id), (signs_other d id); cbn [orb];
    try discriminate.
  intros [= _ <-]. auto.
Qed.

Lemma signs_other_false (id : uuid) (d : db) (r : TlsCertificate.t) :
  signs_other d id = false ->
  In r (TlsCertificates d) ->
  TlsCertificate.Id r <> id ->
  refers (TlsCertificate.SignedBy r) id = false.
Proof.
  unfold signs_other. intros Hs Hin Hne.
  destruct (refers (TlsCertificate.SignedBy r) id) eqn:E; [|reflexivity].
  assert (Hex : existsb (fun r => refers (TlsCertificate.SignedBy r) id
                                  && negb (String.eqb (TlsCertificate.Id r) id))
                        (TlsCertificates d) = true).
  { apply existsb_exists. exists r. split; [exact Hin|]. rewrite E.
    destruct (String.eqb_spec (TlsCertificate.Id r) id); [contradiction|].
    reflexivity. }
  congruence.
Qed.

(** What is left once the certificates whose mark is gone are deleted. *)
Lemma remaining_same (m : deletemap) (d : db) : remaining m m d = d.
Proof.
  destruct d as [mc bb st ap lk an nc mi ms tls cr rv].
  unfold remaining, with_TlsCertificates, with_CertificateRequests.
  project_tables. f_equal; apply filter_all.
  - intros r _. unfold gone.
    destruct (marked m (TlsCertificate.Id r)); reflexivity.
  - intros q _. destruct (CertificateRequest.Issuer q) as [issuer|];
      [|reflexivity].
    unfold gone. destruct (marked m issuer); reflexivity.
Qed.

Lemma gone_unmark (m0 m : deletemap) (id x : uuid) (r : record) :
  marked m0 id = true ->
  gone m0 (obj_set m id (mkRecord false (children r))) x
  = String.eqb x id || gone m0 m x.
Proof.
  intros Hm0. unfold gone. rewrite marked_set, (String.eqb_sym id).
  destruct (String.eqb_spec x id) as [->|_]; [|reflexivity].
  rewrite Hm0. reflexivity.
Qed.

Lemma remaining_unmark (m0 m : deletemap) (d : db) (id : uuid) (r : record) :
  marked m0 id = true ->
  delete_rows id (remaining m0 m d)
  = remaining m0 (obj_set m id (mkRecord false (children r))) d.
Proof.
  intros Hm0. destruct d as [mc bb st ap lk an nc mi ms tls cr rv].
  unfold delete_rows, remaining, with_TlsCertificates,
    with_CertificateRequests.
  project_tables. f_equal; rewrite filter_twice; apply List.filter_ext.
  - intros row. rewrite (gone_unmark m0 m id _ r Hm0), negb_orb.
    apply andb_comm.
  - intros q. destruct (CertificateRequest.Issuer q) as [issuer|];
      [|reflexivity].
    cbn [refers]. rewrite (gone_unmark m0 m id _ r Hm0), negb_orb.
    apply andb_comm.
Qed.

Lemma named_remaining (m0 m : deletemap) (d : db) (id : uuid) :
  named (remaining m0 m d) id = named d id.
Proof. destruct d. reflexivity. Qed.

Lemma revoked_remaining (m0 m : deletemap) (d : db) (id : uuid) :
  revoked (remaining m0 m d) id = revoked d id.
Proof. destruct d. reflexivity. Qed.

Lemma rows_remaining (m0 m : deletemap) (d : db) (r : TlsCertificate.t) :
  In r (TlsCertificates (remaining m0 m d)) ->
  In r (TlsCertificates d) /\ gone m0 m (TlsCertificate.Id r) = false.
Proof.
  destruct d as [mc bb st ap lk an nc mi ms tls cr rv].
  unfold remaining, with_TlsCertificates, with_CertificateRequests.
  project_tables. intros H. apply filter_In in H. destruct H as [Hin Hg].
  split; [exact Hin | now apply negb_true_iff in Hg].
Qed.

(** For an id that is not empty, a row names it as the code sees it
    exactly when the database sees a reference to it. *)
Lemma named_referenced (d : db) (id : uuid) :
  id <> "" -> named d id = referenced d id.
Proof.
  intros Hid. unfold named, referenced. apply existsb_same. intros table.
  apply existsb_same. intros [x|]; [|reflexivity]. cbn [present].
  destruct (String.eqb_spec x "") as [->|_]; [|reflexivity].
  cbn [refers]. destruct (String.eqb_spec "" id); [congruence|reflexivity].
Qed.

(** ** The descent, whatever the database refuses *)

Section Descent.
Variable d0 : db.
Variable f : stmt -> nat -> bool.
Variable m0 : deletemap.
Hypothesis Hsafe0 : forall id, marked m0 id = true -> referenced d0 id = false.


Lemma depthFirstDelete_safe (stack : nat) :
  forall (id : uuid) (m : deletemap),
    triple ((descending d0 f m0) m) (depthFirstDelete stack id m)
      (fun m' c => unmarks m m' /\ True /\ (descending d0 f m0) m' c) (safe_state d0 f).
Proof.
  induction stack as [|stack IH]; intros id m; cbn [depthFirstDelete].
  - apply triple_throw. intros c [_ Hc]. exact Hc.
  - destruct (obj_get m id) as [record|] eqn:Hget;
      [|apply triple_throw; intros c [_ Hc]; exact Hc].
    eapply triple_bind.
    + apply (for_each_run (descending d0 f m0) (fun _ _ => True) (safe_state d0 f)).
      * auto.
      * intros child m' _. apply IH.
    + intros m1. cbn beta.
      apply (triple_conseq
               (fun c => unmarks m m1 /\ (descending d0 f m0) m1 c) _ _
               (fun m' c => unmarks m m' /\ True /\ (descending d0 f m0) m' c)
               (fun m' c => unmarks m m' /\ True /\ (descending d0 f m0) m' c)
               (safe_state d0 f) (safe_state d0 f)); [| tauto | auto | auto].
      apply triple_assume. intros Hu.
      destruct (obj_get m1 id) as [record1|] eqn:Hget1;
        [|apply triple_throw; intros c [_ Hc]; exact Hc].
      destruct (pleaseDelete record1) eqn:Hmark.
      * unfold descending. apply triple_assume. intros Hu0.
        assert (Hid : referenced d0 id = false).
        { apply Hsafe0. apply Hu0. unfold marked. now rewrite Hget1. }
        eapply triple_bind.
        -- apply (triple_query _ _ _ (fun _ c => (safe_state d0 f) c)
                    (safe_state d0 f)).
           ++ intros c Hc _. exact Hc.
           ++ intros c a d (deleted & Hdel & Huns & Hd & Hs & Hf) _ Hrun.
              apply delete_certificate_done in Hrun.
              destruct Hrun as (-> & Hsigns).
              exists (id :: deleted). split; [|split].
              ** intros x [<-|Hx]; auto.
              ** rewrite <- delete_certificates_cons, <- Hd.
                 intros x r Hx Hr.
                 apply rows_delete_rows in Hr. destruct Hr as [Hr Hne].
                 destruct Hx as [<-|Hx].
                 --- now apply (signs_other_false id (store c) r).
                 --- apply (Huns x r Hx). now rewrite <- Hd.
              ** repeat split; cbn [store snapshot fault sent];
                   [| exact Hs | exact Hf].
                 rewrite Hd. apply delete_certificates_cons.
        -- intros []. apply triple_ret. intros c Hc.
           pose proof (unmarks_unmark m1 id record1 Hget1) as Hu1.
           split; [exact (unmarks_trans _ _ _ Hu Hu1)|]. split; [exact I|].
           split; [exact (unmarks_trans _ _ _ Hu0 Hu1) | exact Hc].
      * apply triple_ret. intros c Hc. auto.
Qed.

(** A certificate that is its own child: the descent from it never
    returns. *)
Lemma depthFirstDelete_self (id : uuid) (stack : nat) :
  In id (kids m0 id) ->
  forall m : deletemap,
    triple ((descending d0 f m0) m) (depthFirstDelete stack id m)
      (fun _ _ => False) (safe_state d0 f).
Proof.
  intros Hself. induction stack as [|stack IH]; intros m;
    cbn [depthFirstDelete].
  - apply triple_throw. intros c [_ Hc]. exact Hc.
  - destruct (obj_get m id) as [record|] eqn:Hget;
      [|apply triple_throw; intros c [_ Hc]; exact Hc].
    unfold descending at 1. apply triple_assume. intros Hu0.
    apply (triple_bind _ _ _ (fun _ _ => False)); [|intros m1 c []].
    apply (triple_conseq ((descending d0 f m0) m) _ _ (fun _ _ => False)
             (fun _ _ => False) (safe_state d0 f) (safe_state d0 f));
      [| intros c Hc; split; [exact Hu0 | exact Hc] | auto | auto].
    apply (for_each_never (descending d0 f m0) (safe_state d0 f) _ _ id).
    + replace (children record) with (kids m id)
        by (unfold kids; now rewrite Hget).
      destruct Hu0 as (Hk & _). now rewrite Hk.
    + exact IH.
    + intros x m'. eapply triple_conseq;
        [apply depthFirstDelete_safe | auto | | auto].
      cbn beta. tauto.
Qed.

End Descent.

(** ** The descent when the database refuses nothing *)

Section Exact.
Variable d0 : db.
Variable f : stmt -> nat -> bool.
Variable m0 : deletemap.
Variable depth : uuid -> nat.
Hypothesis Hdelete : forall n, f DELETE n = false.
Hypothesis Hkids : forall id child,
  In child (kids m0 id) ->
  obj_has m0 child = true /\ (depth child < depth id)%nat.
Hypothesis Hnamed : forall id, marked m0 id = true -> named d0 id = false.
Hypothesis Hrevoked : forall id, marked m0 id = true -> revoked d0 id = false.
Hypothesis Hsigned : forall r id,
  In r (TlsCertificates d0) ->
  refers (TlsCertificate.SignedBy r) id = true ->
  marked m0 id = true ->
  In (TlsCertificate.Id r) (kids m0 id)
  /\ marked m0 (TlsCertificate.Id r) = true.

(** Once the certificates it signed are gone, the database lets a marked
    certificate go. *)
Lemma delete_certificate_allowed (m : deletemap) (id : uuid) :
  marked m0 id = true ->
  (forall x, In x (kids m0 id) -> marked m x = false) ->
  delete_certificate id (remaining m0 m d0)
  = inr (tt, delete_rows id (remaining m0 m d0)).
Proof.
  intros Hm0 Hdone. unfold delete_certificate.
  rewrite named_remaining, revoked_remaining, (Hnamed id Hm0),
    (Hrevoked id Hm0).
  cbn [orb].
  destruct (signs_other (remaining m0 m d0) id) eqn:Hs; [exfalso|reflexivity].
  unfold signs_other in Hs. apply existsb_exists in Hs.
  destruct Hs as (r & Hr & Hs). apply andb_prop in Hs. destruct Hs as [Hs _].
  apply rows_remaining in Hr. destruct Hr as [Hr Hgone].
  destruct (Hsigned r id Hr Hs Hm0) as [Hkid Hmr].
  unfold gone in Hgone. rewrite Hmr, (Hdone _ Hkid) in Hgone. discriminate.
Qed.

Lemma unmarked_stays (id : uuid) (m m' : deletemap) :
  marked m id = false -> unmarks m m' -> marked m' id = false.
Proof.
  intros Hm (_ & _ & Hu). destruct (marked m' id) eqn:E; [|reflexivity].
  rewrite (Hu id E) in Hm. discriminate.
Qed.

Lemma depthFirstDelete_exact (stack : nat) :
  forall (id : uuid) (m : deletemap),
    (depth id < stack)%nat ->
    obj_has m0 id = true ->
    triple (deleting d0 f m0 m) (depthFirstDelete stack id m)
      (fun m' c => unmarks m m' /\ marked m' id = false
                   /\ deleting d0 f m0 m' c)
      (fun _ => False).
Proof.
  induction stack as [|stack IH]; intros id m Hdepth Hkey; [lia|].
  cbn [depthFirstDelete]. unfold deleting at 1.
  apply triple_assume. intros Hu0.
  destruct (obj_get m id) as [record|] eqn:Hget.
  2:{ exfalso. destruct Hu0 as (_ & Hh & _). rewrite <- Hh in Hkey.
      apply obj_has_get in Hkey. destruct Hkey as [x Hx]. congruence. }
  assert (Hchildren : children record = kids m0 id).
  { destruct Hu0 as (Hk & _). rewrite <- Hk. unfold kids. now rewrite Hget. }
  eapply triple_bind.
  - apply (triple_conseq (deleting d0 f m0 m) _ _
             (fun m' c => unmarks m m' /\
                (forall x, In x (children record) -> marked m' x = false) /\
                deleting d0 f m0 m' c)
             (fun m' c => unmarks m m' /\
                (forall x, In x (children record) -> marked m' x = false) /\
                deleting d0 f m0 m' c)
             (fun _ => False) (fun _ => False));
      [| intros c Hc; split; [exact Hu0 | exact Hc] | auto | auto].
    apply (for_each_run (deleting d0 f m0)
             (fun x m' => marked m' x = false) (fun _ => False)).
    + intros x m1 m2. apply unmarked_stays.
    + intros child m' Hin. rewrite Hchildren in Hin.
      destruct (Hkids id child Hin) as [Hc Hd]. apply IH; [lia | exact Hc].
  - intros m1. cbn beta.
    apply triple_assume. intros Hu.
    apply triple_assume. intros Hdone. rewrite Hchildren in Hdone.
    unfold deleting at 1.
    apply triple_assume. intros Hu1.
    destruct (obj_get m1 id) as [record1|] eqn:Hget1.
    2:{ exfalso. destruct Hu1 as (_ & Hh & _). rewrite <- Hh in Hkey.
        apply obj_has_get in Hkey. destruct Hkey as [x Hx]. congruence. }
    destruct (pleaseDelete record1) eqn:Hmark.
    + assert (Hm0 : marked m0 id = true).
      { apply Hu1. unfold marked. now rewrite Hget1. }
      pose proof (unmarks_unmark m1 id record1 Hget1) as Hun.
      pose proof (delete_certificate_allowed m1 id Hm0 Hdone) as Hallowed.
      eapply triple_bind.
      * apply (triple_query _ _ _
                 (fun _ c =>
                    in_state (remaining m0
                                (obj_set m1 id
                                   (mkRecord false (children record1))) d0)
                             (Some d0) f c)
                 (fun _ => False)).
        -- intros c (Hd & _ & Hf) [Hfault|[e He]].
           ++ rewrite Hf, Hdelete in Hfault. discriminate.
           ++ rewrite Hd, Hallowed in He. discriminate.
        -- intros c a d (Hd & Hs & Hf) _ Hrun.
           rewrite Hd, Hallowed in Hrun. injection Hrun as _ <-.
           repeat split; cbn [store snapshot fault sent];
             [| exact Hs | exact Hf].
           now apply remaining_unmark.
      * intros []. apply triple_ret. intros c Hc.
        split; [exact (unmarks_trans _ _ _ Hu Hun)|]. split.
        -- rewrite marked_set, String.eqb_refl. reflexivity.
        -- split; [exact (unmarks_trans _ _ _ Hu1 Hun) | exact Hc].
    + apply triple_ret. intros c Hc. split; [exact Hu|]. split.
      * unfold marked. now rewrite Hget1.
      * split; [exact Hu1 | exact Hc].
Qed.

End Exact.

(** ** The whole function *)

Lemma in_state_safe (d0 : db) (f : stmt -> nat -> bool) (c : client) :
  in_state d0 (Some d0) f c -> safe_state d0 f c.
Proof.
  intros H. exists []. split; [intros ? []|]. split; [intros ? ? []|].
  now rewrite delete_certificates_nil.
Qed.

Lemma marked_unreferenced (d0 : db) (id : uuid) :
  marked (deleteMap_of d0) id = true -> referenced d0 id = false.
Proof.
  rewrite marked_deleteMap_of. intros H. apply andb_prop in H.
  destruct H as [_ H]. now apply negb_true_iff in H.
Qed.

Lemma DeleteOrphanCertificates_safe (d0 : db) (f : stmt -> nat -> bool)
  (stack : nat) :
  triple (in_state d0 None f) (DeleteOrphanCertificates stack)
    (fun _ c => exists deleted,
       (forall id, In id deleted -> referenced d0 id = false)
       /\ unsigned (store c) deleted
       /\ store c = delete_certificates deleted d0)
    (fun c => exists deleted,
       (forall id, In id deleted -> referenced d0 id = false)
       /\ unsigned (store c) deleted
       /\ store c = delete_certificates deleted d0).
Proof.
  unfold DeleteOrphanCertificates.
  apply (triple_try_catch _ _ _ _ (interrupted d0 f)).
  - eapply triple_bind.
    + apply (triple_BEGIN _ (fun _ c => in_state d0 (Some d0) f c)).
      * intros c Hc _. left. exact Hc.
      * intros c (Hd & Hs & Hf) _. rewrite Hs, Hd.
        repeat split; assumption.
    + intros []. eapply triple_bind.
      { apply (triple_select _ _
                 (fun rows c => rows = TlsCertificates d0
                                /\ in_state d0 (Some d0) f c)).
        - intros c Hc _. right. now apply in_state_safe.
        - intros c (Hd & Hs & Hf) _. split; [now rewrite Hd|].
          repeat split; assumption. }
      intros rows. apply triple_assume. intros ->.
      apply (triple_bind _ _ _
               (fun m c => m = deleteMap_of d0 /\ in_state d0 (Some d0) f c)).
      * eapply triple_conseq;
          [apply (clear_tables_run d0 (Some d0) f) | auto | auto |].
        intros c [Hc _]. right. now apply in_state_safe.
      * intros m. apply triple_assume. intros ->.
        apply (triple_bind _ _ _ (fun _ c => safe_state d0 f c)).
        -- eapply triple_conseq.
           ++ apply (for_each_run (descending d0 f (deleteMap_of d0))
                       (fun _ _ => True) (safe_state d0 f)); [auto|].
              intros id m _. apply depthFirstDelete_safe.
              apply marked_unreferenced.
           ++ intros c Hc. split; [apply unmarks_refl|].
              now apply in_state_safe.
           ++ intros m c (_ & _ & _ & Hc). exact Hc.
           ++ intros c Hc. right. exact Hc.
        -- intros m. apply triple_COMMIT.
           ++ intros c Hc _. right. exact Hc.
           ++ intros c (deleted & Hdel & Huns & Hd & _) _. exists deleted.
              cbn [store sent]. rewrite Hd.
              split; [exact Hdel|]. split; [exact Huns | reflexivity].
  - intros error. apply triple_ROLLBACK.
    + intros c [(Hd & _)|(deleted & Hdel & Huns & Hd & _)] _.
      * exists []. split; [intros ? []|]. split; [intros ? ? []|].
        cbn [store refused]. now rewrite delete_certificates_nil.
      * exists deleted. cbn [store refused]. rewrite Hd.
        split; [exact Hdel|]. split; [exact Huns | reflexivity].
    + intros c Hc _. exists []. split; [intros ? []|].
      split; [intros ? ? []|].
      cbn [store sent]. rewrite delete_certificates_nil.
      destruct Hc as [(Hd & Hs & _)|(deleted & _ & _ & _ & Hs & _)];
        rewrite Hs; [exact Hd | reflexivity].
Qed.

(** X24: whatever statements the
    database refuses and however little stack there is,
    [DeleteOrphanCertificates], started outside of a transaction, leaves
    the eight tables and the revocations as they were.  It takes from
    [TlsCertificates] only certificates that no row of the eight tables
    names in its [Certificate] column, and from [CertificateRequests]
    only the requests those certificates were to issue, which the schema
    deletes with their issuer.  No certificate that stays was signed by
    one that went. *)
Theorem DeleteOrphanCertificates_keeps_named (stack : nat) (c : client) :
  snapshot c = None ->
  exists deleted,
    store (snd (DeleteOrphanCertificates stack c))
    = delete_certificates deleted (store c)
    /\ (forall id, In id deleted -> referenced (store c) id = false)
    /\ unsigned (store (snd (DeleteOrphanCertificates stack c))) deleted.
Proof.
  intros Hsnap.
  pose proof (DeleteOrphanCertificates_safe (store c) (fault c) stack c) as H.
  destruct (DeleteOrphanCertificates stack c) as [[e|[]] c'];
    destruct H as (deleted & Hdel & Huns & Hd);
    try (repeat split; auto; fail);
    exists deleted; auto.
Qed.

Lemma row_is_key (d0 : db) (r : TlsCertificate.t) :
  In r (TlsCertificates d0) ->
  In (TlsCertificate.Id r) (obj_keys (deleteMap_of d0)).
Proof.
  intros Hin. apply obj_has_In. rewrite has_deleteMap_of.
  apply existsb_exists. exists r. split; [exact Hin|].
  rewrite String.eqb_refl. apply orb_true_r.
Qed.

Lemma DeleteOrphanCertificates_self (d0 : db) (f : stmt -> nat -> bool)
  (stack : nat) (r : TlsCertificate.t) :
  In r (TlsCertificates d0) ->
  present (TlsCertificate.SignedBy r) = Some (TlsCertificate.Id r) ->
  (forall n, f ROLLBACK n = false) ->
  triple (in_state d0 None f) (DeleteOrphanCertificates stack)
    (fun _ c => store c = d0 /\ snapshot c = None)
    (fun _ => False).
Proof.
  intros Hin Hself Hrollback. unfold DeleteOrphanCertificates.
  apply (triple_try_catch _ _ _ _ (interrupted d0 f)).
  - apply (triple_conseq (in_state d0 None f) _ _ (fun _ _ => False) _
             (interrupted d0 f) (interrupted d0 f)); [| auto | intros ? ? [] | auto].
    eapply triple_bind.
    + apply (triple_BEGIN _ (fun _ c => in_state d0 (Some d0) f c)).
      * intros c Hc _. left. exact Hc.
      * intros c (Hd & Hs & Hf) _. rewrite Hs, Hd.
        repeat split; assumption.
    + intros []. eapply triple_bind.
      { apply (triple_select _ _
                 (fun rows c => rows = TlsCertificates d0
                                /\ in_state d0 (Some d0) f c)).
        - intros c Hc _. right. now apply in_state_safe.
        - intros c (Hd & Hs & Hf) _. split; [now rewrite Hd|].
          repeat split; assumption. }
      intros rows. apply triple_assume. intros ->.
      apply (triple_bind _ _ _
               (fun m c => m = deleteMap_of d0 /\ in_state d0 (Some d0) f c)).
      * eapply triple_conseq;
          [apply (clear_tables_run d0 (Some d0) f) | auto | auto |].
        intros c [Hc _]. right. now apply in_state_safe.
      * intros m. apply triple_assume. intros ->.
        apply (triple_bind _ _ _ (fun _ _ => False)); [|intros m c []].
        eapply triple_conseq.
        -- apply (for_each_never (descending d0 f (deleteMap_of d0))
                    (safe_state d0 f) _ _ (TlsCertificate.Id r)).
           ++ now apply row_is_key.
           ++ apply depthFirstDelete_self; [apply marked_unreferenced|].
              rewrite kids_deleteMap_of. apply in_map_iff. exists r.
              split; [reflexivity|]. apply filter_In. split; [exact Hin|].
              rewrite Hself. cbn [refers]. apply String.eqb_refl.
           ++ intros x m.
              apply (triple_conseq (descending d0 f (deleteMap_of d0) m) _ _
                       (fun m' c => unmarks m m' /\ True /\
                                    descending d0 f (deleteMap_of d0) m' c)
                       _ (safe_state d0 f) _);
                [apply depthFirstDelete_safe; apply marked_unreferenced
                | auto | | auto].
              intros a s (_ & _ & H). exact H.
        -- intros c Hc. split; [apply unmarks_refl|].
           now apply in_state_safe.
        -- auto.
        -- intros c Hc. right. exact Hc.
  - intros error. apply triple_ROLLBACK.
    + intros c Hc Hfault. exfalso.
      assert (Hf : fault c = f)
        by (destruct Hc as [(_ & _ & Hf)|(deleted & _ & _ & _ & _ & Hf)];
            exact Hf).
      rewrite Hf, Hrollback in Hfault. discriminate.
    + intros c Hc _. cbn [store snapshot sent]. split; [|reflexivity].
      destruct Hc as [(Hd & Hs & _)|(deleted & _ & _ & _ & Hs & _)];
        rewrite Hs; [exact Hd | reflexivity].
Qed.

(** The marks after the two loops are those of the orphans. *)
Lemma marked_orphan (d0 : db) (id : uuid) :
  marked (deleteMap_of d0) id = orphan d0 id.
Proof. apply marked_deleteMap_of. Qed.

Lemma orphan_row (d0 : db) (id : uuid) :
  orphan d0 id = true ->
  referenced d0 id = false
  /\ exists r, In r (TlsCertificates d0) /\ TlsCertificate.Id r = id.
Proof.
  unfold orphan. intros H. apply andb_prop in H. destruct H as [Hex Hun].
  split; [now apply negb_true_iff in Hun|].
  apply existsb_exists in Hex. destruct Hex as (r & Hr & Hid).
  exists r. split; [exact Hr | now apply String.eqb_eq].
Qed.

Lemma signed_by_orphan (d0 : db) (r : TlsCertificate.t) (id : uuid) :
  signers_named d0 ->
  (forall r, In r (TlsCertificates d0) -> TlsCertificate.Id r <> "") ->
  In r (TlsCertificates d0) ->
  refers (TlsCertificate.SignedBy r) id = true ->
  orphan d0 id = true ->
  In (TlsCertificate.Id r) (kids (deleteMap_of d0) id)
  /\ orphan d0 (TlsCertificate.Id r) = true.
Proof.
  intros Hsn Hids Hr Hs Horphan.
  destruct (orphan_row d0 id Horphan) as (Hun & r' & Hr' & Hid').
  assert (Hne : id <> "") by (rewrite <- Hid'; auto).
  destruct (TlsCertificate.SignedBy r) as [p|] eqn:Hp; [|discriminate].
  cbn [refers] in Hs. apply String.eqb_eq in Hs. subst p. split.
  - rewrite kids_deleteMap_of. apply in_map_iff. exists r.
    split; [reflexivity|]. apply filter_In. split; [exact Hr|].
    rewrite Hp. cbn [present].
    destruct (String.eqb_spec id ""); [contradiction|].
    cbn [refers]. apply String.eqb_refl.
  - unfold orphan. apply andb_true_intro. split.
    + apply existsb_exists. exists r.
      split; [exact Hr | apply String.eqb_refl].
    + apply negb_true_iff.
      destruct (referenced d0 (TlsCertificate.Id r)) eqn:E; [|reflexivity].
      rewrite (Hsn r id Hr Hp E) in Hun. discriminate.
Qed.

Lemma remaining_all (d0 : db) (m : deletemap) :
  unmarks (deleteMap_of d0) m ->
  (forall id, In id (obj_keys (deleteMap_of d0)) -> marked m id = false) ->
  remaining (deleteMap_of d0) m d0 = pruned d0.
Proof.
  intros Hu Hall.
  assert (Hnone : forall id, marked m id = false).
  { intros id. destruct (marked m id) eqn:E; [|reflexivity].
    destruct Hu as (_ & Hh & Hm). rewrite <- E. apply Hall.
    apply obj_has_In. specialize (Hm id E). unfold marked in Hm.
    destruct (obj_get (deleteMap_of d0) id) as [record|] eqn:Hget;
      [|discriminate].
    exact (obj_get_has _ _ _ Hget). }
  assert (Hgone : forall id, gone (deleteMap_of d0) m id = orphan d0 id).
  { intros id. unfold gone. rewrite Hnone, marked_orphan.
    apply andb_true_r. }
  assert (Hrows :
    List.filter (fun r => negb (gone (deleteMap_of d0) m (TlsCertificate.Id r)))
                (TlsCertificates d0)
    = List.filter (fun r => referenced d0 (TlsCertificate.Id r))
                  (TlsCertificates d0)).
  { apply filter_ext_in. intros r Hin. rewrite Hgone. unfold orphan.
    replace (existsb (fun r0 => String.eqb (TlsCertificate.Id r0)
                                  (TlsCertificate.Id r)) (TlsCertificates d0))
      with true.
    - cbn [andb]. apply negb_involutive.
    - symmetry. apply existsb_exists. exists r.
      split; [exact Hin | apply String.eqb_refl]. }
  assert (Hrequests :
    List.filter (fun q => negb match CertificateRequest.Issuer q with
                               | Some issuer => gone (deleteMap_of d0) m issuer
                               | None => false
                               end) (CertificateRequests d0)
    = List.filter (fun q => negb match CertificateRequest.Issuer q with
                                 | Some issuer => orphan d0 issuer
                                 | None => false
                                 end) (CertificateRequests d0)).
  { apply List.filter_ext. intros q.
    destruct (CertificateRequest.Issuer q); [now rewrite Hgone|reflexivity]. }
  unfold remaining, pruned, with_TlsCertificates, with_CertificateRequests.
  project_tables. now rewrite Hrows, Hrequests.
Qed.

Lemma DeleteOrphanCertificates_exact (d0 : db) (f : stmt -> nat -> bool)
  (stack : nat) :
  (forall kind n, In kind [BEGIN; SELECT; DELETE; COMMIT] ->
                  f kind n = false) ->
  chains_within stack (TlsCertificates d0) ->
  signers_named d0 ->
  (forall r, In r (TlsCertificates d0) -> TlsCertificate.Id r <> "") ->
  (forall v, In v (TlsClientRevocations d0) ->
             orphan d0 (TlsClientRevocation.CertificateId v) = false) ->
  triple (in_state d0 None f) (DeleteOrphanCertificates stack)
    (fun _ c =>
       in_state (pruned d0) None f c
       /\ exists lg, log c = lg ++ [(COMMIT, true)])
    (fun _ => False).
Proof.
  intros Hrel (depth & Hbound & Hdepth) Hsn Hids Hrev.
  unfold DeleteOrphanCertificates.
  assert (Hno : forall kind c snap d,
            In kind [BEGIN; SELECT; DELETE; COMMIT] ->
            in_state d snap f c -> fault c kind (issued c) = true -> False).
  { intros kind c snap d Hk (_ & _ & Hf) Hfault.
    rewrite Hf, (Hrel kind _ Hk) in Hfault. discriminate. }
  apply (triple_try_catch _ _ _ _ (fun _ => False)); [|intros e c []].
  eapply triple_bind.
  - apply (triple_BEGIN _ (fun _ c => in_state d0 (Some d0) f c)).
    + intros c Hc Hfault.
      exact (Hno BEGIN c _ _ ltac:(simpl; auto) Hc Hfault).
    + intros c (Hd & Hs & Hf) _. rewrite Hs, Hd.
      repeat split; assumption.
  - intros []. eapply triple_bind.
    { apply (triple_select _ _
               (fun rows c => rows = TlsCertificates d0
                              /\ in_state d0 (Some d0) f c)).
      - intros c Hc Hfault.
        exact (Hno SELECT c _ _ ltac:(simpl; auto) Hc Hfault).
      - intros c (Hd & Hs & Hf) _. split; [now rewrite Hd|].
        repeat split; assumption. }
    intros rows. apply triple_assume. intros ->.
    apply (triple_bind _ _ _
             (fun m c => m = deleteMap_of d0 /\ in_state d0 (Some d0) f c)).
    + eapply triple_conseq;
        [apply (clear_tables_run d0 (Some d0) f) | auto | auto |].
      intros c [_ [n Hn]]. rewrite Hrel in Hn; [discriminate | simpl; auto].
    + intros m. apply triple_assume. intros ->.
      apply (triple_bind _ _ _
               (fun m c => in_state (pruned d0) (Some d0) f c)).
      * eapply triple_conseq.
        -- apply (for_each_run (deleting d0 f (deleteMap_of d0))
                    (fun x m' => marked m' x = false) (fun _ => False)).
           ++ intros x m1 m2. apply unmarked_stays.
           ++ intros id m Hkey.
              apply (depthFirstDelete_exact d0 f (deleteMap_of d0) depth).
              ** intros n. apply Hrel. simpl. auto.
              ** intros p child Hchild.
                 destruct (kids_are_keys d0 p child Hchild)
                   as [Hk (r & Hr & Hid & Hsig)].
                 split; [exact Hk|]. rewrite <- Hid. now apply Hdepth.
              ** intros x Hx. rewrite marked_orphan in Hx.
                 destruct (orphan_row d0 x Hx) as (Hun & r & Hr & Hid).
                 rewrite named_referenced; [exact Hun|].
                 rewrite <- Hid. now apply Hids.
              ** intros x Hx. rewrite marked_orphan in Hx.
                 destruct (revoked d0 x) eqn:E; [|reflexivity].
                 unfold revoked in E. apply existsb_exists in E.
                 destruct E as (v & Hv & Hid). apply String.eqb_eq in Hid.
                 specialize (Hrev v Hv). rewrite Hid in Hrev. congruence.
              ** intros r x Hr Hs Hx. rewrite !marked_orphan in *.
                 now apply signed_by_orphan.
              ** apply Hbound.
              ** now apply obj_has_In.
        -- intros c Hc. split; [apply unmarks_refl|].
           destruct Hc as (Hd & Hs & Hf). repeat split; auto.
           now rewrite remaining_same.
        -- intros m c (Hu & Hall & _ & Hd & Hs & Hf).
           rewrite (remaining_all d0 m Hu Hall) in Hd.
           repeat split; assumption.
        -- auto.
      * intros m. apply triple_COMMIT.
        -- intros c Hc Hfault.
           exact (Hno COMMIT c _ _ ltac:(simpl; auto) Hc Hfault).
        -- intros c (Hd & Hs & Hf) _. split.
           ++ repeat split; cbn [store snapshot fault sent]; assumption.
           ++ exists (log c). reflexivity.
Qed.

Lemma DeleteOrphanCertificates_keeps_named_witness :
  exists deleted,
    store (snd (DeleteOrphanCertificates 3 (connect tidy_db refuses_commit)))
    = delete_certificates deleted tidy_db
    /\ (forall id, In id deleted -> referenced tidy_db id = false)
    /\ unsigned
         (store (snd (DeleteOrphanCertificates 3
                        (connect tidy_db refuses_commit))))
         deleted.
Proof.
  exact (DeleteOrphanCertificates_keeps_named 3
           (connect tidy_db refuses_commit) eq_refl).
Defined.

(** X26: when some certificate is
    recorded as signed by itself, the descent from it never comes back:
    the stack runs out, the exception is caught, and once the ROLLBACK
    has gone through the tables are what they were.  Nothing is deleted,
    however many other certificates are orphans. *)
Theorem DeleteOrphanCertificates_self_signed (stack : nat) (c : client)
  (r : TlsCertificate.t) :
  In r (TlsCertificates (store c)) ->
  present (TlsCertificate.SignedBy r) = Some (TlsCertificate.Id r) ->
  snapshot c = None ->
  reliable c [ROLLBACK] ->
  store (snd (DeleteOrphanCertificates stack c)) = store c
  /\ snapshot (snd (DeleteOrphanCertificates stack c)) = None.
Proof.
  intros Hin Hself Hsnap Hrel.
  pose proof (DeleteOrphanCertificates_self (store c) (fault c) stack r
                Hin Hself) as H.
  specialize (H (fun n => Hrel ROLLBACK n (or_introl eq_refl)) c).
  destruct (DeleteOrphanCertificates stack c) as [[e|[]] c'];
    [destruct H; repeat split; auto | apply H; repeat split; auto].
Qed.

Lemma DeleteOrphanCertificates_self_signed_witness :
  store (snd (DeleteOrphanCertificates 64
                (connect (with_TlsCertificates
                            (fun rows => self_signed_cert :: rows) pki_db)
                         refuses_nothing)))
  = with_TlsCertificates (fun rows => self_signed_cert :: rows) pki_db.
Proof.
  apply (DeleteOrphanCertificates_self_signed 64
           (connect (with_TlsCertificates
                       (fun rows => self_signed_cert :: rows) pki_db)
                    refuses_nothing)
           self_signed_cert).
  - now left.
  - reflexivity.
  - reflexivity.
  - intros kind n _. reflexivity.
Defined.

(** X25: when the database
    refuses nothing but what its constraints forbid, the chains of
    signers fit in the stack, the signer of a certificate that some row
    names is named by some row too, no certificate has an empty id and no
    revocation is that of an orphan, [DeleteOrphanCertificates] commits:
    what is left of [TlsCertificates] is exactly the certificates that
    some row of the eight tables names, and the requests that the others
    were to issue are gone with them. *)
Theorem DeleteOrphanCertificates_deletes_unnamed (stack : nat) (c : client) :
  reliable c [BEGIN; SELECT; DELETE; COMMIT] ->
  snapshot c = None ->
  chains_within stack (TlsCertificates (store c)) ->
  signers_named (store c) ->
  (forall r, In r (TlsCertificates (store c)) -> TlsCertificate.Id r <> "") ->
  (forall v, In v (TlsClientRevocations (store c)) ->
             orphan (store c) (TlsClientRevocation.CertificateId v) = false) ->
  store (snd (DeleteOrphanCertificates stack c)) = pruned (store c)
  /\ snapshot (snd (DeleteOrphanCertificates stack c)) = None
  /\ exists lg,
       log (snd (DeleteOrphanCertificates stack c)) = lg ++ [(COMMIT, true)].
Proof.
  intros Hrel Hsnap Hchains Hsn Hids Hrev.
  pose proof (DeleteOrphanCertificates_exact (store c) (fault c) stack
                Hrel Hchains Hsn Hids Hrev c) as H.
  destruct (DeleteOrphanCertificates stack c) as [[e|[]] c'].
  - destruct H. repeat split; auto.
  - destruct H as [(Hd & Hs & _) Hlog]; [repeat split; auto|].
    cbn [snd]. auto.
Qed.

Lemma DeleteOrphanCertificates_deletes_unnamed_witness :
  map TlsCertificate.Id
    (TlsCertificates
       (store (snd (DeleteOrphanCertificates 3
                      (connect tidy_db refuses_nothing)))))
  = [ca_id]
  /\ CertificateRequests
       (store (snd (DeleteOrphanCertificates 3
                      (connect tidy_db refuses_nothing))))
     = [].
Proof.
  destruct (DeleteOrphanCertificates_deletes_unnamed 3
              (connect tidy_db refuses_nothing)) as (Hstore & _ & _).
  - intros kind n _. reflexivity.
  - reflexivity.
  - exists (fun id => if String.eqb id oldca_id then 1%nat else 0%nat). split.
    + intros id. destruct (String.eqb id oldca_id); lia.
    + intros r p [<-|[<-|[<-|[]]]]; cbn; intros [= <-]; cbn; lia.
  - intros r p [<-|[<-|[<-|[]]]]; cbn; intros [= <-]; vm_compute;
      discriminate.
  - intros r [<-|[<-|[<-|[]]]]; discriminate.
  - intros v [].
  - rewrite Hstore. split; reflexivity.
Defined.

(** The database refuses to delete a certificate authority that nothing
    names while a certificate it signed stays: the stray certificate is
    deleted, the DELETE of its signer fails, and the ROLLBACK brings the
    stray certificate back. *)
Example signer_of_named_refused :
  log (snd (DeleteOrphanCertificates 3 (connect pki_db refuses_nothing)))
  = [(BEGIN, true); (SELECT, true); (SELECT, true); (SELECT, true);
     (SELECT, true); (SELECT, true); (SELECT, true); (SELECT, true);
     (SELECT, true); (SELECT, true); (DELETE, true); (DELETE, false);
     (ROLLBACK, true)]
  /\ map TlsCertificate.Id
       (TlsCertificates
          (store (snd (DeleteOrphanCertificates 3
                         (connect pki_db refuses_nothing)))))
     = [ca_id; bbc_id; old_id].
Proof. split; vm_compute; reflexivity. Qed.

End PruneFacts.
